(* ===== verification/_CoqProject ===== *)
-Q . S2P
Prelude.v
GoTime.v
LogFraming.v
Policy.v
Refs.v
SelfId.v
RateLimit.v
Streams.v
EventHub.v
Server.v
Proxy.v
Engine.v
Dto.v
DockerClient.v
Store.v
GoStrings.v
GoJson.v
GoTabwriter.v
Config.v
Logging.v
GoFlag.v
Schema.v
Cli.v
Certs.v
HttpCore.v
HttpHandlers.v
Sse.v
Routes.v
Effects.v
Requests.v
Answers.v
Wire.v
Listing.v
Serve.v
Teardown.v
Main.v
Suite.v
