(* ===== verification/Prelude.v ===== *)
(** * devmon-agent: a verification development

    devmon-agent (src/) is a Go daemon that lets paired mobile devices read and
    control a Docker Engine over mutually authenticated TLS, within a permission
    tier fixed at startup. This library is a shallow embedding of it: Go
    functions are Rocq functions of the same name, fallible ones return a
    [result], stateful ones are computations [Comp S A] over an explicit state,
    and what runs concurrently is a step relation or is given its schedule.
    Source paths below are relative to src/.

    ** How the parts interact

    The process ([main] of cmd/devmon-agent, Main.v) is an operator's command
    (Cli.v), which opens the database and exits, or the daemon (Serve.v). The
    daemon opens the database (Schema.v), checks that database and certificate
    directory belong together, loads or creates the CA and the server
    certificate (Certs.v), identifies its own container through the Engine
    (SelfId.v, DockerClient.v), and runs three components until one returns: the
    HTTPS server (Server.v), the log rotator (Logging.v), the pruner (Store.v).
    A request goes through the mux and the chain of its route (Routes.v), the
    middleware (HttpCore.v: client certificate, rate limits, audit, policy),
    then a handler (HttpHandlers.v), which asks the store (Store.v) or the Engine
    (DockerClient.v) and answers; two handlers stream instead (Sse.v), from
    the log demultiplexer (LogFraming.v) and from the event hub (EventHub.v),
    within the stream budget (Streams.v).

    ** Files

    - Prelude: errors, results, computations, int64 arithmetic, byte strings,
      the error sentinels of every package, and the lemmas the files share.
    - GoTime, GoStrings, GoFlag, GoJson, GoTabwriter: what the agent uses of
      Go's time, strings, strconv, net, flag, encoding/json and text/tabwriter
      packages (no code of the repository).
    - LogFraming: internal/dockerx/framing.go and the demultiplexers of logs.go.
    - Policy, Refs, SelfId: internal/policy, internal/dockerx/ref.go and
      protected.go, internal/selfid.
    - RateLimit, Streams, EventHub: internal/ratelimit, and
      internal/httpapi/streambudget.go, eventregistry.go, eventhub.go.
    - Server: Run, shutdown and the connection hook of internal/httpapi/server.go.
    - Engine, Dto, DockerClient: the Engine's interface ([EngineApi]), the
      projections and the client of internal/dockerx.
    - Store, Schema: internal/state; the four tables with their statements, and
      the migration ladder.
    - Config, Logging, Certs: internal/config, internal/logging, internal/certs.
    - HttpCore, HttpHandlers, Sse, Routes: the rest of internal/httpapi.
    - Effects, Requests, Answers: no code; what a request may change, the runs
      of the middleware branch by branch, and the theorems on whole requests.
    - Cli, Serve, Teardown, Main: cmd/devmon-agent, internal/tlsconf and
      internal/version.
    - Wire, Listing, Suite: the agent's output read back. The bytes of the event
      streams and the reader of internal/e2e/harness/stream.go; the operator's
      tables and the parsers of harness/cli.go; the suite's commands, run as the
      suite runs them.
    - Proxy: internal/e2e/harness/proxy.go, the Engine endpoint the suite cuts.

    A record or a definition has the name of the Go type or function it
    translates; where one Go function is several definitions (a critical section
    and what follows it, a loop body) each says which part it is. A method's
    receiver is an argument or the state. An interface the code is written
    against, or a library it calls, is a class: [EngineApi] (the Docker SDK),
    [TokenBucket] (golang.org/x/time/rate), [Crypto] (crypto/x509 and
    neighbours), the last two with the documented laws proofs rely on in
    [TokenBucketLaws] and [CryptoLaws] (the latter for what X.509 encodes:
    times in whole seconds, names that are DNS names, the shapes of the source's
    templates), and each with a concrete instance
    ([ToyEngine], [Ticks], [ToyCrypto] and [PlainCrypto]) on which the
    witnesses are evaluated. Failures of the outside world are inputs: every
    SQL statement, file operation and Engine call can fail, and theorems hold
    for every pattern of failures unless they say otherwise.

    ** What the theorems show

    Requests (Answers): no guarded route answers anything but 401 to a caller
    without a live device certificate, and an unpaired device stays locked out;
    nothing changes the Engine but the handler of a lifecycle route whose
    operation the policy allows, and what changes it is audited, success and
    failure told apart, or the log says that the row could not be written;
    pairing leaves a usable device and a spent code, or no certificate and, unless
    the clean-up's own statement fails, no device; a paired device's certificate
    is served as that device until it is revoked; no request undoes a
    revocation, un-spends a code or loses an audit row; a stream's slot comes
    back however the stream ends; a throttled caller is told when to retry; the
    status route says nothing but what it is meant to.

    The process (Main, Serve, Server): a code the operator mints pairs one device, a
    device the operator revokes is refused by the running agent; a bad
    configuration stops everything with exit code 2 and the list of problems, and
    asking for help needs no configuration; a half-restored state directory is
    refused with nothing changed, and restarts keep the CA every device pins;
    the first component that fails ends the agent and is reported; whatever
    fails, what was opened is closed once, backwards, and not under a running
    component (Teardown); when the
    drain begins every connection that never sent a request is closed or about
    to be, the hub is quiet and requests are cancelled.

    Components: single use of pairing codes, permanence of revocation, bounds of
    audit retention (Store); whole versions of the schema only (Schema);
    exclusive creation of key material and the profile of issued certificates
    (Certs); every problem reported, and every accepted value within its bounds,
    day counts excepted where their product wraps (Config); lines of the demultiplexer equal to a reference splitting of the
    byte stream, with termination and, at every point of the loop, buffers within
    8 KiB (LogFraming); the rate
    limit registry refines one without eviction (RateLimit); the stream budget's
    counts, the feed without gaps (Streams, EventHub); the log stream's frames and
    the end a revoked device is told (Sse); target resolution before every
    lifecycle call (DockerClient); the log's size and age budget and the rotation
    decided at startup (Logging); the range of a code's lifetime (Cli).

    Round trips: wherever a log stream is cut, the suite's reader delivers a
    prefix of the container's lines, each with its text, and never half a frame
    (Wire); [audit list], run next to the agent, prints a table that the suite's
    parser reads back as the last rows of the database (Suite).

    Proxy: [sever] returns whatever the schedule when every connection is
    tracked as it takes its lock; when one is not, it can wait for ever, or
    return over a live connection.

    ** Bounds and fuel

    Integers are [Z]; where Go's int64 can wrap, [wrap64] is written out
    (durations, multiplied minute and day counts). Bytes are [ascii], strings
    byte strings. Loops over input are structural on the input or carry fuel that
    the input bounds: [demux_loop] the length of the stream (each frame consumes
    its header; [demux_loop_total]), [push_loop] the length of the payload (each
    turn consumes a byte; [demuxNonTTY_lines] would fail otherwise), [parse_loop]
    of GoFlag the number of arguments ([parse_loop_fuel]), [parse_loop] and
    [read_loop] of Wire the bytes left to read ([parse_loop_total],
    [read_loop_total]), [format] of GoTabwriter the cells of the table
    ([format_fuel]). Tickers and schedules
    are lists of any length.
    Transition systems (Streams, EventHub, Server, Proxy, runAll) are unbounded;
    theorems are invariants of every reachable state.

    ** Not modelled

    - Of internal/e2e, everything that drives a real Engine, process or
      connection.
    - The insides of crypto, net/http, database/sql, the Docker SDK and
      lumberjack: parameters, as said above. Of net/http
      only the order in which a connection's states are reported is assumed, and
      the mux is modelled as far as the route table needs.
    - Text that is only printed: log attributes other than the level and message
      the source gives, %q quoting and err.Error() (parameters where a caller
      sees them), the log lines of start-up and shutdown.
    - Close methods only forward; Teardown records that they are called, and
      drops their errors as the deferred calls do.
    - Timeouts: the context deadlines put on Engine and SQL calls are among the
      failures a call may answer with. *)

From stdpp Require Export base tactics list gmap strings sorting pretty.
From Stdlib Require Export ZArith Lia.
From Stdlib Require Export Ascii String.

#[export] Set Default Goal Selector "!".
Open Scope string_scope.
Open Scope Z_scope.
Open Scope list_scope.

(** ** Go errors

    A Go [error] value is a sentinel (compared by identity with [errors.Is]),
    an error that wraps another one ([fmt.Errorf] with [%w], the text before and
    after the wrapped error kept), or an opaque leaf known only by its text. *)

Inductive sentinel : Set :=
| ErrNotFound | ErrInvalidRef | ErrInvalidSince | ErrSelfProtected
| ErrProtectedContainer | ErrSelfUnknown | ErrConflict | ErrNotModified
| ErrEventFeedClosed
| ErrStateCorrupt | ErrSchemaTooNew | ErrDeviceNotFound | ErrPairingCodeInvalid
| ErrIdentityIncomplete | ErrEventHubUnavailable
| IoEOF | IoErrUnexpectedEOF | ContextCanceled | NetErrClosed | SqlErrNoRows
| FsErrNotExist | FlagErrHelp | HttpErrServerClosed.

#[export] Instance sentinel_eq_dec : EqDecision sentinel.
Proof. solve_decision. Defined.

Inductive error : Set :=
| Sentinel (s : sentinel)
| Wrapf (pre : string) (inner : error) (post : string)
| Leaf (msg : string).

#[export] Instance error_eq_dec : EqDecision error.
Proof. solve_decision. Defined.

(** [errors.Is] against a sentinel. *)
Fixpoint errors_is (e : error) (s : sentinel) : bool :=
  match e with
  | Sentinel s' => bool_decide (s' = s)
  | Wrapf _ e' _ => errors_is e' s
  | Leaf _ => false
  end.

(** [fmt.Errorf("<ctx>: %w", err)], by far the commonest shape. *)
Definition wrap (ctx : string) (e : error) : error := Wrapf (ctx +:+ ": ") e "".

Lemma errors_is_wrap ctx e s : errors_is (wrap ctx e) s = errors_is e s.
Proof. reflexivity. Qed.

Lemma errors_is_sentinel s s' : errors_is (Sentinel s) s' = bool_decide (s = s').
Proof. reflexivity. Qed.

(** ** Results and computations *)

Inductive result (A : Type) : Type :=
| Ok (a : A)
| Err (e : error).
Arguments Ok {A} a.
Arguments Err {A} e.

Definition is_ok {A} (r : result A) : bool :=
  match r with Ok _ => true | Err _ => false end.

#[export] Instance result_ret : MRet result := λ A a, Ok a.
#[export] Instance result_bind : MBind result := λ A B f r,
  match r with Ok a => f a | Err e => Err e end.

(** A computation over a mutable state [S] that may return a Go error. The
    state survives the error, as it does in Go. *)
Definition Comp (S A : Type) : Type := S → result A * S.

#[export] Instance comp_ret S : MRet (Comp S) := λ A a s, (Ok a, s).
#[export] Instance comp_bind S : MBind (Comp S) := λ A B f m s,
  match m s with
  | (Ok a, s') => f a s'
  | (Err e, s') => (Err e, s')
  end.

Definition throw {S A} (e : error) : Comp S A := λ s, (Err e, s).
Definition gets {S A} (f : S → A) : Comp S A := λ s, (Ok (f s), s).
Definition modify {S} (f : S → S) : Comp S unit := λ s, (Ok tt, f s).

(** [x, err := m] : the error becomes a value the caller branches on. *)
Definition try {S A} (m : Comp S A) : Comp S (result A) := λ s,
  let '(r, s') := m s in (Ok r, s').

(** [if err != nil { return fmt.Errorf("ctx: %w", err) }]. *)
Definition wrapping {S A} (ctx : string) (m : Comp S A) : Comp S A := λ s,
  match m s with
  | (Err e, s') => (Err (wrap ctx e), s')
  | r => r
  end.

(** The state-and-error laws the component files rewrite with. *)
Lemma comp_bind_ok {S A B} (m : Comp S A) (f : A → Comp S B) s a s' :
  m s = (Ok a, s') → (m ≫= f) s = f a s'.
Proof. intros H. unfold mbind, comp_bind. by rewrite H. Qed.

Lemma comp_bind_err {S A B} (m : Comp S A) (f : A → Comp S B) s e s' :
  m s = (Err e, s') → (m ≫= f) s = (Err e, s').
Proof. intros H. unfold mbind, comp_bind. by rewrite H. Qed.

(** ** Machine integers

    [int] and [int64] are two's complement on the 64-bit targets the image is
    built for; arithmetic on them is written with [wrap64]. *)

Definition wrap64 (z : Z) : Z := (z + 2 ^ 63) mod 2 ^ 64 - 2 ^ 63.

Definition in_int64 (z : Z) : Prop := - 2 ^ 63 <= z < 2 ^ 63.

Lemma wrap64_id z : in_int64 z → wrap64 z = z.
Proof. unfold in_int64, wrap64. intros H. rewrite Z.mod_small; lia. Qed.

Lemma wrap64_in z : in_int64 (wrap64 z).
Proof.
  unfold in_int64, wrap64.
  pose proof (Z.mod_pos_bound (z + 2 ^ 63) (2 ^ 64)). lia.
Qed.

(** [time.Duration] units, in nanoseconds. *)
Definition Nanosecond : Z := 1.
Definition Second : Z := 1000000000.
Definition Minute : Z := 60 * Second.
Definition Hour : Z := 60 * Minute.
Definition Day : Z := 24 * Hour.

(** Instants are nanoseconds since the Unix epoch; [t.Unix()] truncates. *)
Definition Unix (t : Z) : Z := t / Second.

(** ** Byte strings

    A Go [string] is a byte string: Rocq's [string]; a [[]byte] is a
    [list ascii]. *)

Definition byte_in (lo hi c : ascii) : bool :=
  (nat_of_ascii lo <=? nat_of_ascii c)%nat && (nat_of_ascii c <=? nat_of_ascii hi)%nat.
Definition is_digit (c : ascii) : bool := byte_in "0" "9" c.
Definition is_lower (c : ascii) : bool := byte_in "a" "z" c.
Definition is_upper (c : ascii) : bool := byte_in "A" "Z" c.
Definition is_alnum (c : ascii) : bool := is_digit c || is_lower c || is_upper c.
Definition is_lower_hex (c : ascii) : bool := is_digit c || byte_in "a" "f" c.

Definition bytes (s : string) : list ascii := list_ascii_of_string s.
Definition of_bytes (l : list ascii) : string := string_of_list_ascii l.

Lemma of_bytes_bytes s : of_bytes (bytes s) = s.
Proof. apply string_of_list_ascii_of_string. Qed.
Lemma bytes_of_bytes l : bytes (of_bytes l) = l.
Proof. apply list_ascii_of_string_of_list_ascii. Qed.
Lemma length_bytes s : List.length (bytes s) = String.length s.
Proof. unfold bytes. induction s as [|c s IH]; [done|]. simpl. by rewrite IH. Qed.

Definition string_forallb (p : ascii → bool) (s : string) : bool := forallb p (bytes s).
Definition string_existsb (p : ascii → bool) (s : string) : bool := existsb p (bytes s).

(** [s[i:]] *)
Fixpoint drop_bytes (n : nat) (s : string) : string :=
  match n, s with
  | S n', String _ s' => drop_bytes n' s'
  | _, _ => s
  end.
(** [s[:i]] *)
Fixpoint take_bytes (n : nat) (s : string) : string :=
  match n, s with
  | S n', String c s' => String c (take_bytes n' s')
  | _, _ => ""
  end.

(** [strings.HasPrefix], [strings.TrimPrefix], [strings.HasSuffix],
    [strings.TrimSuffix]. *)
Definition has_prefix (p s : string) : bool := String.prefix p s.
Definition trim_prefix (p s : string) : string :=
  if has_prefix p s then drop_bytes (String.length p) s else s.
Definition has_suffix (p s : string) : bool :=
  (String.length p <=? String.length s)%nat &&
  bool_decide (drop_bytes (String.length s - String.length p) s = p).
Definition trim_suffix (p s : string) : string :=
  if has_suffix p s then take_bytes (String.length s - String.length p) s else s.

(** [strings.Contains]. *)
Fixpoint contains (sub s : string) : bool :=
  has_prefix sub s ||
  match s with "" => false | String _ s' => contains sub s' end.

(** [strings.Cut] at a one-byte separator. *)
Fixpoint cut (sep : ascii) (s : string) : option (string * string) :=
  match s with
  | "" => None
  | String c s' =>
      if Ascii.eqb c sep then Some ("", s')
      else match cut sep s' with
           | Some (a, b) => Some (String c a, b)
           | None => None
           end
  end.

(** [strings.Split] at a one-byte separator. *)
Fixpoint split_on (sep : ascii) (s : string) : list string :=
  match s with
  | "" => [""]
  | String c s' =>
      if Ascii.eqb c sep then "" :: split_on sep s'
      else match split_on sep s' with
           | [] => [String c ""]
           | h :: t => String c h :: t
           end
  end.

(** [strings.Join] *)
Definition join (sep : string) (l : list string) : string := String.concat sep l.

(** Every byte of [s] is [sep] or belongs to a piece of [split_on sep s]. *)
Lemma split_on_not_nil sep s : split_on sep s ≠ [].
Proof. destruct s as [|c s]; simpl; [done|]. repeat case_match; done. Qed.

(** ** Lists *)

(** Entries of a list after the elements failing [p] are dropped, with the
    count of what was dropped: SQL's [DELETE ... WHERE] and its RowsAffected. *)
Definition delete_where {A} (p : A → bool) (l : list A) : list A * Z :=
  (List.filter (λ x, negb (p x)) l, Z.of_nat (List.length (List.filter p l))).

Lemma filter_partition_length {A} (p : A → bool) (l : list A) :
  (List.length (List.filter p l) + List.length (List.filter (λ x, negb (p x)) l)
    = List.length l)%nat.
Proof. induction l as [|x l IH]; [done|]. simpl. destruct (p x); simpl; lia. Qed.

Lemma delete_where_count {A} (p : A → bool) (l : list A) :
  Z.of_nat (List.length (delete_where p l).1) + (delete_where p l).2
    = Z.of_nat (List.length l).
Proof. unfold delete_where. simpl. pose proof (filter_partition_length p l). lia. Qed.

Lemma filter_length_le {A} (p : A → bool) (l : list A) :
  (List.length (List.filter p l) <= List.length l)%nat.
Proof. induction l as [|x l IH]; [done|]. simpl. destruct (p x); simpl; lia. Qed.

Lemma filter_true_id {A} (p : A → bool) (l : list A) :
  (∀ x, List.In x l → p x = true) → List.filter p l = l.
Proof.
  induction l as [|x l IH]; intros H; simpl; [done|].
  rewrite (H x) by (by left). f_equal. apply IH. intros y Hy. apply H. by right.
Qed.

(** How often a string occurs in a list. *)
Definition occ (d : string) (l : list string) : Z :=
  Z.of_nat (List.length (List.filter (λ x, bool_decide (x = d)) l)).

Lemma occ_nonneg d l : 0 <= occ d l.
Proof. unfold occ. lia. Qed.

Lemma occ_app d a b : occ d (a ++ b) = occ d a + occ d b.
Proof. unfold occ. rewrite List.filter_app, length_app. lia. Qed.

Lemma occ_single d x : occ d [x] = if bool_decide (x = d) then 1 else 0.
Proof. unfold occ. simpl. by case_bool_decide. Qed.

(** A list in which nothing occurs more than [m] times is no longer than [m]
    times its number of distinct elements. *)
Lemma length_le_distinct (l : list string) m :
  0 <= m → (∀ d, occ d l <= m) →
  Z.of_nat (List.length l) <= m * Z.of_nat (size (list_to_set l : gset string)).
Proof.
  intros Hm. remember (List.length l) as n eqn:Hn. revert l Hn.
  induction n as [n IH] using lt_wf_ind. intros l Hn Hocc.
  destruct l as [|d l]; [simpl in *; lia|].
  set (l' := List.filter (λ x, negb (bool_decide (x = d))) (d :: l)).
  pose proof (filter_partition_length (λ x, bool_decide (x = d)) (d :: l)) as Hpart.
  cbv beta in Hpart. fold l' in Hpart. pose proof (Hocc d) as Hd. unfold occ in Hd.
  assert (1 <= List.length (List.filter (λ x, bool_decide (x = d)) (d :: l)))%nat as H1
    by (simpl; rewrite bool_decide_eq_true_2 by done; simpl; lia).
  assert (Z.of_nat (List.length l') <= m * Z.of_nat (size (list_to_set l' : gset string))) as Hl'.
  { apply (IH (List.length l')); [lia|done|]. intros d'. etrans; [|apply (Hocc d')].
    unfold occ, l'. apply inj_le. clear. induction (d :: l) as [|x xs IH]; simpl; [lia|].
    destruct (bool_decide (x = d)), (bool_decide (x = d')) eqn:E; simpl; rewrite ?E; simpl; lia. }
  assert (list_to_set (d :: l) =@{gset string} {[d]} ∪ list_to_set l') as Hset.
  { apply set_eq. intros x. rewrite elem_of_union, !elem_of_list_to_set, elem_of_singleton.
    unfold l'. rewrite (list_elem_of_In (List.filter _ _)), List.filter_In, <- list_elem_of_In.
    rewrite negb_true_iff, bool_decide_eq_false, elem_of_cons.
    destruct (decide (x = d)); tauto. }
  rewrite Hset, size_union, size_singleton.
  2: { apply disjoint_singleton_l. rewrite elem_of_list_to_set. unfold l'.
       rewrite list_elem_of_In, List.filter_In, bool_decide_eq_true_2 by done. intros [_ ?]. done. }
  lia.
Qed.

(** ** Log lines: a level, the message and its attributes. *)
Inductive level : Set := LevelDebug | LevelInfo | LevelWarn | LevelError.
#[export] Instance level_eq_dec : EqDecision level.
Proof. solve_decision. Defined.
Record log_line : Set := LogLine_ { ll_level : level; ll_msg : string; ll_attrs : list (string * string) }.

(** ** Automation *)
Create HintDb devmon discriminated.
Create Rewrite HintDb devmon.
#[export] Hint Resolve wrap64_in filter_length_le split_on_not_nil : devmon.
#[export] Hint Rewrite @of_bytes_bytes @bytes_of_bytes @length_bytes @errors_is_wrap : devmon.

(** Case analysis on the scrutinee of a [match] or [if] of the goal or of a
    hypothesis, closing the contradictory branches. *)
Ltac break := repeat (case_match; simplify_eq/=; try done).
Ltac break_in H :=
  repeat match type of H with
  | context [match ?x with _ => _ end] =>
      let E := fresh "E" in destruct x eqn:E; simplify_eq/=; try done
  end.

(** Boolean side conditions turned into propositions. *)
Ltac to_prop :=
  repeat match goal with
  | H : (_ && _)%bool = true |- _ => apply andb_true_iff in H as [??]
  | H : (_ || _)%bool = false |- _ => apply orb_false_iff in H as [??]
  | H : negb _ = true |- _ => apply negb_true_iff in H
  | H : negb _ = false |- _ => apply negb_false_iff in H
  | H : (_ <=? _)%Z = true |- _ => apply Z.leb_le in H
  | H : (_ <=? _)%Z = false |- _ => apply Z.leb_gt in H
  | H : (_ <? _)%Z = true |- _ => apply Z.ltb_lt in H
  | H : (_ <? _)%Z = false |- _ => apply Z.ltb_ge in H
  | H : (_ =? _)%Z = true |- _ => apply Z.eqb_eq in H
  | H : (_ =? _)%Z = false |- _ => apply Z.eqb_neq in H
  | H : (_ <=? _)%nat = true |- _ => apply Nat.leb_le in H
  | H : (_ <=? _)%nat = false |- _ => apply Nat.leb_gt in H
  | H : (_ <? _)%nat = true |- _ => apply Nat.ltb_lt in H
  | H : (_ <? _)%nat = false |- _ => apply Nat.ltb_ge in H
  | H : bool_decide _ = true |- _ => apply bool_decide_eq_true in H
  | H : bool_decide _ = false |- _ => apply bool_decide_eq_false in H
  end.
