(* ===== verification/GoTime.v ===== *)
(** * GoTime: what the agent uses of Go's [time] package

    [time.Parse] and [Time.Format] for the layouts [time.RFC3339] and
    [time.RFC3339Nano]. The log demultiplexer (internal/dockerx/framing.go), the
    [?since=] cursor (internal/httpapi/logs.go) and the startup log rotation
    (internal/logging/rotator.go) parse; every DTO timestamp is formatted. *)
From S2P Require Import Prelude.

(** Days since 1970-01-01 of a proleptic Gregorian date, and back. *)
Definition days_from_civil (y m d : Z) : Z :=
  let y := if m <=? 2 then y - 1 else y in
  let era := y / 400 in
  let yoe := y - era * 400 in
  let doy := (153 * (if 2 <? m then m - 3 else m + 9) + 2) / 5 + d - 1 in
  let doe := yoe * 365 + yoe / 4 - yoe / 100 + doy in
  era * 146097 + doe - 719468.

Definition civil_from_days (z : Z) : Z * Z * Z :=
  let z := z + 719468 in
  let era := z / 146097 in
  let doe := z - era * 146097 in
  let yoe := (doe - doe / 1460 + doe / 36524 - doe / 146096) / 365 in
  let doy := doe - (365 * yoe + yoe / 4 - yoe / 100) in
  let mp := (5 * doy + 2) / 153 in
  let d := doy - (153 * mp + 2) / 5 + 1 in
  let m := if mp <? 10 then mp + 3 else mp - 9 in
  (yoe + era * 400 + (if m <=? 2 then 1 else 0), m, d).

Definition is_leap (y : Z) : bool :=
  (y mod 4 =? 0) && (negb (y mod 100 =? 0) || (y mod 400 =? 0)).

Definition days_in (m y : Z) : Z :=
  if m =? 2 then (if is_leap y then 29 else 28)
  else if (m =? 4) || (m =? 6) || (m =? 9) || (m =? 11) then 30 else 31.

Definition digit_val (c : ascii) : Z := Z.of_nat (nat_of_ascii c) - 48.

(** The value of a run of decimal digits. *)
Fixpoint digits_val_acc (acc : Z) (l : list ascii) : Z :=
  match l with [] => acc | c :: l' => digits_val_acc (acc * 10 + digit_val c) l' end.
Definition digits_val (l : list ascii) : Z := digits_val_acc 0 l.

(** [getnum(s, fixed)]: one or two digits, exactly two when [fixed]. *)
Definition getnum (l : list ascii) (fixed : bool) : option (Z * list ascii) :=
  match l with
  | a :: l1 =>
      if is_digit a then
        match l1 with
        | b :: l2 =>
            if is_digit b then Some (digits_val [a; b], l2)
            else if fixed then None else Some (digit_val a, l1)
        | [] => if fixed then None else Some (digit_val a, l1)
        end
      else None
  | [] => None
  end.

Definition ranged (lo hi : Z) (o : option (Z * list ascii)) : option (Z * list ascii) :=
  match o with
  | Some (n, l) => if (lo <=? n) && (n <=? hi) then Some (n, l) else None
  | None => None
  end.

Definition expect (c : ascii) (l : list ascii) : option (list ascii) :=
  match l with
  | a :: l' => if Ascii.eqb a c then Some l' else None
  | [] => None
  end.

Fixpoint span_digits (l : list ascii) : list ascii * list ascii :=
  match l with
  | a :: l' => if is_digit a then let '(d, r) := span_digits l' in (a :: d, r) else ([], l)
  | [] => ([], [])
  end.

Fixpoint pad_nanos (n : nat) (l : list ascii) : list ascii :=
  match n, l with
  | O, _ => []
  | S n', [] => "0"%char :: pad_nanos n' []
  | S n', c :: l' => c :: pad_nanos n' l'
  end.

(** [.999999999]: absent unless a point or comma is followed by a digit; every
    following digit is taken and those past the ninth are dropped. *)
Definition parse_frac (l : list ascii) : Z * list ascii :=
  match l with
  | p :: d :: l' =>
      if (Ascii.eqb p "." || Ascii.eqb p ",") && is_digit d then
        let '(ds, r) := span_digits (d :: l') in (digits_val (pad_nanos 9 ds), r)
      else (0, l)
  | _ => (0, l)
  end.

(** [Z07:00]: the literal [Z], or a sign and [hh:mm]; the offset in seconds. *)
Definition parse_zone (l : list ascii) : option (Z * list ascii) :=
  match l with
  | [] => None
  | c :: l1 =>
      if Ascii.eqb c "Z" then Some (0, l1)
      else match l1 with
           | h1 :: h2 :: col :: m1 :: m2 :: r =>
               if negb (Ascii.eqb col ":") then None
               else match ranged 0 24 (getnum [h1; h2] true), ranged 0 60 (getnum [m1; m2] true) with
                    | Some (hr, _), Some (mm, _) =>
                        let off := (hr * 60 + mm) * 60 in
                        if Ascii.eqb c "+" then Some (off, r)
                        else if Ascii.eqb c "-" then Some (- off, r) else None
                    | _, _ => None
                    end
           | _ => None
           end
  end.

Definition parse_year (l : list ascii) : option (Z * list ascii) :=
  match l with
  | a :: b :: c :: d :: r =>
      if is_digit a && is_digit b && is_digit c && is_digit d
      then Some (digits_val [a; b; c; d], r) else None
  | _ => None
  end.

(** [time.Parse(time.RFC3339Nano, value)]: the instant in nanoseconds since the
    epoch, or [None] for an error. *)
Definition parse_rfc3339nano (value : string) : option Z :=
  '(year, l) ← parse_year (bytes value);
  l ← expect "-" l;
  '(month, l) ← ranged 1 12 (getnum l true);
  l ← expect "-" l;
  '(day, l) ← getnum l true;
  l ← expect "T" l;
  '(hour, l) ← ranged 0 23 (getnum l false);
  l ← expect ":" l;
  '(min, l) ← ranged 0 59 (getnum l true);
  l ← expect ":" l;
  '(sec, l) ← ranged 0 59 (getnum l true);
  let '(nsec, l) := parse_frac l in
  '(off, l) ← parse_zone l;
  match l with
  | _ :: _ => None
  | [] =>
      if (day <? 1) || (days_in month year <? day) then None
      else Some ((days_from_civil year month day * 86400
                  + hour * 3600 + min * 60 + sec - off) * Second + nsec)
  end.

(** [Time.UTC().Format(time.RFC3339)] of [time.Unix(sec, 0)]. *)
Definition pad2 (n : Z) : string := (if n <? 10 then "0" else "") +:+ pretty n.
Definition pad4 (n : Z) : string :=
  (if n <? 0 then "-" else "") +:+
  (let a := Z.abs n in
   (if a <? 10 then "000" else if a <? 100 then "00" else if a <? 1000 then "0" else "")
   +:+ pretty a).

Definition format_rfc3339 (sec : Z) : string :=
  let days := sec / 86400 in
  let r := sec mod 86400 in
  let '(y, m, d) := civil_from_days days in
  pad4 y +:+ "-" +:+ pad2 m +:+ "-" +:+ pad2 d +:+ "T" +:+
  pad2 (r / 3600) +:+ ":" +:+ pad2 (r mod 3600 / 60) +:+ ":" +:+ pad2 (r mod 60) +:+ "Z".

(** The documented behaviour on examples of Go's own documentation. *)
Example parse_rfc3339nano_doc :
  parse_rfc3339nano "2006-01-02T15:04:05.999999999Z" = Some 1136214245999999999.
Proof. reflexivity. Qed.

Example parse_rfc3339nano_offset :
  parse_rfc3339nano "2006-01-02T15:04:05+07:00" = Some ((1136214245 - 7 * 3600) * Second).
Proof. reflexivity. Qed.

Example parse_rfc3339nano_rejects :
  parse_rfc3339nano "2006-02-30T15:04:05Z" = None ∧
  parse_rfc3339nano "2006-01-02 15:04:05Z" = None ∧
  parse_rfc3339nano "2006-01-02T15:04:05" = None ∧
  parse_rfc3339nano "" = None.
Proof. repeat split; reflexivity. Qed.

Example format_rfc3339_doc : format_rfc3339 1136214245 = "2006-01-02T15:04:05Z".
Proof. reflexivity. Qed.

(** ** The characters of a timestamp *)

Definition stamp_char (c : ascii) : bool :=
  is_digit c || existsb (Ascii.eqb c) ["-"; "T"; ":"; "."; ","; "Z"; "+"]%char.

(** [l] is [r] after some characters of a timestamp. *)
Definition stamps (l r : list ascii) : Prop := ∃ p, l = p ++ r ∧ Forall (λ c, stamp_char c = true) p.

Lemma stamps_refl l : stamps l l.
Proof. by exists []. Qed.
Lemma stamps_trans l1 l2 l3 : stamps l1 l2 → stamps l2 l3 → stamps l1 l3.
Proof. intros (p & -> & Hp) (q & -> & Hq). exists (p ++ q). by rewrite <- app_assoc, Forall_app. Qed.
Lemma stamps_cons c l r : stamp_char c = true → stamps l r → stamps (c :: l) r.
Proof. intros Hc (p & -> & Hp). exists (c :: p). by rewrite Forall_cons. Qed.
Lemma stamps_digit c l r : is_digit c = true → stamps l r → stamps (c :: l) r.
Proof. intros Hc. apply stamps_cons. unfold stamp_char. by rewrite Hc. Qed.
#[local] Hint Resolve stamps_refl stamps_digit : stamps.

Lemma getnum_stamps l fixed n r : getnum l fixed = Some (n, r) → stamps l r.
Proof. unfold getnum. intros H. repeat case_match; simplify_eq; auto with stamps. Qed.
Lemma ranged_stamps lo hi l fixed n r : ranged lo hi (getnum l fixed) = Some (n, r) → stamps l r.
Proof.
  unfold ranged. destruct (getnum l fixed) as [[m q]|] eqn:Hg; [|done]. case_match; [|done].
  intros [= _ <-]. by eapply getnum_stamps.
Qed.
Lemma expect_stamps c l r : stamp_char c = true → expect c l = Some r → stamps l r.
Proof.
  unfold expect. destruct l as [|a l]; [done|]. destruct (Ascii.eqb a c) eqn:He; [|done].
  apply Ascii.eqb_eq in He as ->. intros Hc [= <-]. apply stamps_cons; auto with stamps.
Qed.
Lemma span_digits_stamps l d r : span_digits l = (d, r) → stamps l r.
Proof.
  revert d. induction l as [|a l IH]; intros d; cbn; [intros [= _ <-]; auto with stamps|].
  destruct (is_digit a) eqn:Ha; [|intros [= _ <-]; auto with stamps].
  destruct (span_digits l) as [d' r'] eqn:E. intros [= _ <-]. eauto with stamps.
Qed.
Lemma parse_frac_stamps l n r : parse_frac l = (n, r) → stamps l r.
Proof.
  unfold parse_frac. destruct l as [|p [|d l]]; [intros [= _ <-]; auto with stamps..|].
  destruct (_ && is_digit d) eqn:E; [|intros [= _ <-]; auto with stamps].
  apply andb_true_iff in E as [Hp _]. destruct (span_digits (d :: l)) as [ds q] eqn:Hs. intros [= _ <-].
  apply stamps_cons; [|by eapply span_digits_stamps].
  apply orb_true_iff in Hp as [->%Ascii.eqb_eq | ->%Ascii.eqb_eq]; reflexivity.
Qed.
Lemma parse_zone_stamps l n r : parse_zone l = Some (n, r) → stamps l r.
Proof.
  unfold parse_zone. destruct l as [|c l]; [done|]. destruct (Ascii.eqb c "Z") eqn:Hz.
  { apply Ascii.eqb_eq in Hz as ->. intros [= _ <-]. apply stamps_cons; auto with stamps. }
  destruct l as [|h1 [|h2 [|col [|m1 [|m2 q]]]]]; try done. destruct (Ascii.eqb col ":") eqn:Hc; [|done]. cbn [negb].
  apply Ascii.eqb_eq in Hc as ->.
  destruct (ranged 0 24 _) as [[hr q1]|] eqn:Hh; [|done]. destruct (ranged 0 60 _) as [[mm q2]|] eqn:Hm; [|done].
  assert (stamps (h1 :: h2 :: ":"%char :: m1 :: m2 :: q) q) as Hq.
  { unfold ranged, getnum in Hh, Hm. repeat case_match; simplify_eq.
    repeat (apply stamps_digit; [done|]). apply stamps_cons; [done|]. repeat (apply stamps_digit; [done|]). auto with stamps. }
  destruct (Ascii.eqb c "+") eqn:Hp; [|destruct (Ascii.eqb c "-") eqn:Hd; [|done]]; intros [= _ <-];
    [apply Ascii.eqb_eq in Hp as ->|apply Ascii.eqb_eq in Hd as ->]; by apply stamps_cons.
Qed.
Lemma parse_year_stamps l n r : parse_year l = Some (n, r) → stamps l r.
Proof. 
  unfold parse_year. destruct l as [|a [|b [|c [|d l]]]]; [done..|].
  destruct (_ && _) eqn:E; [|done]. intros [= _ <-]. rewrite !andb_true_iff in E. destruct E as [[[? ?] ?] ?].
  eauto 6 with stamps.
Qed.

(** A timestamp that parses is made of timestamp characters. *)
Lemma parse_stamp_chars value ts : parse_rfc3339nano value = Some ts → string_forallb stamp_char value = true.
Proof.
  intros H. assert (stamps (bytes value) []) as (p & Hp & Hall).
  2: { rewrite app_nil_r in Hp. unfold string_forallb. rewrite Hp, forallb_forall. intros c Hc.
       rewrite Forall_forall in Hall. apply Hall. by apply list_elem_of_In. }
  unfold parse_rfc3339nano in H. revert H. generalize (bytes value). intros l.
  assert (∀ {A} (f : option (A * list ascii)) (K : A * list ascii → option Z) l r',
    (∀ n r, f = Some (n, r) → stamps l r) → (∀ n r, K (n, r) = Some ts → stamps r r') → f ≫= K = Some ts → stamps l r') as Hbind.
  { intros A [[n r]|] K l1 r' Hf HK; [|done]. intros HKr. eapply stamps_trans; [by eapply Hf|by eapply HK]. }
  assert (∀ c (K : list ascii → option Z) l r', stamp_char c = true →
    (∀ r, K r = Some ts → stamps r r') → expect c l ≫= K = Some ts → stamps l r') as Hexp.
  { intros c K l1 r' Hc HK. destruct (expect c l1) as [r|] eqn:He; [|done]. intros HKr.
    eapply stamps_trans; [by eapply expect_stamps|by eapply HK]. }
  apply Hbind; [apply parse_year_stamps|]. intros ? l1. cbn beta iota. apply Hexp; [done|]. intros l2.
  apply Hbind; [apply ranged_stamps|]. intros ? l3. cbn beta iota. apply Hexp; [done|]. intros l4.
  apply Hbind; [apply getnum_stamps|]. intros ? l5. cbn beta iota. apply Hexp; [done|]. intros l6.
  apply Hbind; [apply ranged_stamps|]. intros ? l7. cbn beta iota. apply Hexp; [done|]. intros l8.
  apply Hbind; [apply ranged_stamps|]. intros ? l9. cbn beta iota. apply Hexp; [done|]. intros l10.
  apply Hbind; [apply ranged_stamps|]. intros ? l11. cbn beta iota. destruct (parse_frac l11) as [f l12] eqn:Hf.
  intros Hz. eapply stamps_trans; [by eapply parse_frac_stamps|]. revert Hz.
  apply Hbind; [apply parse_zone_stamps|]. intros off l13. destruct l13; [intros _; apply stamps_refl|done].
Qed.
