(* ===== verification/LogFraming.v ===== *)
(** * LogFraming: the Engine's log stream (internal/dockerx/framing.go and the
    demultiplexers of internal/dockerx/logs.go)

    Docker's non-TTY log stream is a sequence of frames, each an eight-byte
    header (stream type, three zero bytes, big-endian payload size) and its
    payload; [readFrame] reads one, [push] splits payloads into lines per
    stream under a length cap, [flush] emits what is left at the end.

    [emit] is a callback in the source: here a computation over the caller's
    own state [W] that may fail. The map of per-stream states is ranged over by
    [flush] in an order Go leaves unspecified: [range_order] below. *)
From S2P Require Import Prelude GoTime.

Definition frameHeaderLen : nat := 8.
Definition streamStdout : string := "stdout".
Definition streamStderr : string := "stderr".
Definition maxLogLineBytes : Z := Z.shiftl 8 10.
Definition maxFramePayloadBytes : Z := Z.shiftl 1 20.

(** [type LogLine struct] (internal/dockerx/types.go) *)
Record LogLine : Set := MkLogLine {
  ll_Timestamp : string;
  ll_Stream : string;
  ll_Line : string;
  ll_Truncated : bool }.

#[export] Instance LogLine_eq_dec : EqDecision LogLine.
Proof. solve_decision. Defined.

(** ** Readers

    An [io.Reader] whose whole future is the bytes it will deliver and the
    error it ends with ([io.EOF] for a stream that simply ends). *)
Record reader : Set := MkReader { rd_data : list ascii; rd_end : error }.

Definition zlen {A} (l : list A) : Z := Z.of_nat (List.length l).

(** [io.ReadFull]: all [n] bytes or an error; [io.EOF] only when nothing was
    read, [io.ErrUnexpectedEOF] when the end came in the middle. *)
Definition ReadFull (n : nat) (r : reader) : result (list ascii * reader) :=
  if (n <=? List.length (rd_data r))%nat
  then Ok (firstn n (rd_data r), MkReader (skipn n (rd_data r)) (rd_end r))
  else match rd_data r with
       | [] => Err (rd_end r)
       | _ :: _ =>
           if bool_decide (rd_end r = Sentinel IoEOF)
           then Err (Sentinel IoErrUnexpectedEOF) else Err (rd_end r)
       end.

Definition byte_val (c : ascii) : Z := Z.of_nat (nat_of_ascii c).

(** [binary.BigEndian.Uint32] *)
Definition BigEndian_Uint32 (l : list ascii) : Z :=
  match l with
  | a :: b :: c :: d :: _ =>
      Z.lor (Z.lor (Z.shiftl (byte_val a) 24) (Z.shiftl (byte_val b) 16))
            (Z.lor (Z.shiftl (byte_val c) 8) (byte_val d))
  | _ => 0
  end.

(** [func readFrame] *)
Definition readFrame (r : reader) : result (string * list ascii * reader) :=
  match ReadFull frameHeaderLen r with
  | Err e => Err e
  | Ok (header, r) =>
      let frame_type := match header with c :: _ => byte_val c | [] => 0 end in
      match (if frame_type =? 1 then Some streamStdout
             else if frame_type =? 2 then Some streamStderr else None) with
      | None => Err (Leaf ("dockerx: unknown frame stream type " +:+ pretty frame_type))
      | Some stream =>
          let size := BigEndian_Uint32 (skipn 4 header) in
          if maxFramePayloadBytes <? size
          then Err (Leaf ("dockerx: frame payload of " +:+ pretty size +:+ " bytes exceeds max "
                          +:+ pretty maxFramePayloadBytes))
          else
            let n := Z.to_nat size in
            match n with
            | O => Ok (stream, [], r)
            | S _ =>
                match ReadFull n r with
                | Err e =>
                    if bool_decide (e = Sentinel IoEOF)
                    then Err (Sentinel IoErrUnexpectedEOF) else Err e
                | Ok (payload, r) => Ok (stream, payload, r)
                end
            end
      end
  end.

(** ** The line splitter *)

(** [type lineState struct] *)
Record lineState : Set := MkLineState { buf : list ascii; discarding : bool }.

(** [type lineSplitter struct]: its map of per-stream states. *)
Abbreviation lineSplitter := (gmap string lineState) (only parsing).

Definition newLineSplitter : lineSplitter := ∅.

(** [func (s *lineSplitter) state]: creates the state on first use. *)
Definition splitter_state (s : lineSplitter) (stream : string) : lineState * lineSplitter :=
  match s !! stream with
  | Some st => (st, s)
  | None => let st := MkLineState [] false in (st, <[stream := st]> s)
  end.

(** [func extractTimestamp] *)
Definition extractTimestamp (line : string) : string * string :=
  match cut " " line with
  | None => ("", line)
  | Some (pre, rest) =>
      match parse_rfc3339nano pre with
      | None => ("", line)
      | Some _ => (pre, rest)
      end
  end.

(** The [LogLine] [emitLine] builds. *)
Definition mkLine (stream : string) (line : list ascii) (truncated : bool) : LogLine :=
  let text := trim_suffix (String "013"%char "") (of_bytes line) in
  let '(ts, rest) := extractTimestamp text in
  MkLogLine ts stream rest truncated.

Definition newline : ascii := "010"%char.

(** [bytes.IndexByte(data, '\n')] and the two slices around it. *)
Fixpoint cut_nl (data : list ascii) : option (list ascii * list ascii) :=
  match data with
  | [] => None
  | c :: data' =>
      if Ascii.eqb c newline then Some ([], data')
      else match cut_nl data' with
           | Some (a, b) => Some (c :: a, b)
           | None => None
           end
  end.

Section Demux.
Context {W : Type} (emit : LogLine → Comp W unit).

(** [func emitLine] *)
Definition emitLine (stream : string) (line : list ascii) (truncated : bool) : Comp W unit :=
  emit (mkLine stream line truncated).

(** The loop of [push]. Every turn consumes at least one byte, so a fuel of
    the payload's length runs it to the end. *)
Fixpoint push_loop (fuel : nat) (stream : string) (data : list ascii)
    (sp : lineSplitter) (s : W) : result unit * (lineSplitter * W) :=
  match data, fuel with
  | [], _ | _ :: _, O => (Ok tt, (sp, s))
  | _ :: _, S fuel' =>
      let '(chunk, rest, hasNewline) :=
        match cut_nl data with
        | Some (a, b) => (a, b, true)
        | None => (data, [], false)
        end in
      let st := (splitter_state sp stream).1 in
      if discarding st then
        push_loop fuel' stream rest
          (if hasNewline then <[stream := MkLineState (buf st) false]> sp else sp) s
      else
        let space := Z.max 0 (maxLogLineBytes - zlen (buf st)) in
        let overflowed := space <? zlen chunk in
        let take := if overflowed then firstn (Z.to_nat space) chunk else chunk in
        let line := buf st ++ take in
        let sp1 := <[stream := MkLineState line false]> sp in
        if overflowed then
          match emitLine stream line true s with
          | (Err e, s') => (Err e, (sp1, s'))
          | (Ok _, s') =>
              push_loop fuel' stream rest
                (<[stream := MkLineState [] (negb hasNewline)]> sp) s'
          end
        else if hasNewline then
          match emitLine stream line false s with
          | (Err e, s') => (Err e, (sp1, s'))
          | (Ok _, s') =>
              push_loop fuel' stream rest (<[stream := MkLineState [] false]> sp) s'
          end
        else push_loop fuel' stream rest sp1 s
  end.

(** [func (s *lineSplitter) push] *)
Definition push (stream : string) (payload : list ascii)
    (sp : lineSplitter) (s : W) : result unit * (lineSplitter * W) :=
  push_loop (List.length payload) stream payload (splitter_state sp stream).2 s.

(** The loop of [flush] over the streams in the order [keys]. *)
Fixpoint flush_keys (keys : list string) (sp : lineSplitter) (s : W)
    : result unit * (lineSplitter * W) :=
  match keys with
  | [] => (Ok tt, (sp, s))
  | k :: keys' =>
      match sp !! k with
      | None => flush_keys keys' sp s
      | Some st =>
          match buf st with
          | [] => flush_keys keys' sp s
          | _ :: _ =>
              match emitLine k (buf st) false s with
              | (Err e, s') => (Err e, (sp, s'))
              | (Ok _, s') =>
                  flush_keys keys' (<[k := MkLineState [] (discarding st)]> sp) s'
              end
          end
      end
  end.

(** The order in which Go's [range] visits the map of states. *)
Context (range_order : lineSplitter → list string).

(** [func (s *lineSplitter) flush] *)
Definition flush (sp : lineSplitter) (s : W) : result unit * W :=
  let '(r, (_, s')) := flush_keys (range_order sp) sp s in (r, s').

(** The loop of [demuxNonTTY]. A frame takes at least its header's eight
    bytes, so it ends ([demux_loop_total]). *)
Fixpoint demux_loop (fuel : nat) (r : reader) (sp : lineSplitter) (s : W)
    : option (result unit * W) :=
  match fuel with
  | O => None
  | S fuel' =>
      match readFrame r with
      | Err e =>
          if errors_is e IoEOF then Some (flush sp s)
          else Some (Err (wrap "read log frame" e), s)
      | Ok (stream, payload, r') =>
          match push stream payload sp s with
          | (Err e, (_, s')) => Some (Err e, s')
          | (Ok _, (sp', s')) => demux_loop fuel' r' sp' s'
          end
      end
  end.

(** [func demuxNonTTY] *)
Definition demuxNonTTY (r : reader) : Comp W unit := λ s,
  match demux_loop (S (List.length (rd_data r))) r newLineSplitter s with
  | Some res => res
  | None => (Ok tt, s)
  end.

(** [func demuxTTY]: what each [Read] returns in turn, and the last one, that
    returns bytes together with the terminal error. *)
Fixpoint demuxTTY_loop (reads : list (list ascii)) (last : list ascii * error)
    (sp : lineSplitter) (s : W) : result unit * W :=
  match reads with
  | chunk :: reads' =>
      match chunk with
      | [] => demuxTTY_loop reads' last sp s
      | _ :: _ =>
          match push streamStdout chunk sp s with
          | (Err e, (_, s')) => (Err e, s')
          | (Ok _, (sp', s')) => demuxTTY_loop reads' last sp' s'
          end
      end
  | [] =>
      let '(chunk, readErr) := last in
      let fin sp s :=
        if errors_is readErr IoEOF then flush sp s
        else (Err (wrap "read tty log stream" readErr), s) in
      match chunk with
      | [] => fin sp s
      | _ :: _ =>
          match push streamStdout chunk sp s with
          | (Err e, (_, s')) => (Err e, s')
          | (Ok _, (sp', s')) => fin sp' s'
          end
      end
  end.
Definition demuxTTY (reads : list (list ascii)) (last : list ascii * error) : Comp W unit :=
  demuxTTY_loop reads last newLineSplitter.
End Demux.

(** The lines a demultiplexer emits are those [emitLine] builds. *)
Definition made (l : LogLine) : Prop := ∃ stream line truncated, l = mkLine stream line truncated.

(** ** Concrete runs *)
Definition collect : LogLine → Comp (list LogLine) unit := λ l ls, (Ok tt, ls ++ [l]).
Definition keys_of (sp : lineSplitter) : list string := (map_to_list sp).*1.

Definition frame_of (t : ascii) (payload : list ascii) : list ascii :=
  let n := zlen payload in
  let b k := ascii_of_nat (Z.to_nat (Z.land (Z.shiftr n k) 255)) in
  [t; "000"; "000"; "000"; b 24; b 16; b 8; b 0]%char ++ payload.

Example demux_two_frames :
  demuxNonTTY collect keys_of
    (MkReader (frame_of "001" (bytes "2006-01-02T15:04:05Z hel") ++
               frame_of "002" (bytes ("err" +:+ String newline "")) ++
               frame_of "001" (bytes ("lo" +:+ String newline "tail")))
       (Sentinel IoEOF)) []
  = (Ok tt, [MkLogLine "" "stderr" "err" false;
             MkLogLine "2006-01-02T15:04:05Z" "stdout" "hello" false;
             MkLogLine "" "stdout" "tail" false]).
Proof. vm_compute. reflexivity. Qed.

(** * Properties *)

(** ** The reference: what the lines of a stream are

    [segments cur l] splits [cur ++ l] at newlines: the complete lines and the
    unfinished one. [cut_line] is the length cap applied to one line. *)
Fixpoint segments (cur l : list ascii) : list (list ascii) * list ascii :=
  match l with
  | [] => ([], cur)
  | c :: l' =>
      if Ascii.eqb c newline then
        let '(ss, last) := segments [] l' in (cur :: ss, last)
      else segments (cur ++ [c]) l'
  end.

Definition cut_line (stream : string) (seg : list ascii) : LogLine :=
  mkLine stream (firstn (Z.to_nat maxLogLineBytes) seg) (maxLogLineBytes <? zlen seg).

(** The lines of a whole stream: every terminated line and, unless it is
    empty, the unterminated last one. *)
Definition reference_lines (stream : string) (l : list ascii) : list LogLine :=
  let '(ss, last) := segments [] l in
  map (cut_line stream) ss ++ match last with [] => [] | _ :: _ => [cut_line stream last] end.

Lemma segments_app cur a b :
  segments cur (a ++ b) =
    ((segments cur a).1 ++ (segments (segments cur a).2 b).1,
     (segments (segments cur a).2 b).2).
Proof.
  revert cur. induction a as [|c a IH]; intros cur; simpl.
  - by destruct (segments cur b).
  - case_match; [|apply IH].
    rewrite (IH []). destruct (segments [] a) as [ss last]. simpl. done.
Qed.

Lemma cut_nl_some data a b :
  cut_nl data = Some (a, b) →
  data = a ++ newline :: b ∧ cut_nl a = None.
Proof.
  revert a b. induction data as [|c data IH]; intros a b; simpl; [done|].
  destruct (Ascii.eqb_spec c newline) as [->|Hne].
  - intros [= <- <-]. done.
  - destruct (cut_nl data) as [[a' b']|]; [|done]. intros [= <- <-].
    destruct (IH a' b' eq_refl) as [-> Hn]. split; [done|]. simpl.
    destruct (Ascii.eqb_spec c newline); [done|]. by rewrite Hn.
Qed.

Lemma segments_no_nl cur data : cut_nl data = None → segments cur data = ([], cur ++ data).
Proof.
  revert cur. induction data as [|c data IH]; intros cur; simpl.
  - by rewrite app_nil_r.
  - destruct (Ascii.eqb_spec c newline); [done|].
    destruct (cut_nl data) as [[??]|]; [done|]. intros _.
    rewrite IH by done. by rewrite <- app_assoc.
Qed.

Lemma segments_cut cur data a b :
  cut_nl data = Some (a, b) →
  segments cur data = ((cur ++ a) :: (segments [] b).1, (segments [] b).2).
Proof.
  intros [-> Hn]%cut_nl_some. rewrite segments_app, segments_no_nl by done. simpl.
  by destruct (segments [] b) as [ss last].
Qed.

Lemma cut_nl_length data a b :
  cut_nl data = Some (a, b) → (List.length b < List.length data)%nat.
Proof. intros [-> _]%cut_nl_some. rewrite length_app. simpl. lia. Qed.

(** ** The splitter state as a function of the current line

    The state of a stream depends only on the bytes since the last newline:
    kept while they fit, discarded once they do not. *)
Definition line_of (cur : list ascii) : lineState :=
  if maxLogLineBytes <? zlen cur then MkLineState [] true else MkLineState cur false.

Lemma zlen_app {A} (a b : list A) : zlen (a ++ b) = zlen a + zlen b.
Proof. unfold zlen. rewrite length_app. lia. Qed.
Lemma zlen_nonneg {A} (a : list A) : 0 <= zlen a.
Proof. unfold zlen. lia. Qed.
Lemma zlen_nil {A} : zlen (@nil A) = 0.
Proof. reflexivity. Qed.
#[export] Hint Resolve zlen_nonneg : devmon.
#[export] Hint Rewrite @zlen_app @zlen_nil : devmon.

Lemma maxLogLineBytes_val : maxLogLineBytes = 8192.
Proof. reflexivity. Qed.
#[global] Opaque maxLogLineBytes.

(** The line already emitted for an over-long current line. *)
Definition early (stream : string) (cur : list ascii) : list LogLine :=
  if maxLogLineBytes <? zlen cur then [cut_line stream cur] else [].

Lemma cut_line_long stream cur more :
  maxLogLineBytes < zlen cur → cut_line stream (cur ++ more) = cut_line stream cur.
Proof.
  intros H. unfold cut_line. rewrite firstn_app, zlen_app.
  pose proof (zlen_nonneg more). pose proof maxLogLineBytes_val.
  unfold zlen in *.
  replace (Z.to_nat maxLogLineBytes - List.length cur)%nat with 0%nat by lia.
  rewrite firstn_O, app_nil_r.
  do 2 destruct (Z.ltb_spec maxLogLineBytes (zlen cur)); unfold zlen in *; try lia;
  destruct (Z.ltb_spec maxLogLineBytes (Z.of_nat (List.length cur) + Z.of_nat (List.length more)));
  destruct (Z.ltb_spec maxLogLineBytes (Z.of_nat (List.length cur))); done || lia.
Qed.

Lemma cut_line_short stream cur :
  zlen cur <= maxLogLineBytes → cut_line stream cur = mkLine stream cur false.
Proof.
  intros H. unfold cut_line. rewrite firstn_all2 by (unfold zlen in *; lia).
  by rewrite (proj2 (Z.ltb_ge _ _)).
Qed.

Lemma cut_line_overflow stream cur a :
  zlen cur <= maxLogLineBytes → maxLogLineBytes < zlen cur + zlen a →
  mkLine stream (cur ++ firstn (Z.to_nat (maxLogLineBytes - zlen cur)) a) true
    = cut_line stream (cur ++ a).
Proof.
  intros Hs Hl. unfold cut_line. rewrite zlen_app, (proj2 (Z.ltb_lt _ _)) by lia.
  rewrite firstn_app, (firstn_all2 cur) by (unfold zlen in *; lia).
  do 3 f_equal. unfold zlen in *. lia.
Qed.

Lemma early_nil stream : early stream [] = [].
Proof. reflexivity. Qed.

Lemma early_long stream cur : maxLogLineBytes < zlen cur → early stream cur = [cut_line stream cur].
Proof. intros H. unfold early. by rewrite (proj2 (Z.ltb_lt _ _)). Qed.
Lemma early_short stream cur : zlen cur <= maxLogLineBytes → early stream cur = [].
Proof. intros H. unfold early. by rewrite (proj2 (Z.ltb_ge _ _)). Qed.
Lemma line_of_long cur : maxLogLineBytes < zlen cur → line_of cur = MkLineState [] true.
Proof. intros H. unfold line_of. by rewrite (proj2 (Z.ltb_lt _ _)). Qed.
Lemma line_of_short cur : zlen cur <= maxLogLineBytes → line_of cur = MkLineState cur false.
Proof. intros H. unfold line_of. by rewrite (proj2 (Z.ltb_ge _ _)). Qed.
Lemma line_of_nil : line_of [] = MkLineState [] false.
Proof. reflexivity. Qed.

Section PushSpec.
Context {W : Type} (emit : LogLine → Comp W unit) (upd : LogLine → W → W).
Context (Hemit : ∀ l s, emit l s = (Ok tt, upd l s)).

Definition emits (ls : list LogLine) (s : W) : W := fold_left (λ s l, upd l s) ls s.

Lemma emits_app a b s : emits (a ++ b) s = emits b (emits a s).
Proof. apply fold_left_app. Qed.

(** One turn of the loop, by cases on the current line's length. *)
Lemma push_loop_spec fuel stream data sp s cur :
  (List.length data <= fuel)%nat →
  sp !! stream = Some (line_of cur) →
  ∃ E, push_loop emit fuel stream data sp s
         = (Ok tt, (<[stream := line_of (segments cur data).2]> sp, emits E s)) ∧
       early stream cur ++ E
         = map (cut_line stream) (segments cur data).1 ++ early stream (segments cur data).2.
Proof.
  revert data sp s cur. induction fuel as [|fuel IH]; intros data sp s cur Hlen Hsp.
  { destruct data; [|simpl in Hlen; lia]. exists []. simpl.
    rewrite insert_id by done. by rewrite app_nil_r. }
  destruct data as [|c data].
  { exists []. simpl. rewrite insert_id by done. by rewrite app_nil_r. }
  cbn [push_loop]. set (d := c :: data) in *.
  unfold splitter_state. rewrite Hsp. cbn [fst].
  destruct (cut_nl d) as [[a b]|] eqn:Hcut.
  - pose proof (cut_nl_length _ _ _ Hcut) as Hb.
    rewrite (segments_cut cur d a b Hcut). cbn [fst snd map].
    assert (∀ s', ∃ E, push_loop emit fuel stream b
               (<[stream:=MkLineState [] false]> sp) s'
             = (Ok tt, (<[stream := line_of (segments [] b).2]> sp, emits E s')) ∧
           E = map (cut_line stream) (segments [] b).1 ++ early stream (segments [] b).2)
      as Hnext.
    { intros s'. destruct (IH b (<[stream:=MkLineState [] false]> sp) s' []) as (E & HE & HS).
      - lia.
      - rewrite line_of_nil. apply lookup_insert_eq.
      - exists E. rewrite insert_insert_eq in HE. done. }
    destruct (Z.le_gt_cases (zlen cur) maxLogLineBytes) as [Hs|Hl].
    + rewrite line_of_short, early_short by done. cbn [discarding buf].
      rewrite Z.max_r by lia.
      destruct (Z.ltb_spec (maxLogLineBytes - zlen cur) (zlen a)).
      * unfold emitLine. rewrite Hemit, cut_line_overflow by lia. cbn [negb].
        destruct (Hnext (upd (cut_line stream (cur ++ a)) s)) as (E & HE & HS).
        eexists (_ :: E). rewrite HE. split; [done|]. simpl. by rewrite HS.
      * unfold emitLine. rewrite Hemit, <- cut_line_short by (rewrite zlen_app; lia).
        destruct (Hnext (upd (cut_line stream (cur ++ a)) s)) as (E & HE & HS).
        eexists (_ :: E). rewrite HE. split; [done|]. simpl. by rewrite HS.
    + rewrite line_of_long, early_long by done. cbn [discarding buf].
      destruct (Hnext s) as (E & HE & HS). exists E. rewrite HE. split; [done|].
      simpl. rewrite HS, cut_line_long by lia. done.
  - rewrite (segments_no_nl cur d Hcut). cbn [fst snd map app].
    assert (∀ sp' s', push_loop emit fuel stream [] sp' s' = (Ok tt, (sp', s'))) as Hnil
      by (intros; by destruct fuel).
    destruct (Z.le_gt_cases (zlen cur) maxLogLineBytes) as [Hs|Hl].
    + rewrite (line_of_short cur), (early_short _ cur) by done. cbn [discarding buf].
      rewrite Z.max_r by lia.
      destruct (Z.ltb_spec (maxLogLineBytes - zlen cur) (zlen d)).
      * unfold emitLine. rewrite Hemit, cut_line_overflow by lia. rewrite Hnil. cbn [negb].
        exists [cut_line stream (cur ++ d)].
        rewrite line_of_long, early_long by (rewrite zlen_app; lia). done.
      * rewrite Hnil. exists [].
        rewrite line_of_short, early_short by (rewrite zlen_app; lia). done.
    + rewrite (line_of_long cur), (early_long _ cur) by done. cbn [discarding buf].
      rewrite Hnil. exists [].
      pose proof (zlen_nonneg d).
      rewrite line_of_long, early_long by (rewrite zlen_app; lia).
      rewrite cut_line_long by lia. rewrite insert_id; [done|].
      rewrite Hsp. by rewrite line_of_long by lia.
Qed.

(** The bytes of the current line of a stream that may not have a state yet. *)
Definition tracks (sp : lineSplitter) (stream : string) (cur : list ascii) : Prop :=
  match sp !! stream with
  | Some st => st = line_of cur
  | None => cur = []
  end.

Lemma push_spec stream payload sp s cur :
  tracks sp stream cur →
  ∃ E sp', push emit stream payload sp s = (Ok tt, (sp', emits E s)) ∧
    tracks sp' stream (segments cur payload).2 ∧
    (∀ k, k ≠ stream → sp' !! k = sp !! k) ∧
    early stream cur ++ E
      = map (cut_line stream) (segments cur payload).1 ++ early stream (segments cur payload).2.
Proof.
  intros Htr. unfold push, tracks in *.
  destruct (push_loop_spec (List.length payload) stream payload
              (splitter_state sp stream).2 s cur) as (E & HE & HS); [done| |].
  { unfold splitter_state. destruct (sp !! stream) as [st|] eqn:Hst; cbn [snd].
    - by rewrite Hst, Htr.
    - rewrite Htr, line_of_nil. apply lookup_insert_eq. }
  exists E. eexists. split; [exact HE|]. split; [by rewrite lookup_insert_eq|].
  split; [|done]. intros k Hk. rewrite lookup_insert_ne by done.
  unfold splitter_state. destruct (sp !! stream); cbn [snd]; [done|].
  by rewrite lookup_insert_ne.
Qed.

Lemma tracks_other sp sp' stream k cur :
  k ≠ stream → (∀ k, k ≠ stream → sp' !! k = sp !! k) →
  tracks sp k cur → tracks sp' k cur.
Proof. intros Hk Hf. unfold tracks. by rewrite Hf. Qed.
End PushSpec.

(** ** Frames on the wire *)

Lemma byte_val_of_Z z : 0 <= z < 256 → byte_val (ascii_of_nat (Z.to_nat z)) = z.
Proof. intros H. unfold byte_val. rewrite nat_ascii_embedding by lia. lia. Qed.

Lemma land_255 z : Z.land z 255 = z mod 256.
Proof. change 255 with (Z.ones 8). by rewrite Z.land_ones by lia. Qed.

Lemma BigEndian_split n :
  0 <= n < 2 ^ 32 →
  BigEndian_Uint32 (map (λ k, ascii_of_nat (Z.to_nat (Z.land (Z.shiftr n k) 255))) [24; 16; 8; 0]) = n.
Proof.
  intros Hn. cbn [map BigEndian_Uint32]. rewrite !land_255.
  rewrite !byte_val_of_Z by (apply Z.mod_pos_bound; lia).
  rewrite !Z.shiftr_div_pow2 by lia. change (2 ^ 0) with 1. rewrite Z.div_1_r.
  apply Z.bits_inj'. intros i Hi.
  rewrite !Z.lor_spec, !Z.shiftl_spec by lia.
  assert (∀ a j, 0 <= a → Z.testbit (a mod 256) j = (j <? 8) && Z.testbit a j) as Hmod.
  { intros a j _. change 256 with (2 ^ 8). destruct (Z.ltb_spec j 8).
    - by rewrite Z.mod_pow2_bits_low by lia.
    - by rewrite Z.mod_pow2_bits_high by lia. }
  rewrite !Hmod by (try apply Z.div_pos; lia).
  rewrite <- !Z.shiftr_div_pow2 by lia.
  assert (32 <= i → Z.testbit n i = false) as Hhigh.
  { intros H32. apply Z.testbit_false; [lia|].
    rewrite Z.div_small; [done|]. split; [lia|].
    apply Z.lt_le_trans with (2 ^ 32); [lia|]. apply Z.pow_le_mono_r; lia. }
  destruct (Z.lt_ge_cases i 8); [|destruct (Z.lt_ge_cases i 16);
    [|destruct (Z.lt_ge_cases i 24); [|destruct (Z.lt_ge_cases i 32)]]];
    repeat match goal with
    | |- context [Z.testbit _ (i - ?k)] =>
        first [rewrite (Z.testbit_neg_r _ (i - k)) by lia
              |rewrite (Z.shiftr_spec _ _ (i - k)) by lia]
    end;
    repeat match goal with |- context [?x <? 8] => destruct (Z.ltb_spec x 8); try lia end;
    simpl; rewrite ?orb_false_r; try (f_equal; lia).
  symmetry. by apply Hhigh.
Qed.

Definition stream_type (stream : string) : ascii :=
  if bool_decide (stream = streamStdout) then "001" else "002".
Definition is_stream (stream : string) : Prop := stream = streamStdout ∨ stream = streamStderr.

(** What the Engine writes for one frame. *)
Definition encode_frame (f : string * list ascii) : list ascii := frame_of (stream_type f.1) f.2.

Lemma ReadFull_app n a rest e :
  List.length a = n → ReadFull n (MkReader (a ++ rest) e) = Ok (a, MkReader rest e).
Proof.
  intros <-. unfold ReadFull. cbn [rd_data rd_end].
  rewrite (proj2 (Nat.leb_le _ _)) by (rewrite length_app; lia).
  by rewrite take_app_length, drop_app_length.
Qed.

Lemma maxFramePayloadBytes_val : maxFramePayloadBytes = 1048576.
Proof. reflexivity. Qed.

Lemma readFrame_encode_aux stream payload rest e :
  is_stream stream → zlen payload <= maxFramePayloadBytes →
  readFrame (MkReader (encode_frame (stream, payload) ++ rest) e)
    = Ok (stream, payload, MkReader rest e).
Proof.
  intros Hs Hp. pose proof (zlen_nonneg payload). rewrite maxFramePayloadBytes_val in Hp.
  unfold readFrame, encode_frame, frame_of. cbn [fst snd]. rewrite <- app_assoc.
  rewrite ReadFull_app by done.
  change (skipn 4 _) with
    (map (λ k, ascii_of_nat (Z.to_nat (Z.land (Z.shiftr (zlen payload) k) 255))) [24; 16; 8; 0]).
  rewrite BigEndian_split by lia. rewrite maxFramePayloadBytes_val.
  rewrite (proj2 (Z.ltb_ge _ _)) by lia.
  assert (Z.to_nat (zlen payload) = List.length payload) as -> by (unfold zlen; lia).
  destruct Hs as [-> | ->]; cbn [stream_type]; simpl;
    (destruct payload as [|c p]; [done|]; cbn [List.length]; by rewrite ReadFull_app).
Qed.

(** ** Whole streams *)

Definition of_stream (k : string) (ls : list LogLine) : list LogLine :=
  List.filter (λ l, bool_decide (ll_Stream l = k)) ls.

(** The bytes of one stream, its frames put together. *)
Definition stream_bytes (k : string) (fs : list (string * list ascii)) : list ascii :=
  List.concat (map snd (List.filter (λ f, bool_decide (f.1 = k)) fs)).

Lemma ll_Stream_mkLine k l t : ll_Stream (mkLine k l t) = k.
Proof. unfold mkLine. by destruct (extractTimestamp _). Qed.

Lemma of_stream_app k a b : of_stream k (a ++ b) = of_stream k a ++ of_stream k b.
Proof. apply List.filter_app. Qed.

Definition all_stream (k : string) (ls : list LogLine) : Prop := Forall (λ l, ll_Stream l = k) ls.

Lemma of_stream_all k ls : all_stream k ls → of_stream k ls = ls.
Proof.
  intros H. apply filter_true_id. intros x Hx.
  apply bool_decide_eq_true. revert x Hx. by apply List.Forall_forall.
Qed.
Lemma of_stream_other k k' ls : k ≠ k' → all_stream k' ls → of_stream k ls = [].
Proof.
  intros Hk. induction 1 as [|l ls Hl _ IH]; simpl; [done|].
  rewrite bool_decide_eq_false_2 by congruence. done.
Qed.

Lemma all_stream_cut k ss last :
  all_stream k (map (cut_line k) ss ++ early k last).
Proof.
  apply Forall_app. split.
  - apply Forall_map, Forall_true. intros x. apply ll_Stream_mkLine.
  - unfold early. case_match; repeat constructor. apply ll_Stream_mkLine.
Qed.

Abbreviation collected := (λ (l : LogLine) (ls : list LogLine), ls ++ [l]).

Lemma emits_collect E s : emits collected E s = s ++ E.
Proof.
  revert s. induction E as [|l E IH]; intros s; simpl; [by rewrite app_nil_r|].
  rewrite IH. by rewrite <- app_assoc.
Qed.

(** The invariant of the demultiplexer: after the frames [fs], each stream's
    splitter state is that of its current line, and what was emitted for it is
    its terminated lines (and its current one, once too long). *)
Definition demux_inv (fs : list (string * list ascii)) (sp : lineSplitter) (out : list LogLine) : Prop :=
  ∀ k, tracks sp k (segments [] (stream_bytes k fs)).2 ∧
       of_stream k out
         = map (cut_line k) (segments [] (stream_bytes k fs)).1
           ++ early k (segments [] (stream_bytes k fs)).2.

Lemma stream_bytes_snoc k fs f :
  stream_bytes k (fs ++ [f])
    = stream_bytes k fs ++ (if bool_decide (f.1 = k) then f.2 else []).
Proof.
  unfold stream_bytes. rewrite List.filter_app, map_app, List.concat_app. f_equal. simpl.
  case_match; simpl; [by rewrite app_nil_r|done].
Qed.

Lemma demux_inv_push fs sp out stream payload :
  demux_inv fs sp out →
  ∃ sp' out', push collect stream payload sp out = (Ok tt, (sp', out')) ∧
    demux_inv (fs ++ [(stream, payload)]) sp' out'.
Proof.
  intros Hinv.
  destruct (push_spec collect collected (λ _ _, eq_refl) stream payload sp out
              _ (proj1 (Hinv stream))) as (E & sp' & HE & Htr & Hoth & HS).
  exists sp', (out ++ E). rewrite HE, emits_collect. split; [done|].
  assert (all_stream stream E) as HallE.
  { pose proof (all_stream_cut stream) as Hc. unfold all_stream in *.
    eapply proj2. rewrite <- Forall_app, HS. apply Hc. }
  intros k. rewrite stream_bytes_snoc, of_stream_app. cbn [fst snd].
  destruct (Hinv k) as [Hk1 Hk2]. case_bool_decide as Hk.
  - subst k. rewrite segments_app. cbn [fst snd]. split; [done|].
    rewrite Hk2, (of_stream_all _ E) by done.
    by rewrite <- app_assoc, HS, map_app, app_assoc.
  - rewrite app_nil_r, (of_stream_other k stream E) by done. rewrite app_nil_r.
    split; [|done]. eapply tracks_other; [|exact Hoth|done]. congruence.
Qed.

Lemma flush_keys_collect keys sp out :
  NoDup keys →
  ∃ sp' F, flush_keys collect keys sp out = (Ok tt, (sp', out ++ F)) ∧
    ∀ k, of_stream k F =
      match sp !! k with
      | Some st => if bool_decide (k ∈ keys) then
          match buf st with [] => [] | _ :: _ => [mkLine k (buf st) false] end else []
      | None => []
      end.
Proof.
  intros Hnd. revert sp out. induction Hnd as [|k0 keys Hk0 Hnd IH]; intros sp out.
  { exists sp, []. simpl. rewrite app_nil_r. split; [done|]. intros k.
    by destruct (sp !! k). }
  assert (∀ k, k ≠ k0 → (k ∈ k0 :: keys ↔ k ∈ keys)) as Hmem.
  { intros k Hne. rewrite elem_of_cons. naive_solver. }
  cbn [flush_keys]. destruct (sp !! k0) as [st|] eqn:Hst.
  - destruct (buf st) as [|b bs] eqn:Hb.
    + destruct (IH sp out) as (sp' & F & HF & HS). exists sp', F. split; [done|].
      intros k. rewrite HS. destruct (decide (k = k0)) as [->|Hne].
      * rewrite Hst, Hb. by repeat case_bool_decide.
      * destruct (sp !! k) eqn:?; [|done]. by rewrite (bool_decide_ext _ _ (Hmem k Hne)).
    + destruct (IH (<[k0:=MkLineState [] (discarding st)]> sp) (out ++ [mkLine k0 (b :: bs) false]))
        as (sp' & F & HF & HS).
      exists sp', (mkLine k0 (b :: bs) false :: F). unfold emitLine.
      change (collect (mkLine k0 (b :: bs) false) out)
        with (@Ok unit tt, out ++ [mkLine k0 (b :: bs) false]).
      cbn beta iota. rewrite HF.
      split; [by rewrite <- app_assoc|].
      intros k. simpl. rewrite ll_Stream_mkLine, HS.
      destruct (decide (k = k0)) as [->|Hne].
      * rewrite bool_decide_eq_true_2 by done. rewrite lookup_insert_eq, Hst, Hb.
        rewrite (bool_decide_eq_true_2 (k0 ∈ k0 :: keys)) by set_solver. simpl.
        by case_match.
      * rewrite bool_decide_eq_false_2 by done. rewrite lookup_insert_ne by done.
        destruct (sp !! k) eqn:?; [|done]. by rewrite (bool_decide_ext _ _ (Hmem k Hne)).
  - destruct (IH sp out) as (sp' & F & HF & HS). exists sp', F. split; [done|].
    intros k. rewrite HS. destruct (decide (k = k0)) as [->|Hne]; [by rewrite Hst|].
    destruct (sp !! k) eqn:?; [|done]. by rewrite (bool_decide_ext _ _ (Hmem k Hne)).
Qed.

Section Wire.
Context (range_order : lineSplitter → list string).
Context (Hrange : ∀ sp, range_order sp ≡ₚ keys_of sp).

Lemma elem_of_range_order sp k : k ∈ range_order sp ↔ is_Some (sp !! k).
Proof.
  rewrite Hrange. unfold keys_of. rewrite list_elem_of_fmap. split.
  - intros ([k' v] & -> & H%elem_of_map_to_list). by eexists.
  - intros [v Hv]. exists (k, v). split; [done|]. by apply elem_of_map_to_list.
Qed.

Lemma flush_reference fs sp out :
  demux_inv fs sp out →
  ∃ out', flush collect range_order sp out = (Ok tt, out') ∧
    ∀ k, of_stream k out' = reference_lines k (stream_bytes k fs).
Proof.
  intros Hinv. unfold flush.
  destruct (flush_keys_collect (range_order sp) sp out) as (sp' & F & HF & HS).
  { rewrite Hrange. apply NoDup_fst_map_to_list. }
  rewrite HF. eexists. split; [done|]. intros k. rewrite of_stream_app, HS.
  destruct (Hinv k) as [Htr ->]. unfold reference_lines, tracks in *.
  destruct (segments [] (stream_bytes k fs)) as [ss last]. cbn [fst snd] in *.
  rewrite <- app_assoc. f_equal.
  destruct (sp !! k) as [st|] eqn:Hst.
  - rewrite bool_decide_eq_true_2 by (rewrite elem_of_range_order; eauto). subst st.
    destruct (Z.le_gt_cases (zlen last) maxLogLineBytes).
    + rewrite early_short, line_of_short by done. cbn [buf].
      destruct last; [done|]. by rewrite cut_line_short.
    + rewrite early_long, line_of_long by lia. cbn [buf].
      destruct last; [|done]. rewrite (@zlen_nil ascii) in *.
      pose proof maxLogLineBytes_val. lia.
  - by subst last.
Qed.

Definition wire_frame (f : string * list ascii) : Prop :=
  is_stream f.1 ∧ zlen f.2 <= maxFramePayloadBytes.

Lemma demux_loop_reference rs fs sp out fuel :
  Forall wire_frame rs →
  (List.length (List.concat (map encode_frame rs)) < fuel)%nat →
  demux_inv fs sp out →
  ∃ out', demux_loop collect range_order fuel
            (MkReader (List.concat (map encode_frame rs)) (Sentinel IoEOF)) sp out
            = Some (Ok tt, out') ∧
    ∀ k, of_stream k out' = reference_lines k (stream_bytes k (fs ++ rs)).
Proof.
  intros Hrs. revert fs sp out fuel.
  induction Hrs as [|[stream payload] rs [Hstr Hlen] _ IH]; intros fs sp out fuel Hfuel Hinv.
  - destruct fuel as [|fuel]; [simpl in Hfuel; lia|].
    destruct (flush_reference fs sp out Hinv) as (out' & Hf & HS).
    exists out'. cbn. rewrite Hf, app_nil_r. done.
  - destruct fuel as [|fuel]; [lia|]. cbn [map List.concat] in *.
    cbn [demux_loop]. rewrite readFrame_encode_aux by done.
    destruct (demux_inv_push fs sp out stream payload Hinv) as (sp' & out' & HP & Hinv').
    rewrite HP. rewrite length_app in Hfuel. cbn in Hfuel.
    destruct (IH (fs ++ [(stream, payload)]) sp' out' fuel) as (o & Ho & HS); [lia|done|].
    exists o. rewrite <- app_assoc in HS. done.
Qed.
End Wire.

Lemma demux_inv_empty : demux_inv [] newLineSplitter [].
Proof. intros k. split; done. Qed.

(** ** Termination and bounds, for any input *)

Lemma ReadFull_shrinks n r a r' :
  ReadFull n r = Ok (a, r') → (List.length (rd_data r') + n = List.length (rd_data r))%nat.
Proof.
  unfold ReadFull. destruct (Nat.leb_spec n (List.length (rd_data r))).
  - intros [= <- <-]. cbn [rd_data]. rewrite length_skipn. lia.
  - by repeat case_match.
Qed.

Lemma readFrame_shrinks r stream payload r' :
  readFrame r = Ok (stream, payload, r') →
  (List.length (rd_data r') < List.length (rd_data r))%nat.
Proof.
  unfold readFrame. destruct (ReadFull frameHeaderLen r) as [[h r1]|] eqn:Hh; [|done].
  apply ReadFull_shrinks in Hh. unfold frameHeaderLen in Hh.
  intros H. repeat (case_match; simplify_eq; try lia);
  match goal with H : ReadFull (S _) _ = Ok _ |- _ => apply ReadFull_shrinks in H; lia end.
Qed.

Lemma demux_loop_total {W} (emit : LogLine → Comp W unit) order fuel r sp s :
  (List.length (rd_data r) < fuel)%nat → is_Some (demux_loop emit order fuel r sp s).
Proof.
  revert r sp s. induction fuel as [|fuel IH]; intros r sp s H; [lia|]. cbn [demux_loop].
  destruct (readFrame r) as [[[stream payload] r']|e] eqn:Hr; [|by case_match].
  apply readFrame_shrinks in Hr.
  destruct (push _ _ _ _ _) as [[?|?] [??]]; [|done]. apply IH. lia.
Qed.

(** Every buffer of the splitter stays within the cap. *)
Definition bounded (sp : lineSplitter) : Prop :=
  ∀ k st, sp !! k = Some st → zlen (buf st) <= maxLogLineBytes.

Lemma bounded_insert sp k st :
  bounded sp → zlen (buf st) <= maxLogLineBytes → bounded (<[k := st]> sp).
Proof.
  intros Hb Hst k' st'. rewrite lookup_insert. case_decide; [|apply Hb].
  by intros [= <-].
Qed.

Lemma bounded_empty : bounded newLineSplitter.
Proof. intros k st H. unfold newLineSplitter in H. by rewrite lookup_empty in H. Qed.

Lemma bounded_state sp k :
  bounded sp → bounded (splitter_state sp k).2 ∧ zlen (buf (splitter_state sp k).1) <= maxLogLineBytes.
Proof.
  intros Hb. unfold splitter_state. destruct (sp !! k) as [st|] eqn:Hk; cbn [fst snd].
  - split; [done|by eapply Hb].
  - pose proof maxLogLineBytes_val. split; [|cbn [buf]; rewrite (@zlen_nil ascii); lia].
    apply bounded_insert; [done|]. cbn [buf]. rewrite (@zlen_nil ascii). lia.
Qed.

(** A line that fits in the cap, whatever the timestamp extraction took. *)
Definition short_line (l : LogLine) : Prop := Z.of_nat (String.length (ll_Line l)) <= maxLogLineBytes.

Lemma length_take_bytes n s : (String.length (take_bytes n s) <= String.length s)%nat.
Proof. revert n. induction s as [|c s IH]; intros [|n]; simpl; try lia. specialize (IH n). lia. Qed.

Lemma length_cut sep s a b : cut sep s = Some (a, b) → (String.length b <= String.length s)%nat.
Proof.
  revert a b. induction s as [|c s IH]; intros a b; simpl; [done|].
  case_match; [intros [= <- <-]; lia|].
  destruct (cut sep s) as [[a' b']|]; [|done]. intros [= <- <-].
  specialize (IH a' b' eq_refl). lia.
Qed.

Lemma length_of_bytes l : String.length (of_bytes l) = List.length l.
Proof. by rewrite <- length_bytes, bytes_of_bytes. Qed.

Lemma short_mkLine k l t : zlen l <= maxLogLineBytes → short_line (mkLine k l t).
Proof.
  intros H. unfold short_line, mkLine, extractTimestamp.
  set (text := trim_suffix _ _).
  assert (String.length text <= List.length l)%nat as Ht.
  { unfold text, trim_suffix. rewrite <- length_of_bytes. case_match; [|lia].
    apply length_take_bytes. }
  unfold zlen in H. clearbody text. destruct (cut " " text) as [[p r]|] eqn:Hc; cbn [ll_Line]; [|lia].
  apply length_cut in Hc. destruct (parse_rfc3339nano p); cbn [ll_Line]; lia.
Qed.

Section Bounds.
Context {W : Type} (emit : LogLine → Comp W unit) (I : W → Prop).
Context (Hemit : ∀ l s, short_line l → I s → I (emit l s).2).

Lemma push_loop_bounded fuel stream data sp s :
  bounded sp → I s →
  bounded (push_loop emit fuel stream data sp s).2.1 ∧
  I (push_loop emit fuel stream data sp s).2.2.
Proof.
  revert data sp s. induction fuel as [|fuel IH]; intros data sp s Hb Hs.
  { by destruct data. }
  destruct data as [|c data]; [done|]. cbn [push_loop]. set (d := c :: data).
  destruct (bounded_state sp stream Hb) as [_ Hbuf].
  set (st := (splitter_state sp stream).1) in *.
  pose proof maxLogLineBytes_val as Hmax.
  assert (∀ b, bounded (<[stream := MkLineState [] b]> sp)) as Hreset.
  { intros b. apply bounded_insert; [done|]. cbn [buf]. rewrite (@zlen_nil ascii). lia. }
  destruct (match cut_nl d with Some (a, b) => (a, b, true) | None => (d, [], false) end)
    as [[chunk rest] hasNewline].
  destruct (discarding st).
  { apply IH; [|done]. case_match; [|done]. by apply bounded_insert. }
  set (space := Z.max 0 (maxLogLineBytes - zlen (buf st))).
  set (line := buf st ++ _).
  assert (zlen line <= maxLogLineBytes) as Hline.
  { unfold line, space. rewrite zlen_app.
    destruct (Z.ltb_spec (Z.max 0 (maxLogLineBytes - zlen (buf st))) (zlen chunk)); [|lia].
    unfold zlen in *. rewrite length_firstn. lia. }
  assert (bounded (<[stream := MkLineState line false]> sp)) as Hsp1 by (by apply bounded_insert).
  assert (∀ t, I (emit (mkLine stream line t) s).2) as He.
  { intros t. apply Hemit; [by apply short_mkLine|done]. }
  unfold emitLine.
  destruct (space <? zlen chunk); [|destruct hasNewline; [|by apply IH]].
  - specialize (He true). destruct (emit _ s) as [[?|?] s']; [|done]. by apply IH.
  - specialize (He false). destruct (emit _ s) as [[?|?] s']; [|done]. by apply IH.
Qed.

Lemma push_bounded stream payload sp s :
  bounded sp → I s →
  bounded (push emit stream payload sp s).2.1 ∧ I (push emit stream payload sp s).2.2.
Proof. intros Hb Hs. apply push_loop_bounded; [by apply bounded_state|done]. Qed.

Lemma flush_keys_bounded keys sp s :
  bounded sp → I s → I (flush_keys emit keys sp s).2.2.
Proof.
  revert sp s. induction keys as [|k keys IH]; intros sp s Hb Hs; [done|].
  cbn [flush_keys]. destruct (sp !! k) as [st|] eqn:Hst; [|by apply IH].
  destruct (buf st) as [|b bs] eqn:Hbuf; [by apply IH|].
  assert (zlen (b :: bs) <= maxLogLineBytes) as Hl by (rewrite <- Hbuf; by eapply Hb).
  pose proof (Hemit (mkLine k (b :: bs) false) s (short_mkLine _ _ _ Hl) Hs) as He.
  unfold emitLine. destruct (emit _ s) as [[?|?] s']; [|done].
  apply IH; [|done]. apply bounded_insert; [done|].
  pose proof maxLogLineBytes_val. cbn [buf]. rewrite (@zlen_nil ascii). lia.
Qed.

Lemma demux_loop_bounded order fuel r sp s res :
  bounded sp → I s → demux_loop emit order fuel r sp s = Some res → I res.2.
Proof.
  revert r sp s. induction fuel as [|fuel IH]; intros r sp s Hb Hs; [done|].
  cbn [demux_loop]. destruct (readFrame r) as [[[stream payload] r']|e].
  - destruct (push_bounded stream payload sp s Hb Hs) as [Hb' Hs'].
    destruct (push _ _ _ _ _) as [[?|?] [sp' s']]; [by apply IH|]. by intros [= <-].
  - case_match; intros [= <-]; [|done]. unfold flush.
    pose proof (flush_keys_bounded (order sp) sp s Hb Hs) as HF.
    by destruct (flush_keys _ _ _ _) as [? [? ?]].
Qed.
End Bounds.

(** Where the loop of [demuxNonTTY] is after [n] frames, unless it has returned. *)
Fixpoint demux_after {W} (emit : LogLine → Comp W unit) (n : nat) (r : reader) (sp : lineSplitter) (s : W)
    : option (reader * lineSplitter * W) :=
  match n with
  | O => Some (r, sp, s)
  | S n' =>
      match readFrame r with
      | Err _ => None
      | Ok (stream, payload, r') =>
          match push emit stream payload sp s with
          | (Err _, _) => None
          | (Ok _, (sp', s')) => demux_after emit n' r' sp' s'
          end
      end
  end.

(** A buffer per stream of the Engine at most, each within the cap. *)
Definition held (sp : lineSplitter) : Prop :=
  ∀ k st, sp !! k = Some st → is_stream k ∧ zlen (buf st) <= maxLogLineBytes.

Lemma held_empty : held newLineSplitter.
Proof. intros k st H. unfold newLineSplitter in H. by rewrite lookup_empty in H. Qed.

Lemma readFrame_wire r k payload r' : readFrame r = Ok (k, payload, r') → wire_frame (k, payload).
Proof.
  unfold readFrame, wire_frame, is_stream. cbn [fst snd]. pose proof maxFramePayloadBytes_val as Hmax.
  destruct (ReadFull frameHeaderLen r) as [[header r1]|e]; [|done].
  set (ty := match header with c :: _ => byte_val c | [] => 0 end).
  destruct (if ty =? 1 then Some streamStdout else if ty =? 2 then Some streamStderr else None) as [stream|] eqn:Hs; [|done].
  assert (stream = streamStdout ∨ stream = streamStderr) as Hst
    by (destruct (ty =? 1); [|destruct (ty =? 2)]; naive_solver).
  destruct (Z.ltb_spec maxFramePayloadBytes (BigEndian_Uint32 (skipn 4 header))); [done|].
  destruct (Z.to_nat (BigEndian_Uint32 (skipn 4 header))) as [|n] eqn:Hn.
  { intros [= <- <- _]. split; [done|]. rewrite (@zlen_nil ascii). lia. }
  unfold ReadFull. destruct (Nat.leb_spec (S n) (List.length (rd_data r1))).
  - intros [= <- <- _]. split; [done|]. unfold zlen. rewrite length_firstn. lia.
  - repeat case_match; done.
Qed.

Lemma push_loop_keys {W} (emit : LogLine → Comp W unit) fuel stream data sp s k :
  is_Some ((push_loop emit fuel stream data sp s).2.1 !! k) → k = stream ∨ is_Some (sp !! k).
Proof.
  revert data sp s. induction fuel as [|fuel IH]; intros data sp s; [destruct data; by right|].
  destruct data as [|c data]; [by right|]. cbn [push_loop].
  assert (Hins : ∀ st, is_Some (<[stream := st]> sp !! k) → k = stream ∨ is_Some (sp !! k)).
  { intros st. rewrite lookup_insert. case_decide; [by left|by right]. }
  assert (Hrec : ∀ rest st s', is_Some ((push_loop emit fuel stream rest (<[stream := st]> sp) s').2.1 !! k) →
    k = stream ∨ is_Some (sp !! k)).
  { intros rest st s' [?|H]%IH; [by left|by eapply Hins]. }
  destruct (match cut_nl _ with Some (a, b) => (a, b, true) | None => _ end) as [[chunk rest] hasNewline].
  destruct (discarding _); [destruct hasNewline; [apply Hrec|apply IH]|].
  unfold emitLine. destruct (_ <? zlen chunk); [|destruct hasNewline; [|apply Hrec]];
    destruct (emit _ s) as [[?|?] s']; [apply Hrec|apply Hins|apply Hrec|apply Hins].
Qed.

Lemma push_held {W} (emit : LogLine → Comp W unit) k payload sp s :
  is_stream k → held sp → held (push emit k payload sp s).2.1.
Proof.
  intros Hk Hh k' st Hst. split.
  - destruct (push_loop_keys emit (List.length payload) k payload (splitter_state sp k).2 s k') as [-> | [st' Hst']];
      [by eexists|done|]. unfold splitter_state in Hst'. destruct (sp !! k) eqn:Hsp; cbn [snd] in Hst'.
    + by eapply Hh.
    + revert Hst'. rewrite lookup_insert. case_decide; [by subst|]. intros Hl. by eapply Hh.
  - eapply (push_bounded emit (λ _, True)); [done| |done|exact Hst].
    intros k0 st0 H0. by eapply Hh.
Qed.

Lemma demux_after_held {W} (emit : LogLine → Comp W unit) n r sp s r' sp' s' :
  held sp → demux_after emit n r sp s = Some (r', sp', s') → held sp'.
Proof.
  revert r sp s. induction n as [|n IH]; intros r sp s Hh; cbn [demux_after]; [by intros [= _ <- _]|].
  destruct (readFrame r) as [[[k payload] r1]|e] eqn:Hr; [|done].
  destruct (readFrame_wire _ _ _ _ Hr) as [Hk _]. pose proof (push_held emit k payload sp s Hk Hh) as Hp.
  destruct (push _ _ _ _ _) as [[?|?] [sp1 s1]]; [|done]. by apply IH.
Qed.

Lemma demux_after_loop {W} (emit : LogLine → Comp W unit) order n fuel r sp s r' sp' s' :
  demux_after emit n r sp s = Some (r', sp', s') →
  demux_loop emit order (n + fuel) r sp s = demux_loop emit order fuel r' sp' s'.
Proof.
  revert r sp s. induction n as [|n IH]; intros r sp s; cbn [demux_after Nat.add]; [by intros [= <- <- <-]|].
  cbn [demux_loop]. destruct (readFrame r) as [[[k payload] r1]|e]; [|done].
  destruct (push _ _ _ _ _) as [[?|?] [sp1 s1]]; [|done]. apply IH.
Qed.

(** ** The properties *)

(** C27 The demultiplexer gives, stream by stream, the lines of the reference:
    whatever the frames cut the bytes into and however the two streams
    interleave, a stream's emitted lines are those of its bytes split at
    newlines, each cut at 8 KiB, with the unterminated last line included. *)
Theorem demuxNonTTY_lines
    (range_order : lineSplitter → list string)
    (Hrange : ∀ sp, range_order sp ≡ₚ keys_of sp)
    (fs : list (string * list ascii)) (Hfs : Forall wire_frame fs) :
  ∃ out, demuxNonTTY collect range_order
           (MkReader (List.concat (map encode_frame fs)) (Sentinel IoEOF)) [] = (Ok tt, out) ∧
    ∀ k, of_stream k out = reference_lines k (stream_bytes k fs).
Proof.
  destruct (demux_loop_reference range_order Hrange fs [] newLineSplitter []
    (S (List.length (List.concat (map encode_frame fs))))) as (out & Ho & HS);
    [done|lia|apply demux_inv_empty|].
  exists out. unfold demuxNonTTY. cbn [rd_data]. by rewrite Ho.
Qed.

Lemma demuxNonTTY_lines_witness :
  ∃ out, demuxNonTTY collect keys_of
           (MkReader (List.concat (map encode_frame
              [(streamStdout, bytes "ab"); (streamStderr, bytes "x"); (streamStdout, bytes "c")]))
              (Sentinel IoEOF)) [] = (Ok tt, out) ∧
    ∀ k, of_stream k out = reference_lines k (stream_bytes k
      [(streamStdout, bytes "ab"); (streamStderr, bytes "x"); (streamStdout, bytes "c")]).
Proof.
  apply (demuxNonTTY_lines keys_of).
  - intros sp. reflexivity.
  - repeat constructor; vm_compute; discriminate.
Defined.

(** C28 Reading a log stream terminates and takes bounded memory on any input.
    Whatever the bytes, and for an [emit] that passes a line on or drops it,
    failing or not: the loop of [demuxNonTTY] always runs to its end; wherever it
    is, after any number of frames, it holds a buffer for each of the two streams
    at most, of at most 8 KiB, though no newline ever comes, and so it does while
    the next frame, of at most 1 MiB, is taken in, even when [emit] fails half
    way; and every line it emits is at most 8 KiB. *)
Theorem demuxNonTTY_bounded (order : lineSplitter → list string) (r : reader)
    (emit : LogLine → Comp (list LogLine) unit)
    (Hemit : ∀ l s, (emit l s).2 = s ∨ (emit l s).2 = s ++ [l]) :
  is_Some (demux_loop emit order (S (List.length (rd_data r))) r newLineSplitter []) ∧
  (∀ n r' sp s, demux_after emit n r newLineSplitter [] = Some (r', sp, s) →
     (∀ fuel, demux_loop emit order (n + fuel) r newLineSplitter [] = demux_loop emit order fuel r' sp s) ∧
     (∀ k st, sp !! k = Some st → is_stream k ∧ zlen (buf st) <= 8192) ∧
     ∀ k payload r'', readFrame r' = Ok (k, payload, r'') →
       zlen payload <= 1048576 ∧
       ∀ k' st, (push emit k payload sp s).2.1 !! k' = Some st → is_stream k' ∧ zlen (buf st) <= 8192) ∧
  Forall (λ l, Z.of_nat (String.length (ll_Line l)) <= 8192) (demuxNonTTY emit order r []).2.
Proof.
  assert (Hshort : ∀ l s, short_line l → Forall short_line s → Forall short_line (emit l s).2).
  { intros l s Hl Hs. destruct (Hemit l s) as [-> | ->]; [done|]. apply Forall_app; auto. }
  destruct (demux_loop_total emit order (S (List.length (rd_data r))) r newLineSplitter [])
    as [res Hres]; [lia|].
  split; [by rewrite Hres|]. split.
  - intros n r' sp s Hn. split; [intros fuel; by apply demux_after_loop|].
    pose proof (demux_after_held emit n r newLineSplitter [] r' sp s held_empty Hn) as Hheld. split; [exact Hheld|].
    intros k payload r'' Hr. destruct (readFrame_wire _ _ _ _ Hr) as [Hk Hp].
    split; [exact Hp|]. by apply push_held.
  - unfold demuxNonTTY. rewrite Hres.
    by refine (demux_loop_bounded emit (Forall short_line) Hshort order _ r _ [] res bounded_empty _ Hres).
Qed.

Lemma demuxNonTTY_bounded_witness :
  is_Some (demux_loop collect keys_of 5 (MkReader (bytes "abcd") (Sentinel IoEOF)) newLineSplitter []) ∧
  Forall (λ l, Z.of_nat (String.length (ll_Line l)) <= 8192)
    (demuxNonTTY collect keys_of (MkReader (bytes "abcd") (Sentinel IoEOF)) []).2.
Proof.
  destruct (demuxNonTTY_bounded keys_of (MkReader (bytes "abcd") (Sentinel IoEOF)) collect) as (Ht & _ & Hl);
    [intros l s; right; reflexivity|by split].
Defined.

(** Frame codec: a frame the Engine writes is read back exactly, leaving the
    rest of the stream; the same frame cut anywhere after its first byte is
    reported as [io.ErrUnexpectedEOF], never as a clean end. *)
Theorem readFrame_roundtrip (stream : string) (payload rest : list ascii) (e : error) (n : nat)
    (Hs : is_stream stream) (Hp : zlen payload <= maxFramePayloadBytes)
    (Hn : (0 < n < List.length (encode_frame (stream, payload)))%nat) :
  readFrame (MkReader (encode_frame (stream, payload) ++ rest) e)
    = Ok (stream, payload, MkReader rest e) ∧
  readFrame (MkReader (firstn n (encode_frame (stream, payload))) (Sentinel IoEOF))
    = Err (Sentinel IoErrUnexpectedEOF).
Proof.
  split; [by apply readFrame_encode_aux|].
  pose proof (zlen_nonneg payload). rewrite maxFramePayloadBytes_val in Hp.
  unfold encode_frame, frame_of in *. cbn [fst snd] in *.
  rewrite length_app in Hn. unfold readFrame.
  destruct (le_lt_dec 8 n) as [H8|H8].
  - rewrite firstn_app, firstn_all2 by (cbn; lia). rewrite ReadFull_app by done.
    change (skipn 4 _) with
      (map (λ k, ascii_of_nat (Z.to_nat (Z.land (Z.shiftr (zlen payload) k) 255))) [24; 16; 8; 0]).
    rewrite BigEndian_split by lia. rewrite maxFramePayloadBytes_val.
    rewrite (proj2 (Z.ltb_ge _ _)) by lia.
    assert (Z.to_nat (zlen payload) = List.length payload) as -> by (unfold zlen; lia).
    cbn in Hn.
    assert (ReadFull (List.length payload) (MkReader (firstn (n - 8) payload) (Sentinel IoEOF))
      = Err (Sentinel IoEOF) ∨
      ReadFull (List.length payload) (MkReader (firstn (n - 8) payload) (Sentinel IoEOF))
      = Err (Sentinel IoErrUnexpectedEOF)) as HR.
    { unfold ReadFull. cbn [rd_data rd_end].
      rewrite (proj2 (Nat.leb_gt _ _)) by (rewrite length_firstn; lia).
      destruct (firstn (n - 8) payload); auto. }
    cbn [List.length] in *.
    destruct Hs as [-> | ->]; cbn [stream_type]; simpl;
      (destruct payload as [|c p]; [simpl in *; lia|]); cbn [List.length] in *;
      destruct HR as [-> | ->]; done.
  - rewrite firstn_app. replace (n - _)%nat with 0%nat by (cbn; lia).
    rewrite firstn_O, app_nil_r. unfold ReadFull. cbn [rd_data rd_end].
    rewrite (proj2 (Nat.leb_gt _ _)) by (rewrite length_firstn; unfold frameHeaderLen; cbn; lia).
    destruct n; [lia|]. done.
Qed.

Lemma readFrame_roundtrip_witness :
  readFrame (MkReader (encode_frame (streamStderr, bytes "hi") ++ bytes "!") (Sentinel IoEOF))
    = Ok (streamStderr, bytes "hi", MkReader (bytes "!") (Sentinel IoEOF)) ∧
  readFrame (MkReader (firstn 9 (encode_frame (streamStderr, bytes "hi"))) (Sentinel IoEOF))
    = Err (Sentinel IoErrUnexpectedEOF).
Proof.
  apply readFrame_roundtrip; [right; reflexivity | vm_compute; discriminate | vm_compute; lia].
Defined.
