(* ===== verification/Policy.v ===== *)
(** * Policy: the agent's permission tiers (internal/policy/mode.go)

    A [Mode] is fixed at startup; [Allows] is the one question every guarded
    route asks of it. *)
From S2P Require Import Prelude.

(** [type Mode int]: any integer is a value of the type. *)
Abbreviation Mode := Z (only parsing).
Definition ModeReadOnly : Mode := 0.
Definition ModeDefault : Mode := 1.
Definition ModeFull : Mode := 2.

(** [type Operation string] *)
Abbreviation Operation := string (only parsing).
Definition OpRead : Operation := "read".
Definition OpLogs : Operation := "logs".
Definition OpStart : Operation := "start".
Definition OpRestart : Operation := "restart".
Definition OpStop : Operation := "stop".
Definition OpKill : Operation := "kill".
Definition OpDelete : Operation := "delete".

Definition nameReadOnly : string := "read-only".
Definition nameDefault : string := "default".
Definition nameFull : string := "full".

Definition minMode : gmap string Mode :=
  list_to_map
    [(OpRead, ModeReadOnly);
     (OpLogs, ModeReadOnly);
     (OpStart, ModeDefault);
     (OpRestart, ModeDefault);
     (OpStop, ModeDefault);
     (OpKill, ModeFull);
     (OpDelete, ModeFull)].

(** [func (m Mode) Allows(op Operation) bool] *)
Definition Allows (m : Mode) (op : Operation) : bool :=
  match minMode !! op with
  | Some mn => mn <=? m
  | None => false
  end.

(** [func (m Mode) String() string] *)
Definition Mode_String (m : Mode) : string :=
  if m =? ModeReadOnly then nameReadOnly
  else if m =? ModeDefault then nameDefault
  else if m =? ModeFull then nameFull
  else "unknown(" +:+ pretty m +:+ ")".

(** [func ParseMode(s string) (Mode, error)]: both results are returned, and
    the caller in internal/config uses the mode whatever the error. *)
Definition ParseMode (s : string) : Mode * option error :=
  if bool_decide (s = "") then (ModeDefault, None)
  else if bool_decide (s = nameReadOnly) then (ModeReadOnly, None)
  else if bool_decide (s = nameDefault) then (ModeDefault, None)
  else if bool_decide (s = nameFull) then (ModeFull, None)
  else (ModeDefault,
        Some (Leaf (s +:+ " is not a valid policy mode (want one of: "
                    +:+ join ", " [nameReadOnly; nameDefault; nameFull] +:+ ")"))).

(** ** Properties *)

(** The operations of each tier, as README.md tabulates them. *)
Definition tier_ops (m : Mode) : list Operation :=
  if m <? 0 then []
  else if m =? 0 then [OpRead; OpLogs]
  else if m =? 1 then [OpRead; OpLogs; OpStart; OpRestart; OpStop]
  else [OpRead; OpLogs; OpStart; OpRestart; OpStop; OpKill; OpDelete].

Lemma minMode_lookup op :
  minMode !! op =
    (if bool_decide (op = OpRead) then Some 0 else if bool_decide (op = OpLogs) then Some 0
     else if bool_decide (op = OpStart) then Some 1 else if bool_decide (op = OpRestart) then Some 1
     else if bool_decide (op = OpStop) then Some 1 else if bool_decide (op = OpKill) then Some 2
     else if bool_decide (op = OpDelete) then Some 2 else None).
Proof.
  unfold minMode. cbn [list_to_map foldr fst snd]. rewrite !lookup_insert, lookup_empty.
  repeat (case_decide; case_bool_decide; simplify_eq; try done).
Qed.

Lemma Allows_monotone (m m' : Mode) (op : Operation) :
  m <= m' → Allows m op = true → Allows m' op = true.
Proof. unfold Allows. destruct (minMode !! op); [lia | done]. Qed.

(** An operation is permitted exactly when it is in the mode's row of the
    table (so an operation nobody registered is denied by every mode), and a
    higher tier permits whatever a lower one does. *)
Theorem Allows_table (m : Mode) (op : Operation) :
  (Allows m op = true ↔ op ∈ tier_ops m) ∧
  ∀ m', m <= m' → Allows m op = true → Allows m' op = true.
Proof.
  split; [|intros m'; apply Allows_monotone].
  unfold Allows, tier_ops. rewrite minMode_lookup.
  repeat case_bool_decide; subst;
    (destruct (Z.ltb_spec m 0); [|destruct (Z.eqb_spec m 0); [|destruct (Z.eqb_spec m 1)]]);
    rewrite ?Z.leb_le, ?elem_of_cons, ?elem_of_nil;
    (split; [intros ?; try discriminate; try lia; try naive_solver
            |intros ?; repeat match goal with H : _ ∨ _ |- _ => destruct H end;
             try done; try lia; exfalso; simplify_eq]).
Qed.

(** Parsing the name of a tier gives that tier back without an error, a name
    outside the three (and the empty string, which is the default tier) is an
    error, and whatever happens the mode returned is a tier no wider than the
    one asked for or the default. *)
Theorem ParseMode_String (s : string) :
  (∀ m, 0 <= m <= 2 → ParseMode (Mode_String m) = (m, None)) ∧
  ((ParseMode s).2 = None ↔ s ∈ ["" ; nameReadOnly; nameDefault; nameFull]) ∧
  ((ParseMode s).1 = ModeFull → s = nameFull).
Proof.
  split.
  - intros m Hm. assert (m = 0 ∨ m = 1 ∨ m = 2) as [->|[->| ->]] by lia; reflexivity.
  - unfold ParseMode. repeat case_bool_decide; subst; simpl;
      (split; [split; [intros; set_solver|done]|done]) || split; try done;
      split; [done|set_solver].
Qed.
