(* ===== verification/Refs.v ===== *)
(** * Refs: object references and the protected set
    (internal/dockerx/ref.go, internal/dockerx/protected.go)

    [ValidateRef] is the boundary check on every reference that reaches the
    Engine's URL path; [protectedSet] is the operator's
    DEVMON_PROTECTED_CONTAINERS list. *)
From S2P Require Import Prelude.

(** [[A-Za-z0-9_.-]] *)
Definition ref_char (c : ascii) : bool :=
  is_alnum c || Ascii.eqb c "_" || Ascii.eqb c "." || Ascii.eqb c "-".

(** [refPattern]: [^[A-Za-z0-9][A-Za-z0-9_.-]{0,127}$] *)
Definition refPattern (s : string) : bool :=
  match s with
  | "" => false
  | String c s' =>
      is_alnum c && string_forallb ref_char s' && (String.length s' <=? 127)%nat
  end.

(** [func ValidateRef(ref string) error] *)
Definition ValidateRef (ref : string) : result unit :=
  if negb (refPattern ref)
  then Err (wrap ("validate ref " +:+ ref) (Sentinel ErrInvalidRef))
  else Ok tt.

(** [protectedIDPattern]: [^(?:[0-9a-f]{12}|[0-9a-f]{64})$] *)
Definition protectedIDPattern (s : string) : bool :=
  string_forallb is_lower_hex s &&
  ((String.length s =? 12)%nat || (String.length s =? 64)%nat).

Definition shortIDLength : nat := 12.

(** [type protectedSet struct] *)
Record protectedSet : Type := MkProtectedSet {
  ps_names : gset string;
  ps_ids : gset string }.

(** The zero value: nil maps, that match nothing. *)
Definition zero_protectedSet : protectedSet := MkProtectedSet ∅ ∅.

(** [func newProtectedSet(entries []string) protectedSet] *)
Definition newProtectedSet (entries : list string) : protectedSet :=
  foldl (λ p e,
    MkProtectedSet ({[e]} ∪ ps_names p)
      (if protectedIDPattern e then {[e]} ∪ ps_ids p else ps_ids p))
    zero_protectedSet entries.

(** [func trimContainerName(name string) string] (internal/dockerx/events.go) *)
Definition trimContainerName (name : string) : string := trim_prefix "/" name.

(** [func (p protectedSet) matches(id string, names ...string) bool] *)
Definition matches (p : protectedSet) (id : string) (names : list string) : bool :=
  if existsb (λ n, bool_decide (trimContainerName n ∈ ps_names p)) names then true
  else if bool_decide (id ∈ ps_ids p) then true
  else if (shortIDLength <=? String.length id)%nat
       then bool_decide (take_bytes shortIDLength id ∈ ps_ids p)
       else false.

(** [func (p protectedSet) empty() bool] *)
Definition protectedSet_empty (p : protectedSet) : bool := bool_decide (ps_names p = ∅).

(** ** Lemmas *)

Lemma newProtectedSet_spec entries :
  (∀ n, n ∈ ps_names (newProtectedSet entries) ↔ n ∈ entries) ∧
  (∀ i, i ∈ ps_ids (newProtectedSet entries) ↔ i ∈ entries ∧ protectedIDPattern i = true).
Proof.
  unfold newProtectedSet.
  assert (∀ p, (∀ n, n ∈ ps_names (foldl (λ p e,
      MkProtectedSet ({[e]} ∪ ps_names p)
        (if protectedIDPattern e then {[e]} ∪ ps_ids p else ps_ids p)) p entries)
      ↔ n ∈ ps_names p ∨ n ∈ entries) ∧
    (∀ i, i ∈ ps_ids (foldl (λ p e,
      MkProtectedSet ({[e]} ∪ ps_names p)
        (if protectedIDPattern e then {[e]} ∪ ps_ids p else ps_ids p)) p entries)
      ↔ i ∈ ps_ids p ∨ (i ∈ entries ∧ protectedIDPattern i = true))) as H.
  { induction entries as [|e entries IH]; intros p; simpl; [set_solver|].
    destruct (IH (MkProtectedSet ({[e]} ∪ ps_names p)
      (if protectedIDPattern e then {[e]} ∪ ps_ids p else ps_ids p))) as [H1 H2].
    split; intros x.
    - rewrite H1. simpl. set_solver.
    - rewrite H2. simpl. destruct (protectedIDPattern e) eqn:He.
      + rewrite elem_of_union, elem_of_singleton, elem_of_cons. naive_solver.
      + rewrite elem_of_cons. split; [naive_solver|].
        intros [?|[[->|?] ?]]; [by left|congruence|by right]. }
  destruct (H zero_protectedSet) as [H1 H2]. split; intros x.
  - rewrite H1. simpl. set_solver.
  - rewrite H2. simpl. set_solver.
Qed.

Lemma matches_names p id names n :
  n ∈ names → trimContainerName n ∈ ps_names p → matches p id names = true.
Proof.
  intros Hn Hp. unfold matches.
  rewrite (proj2 (existsb_exists _ _)); [done|]. exists n.
  split; [by apply list_elem_of_In|]. by apply bool_decide_eq_true.
Qed.

Lemma string_length_take n s :
  (n <= String.length s)%nat → String.length (take_bytes n s) = n.
Proof.
  revert n. induction s as [|c s IH]; intros [|n]; simpl; intros H; try lia.
  rewrite IH; lia.
Qed.

(** What the operator's list protects: a container is matched exactly when
    one of its names, less one leading slash, is an entry, or its ID is an
    entry of ID shape, or the ID's first twelve characters are such an entry of
    length twelve. *)
Theorem matches_spec (entries : list string) (id : string) (names : list string) :
  matches (newProtectedSet entries) id names = true ↔
    (∃ n, n ∈ names ∧ trimContainerName n ∈ entries) ∨
    (id ∈ entries ∧ protectedIDPattern id = true) ∨
    ((12 <= String.length id)%nat ∧ take_bytes 12 id ∈ entries ∧
     protectedIDPattern (take_bytes 12 id) = true).
Proof.
  destruct (newProtectedSet_spec entries) as [Hn Hi]. unfold matches, shortIDLength.
  set (p := newProtectedSet entries) in *.
  destruct (existsb _ names) eqn:He.
  - apply existsb_exists in He as (n & Hin & Hd). apply bool_decide_eq_true in Hd.
    split; [|done]. intros _. left. exists n. by rewrite list_elem_of_In, <- Hn.
  - assert (¬ ∃ n, n ∈ names ∧ trimContainerName n ∈ entries) as Hno.
    { intros (n & H1 & H2). apply not_true_iff_false in He. apply He, existsb_exists.
      exists n. rewrite <- list_elem_of_In, bool_decide_eq_true, Hn. done. }
    case_bool_decide as Hid; rewrite Hi in Hid; [by split; [auto|]|].
    destruct (Nat.leb_spec 12 (String.length id)).
    + rewrite bool_decide_eq_true, Hi. naive_solver.
    + split; [done|]. intros [?|[?|[? ?]]]; [done|done|lia].
Qed.

(** An entry that does not have the shape of a container ID never protects a
    container by its ID: the container matches through its names or not at all,
    so a short name such as [cafe] cannot match every ID it is a prefix of. *)
Theorem name_entry_never_matches_id (entries : list string) (id : string) (names : list string)
    (Hshape : ∀ e, e ∈ entries → protectedIDPattern e = false)
    (Hnames : ∀ n, n ∈ names → trimContainerName n ∉ entries) :
  matches (newProtectedSet entries) id names = false.
Proof.
  apply not_true_iff_false. rewrite matches_spec.
  intros [(n & H1 & H2)|[[H1 H2]|(_ & H1 & H2)]]; [by eapply Hnames| |];
    apply Hshape in H1; congruence.
Qed.

Lemma name_entry_never_matches_id_witness :
  matches (newProtectedSet ["cafe"])
    "cafe0123456789abcdef0123456789abcdef0123456789abcdef0123456789ab" ["/web"] = false.
Proof.
  apply name_entry_never_matches_id.
  - intros e ->%list_elem_of_singleton. reflexivity.
  - intros n ->%list_elem_of_singleton. vm_compute. intros H. inversion H; inversion H2.
Defined.

(** A byte that can end or split a URL path segment, or start a query. *)
Definition url_special (c : ascii) : bool :=
  Ascii.eqb c "/" || Ascii.eqb c "?" || Ascii.eqb c "#" || Ascii.eqb c "%" ||
  Ascii.eqb c ":" || Ascii.eqb c "\".

Lemma alnum_ref_char c : is_alnum c = true → ref_char c = true.
Proof. unfold ref_char. by intros ->. Qed.

Lemma ref_char_not_special c : ref_char c = true → url_special c = false.
Proof. destruct c as [[] [] [] [] [] [] [] []]; vm_compute; done. Qed.

Lemma forallb_impl {A} (p q : A → bool) l :
  (∀ x, p x = true → q x = true) → forallb p l = true → forallb q l = true.
Proof. intros H. rewrite !forallb_forall. eauto. Qed.

Lemma refPattern_chars s :
  refPattern s = true → forallb ref_char (bytes s) = true ∧ (1 <= String.length s <= 128)%nat.
Proof.
  destruct s as [|c s]; [done|]. simpl. intros H. to_prop.
  split; [|lia]. by rewrite alnum_ref_char.
Qed.

Lemma ValidateRef_error ref e : ValidateRef ref = Err e → errors_is e ErrInvalidRef = true.
Proof. unfold ValidateRef. destruct (negb (refPattern ref)); [|done]. by intros [= <-]. Qed.

(** A reference that passes [ValidateRef] is a single safe path segment:
    between 1 and 128 bytes, none of which separates, escapes or ends a path
    segment, and neither [.] nor [..]; anything else is an error that is
    [ErrInvalidRef]. *)
Theorem ValidateRef_safe (ref : string) :
  (ValidateRef ref = Ok tt →
     (1 <= String.length ref <= 128)%nat ∧ string_existsb url_special ref = false ∧
     ref ≠ "." ∧ ref ≠ "..") ∧
  (ValidateRef ref ≠ Ok tt → ∃ e, ValidateRef ref = Err e ∧ errors_is e ErrInvalidRef = true).
Proof.
  unfold ValidateRef. destruct (refPattern ref) eqn:Hp; cbn [negb].
  - split; [|done]. intros _. destruct (refPattern_chars ref Hp) as [Hc Hl].
    split; [done|]. split.
    + apply not_true_iff_false. unfold string_existsb. rewrite existsb_exists.
      intros (c & Hin & Hs). rewrite forallb_forall in Hc.
      apply Hc, ref_char_not_special in Hin. congruence.
    + split; intros ->; vm_compute in Hp; done.
  - split; [done|]. intros _. eexists. split; [reflexivity|]. reflexivity.
Qed.
