(* ===== verification/SelfId.v ===== *)
(** * SelfId: which container the agent may be running as
    (internal/selfid/selfid.go)

    Candidates are read from the filesystem and the environment only; the
    Engine verifies them later ([confirmSelf] in DockerClient.v). The filesystem
    is a function from path to content, [None] for a missing or unreadable
    file. *)
From S2P Require Import Prelude.

(** [filepath.Join(root, elems...)] for the roots the callers pass, "/" and a
    cleaned absolute directory. *)
Definition filepath_join (root : string) (elems : list string) : string :=
  (if has_suffix "/" root then root else root +:+ "/") +:+ join "/" elems.

(** [hexID64Pattern.FindAllString]: the leftmost, non-overlapping runs of
    exactly 64 lowercase hex digits, in order. [run] is how many hex digits end
    at the current position since the last match or non-hex byte. *)
Fixpoint find_hex64 (run : list ascii) (s : list ascii) : list string :=
  match s with
  | [] => []
  | c :: s' =>
      if is_lower_hex c then
        let run' := run ++ [c] in
        if (List.length run' =? 64)%nat then of_bytes run' :: find_hex64 [] s'
        else find_hex64 run' s'
      else find_hex64 [] s'
  end.
Definition FindAll_hexID64 (data : string) : list string := find_hex64 [] (bytes data).

(** [hostnameID12Pattern] : [^[0-9a-f]{12}$] *)
Definition hostnameID12Pattern (s : string) : bool :=
  string_forallb is_lower_hex s && (String.length s =? 12)%nat.

(** [type Result struct] *)
Record Result : Type := MkResult {
  Containerized : bool;
  Candidates : list string;
  Override : string }.

Section Detect.
(** [os.ReadFile] and [os.Stat]; [getenv] is a parameter in the source. *)
Context (read_file : string → option string) (file_exists : string → bool)
        (getenv : string → string).

(** [func dockerenvExists(root string) bool] *)
Definition dockerenvExists (root : string) : bool :=
  file_exists (filepath_join root [".dockerenv"]).

(** [func hexIDsIn(path string) []string] *)
Definition hexIDsIn (path : string) : list string :=
  match read_file path with
  | None => []
  | Some data => FindAll_hexID64 data
  end.

(** The loop of [dedupe], [seen] being its map. *)
Fixpoint dedupe_loop (seen : gset string) (candidates : list string) : list string :=
  match candidates with
  | [] => []
  | c :: cs =>
      if decide (c ∈ seen) then dedupe_loop seen cs
      else c :: dedupe_loop ({[c]} ∪ seen) cs
  end.

(** [func dedupe(candidates []string) []string] *)
Definition dedupe (candidates : list string) : list string := dedupe_loop ∅ candidates.

(** [func Detect(root, override string, getenv func(string) string) Result] *)
Definition Detect (root override : string) : Result :=
  let candidates :=
    (if bool_decide (override = "") then [] else [override]) ++
    hexIDsIn (filepath_join root ["proc"; "self"; "mountinfo"]) ++
    hexIDsIn (filepath_join root ["proc"; "self"; "cgroup"]) ++
    (let hostname := getenv "HOSTNAME" in
     if hostnameID12Pattern hostname then [hostname] else []) in
  MkResult (dockerenvExists root) (dedupe candidates) override.
End Detect.

(** ** Lemmas *)

Lemma elem_of_dedupe_loop seen cs x :
  x ∈ dedupe_loop seen cs ↔ x ∈ cs ∧ x ∉ seen.
Proof.
  revert seen. induction cs as [|c cs IH]; intros seen; simpl; [set_solver|].
  case_decide; rewrite ?elem_of_cons, IH; [set_solver|].
  destruct (decide (x = c)) as [->|]; set_solver.
Qed.

Lemma NoDup_dedupe_loop seen cs : NoDup (dedupe_loop seen cs).
Proof.
  revert seen. induction cs as [|c cs IH]; intros seen; simpl; [constructor|].
  case_decide; [apply IH|]. constructor; [|apply IH].
  rewrite elem_of_dedupe_loop. set_solver.
Qed.

Lemma dedupe_loop_sublist seen cs : dedupe_loop seen cs `sublist_of` cs.
Proof.
  revert seen. induction cs as [|c cs IH]; intros seen; simpl; [constructor|].
  case_decide; [by apply sublist_cons|by apply sublist_skip].
Qed.

Lemma find_hex64_shape run s x :
  forallb is_lower_hex run = true → x ∈ find_hex64 run s →
  string_forallb is_lower_hex x = true ∧ String.length x = 64%nat.
Proof.
  revert run. induction s as [|c s IH]; intros run Hrun; simpl; [set_solver|].
  destruct (is_lower_hex c) eqn:Hc; [|by apply IH].
  assert (forallb is_lower_hex (run ++ [c]) = true) as Hrun'
    by (rewrite forallb_app, Hrun; simpl; by rewrite Hc).
  destruct (Nat.eqb_spec (List.length (run ++ [c])) 64) as [Hlen|]; [|by apply IH].
  rewrite elem_of_cons. intros [->|Hx]; [|by apply (IH [])].
  unfold string_forallb. rewrite bytes_of_bytes. split; [done|].
  rewrite <- length_bytes, bytes_of_bytes. done.
Qed.

(** What [Detect] hands to the Engine: the override first when there is one,
    every other candidate of the shape of a container ID (64 lowercase hex
    digits from the two /proc files, 12 from $HOSTNAME), none twice, in the
    order mountinfo, cgroup, hostname in which they first appear. *)
Theorem Detect_candidates (read_file : string → option string) (file_exists : string → bool)
    (getenv : string → string) (root override : string) :
  let r := Detect read_file file_exists getenv root override in
  NoDup (Candidates r) ∧
  (override ≠ "" → ∃ rest, Candidates r = override :: rest) ∧
  (∀ c, c ∈ Candidates r → c = override ∨
     string_forallb is_lower_hex c = true ∧ (String.length c = 64%nat ∨ String.length c = 12%nat)) ∧
  Candidates r `sublist_of`
    ((if bool_decide (override = "") then [] else [override]) ++
     hexIDsIn read_file (filepath_join root ["proc"; "self"; "mountinfo"]) ++
     hexIDsIn read_file (filepath_join root ["proc"; "self"; "cgroup"]) ++
     [getenv "HOSTNAME"]).
Proof.
  unfold Detect. cbn [Candidates].
  set (m := hexIDsIn _ (filepath_join root ["proc"; "self"; "mountinfo"])).
  set (g := hexIDsIn _ (filepath_join root ["proc"; "self"; "cgroup"])).
  assert (∀ p x, x ∈ hexIDsIn read_file p →
    string_forallb is_lower_hex x = true ∧ String.length x = 64%nat) as Hhex.
  { intros p x. unfold hexIDsIn. destruct (read_file p); [|set_solver].
    by apply find_hex64_shape. }
  split; [apply NoDup_dedupe_loop|]. split; [|split].
  - intros Ho. rewrite bool_decide_eq_false_2 by done. unfold dedupe.
    cbn [app dedupe_loop]. rewrite decide_False by set_solver. eauto.
  - intros c. unfold dedupe. rewrite elem_of_dedupe_loop, !elem_of_app. intros [Hc _].
    destruct Hc as [Hc|[Hc|[Hc|Hc]]].
    + left. case_bool_decide; set_solver.
    + apply Hhex in Hc. naive_solver.
    + apply Hhex in Hc. naive_solver.
    + right. destruct (hostnameID12Pattern (getenv "HOSTNAME")) eqn:Hh; [|set_solver].
      apply list_elem_of_singleton in Hc as ->. unfold hostnameID12Pattern in Hh. to_prop.
      apply Nat.eqb_eq in H0. auto.
  - etrans; [apply dedupe_loop_sublist|]. do 3 (apply sublist_app; [done|]).
    case_match; [done|]. apply sublist_nil_l.
Qed.
