(* ===== verification/RateLimit.v ===== *)
(** * RateLimit: one token bucket per key, behind a cap on the keys
    (internal/ratelimit/registry.go)

    The bucket itself is golang.org/x/time/rate, not code of this repository:
    the interface [TokenBucket] names the three operations the registry calls,
    and [TokenBucketLaws] the documented behaviour the eviction relies on (a
    bucket that has refilled to its burst answers from then on like a new
    one). [Ticks] is an instance that meets both. *)
From S2P Require Import Prelude.
From Stdlib Require Import QArith.
Open Scope Z_scope.

Class TokenBucket := {
  Limiter : Type;
  Limit : Type;
  NewLimiter : Limit → Z → Limiter;
  (** [AllowN(now, n)]: the answer and the bucket after it. *)
  AllowN : Limiter → Z → Z → bool * Limiter;
  (** [TokensAt(now)] *)
  TokensAt : Limiter → Z → Q }.

(** The answers of a bucket to a sequence of [AllowN(t, 1)]. *)
Fixpoint answers `{TokenBucket} (l : Limiter) (ts : list Z) : list bool :=
  match ts with
  | [] => []
  | t :: ts' => let '(b, l') := AllowN l t 1 in b :: answers l' ts'
  end.

(** Two buckets no caller can tell apart from the instant [t] on. *)
Definition same_from `{TokenBucket} (t : Z) (l1 l2 : Limiter) : Prop :=
  ∀ ts, Sorted Z.le (t :: ts) → answers l1 ts = answers l2 ts.

Definition at_burst `{TokenBucket} (burst : Z) (l : Limiter) (now : Z) : bool :=
  Qle_bool (inject_Z burst) (TokensAt l now).

(** The buckets that come out of [NewLimiter limit burst]. *)
Inductive bucket_of `{TokenBucket} (limit : Limit) (burst : Z) : Limiter → Prop :=
| bucket_new : bucket_of limit burst (NewLimiter limit burst)
| bucket_allow l t : bucket_of limit burst l → bucket_of limit burst (AllowN l t 1).2.

Class TokenBucketLaws `{TokenBucket} :=
  full_is_fresh : ∀ limit burst l now,
    bucket_of limit burst l → at_burst burst l now = true →
    same_from now l (NewLimiter limit burst).

Section Registry.
Context `{TokenBucket}.

(** [type Registry struct]; the mutex makes every method one step. *)
Record Registry : Type := MkRegistry {
  buckets : gmap string Limiter;
  reg_limit : Limit;
  burst : Z;
  maxKeys : Z }.

(** [func NewRegistry] *)
Definition NewRegistry (limit : Limit) (b mk : Z) : Registry := MkRegistry ∅ limit b mk.

(** [func (r *Registry) Len() int] *)
Definition Len (r : Registry) : Z := Z.of_nat (size (buckets r)).

Definition set_buckets (r : Registry) (m : gmap string Limiter) : Registry :=
  MkRegistry m (reg_limit r) (burst r) (maxKeys r).

(** [func (r *Registry) sweepIdleLocked(now time.Time)] *)
Definition sweepIdleLocked (r : Registry) (now : Z) : Registry :=
  set_buckets r (filter (λ kl, at_burst (burst r) kl.2 now = false) (buckets r)).

(** [func (r *Registry) Allow(key string, now time.Time) (allowed, keyed bool)] *)
Definition Allow (r : Registry) (key : string) (now : Z) : bool * bool * Registry :=
  match buckets r !! key with
  | Some lim =>
      let '(ok, lim') := AllowN lim now 1 in
      (ok, true, set_buckets r (<[key := lim']> (buckets r)))
  | None =>
      let r := if maxKeys r <=? Len r then sweepIdleLocked r now else r in
      if maxKeys r <=? Len r then (false, false, r)
      else
        let lim := NewLimiter (reg_limit r) (burst r) in
        let '(ok, lim') := AllowN lim now 1 in
        (ok, true, set_buckets r (<[key := lim']> (buckets r)))
  end.

(** ** The specification: one bucket per key, for ever, with no cap *)

Definition spec_bucket (limit : Limit) (b : Z) (m : gmap string Limiter) (key : string) : Limiter :=
  default (NewLimiter limit b) (m !! key).

Definition spec_allow (limit : Limit) (b : Z) (m : gmap string Limiter) (key : string) (now : Z)
    : bool * gmap string Limiter :=
  let '(ok, lim') := AllowN (spec_bucket limit b m key) now 1 in (ok, <[key := lim']> m).

(** A run of calls: each is answered by its bucket or refused a bucket. *)
Fixpoint reg_run (r : Registry) (calls : list (string * Z)) : list (bool * bool) * Registry :=
  match calls with
  | [] => ([], r)
  | (key, now) :: calls' =>
      let '(a, k, r') := Allow r key now in
      let '(out, r'') := reg_run r' calls' in ((a, k) :: out, r'')
  end.

(** The specification on the same calls, given which of them were refused a
    bucket and so never reached one. *)
Fixpoint spec_run (limit : Limit) (b : Z) (m : gmap string Limiter)
    (calls : list ((string * Z) * bool)) : list (bool * bool) :=
  match calls with
  | [] => []
  | ((key, now), keyed) :: calls' =>
      if keyed then
        let '(ok, m') := spec_allow limit b m key now in (ok, true) :: spec_run limit b m' calls'
      else (false, false) :: spec_run limit b m calls'
  end.

(** ** Lemmas *)

Lemma same_from_later t t' l1 l2 : t <= t' → same_from t l1 l2 → same_from t' l1 l2.
Proof.
  intros Ht Hs ts Hts. apply Hs. inversion Hts as [|? ? Hss Hhd]; subst.
  constructor; [done|]. inversion Hhd; subst; constructor; lia.
Qed.

Lemma same_from_refl t l : same_from t l l.
Proof. by intros ts _. Qed.

Lemma same_from_trans t l1 l2 l3 : same_from t l1 l2 → same_from t l2 l3 → same_from t l1 l3.
Proof. intros H1 H2 ts Hts. rewrite H1, H2; done. Qed.

Lemma same_from_step t t' l1 l2 :
  t <= t' → same_from t l1 l2 →
  (AllowN l1 t' 1).1 = (AllowN l2 t' 1).1 ∧
  same_from t' (AllowN l1 t' 1).2 (AllowN l2 t' 1).2.
Proof.
  intros Ht Hs. split.
  - specialize (Hs [t'] ltac:(by repeat constructor)). simpl in Hs.
    destruct (AllowN l1 t' 1), (AllowN l2 t' 1). by simplify_eq/=.
  - intros ts Hts. specialize (Hs (t' :: ts) ltac:(constructor; [exact Hts|by constructor])). simpl in Hs.
    destruct (AllowN l1 t' 1), (AllowN l2 t' 1). by simplify_eq/=.
Qed.

Definition buckets_ok (r : Registry) : Prop :=
  ∀ k l, buckets r !! k = Some l → bucket_of (reg_limit r) (burst r) l.

Lemma sweep_lookup r now k l :
  buckets (sweepIdleLocked r now) !! k = Some l ↔
    buckets r !! k = Some l ∧ at_burst (burst r) l now = false.
Proof. unfold sweepIdleLocked. cbn [buckets set_buckets]. by rewrite map_lookup_filter_Some. Qed.

Lemma sweep_size r now : Len (sweepIdleLocked r now) <= Len r.
Proof.
  unfold Len, sweepIdleLocked. cbn [buckets set_buckets].
  apply inj_le, map_size_filter.
Qed.
End Registry.

(** What one call does, whatever the bucket: the case analysis of [Allow]. *)
Section Properties.
Context `{TB : TokenBucket}.

Lemma Allow_config r key now :
  let r' := (Allow r key now).2 in
  reg_limit r' = reg_limit r ∧ burst r' = burst r ∧ maxKeys r' = maxKeys r.
Proof.
  unfold Allow. repeat case_match; simplify_eq/=; unfold sweepIdleLocked in *; simplify_eq/=; done.
Qed.

Lemma Allow_bounded r key now :
  Len r <= maxKeys r → Len (Allow r key now).2 <= maxKeys r.
Proof.
  intros Hb. unfold Allow. destruct (buckets r !! key) as [l|] eqn:Hk.
  - destruct (AllowN l now 1). cbn. unfold Len. cbn [buckets set_buckets].
    rewrite map_size_insert_Some by eauto. done.
  - set (r1 := if maxKeys r <=? Len r then sweepIdleLocked r now else r).
    assert (Len r1 <= Len r ∧ maxKeys r1 = maxKeys r ∧ buckets r1 !! key = None) as (H1 & H2 & H3).
    { unfold r1. case_match; [|done]. split; [apply sweep_size|]. split; [done|].
      apply eq_None_not_Some. intros [l Hl]. apply sweep_lookup in Hl as [Hl _]. congruence. }
    destruct (Z.leb_spec (maxKeys r1) (Len r1)); [cbn; lia|].
    destruct (AllowN _ now 1). cbn. unfold Len in *. cbn [buckets set_buckets].
    rewrite map_size_insert_None by done. lia.
Qed.

Lemma Allow_buckets_ok r key now : buckets_ok r → buckets_ok (Allow r key now).2.
Proof.
  intros Hok. unfold Allow. destruct (buckets r !! key) as [l|] eqn:Hk.
  - destruct (AllowN l now 1) as [b l'] eqn:Ha. cbn. intros k' x. cbn.
    rewrite lookup_insert. case_decide; [|apply Hok].
    intros [= <-]. replace l' with (AllowN l now 1).2 by (by rewrite Ha).
    constructor. by eapply Hok.
  - set (r1 := if maxKeys r <=? Len r then sweepIdleLocked r now else r).
    assert (buckets_ok r1 ∧ reg_limit r1 = reg_limit r ∧ burst r1 = burst r) as (H1 & H2 & H3).
    { unfold r1. case_match; [|done]. split; [|done].
      intros k l Hl. apply sweep_lookup in Hl as [Hl _]. by apply Hok in Hl. }
    case_match; [done|]. destruct (AllowN _ now 1) as [b l'] eqn:Ha. cbn. intros k' x. cbn.
    rewrite lookup_insert. case_decide; [|apply H1].
    intros [= <-]. replace l' with (AllowN (NewLimiter (reg_limit r1) (burst r1)) now 1).2 by (by rewrite Ha).
    repeat constructor.
Qed.

(** The simulation: every key's bucket, held or not, answers like the
    specification's from [t] on. *)
Definition simulates (t : Z) (r : Registry) (m : gmap string Limiter) : Prop :=
  buckets_ok r ∧
  ∀ k, same_from t (spec_bucket (reg_limit r) (burst r) (buckets r) k)
                   (spec_bucket (reg_limit r) (burst r) m k).

Lemma simulates_sweep `{!TokenBucketLaws} t now r m :
  t <= now → simulates t r m → simulates now (sweepIdleLocked r now) m.
Proof.
  intros Ht [Hok Hs]. split.
  { intros k l Hl. apply sweep_lookup in Hl as [Hl _]. by apply Hok in Hl. }
  intros k. cbn. specialize (Hs k). apply (same_from_later _ now) in Hs; [|done].
  eapply same_from_trans; [|exact Hs]. unfold spec_bucket.
  rewrite map_lookup_filter. destruct (buckets r !! k) as [l|] eqn:Hl; cbn; [|apply same_from_refl].
  destruct (decide (at_burst (burst r) l now = false)) as [Hf|Hf].
  { rewrite option_guard_True by done. apply same_from_refl. }
  rewrite option_guard_False by done. cbn. intros ts Hts. symmetry.
  apply (full_is_fresh (reg_limit r) (burst r) l now); [by eapply Hok| |done].
  by apply not_false_iff_true.
Qed.

Lemma spec_bucket_insert limit b (m : gmap string Limiter) k l k' :
  spec_bucket limit b (<[k := l]> m) k' = if decide (k = k') then l else spec_bucket limit b m k'.
Proof. unfold spec_bucket. rewrite lookup_insert. by case_decide. Qed.

Lemma simulates_step t now r m key l :
  t <= now → simulates t r m →
  l = spec_bucket (reg_limit r) (burst r) (buckets r) key →
  let '(ok, l') := AllowN l now 1 in
  let '(ok', m') := spec_allow (reg_limit r) (burst r) m key now in
  ok = ok' ∧
  (bucket_of (reg_limit r) (burst r) l →
   simulates now (set_buckets r (<[key := l']> (buckets r))) m').
Proof.
  intros Ht [Hok Hs] ->. unfold spec_allow.
  destruct (same_from_step t now _ _ Ht (Hs key)) as [H1 H2].
  destruct (AllowN (spec_bucket _ _ (buckets r) key) now 1) as [ok l'] eqn:Ha.
  destruct (AllowN (spec_bucket _ _ m key) now 1) as [ok' l''] eqn:Hb.
  cbn in *. split; [done|]. intros Hbk. split.
  - intros k x. cbn. rewrite lookup_insert. case_decide; [|apply Hok].
    intros [= <-]. replace l' with (AllowN (spec_bucket (reg_limit r) (burst r) (buckets r) key) now 1).2
      by (by rewrite Ha). by constructor.
  - intros k. cbn. rewrite !spec_bucket_insert. case_decide; [done|].
    eapply same_from_later; [exact Ht|apply Hs].
Qed.

Lemma Allow_simulates `{!TokenBucketLaws} t now r m key :
  t <= now → simulates t r m →
  let '(a, k, r') := Allow r key now in
  if k then
    let '(ok, m') := spec_allow (reg_limit r) (burst r) m key now in
    a = ok ∧ simulates now r' m'
  else a = false ∧ simulates now r' m.
Proof.
  intros Ht Hsim. unfold Allow. destruct (buckets r !! key) as [l|] eqn:Hk.
  - assert (l = spec_bucket (reg_limit r) (burst r) (buckets r) key) as Hl
      by (unfold spec_bucket; by rewrite Hk).
    pose proof (simulates_step t now r m key l Ht Hsim Hl) as HS.
    destruct (AllowN l now 1), (spec_allow _ _ m key now). destruct HS as [-> HS].
    split; [done|]. apply HS. destruct Hsim as [Hok _]. by eapply Hok.
  - set (r1 := if maxKeys r <=? Len r then sweepIdleLocked r now else r).
    assert (simulates now r1 m ∧ reg_limit r1 = reg_limit r ∧ burst r1 = burst r ∧
            buckets r1 !! key = None) as (H1 & H2 & H3 & H4).
    { unfold r1. case_match.
      - split; [by eapply simulates_sweep|]. split; [done|]. split; [done|].
        apply eq_None_not_Some. intros [l Hl]. apply sweep_lookup in Hl as [Hl _]. congruence.
      - split; [|done]. destruct Hsim as [Hok Hs]. split; [done|].
        intros k. eapply same_from_later; [exact Ht|apply Hs]. }
    destruct (maxKeys r1 <=? Len r1); [done|].
    pose proof (simulates_step now now r1 m key (NewLimiter (reg_limit r1) (burst r1))) as HS.
    rewrite H2, H3 in *.
    destruct (AllowN (NewLimiter (reg_limit r) (burst r)) now 1), (spec_allow _ _ m key now).
    destruct HS as [-> HS]; [lia|done|unfold spec_bucket; by rewrite H4|].
    split; [done|]. apply HS. constructor.
Qed.
End Properties.

(** ** A concrete bucket

    Tokens in billionths, [rate] tokens a second: one billionth per nanosecond
    and unit of rate. As in the library, the clock of a bucket never runs
    backwards and a refused call changes nothing. *)
Record ticks : Set := MkTicks { tk_rate : Z; tk_burst : Z; tk_tokens : Z; tk_last : Z }.

Definition ticks_at (l : ticks) (now : Z) : Z :=
  Z.min (tk_burst l * Second) (tk_tokens l + Z.max 0 (now - tk_last l) * tk_rate l).

Definition ticks_allow (l : ticks) (now n : Z) : bool * ticks :=
  let t := ticks_at l now in
  if n * Second <=? t
  then (true, MkTicks (tk_rate l) (tk_burst l) (t - n * Second) now)
  else (false, l).

#[export] Instance Ticks : TokenBucket := {|
  Limiter := ticks;
  Limit := nat;
  NewLimiter := λ r b, MkTicks (Z.of_nat r) b (b * Second) 0;
  AllowN := ticks_allow;
  TokensAt := λ l now, (ticks_at l now # 1000000000)%Q |}.

Lemma ticks_same now (l1 l2 : ticks) :
  tk_rate l1 = tk_rate l2 → tk_burst l1 = tk_burst l2 →
  (∀ t, now <= t → ticks_at l1 t = ticks_at l2 t) →
  same_from (H := Ticks) now l1 l2.
Proof.
  intros Hr Hb Hat ts Hts. revert now l1 l2 Hr Hb Hat Hts.
  induction ts as [|t ts IH]; intros now l1 l2 Hr Hb Hat Hts; [done|].
  inversion Hts as [|? ? Hss Hhd]; subst. inversion Hhd; subst.
  cbn. unfold ticks_allow. rewrite (Hat t) by done.
  destruct (Z.leb_spec (1 * Second) (ticks_at l2 t)).
  - f_equal. rewrite Hr, Hb. done.
  - f_equal. apply (IH t); try done. intros t' Ht'. apply Hat. lia.
Qed.

Lemma bucket_of_ticks limit b l :
  bucket_of (H := Ticks) limit b l → tk_rate l = Z.of_nat limit ∧ tk_burst l = b.
Proof.
  induction 1 as [|l t _ IH]; [done|]. cbn. unfold ticks_allow.
  by case_match.
Qed.

#[export] Instance Ticks_laws : TokenBucketLaws (H := Ticks).
Proof.
  intros limit b l now Hl Hfull. apply bucket_of_ticks in Hl as [Hr Hb].
  unfold at_burst in Hfull. cbn in Hfull. apply Qle_bool_iff in Hfull.
  unfold Qle in Hfull. cbn in Hfull.
  apply ticks_same; [done|done|]. intros t Ht. cbn.
  unfold ticks_at in *. cbn. rewrite Hb, Hr in *. unfold Second in *.
  assert (0 <= Z.max 0 (now - tk_last l) * Z.of_nat limit) by nia.
  assert (0 <= Z.max 0 (t - 0) * Z.of_nat limit) by nia.
  assert (Z.max 0 (now - tk_last l) * Z.of_nat limit <= Z.max 0 (t - tk_last l) * Z.of_nat limit)
    by (apply Z.mul_le_mono_nonneg_r; lia).
  rewrite Z.min_l by lia. symmetry. apply Z.min_l. lia.
Qed.

(** ** The properties *)

(** Instants of a run of calls in the order of the clock, from [t] on. *)
Definition clocked (t : Z) (calls : list (string * Z)) : Prop := Sorted Z.le (t :: map snd calls).

Lemma reg_run_simulates `{TB : TokenBucket} `{!TokenBucketLaws} calls t r m :
  clocked t calls → simulates t r m →
  (reg_run r calls).1
    = spec_run (reg_limit r) (burst r) m (zip calls (map snd (reg_run r calls).1)).
Proof.
  revert t r m. induction calls as [|[key now] calls IH]; intros t r m Hc Hs; [done|].
  inversion Hc as [|? ? Hss Hhd]; subst. inversion Hhd; subst. cbn in *.
  pose proof (Allow_simulates t now r m key ltac:(done) Hs) as HS.
  pose proof (Allow_config r key now) as (Hcl & Hcb & _).
  destruct (Allow r key now) as [[a k] r'] eqn:Ha. cbn [snd] in Hcl, Hcb.
  destruct (reg_run r' calls) as [out r''] eqn:Hrun. cbn [fst map zip_with snd].
  destruct k.
  - destruct (spec_allow (reg_limit r) (burst r) m key now) as [ok m'] eqn:Hsp.
    destruct HS as [-> HS]. specialize (IH now r' m' Hss HS).
    rewrite Hrun, Hcl, Hcb in IH. cbn [spec_run zip zip_with]. rewrite Hsp. f_equal. exact IH.
  - destruct HS as [-> HS]. specialize (IH now r' m Hss HS).
    rewrite Hrun, Hcl, Hcb in IH. cbn [spec_run zip zip_with]. f_equal. exact IH.
Qed.

(** C24 The capped registry implements the uncapped specification: on any run of
    calls with a clock that does not go back, every call that gets a bucket is
    answered exactly as if each key had kept its own bucket for ever. Evicting
    idle buckets to make room is therefore invisible: it never gives a key
    fresh tokens. Refused keys are denied. *)
Theorem registry_refines_unbounded `{TB : TokenBucket} `{!TokenBucketLaws}
    (limit : Limit) (b mk t : Z) (calls : list (string * Z)) (Hclock : clocked t calls) :
  (reg_run (NewRegistry limit b mk) calls).1
    = spec_run limit b ∅ (zip calls (map snd (reg_run (NewRegistry limit b mk) calls).1)).
Proof.
  apply (reg_run_simulates calls t (NewRegistry limit b mk) ∅ Hclock).
  split; [intros k l; cbn; by rewrite lookup_empty|].
  intros k. apply same_from_refl.
Qed.

Definition two_callers : list (string * Z) :=
  [("a", 0); ("b", 1); ("a", 2); ("c", 3); ("a", 2 * Second); ("c", 3 * Second)].

Lemma registry_refines_unbounded_witness :
  (reg_run (NewRegistry (H := Ticks) 1%nat 1 2) two_callers).1
    = [(true, true); (true, true); (false, true); (false, false); (true, true); (true, true)] ∧
  (reg_run (NewRegistry (H := Ticks) 1%nat 1 2) two_callers).1
    = spec_run (H := Ticks) 1%nat 1 ∅ (zip two_callers
        (map snd (reg_run (NewRegistry (H := Ticks) 1%nat 1 2) two_callers).1)).
Proof.
  split; [vm_compute; reflexivity|].
  apply (registry_refines_unbounded (TB := Ticks) 1%nat 1 2 0 two_callers).
  unfold clocked, two_callers. cbn. repeat constructor; vm_compute; discriminate.
Defined.

Lemma reg_run_bounded `{TB : TokenBucket} calls r :
  Len r <= maxKeys r → Len (reg_run r calls).2 <= maxKeys r.
Proof.
  revert r. induction calls as [|[key now] calls IH]; intros r Hb; [done|]. cbn.
  pose proof (Allow_bounded r key now Hb) as Hb'.
  pose proof (Allow_config r key now) as (_ & _ & Hm).
  destruct (Allow r key now) as [[a k] r']. cbn [snd] in *.
  specialize (IH r'). destruct (reg_run r' calls) as [out r'']. cbn [snd] in *.
  rewrite Hm in IH. apply IH. lia.
Qed.

(** The registry is not an unbounded-memory surface: after any run of calls
    it holds at most [maxKeys] buckets. And it refuses a key a bucket only when
    it must: the key is new, the cap is reached, and every bucket it holds is
    being throttled (is below its burst). *)
Theorem registry_bounded `{TB : TokenBucket} (limit : Limit) (b mk : Z)
    (calls : list (string * Z)) (key : string) (now : Z) (Hmk : 0 <= mk) :
  let r := (reg_run (NewRegistry limit b mk) calls).2 in
  Len r <= mk ∧
  ((Allow r key now).1.2 = false →
     (Allow r key now).1.1 = false ∧ buckets r !! key = None ∧ Len r = mk ∧
     ∀ k l, buckets r !! k = Some l → at_burst (burst r) l now = false).
Proof.
  intros r. assert (maxKeys r = mk ∧ Len r <= mk) as [Hm Hb].
  { split; [|by apply (reg_run_bounded calls (NewRegistry limit b mk))].
    unfold r. clear. change mk with (maxKeys (NewRegistry limit b mk)) at 2.
    generalize (NewRegistry limit b mk). induction calls as [|[key now] calls IH]; intros r0; [done|].
    cbn. pose proof (Allow_config r0 key now) as (_ & _ & Hm).
    destruct (Allow r0 key now) as [[a k] r'] eqn:?. specialize (IH r').
    destruct (reg_run r' calls). cbn [snd] in *. congruence. }
  split; [done|]. clearbody r. unfold Allow.
  destruct (buckets r !! key) as [l|] eqn:Hk; [by destruct (AllowN l now 1)|].
  destruct (Z.leb_spec (maxKeys r) (Len r)) as [Hfull|Hroom].
  - destruct (Z.leb_spec (maxKeys (sweepIdleLocked r now)) (Len (sweepIdleLocked r now))) as [Hs|Hs].
    + intros _. cbn in Hs. split; [done|]. split; [done|]. split; [lia|].
      intros k l Hl. destruct (at_burst (burst r) l now) eqn:Hat; [|done]. exfalso.
      assert (buckets (sweepIdleLocked r now) ⊂ buckets r) as Hsub.
      { split; [apply map_filter_subseteq|]. intros Hsub.
        eapply lookup_weaken in Hl; [|exact Hsub].
        apply sweep_lookup in Hl as [_ Hl]. congruence. }
      apply map_subset_size in Hsub. unfold Len in *. lia.
    + by destruct (AllowN _ now 1).
  - rewrite (proj2 (Z.leb_gt _ _)) by done. by destruct (AllowN _ now 1).
Qed.

Lemma registry_bounded_witness :
  let r := (reg_run (NewRegistry (H := Ticks) 1%nat 1 2) [("a", 0); ("b", 0)]).2 in
  Len r <= 2 ∧
  ((Allow r "c" 5).1.2 = false →
     (Allow r "c" 5).1.1 = false ∧ buckets r !! "c" = None ∧ Len r = 2 ∧
     ∀ k l, buckets r !! k = Some l → at_burst (burst r) l 5 = false).
Proof. apply (registry_bounded (TB := Ticks) 1%nat 1 2 [("a", 0); ("b", 0)] "c" 5). vm_compute. discriminate. Defined.
