(* ===== verification/Streams.v ===== *)
(** * Streams: who may hold a long-lived stream
    (internal/httpapi/streambudget.go, internal/httpapi/eventregistry.go)

    [streamBudget] rations live log streams: a global ceiling and a cap per
    device. [eventRegistry] allows one live event stream per device, the newest
    one. Both are guarded by a mutex, so each critical section is one step; the
    closures they hand out ([release]) are handles into the state here, so that
    who calls them, when and how often is part of the run. *)
From S2P Require Import Prelude.

Definition maxConcurrentStreams : Z := 8.
Definition maxStreamsPerDevice : Z := 3.

Module Budget.
(** [type streamOutcome int] *)
Inductive streamOutcome : Set := streamGranted | streamDeviceFull | streamHostFull.
#[export] Instance streamOutcome_eq_dec : EqDecision streamOutcome.
Proof. solve_decision. Defined.

(** [type streamBudget struct] *)
Record streamBudget : Set := MkBudget {
  byDevice : gmap string Z;
  total : Z;
  maxTotal : Z;
  maxPerDevice : Z }.

(** [func newStreamBudget] *)
Definition newStreamBudget (mt mpd : Z) : streamBudget := MkBudget ∅ 0 mt mpd.

(** A Go map read of an absent key is the zero value. *)
Definition count (b : streamBudget) (d : string) : Z := default 0 (byDevice b !! d).

(** [func (b *streamBudget) acquire]: the outcome and the budget after it. *)
Definition acquire (b : streamBudget) (deviceID : string) : streamOutcome * streamBudget :=
  if maxPerDevice b <=? count b deviceID then (streamDeviceFull, b)
  else if maxTotal b <=? total b then (streamHostFull, b)
  else (streamGranted,
        MkBudget (<[deviceID := count b deviceID + 1]> (byDevice b)) (total b + 1)
          (maxTotal b) (maxPerDevice b)).

(** The body of the closure [release] that [acquire] returns. *)
Definition release_body (b : streamBudget) (deviceID : string) : streamBudget :=
  let n := count b deviceID - 1 in
  let m := <[deviceID := n]> (byDevice b) in
  MkBudget (if n <=? 0 then delete deviceID m else m) (total b - 1)
    (maxTotal b) (maxPerDevice b).

(** [func (b *streamBudget) holders() map[string]int] *)
Definition holders (b : streamBudget) : gmap string Z := byDevice b.

(** The budget with the release closures it has handed out: the device of
    each, and whether its [sync.Once] has fired. *)
Record sys : Set := MkSys { budget : streamBudget; handles : list (string * bool) }.

Inductive op : Set := Acquire (d : string) | Release (i : nat).

Definition step (s : sys) (o : op) : sys :=
  match o with
  | Acquire d =>
      match acquire (budget s) d with
      | (streamGranted, b') => MkSys b' (handles s ++ [(d, false)])
      | (_, b') => MkSys b' (handles s)
      end
  | Release i =>
      match handles s !! i with
      | Some (d, false) => MkSys (release_body (budget s) d) (<[i := (d, true)]> (handles s))
      | _ => s
      end
  end.

Definition init (mt mpd : Z) : sys := MkSys (newStreamBudget mt mpd) [].
Definition run (s : sys) (ops : list op) : sys := foldl step s ops.

(** The devices of the streams that are live. *)
Definition live (s : sys) : list string :=
  map fst (List.filter (λ h, negb h.2) (handles s)).

Record inv (s : sys) : Prop := {
  inv_total : total (budget s) = Z.of_nat (List.length (live s));
  inv_count : ∀ d, byDevice (budget s) !! d =
    if decide (0 < occ d (live s)) then Some (occ d (live s)) else None;
  inv_maxTotal : total (budget s) <= maxTotal (budget s);
  inv_maxPerDevice : ∀ d, occ d (live s) <= maxPerDevice (budget s) }.

Lemma inv_lookup s d : inv s → count (budget s) d = occ d (live s).
Proof.
  intros Hi. unfold count. rewrite (inv_count s Hi).
  pose proof (occ_nonneg d (live s)). case_decide; simpl; lia.
Qed.

Lemma live_snoc b hs d : live (MkSys b (hs ++ [(d, false)])) = live (MkSys b hs) ++ [d].
Proof. unfold live. cbn [handles]. by rewrite List.filter_app, map_app. Qed.

(** Firing a handle removes one occurrence of its device. *)
Lemma live_release b b' hs i d :
  hs !! i = Some (d, false) →
  ∃ l1 l2, live (MkSys b hs) = l1 ++ d :: l2 ∧
           live (MkSys b' (<[i := (d, true)]> hs)) = l1 ++ l2.
Proof.
  intros Hi. unfold live. cbn [handles].
  rewrite (insert_take_drop hs i) by (by eapply lookup_lt_Some).
  exists (map fst (List.filter (λ h, negb h.2) (take i hs))),
         (map fst (List.filter (λ h, negb h.2) (drop (S i) hs))).
  split.
  - pattern hs at 1. rewrite <- (take_drop_middle hs i _ Hi).
    by rewrite List.filter_app, map_app.
  - by rewrite List.filter_app, map_app.
Qed.

Lemma inv_init mt mpd : 0 <= mt → 0 <= mpd → inv (init mt mpd).
Proof.
  intros H1 H2. split; cbn; try done.
Qed.

Lemma inv_step s o : inv s → inv (step s o).
Proof.
  intros Hi. destruct s as [b hs]. destruct o as [d|i]; cbn [step budget handles].
  - unfold acquire. rewrite (inv_lookup _ d Hi : count b d = _).
    destruct (Z.leb_spec (maxPerDevice b) (occ d (live (MkSys b hs)))); [done|].
    destruct (Z.leb_spec (maxTotal b) (total b)); [done|].
    pose proof (occ_nonneg d (live (MkSys b hs))).
    split; cbn [budget byDevice total maxTotal maxPerDevice]; rewrite ?live_snoc.
    + rewrite length_app. pose proof (inv_total _ Hi) as Ht. cbn [budget] in Ht.
      change (live (MkSys _ hs)) with (live (MkSys b hs)). rewrite Ht. cbn [List.length]. lia.
    + intros d'. rewrite occ_app, occ_single, lookup_insert.
      pose proof (inv_count _ Hi d') as Hc. cbn [budget] in Hc.
      change (live (MkSys _ hs)) with (live (MkSys b hs)).
      destruct (decide (d = d')) as [->|Hne].
      * rewrite bool_decide_eq_true_2 by done. rewrite decide_True by lia. done.
      * rewrite bool_decide_eq_false_2 by done. rewrite Z.add_0_r. done.
    + lia.
    + intros d'. rewrite occ_app, occ_single. pose proof (inv_maxPerDevice _ Hi d') as Hc.
      change (live (MkSys _ hs)) with (live (MkSys b hs)). cbn [budget] in *.
      case_bool_decide; subst; lia.
  - destruct (hs !! i) as [[d [|]]|] eqn:Hh; [done| |done].
    destruct (live_release b (release_body b d) hs i d Hh) as (l1 & l2 & Hl & Hl').
    assert (∀ d', occ d' (live (MkSys b hs)) = occ d' (l1 ++ l2) + (if bool_decide (d = d') then 1 else 0)) as Hocc.
    { intros d'. rewrite Hl. change (d :: l2) with ([d] ++ l2).
      rewrite !occ_app, occ_single. lia. }
    unfold release_body in *.
    rewrite (inv_lookup _ d Hi : count b d = _) in *.
    assert (occ d (live (MkSys b hs)) - 1 = occ d (l1 ++ l2)) as Hd
      by (rewrite Hocc, bool_decide_eq_true_2 by done; lia).
    rewrite Hd in *. pose proof (occ_nonneg d (l1 ++ l2)).
    split; cbn [budget byDevice total maxTotal maxPerDevice]; rewrite ?Hl'.
    + pose proof (inv_total _ Hi) as Ht. rewrite Hl in Ht. cbn [budget] in Ht.
      rewrite Ht, !length_app. simpl. lia.
    + intros d'. pose proof (inv_count _ Hi d') as Hc. cbn [budget] in Hc.
      rewrite Hocc in Hc.
      destruct (Z.leb_spec (occ d (l1 ++ l2)) 0).
      * rewrite delete_insert_eq, lookup_delete. destruct (decide (d = d')); subst.
        { rewrite decide_False by lia. done. }
        rewrite Hc, bool_decide_eq_false_2 by done. by rewrite Z.add_0_r.
      * rewrite lookup_insert. destruct (decide (d = d')); subst.
        { rewrite decide_True by lia. done. }
        rewrite Hc, bool_decide_eq_false_2 by done. by rewrite Z.add_0_r.
    + pose proof (inv_maxTotal _ Hi). cbn in *. lia.
    + intros d'. pose proof (inv_maxPerDevice _ Hi d') as Hc. rewrite Hocc in Hc.
      cbn [budget] in *. case_bool_decide; lia.
Qed.

Lemma budget_inv_run s ops : inv s → inv (run s ops).
Proof.
  revert s. induction ops as [|o ops IH]; intros s Hi; [done|]. by apply IH, inv_step.
Qed.

Lemma step_maxima s o :
  maxTotal (budget (step s o)) = maxTotal (budget s) ∧
  maxPerDevice (budget (step s o)) = maxPerDevice (budget s).
Proof.
  destruct o; unfold step, acquire, release_body; repeat case_match; simplify_eq/=; done.
Qed.

Lemma run_maxima s ops :
  maxTotal (budget (run s ops)) = maxTotal (budget s) ∧
  maxPerDevice (budget (run s ops)) = maxPerDevice (budget s).
Proof.
  revert s. induction ops as [|o ops IH]; intros s; [done|].
  unfold run in *. cbn [foldl]. destruct (IH (step s o)) as [-> ->]. apply step_maxima.
Qed.

(** ** The properties *)

(** C25 After any run of acquisitions and releases, by any devices in any
    order, releases repeated or not: the number of live streams is within the
    global ceiling, no device holds more than its cap, and the table of
    holders is exactly the live streams of each device, with no entry for a
    device that holds none. *)
Theorem budget_invariant (mt mpd : Z) (ops : list op) (Hmt : 0 <= mt) (Hmpd : 0 <= mpd) :
  let s := run (init mt mpd) ops in
  Z.of_nat (List.length (live s)) <= mt ∧
  (∀ d, occ d (live s) <= mpd) ∧
  (∀ d, holders (budget s) !! d =
     if decide (0 < occ d (live s)) then Some (occ d (live s)) else None).
Proof.
  intros s. assert (inv s) as Hi by (by apply budget_inv_run, inv_init).
  destruct (run_maxima (init mt mpd) ops) as [H1 H2]. cbn in H1, H2. fold s in H1, H2.
  split; [rewrite <- (inv_total s Hi); rewrite <- H1; apply Hi|].
  split; [intros d; rewrite <- H2; apply Hi|]. apply Hi.
Qed.

Lemma budget_invariant_witness :
  let s := run (init maxConcurrentStreams maxStreamsPerDevice)
             [Acquire "p"; Acquire "p"; Acquire "p"; Acquire "p"; Release 0; Release 0; Acquire "q"] in
  live s = ["p"; "p"; "q"] ∧
  Z.of_nat (List.length (live s)) <= maxConcurrentStreams ∧
  (∀ d, occ d (live s) <= maxStreamsPerDevice) ∧
  (∀ d, holders (budget s) !! d =
     if decide (0 < occ d (live s)) then Some (occ d (live s)) else None).
Proof.
  split; [vm_compute; reflexivity|].
  apply (budget_invariant maxConcurrentStreams maxStreamsPerDevice); vm_compute; discriminate.
Defined.

(** No starvation by few devices: as long as the devices that hold streams
    are too few to fill the ceiling at their caps, a device below its own cap
    is granted a stream. With the agent's 8 and 3, two devices cannot lock a
    third one out. *)
Theorem budget_no_starvation (mt mpd : Z) (ops : list op) (d : string)
    (Hmt : 0 <= mt) (Hmpd : 0 <= mpd) :
  let s := run (init mt mpd) ops in
  occ d (live s) < mpd →
  mpd * Z.of_nat (size (list_to_set (live s) : gset string)) < mt →
  (acquire (budget s) d).1 = streamGranted.
Proof.
  intros s Hocc Hfew. assert (inv s) as Hi by (by apply budget_inv_run, inv_init).
  destruct (run_maxima (init mt mpd) ops) as [H1 H2]. cbn in H1, H2. fold s in H1, H2.
  unfold acquire. rewrite (inv_lookup s d Hi), H1, H2.
  rewrite (proj2 (Z.leb_gt _ _)) by done.
  rewrite (proj2 (Z.leb_gt _ _)); [done|].
  rewrite (inv_total s Hi). eapply Z.le_lt_trans; [|exact Hfew].
  apply length_le_distinct; [done|]. intros d'. rewrite <- H2. apply Hi.
Qed.

Lemma budget_no_starvation_witness :
  (acquire (budget (run (init maxConcurrentStreams maxStreamsPerDevice)
     [Acquire "p"; Acquire "p"; Acquire "p"; Acquire "q"; Acquire "q"; Acquire "q"])) "r").1
    = streamGranted.
Proof.
  apply (budget_no_starvation maxConcurrentStreams maxStreamsPerDevice); vm_compute; try reflexivity; discriminate.
Defined.
End Budget.


Module Events.
(** [type eventSlot struct]: a heap cell, the pointer being the identity the
    release closure compares. [superseded] counts the [close]s of the channel
    (a second one would panic) and [cancelled] says the stream's context is
    cancelled; [released] is the [sync.Once]; [owner] is the device the
    closure captured. *)
Record eventSlot : Set := MkSlot {
  owner : string;
  superseded : nat;
  cancelled : bool;
  released : bool }.

(** [type eventRegistry struct], with the heap of slots, and the slots that
    a [register] call took out of the map and has not cancelled yet: that
    part of [register] runs after the mutex is unlocked. *)
Record eventRegistry : Set := MkRegistry {
  active : gmap string nat;
  heap : list eventSlot;
  evicting : list nat }.

(** [func newEventRegistry] *)
Definition newEventRegistry : eventRegistry := MkRegistry ∅ [] [].

(** [func (r *eventRegistry) register], up to [r.mu.Unlock()]. *)
Definition register_locked (r : eventRegistry) (deviceID : string) : eventRegistry :=
  let slot := List.length (heap r) in
  MkRegistry (<[deviceID := slot]> (active r))
    (heap r ++ [MkSlot deviceID 0 false false])
    (match active r !! deviceID with Some old => evicting r ++ [old] | None => evicting r end).

(** ... and after it: [close(old.superseded)], then [old.cancel()]. *)
Definition register_evict (r : eventRegistry) (i : nat) : eventRegistry :=
  match evicting r !! i with
  | Some old =>
      MkRegistry (active r)
        (alter (λ s, MkSlot (owner s) (S (superseded s)) true (released s)) old (heap r))
        (delete i (evicting r))
  | None => r
  end.

(** The closure [release] of the slot [i]. *)
Definition release (r : eventRegistry) (i : nat) : eventRegistry :=
  match heap r !! i with
  | Some (MkSlot d sup can false) =>
      MkRegistry (if decide (active r !! d = Some i) then delete d (active r) else active r)
        (<[i := MkSlot d sup can true]> (heap r)) (evicting r)
  | _ => r
  end.

(** [func (r *eventRegistry) count() int] *)
Definition registry_count (r : eventRegistry) : nat := size (active r).

(** Any interleaving of the critical sections of any number of handlers. *)
Inductive op : Set := Register (d : string) | Evict (i : nat) | Release (i : nat).

Definition step (r : eventRegistry) (o : op) : eventRegistry :=
  match o with
  | Register d => register_locked r d
  | Evict i => register_evict r i
  | Release i => release r i
  end.

Definition run (ops : list op) : eventRegistry := foldl step newEventRegistry ops.

(** A slot is either the live one of its device, or waiting to be evicted, or
    done with: superseded or released. *)
Record inv (r : eventRegistry) : Prop := {
  inv_active : ∀ d i, active r !! d = Some i →
    ∃ s, heap r !! i = Some s ∧ owner s = d ∧ superseded s = 0%nat ∧ cancelled s = false ∧
         released s = false ∧ i ∉ evicting r;
  inv_evicting : ∀ i, i ∈ evicting r →
    ∃ s, heap r !! i = Some s ∧ superseded s = 0%nat ∧ cancelled s = false;
  inv_nodup : NoDup (evicting r);
  inv_slot : ∀ i s, heap r !! i = Some s →
    (superseded s <= 1)%nat ∧ (cancelled s = true ↔ superseded s = 1%nat) ∧
    (active r !! owner s = Some i ∨ i ∈ evicting r ∨ superseded s = 1%nat ∨ released s = true) }.

Lemma inv_new : inv newEventRegistry.
Proof. split; cbn; intros; try set_solver; try constructor. Qed.

Lemma inv_register r d : inv r → inv (register_locked r d).
Proof.
  intros [Ha He Hn Hs].
  assert (∀ i, i ∈ evicting r → (i < List.length (heap r))%nat) as Hev.
  { intros i Hi. destruct (He i Hi) as (s & Hh & _). by eapply lookup_lt_Some. }
  split; cbn.
  - intros d' i. rewrite lookup_insert. case_decide as Hd; intros Hi.
    + simplify_eq. exists (MkSlot d' 0 false false).
      rewrite lookup_app_r, Nat.sub_diag by lia. repeat split; try done.
      destruct (active r !! d') as [old|] eqn:Ho; rewrite ?elem_of_app, ?list_elem_of_singleton.
      * destruct (Ha _ _ Ho) as (s & Hh & _). apply lookup_lt_Some in Hh.
        intros [Hi|Heq]; [apply Hev in Hi|]; lia.
      * intros Hi. apply Hev in Hi. lia.
    + destruct (Ha d' i Hi) as (s & Hh & Ho & Hrest). exists s.
      rewrite lookup_app_l by (by eapply lookup_lt_Some).
      repeat split; try tauto. destruct (active r !! d) as [old|] eqn:Hold; [|tauto].
      rewrite elem_of_app, list_elem_of_singleton. intros [?| ->]; [tauto|].
      destruct (Ha _ _ Hold) as (s' & Hh' & Ho' & _). naive_solver.
  - intros i Hi. assert (i ∈ evicting r ∨ active r !! d = Some i) as [Hi'|Hi'].
    { destruct (active r !! d); set_solver. }
    + destruct (He i Hi') as (s & Hh & ?). exists s.
      by rewrite lookup_app_l by (by eapply lookup_lt_Some).
    + destruct (Ha d i Hi') as (s & Hh & ?). exists s.
      rewrite lookup_app_l by (by eapply lookup_lt_Some). tauto.
  - destruct (active r !! d) as [old|] eqn:Ho; [|done].
    apply NoDup_app. split; [done|]. split; [|apply NoDup_singleton].
    intros i Hi. rewrite list_elem_of_singleton. intros ->.
    destruct (Ha _ _ Ho) as (s & _ & _ & _ & _ & _ & Hnot). done.
  - intros i s Hi. apply lookup_app_Some in Hi as [Hi|[Hlen Hi]].
    + destruct (Hs i s Hi) as (H1 & H2 & H3). repeat split; try tauto.
      rewrite lookup_insert. destruct H3 as [H3|[H3|H3]]; [|right; left|tauto].
      * case_decide as Hd; [|tauto]. subst. rewrite H3. right; left. set_solver.
      * destruct (active r !! d); set_solver.
    + apply list_lookup_singleton_Some in Hi as [Hi <-]. cbn.
      repeat split; try lia; try done. left. rewrite lookup_insert_eq. f_equal. lia.
Qed.

Lemma inv_evict r i : inv r → inv (register_evict r i).
Proof.
  intros Hinv. unfold register_evict. destruct (evicting r !! i) as [old|] eqn:Hi; [|done].
  destruct Hinv as [Ha He Hn Hs].
  assert (old ∈ evicting r) as Hold by (by eapply list_elem_of_lookup_2).
  destruct (He old Hold) as (so & Hso & Hsup & Hcan).
  assert (∀ j, j ∈ delete i (evicting r) ↔ j ∈ evicting r ∧ j ≠ old) as Hdel.
  { intros j. pose proof (delete_Permutation _ _ _ Hi) as Hp. rewrite Hp in Hn.
    apply NoDup_cons in Hn as [Hnot _]. rewrite Hp at 2. rewrite elem_of_cons.
    split; [intros Hj; split; [tauto|congruence]|naive_solver]. }
  split; cbn.
  - intros d j Hj. destruct (Ha d j Hj) as (s & Hh & ? & ? & ? & ? & Hnot).
    exists s. rewrite list_lookup_alter_ne by congruence. rewrite Hdel. tauto.
  - intros j Hj. apply Hdel in Hj as [Hj Hne]. destruct (He j Hj) as (s & ?).
    exists s. by rewrite list_lookup_alter_ne by congruence.
  - rewrite (delete_Permutation _ _ _ Hi) in Hn. apply NoDup_cons in Hn. tauto.
  - intros j s Hj. destruct (decide (j = old)) as [->|Hne].
    + rewrite list_lookup_alter_eq, Hso in Hj. cbn in Hj. injection Hj as <-. cbn. rewrite Hsup. split; [lia|]. tauto.
    + rewrite list_lookup_alter_ne in Hj by congruence.
      destruct (Hs j s Hj) as (? & ? & ?). rewrite Hdel. tauto.
Qed.

Lemma inv_release r i : inv r → inv (release r i).
Proof.
  intros Hinv. unfold release. destruct (heap r !! i) as [[d sup can [|]]|] eqn:Hi; [done| |done].
  destruct Hinv as [Ha He Hn Hs]. pose proof (lookup_lt_Some _ _ _ Hi) as Hlt.
  assert (∀ d' j, (if decide (active r !! d = Some i) then delete d (active r) else active r)
            !! d' = Some j → active r !! d' = Some j ∧ j ≠ i) as Hact.
  { intros d' j. case_decide as Hd.
    - rewrite lookup_delete. case_decide; [done|]. intros Hj. split; [done|].
      intros ->. destruct (Ha _ _ Hj) as (? & ? & ? & _). naive_solver.
    - intros Hj. split; [done|]. intros ->.
      destruct (Ha _ _ Hj) as (? & ? & ? & _). naive_solver. }
  split; cbn.
  - intros d' j Hj. apply Hact in Hj as [Hj Hne].
    rewrite list_lookup_insert_ne by congruence. by apply Ha.
  - intros j Hj. destruct (He j Hj) as (s & Hh & ?). destruct (decide (j = i)) as [->|Hne].
    + eexists. rewrite list_lookup_insert_eq by done. naive_solver.
    + exists s. by rewrite list_lookup_insert_ne by congruence.
  - done.
  - intros j s Hj. destruct (decide (j = i)) as [->|Hne].
    + rewrite list_lookup_insert_eq in Hj by done. simplify_eq/=.
      destruct (Hs i _ Hi) as (? & ? & _). cbn in *. tauto.
    + rewrite list_lookup_insert_ne in Hj by congruence. destruct (Hs j s Hj) as (? & ? & H3).
      repeat split; try tauto. destruct H3 as [H3|H3]; [left|tauto].
      case_decide as Hd; [|done]. rewrite lookup_delete_ne; [done|]. congruence.
Qed.

Lemma events_inv_run ops : inv (run ops).
Proof.
  unfold run. assert (∀ r, inv r → inv (foldl step r ops)) as H; [|apply H, inv_new].
  induction ops as [|o ops IH]; intros r Hr; [done|]. cbn [foldl]. apply IH.
  destruct o; [by apply inv_register|by apply inv_evict|by apply inv_release].
Qed.

(** ** Properties *)

(** Newest wins. Whatever interleaving of registrations, evictions and
    releases came before, a registration makes the new slot its device's live
    stream, queues exactly the stream it displaced for eviction, and touches
    no other device. No superseded channel is ever closed twice (which would
    panic), a stream's context is cancelled by the registry only together
    with that close, and a stream that is still its device's live one has
    seen neither. *)
Theorem register_newest_wins (ops : list op) (d : string) :
  let r := run ops in
  let r' := register_locked r d in
  active r' !! d = Some (List.length (heap r)) ∧
  evicting r' = evicting r ++ option_list (active r !! d) ∧
  (∀ d', d' ≠ d → active r' !! d' = active r !! d') ∧
  (∀ i s, heap r !! i = Some s →
     (superseded s <= 1)%nat ∧ (cancelled s = true ↔ superseded s = 1%nat) ∧
     (active r !! owner s = Some i → superseded s = 0%nat)).
Proof.
  intros r r'. pose proof (events_inv_run ops) as Hinv. fold r in Hinv. unfold r', register_locked. cbn.
  split; [apply lookup_insert_eq|]. split.
  { destruct (active r !! d); [done|]. cbn. by rewrite app_nil_r. }
  split; [intros d' Hd; by rewrite lookup_insert_ne|].
  intros i s Hi. destruct (inv_slot _ Hinv i s Hi) as (H1 & H2 & _). split; [done|].
  split; [done|]. intros Ha. destruct (inv_active _ Hinv _ _ Ha) as (s' & ? & _ & ? & _).
  naive_solver.
Qed.

(** A stream on its way out never evicts its successor: releasing a slot
    that is not its device's live stream leaves the table of live streams as
    it is, releasing the live one removes exactly its own entry, and a second
    release of the same slot does nothing at all. *)
Theorem release_only_own (ops : list op) (i : nat) :
  let r := run ops in
  (∀ d j, j ≠ i → active r !! d = Some j → active (release r i) !! d = Some j) ∧
  (∀ d, active (release r i) !! d ≠ Some i) ∧
  release (release r i) i = release r i.
Proof.
  intros r. pose proof (events_inv_run ops) as Hinv. fold r in Hinv. clearbody r.
  unfold release. destruct (heap r !! i) as [[d sup can [|]]|] eqn:Hi.
  - rewrite Hi. repeat split; [done|]. intros d' Hd'.
    destruct (inv_active _ Hinv _ _ Hd') as (s & Hs & _ & _ & _ & Hr & _). naive_solver.
  - cbn. rewrite list_lookup_insert_eq by (by eapply lookup_lt_Some).
    repeat split.
    + intros d' j Hne Hj. case_decide; [|done]. rewrite lookup_delete_ne; [done|]. congruence.
    + intros d' Hd'. assert (active r !! d' = Some i) as Ha.
      { case_decide; [|done]. by apply lookup_delete_Some in Hd' as [_ ?]. }
      destruct (inv_active _ Hinv _ _ Ha) as (s & Hs & <- & _). simplify_eq. cbn in Hd'.
      rewrite decide_True in Hd' by done. by rewrite lookup_delete_eq in Hd'.
  - rewrite Hi. repeat split; [done|]. intros d' Hd'.
    destruct (inv_active _ Hinv _ _ Hd') as (s & Hs & _). naive_solver.
Qed.
End Events.
