(* ===== verification/EventHub.v ===== *)
(** * EventHub: one Docker events subscription, fanned out to every client
    (internal/httpapi/eventhub.go)

    Handlers attach and detach concurrently with the goroutine that drives the
    Engine's feed, so the hub is a transition system: each step is one critical
    section of [h.mu], one channel operation, or one call that runs outside the
    lock. Runs of the feed are numbered, and a number stands for everything a
    run owns (its context, its [ready] and [failed] channels); a subscriber is a
    heap cell. What the proofs add to the code's state is marked ghost. *)
From S2P Require Import Prelude.

Inductive eventCloseReason : Set := eventClosedEngine | eventClosedLagged.
#[export] Instance eventCloseReason_eq_dec : EqDecision eventCloseReason.
Proof. solve_decision. Defined.

Definition eventClientBuffer : nat := 64.

Section Hub.
(** [dockerx.ContainerEvent]: the hub hands events on without reading them. *)
Context {Event : Type}.
(** [eventClientBuffer], a variable the tests shrink. *)
Context (buffer : nat).

(** [type eventSubscriber struct]: the buffered channel [events], and
    [closed], which [once] guards. *)
Record eventSubscriber : Type := MkSub {
  events : list Event;
  closed : option eventCloseReason;
  taken : list Event;      (** ghost: what the client has received *)
  since : nat;             (** ghost: length of the feed when it attached *)
  left_ : bool }.          (** ghost: its own handler detached it *)

(** One run of the feed. *)
Record feed_run : Type := MkRun {
  streaming : bool;        (** the goroutine is inside StreamContainerEvents *)
  ctx_cancelled : bool;
  ready_closed : bool;
  failed_closed : bool }.

(** [type eventHub struct]; [ready], [failed] and [cancel] name a run. *)
Record eventHub : Type := MkHub {
  subs : gset nat;
  running : bool;
  cur : nat;
  cancel : option nat;
  runErr : option error }.

(** A call of [fanout] in progress: the event, the subscribers of its
    snapshot still to be served, and the one being dropped. *)
Record fanning : Type := MkFan { fan_ev : Event; fan_todo : list nat; fan_drop : option nat }.

Record sys : Type := MkSys {
  hub : eventHub;
  heap : list eventSubscriber;
  runs : list feed_run;
  fan : option fanning;
  cancels : list nat;      (** [cancel()]s read under the lock, not called yet *)
  closing : list nat;      (** subscribers a finished run has still to close *)
  failing : list nat;      (** runs whose [failed] is still to be closed *)
  feed : list Event }.     (** ghost: every event handed to [fanout] *)

(** [newEventHub], and a process in which nothing has happened. *)
Definition newEventHub : eventHub := MkHub ∅ false 0 None None.
Definition init : sys := MkSys newEventHub [] [] None [] [] [] [].

(** [func (s *eventSubscriber) close(reason)] *)
Definition sub_close (reason : eventCloseReason) (s : eventSubscriber) : eventSubscriber :=
  match closed s with
  | None => MkSub (events s) (Some reason) (taken s) (since s) (left_ s)
  | Some _ => s
  end.

Definition set_heap (s : sys) (h : list eventSubscriber) : sys :=
  MkSys (hub s) h (runs s) (fan s) (cancels s) (closing s) (failing s) (feed s).
Definition set_runs (s : sys) (r : list feed_run) : sys :=
  MkSys (hub s) (heap s) r (fan s) (cancels s) (closing s) (failing s) (feed s).
Definition set_fan (s : sys) (f : option fanning) : sys :=
  MkSys (hub s) (heap s) (runs s) f (cancels s) (closing s) (failing s) (feed s).

(** [func (h *eventHub) attach], up to [h.mu.Unlock()]: the new subscriber is
    the last cell of the heap. *)
Definition attach_locked (s : sys) : sys :=
  let h := hub s in
  let sub := List.length (heap s) in
  let fresh := List.length (runs s) in
  let heap' := heap s ++ [MkSub [] None [] (List.length (feed s)) false] in
  if running h
  then MkSys (MkHub ({[sub]} ∪ subs h) true (cur h) (cancel h) (runErr h))
         heap' (runs s) (fan s) (cancels s) (closing s) (failing s) (feed s)
  else MkSys (MkHub ({[sub]} ∪ subs h) true fresh (Some fresh) None)
         heap' (runs s ++ [MkRun true false false false])
         (fan s) (cancels s) (closing s) (failing s) (feed s).

(** The [select] that ends [attach], once one of its channels is ready: a
    subscriber or an error, never neither. *)
Inductive attach_branch : Set := BranchReady | BranchFailed | BranchRequestDone (cause : error).
Definition attach_return (s : sys) (sub : nat) (b : attach_branch) : result nat :=
  match b with
  | BranchReady => Ok sub
  | BranchFailed => Err (default (Sentinel ErrEventHubUnavailable) (runErr (hub s)))
  | BranchRequestDone cause => Err cause
  end.

(** [func (h *eventHub) detach], its critical section; [cancel()] is left to
    [run_cancel]. *)
Definition detach_locked (s : sys) (sub : nat) : sys :=
  let h := hub s in
  if decide (sub ∈ subs h) then
    let subs' := subs h ∖ {[sub]} in
    let last := bool_decide (subs' = ∅) && running h in
    MkSys (MkHub subs' (running h) (cur h) (cancel h) (runErr h)) (heap s) (runs s) (fan s)
      (if last then cancels s ++ option_list (cancel h) else cancels s)
      (closing s) (failing s) (feed s)
  else s.

(** A handler detaches its own subscriber. *)
Definition detach (s : sys) (sub : nat) : sys :=
  detach_locked
    (set_heap s (alter (λ c, MkSub (events c) (closed c) (taken c) (since c) true) sub (heap s)))
    sub.

Definition cancel_run (r : feed_run) : feed_run :=
  MkRun (streaming r) true (ready_closed r) (failed_closed r).

(** [cancel()], called by [detach] outside the lock. *)
Definition run_cancel (s : sys) (i : nat) : sys :=
  match cancels s !! i with
  | Some r =>
      MkSys (hub s) (heap s) (alter cancel_run r (runs s)) (fan s) (delete i (cancels s))
        (closing s) (failing s) (feed s)
  | None => s
  end.

(** [func (h *eventHub) stop()], up to the wait. *)
Definition stop (s : sys) : sys :=
  match cancel (hub s) with
  | Some r => set_runs s (alter cancel_run r (runs s))
  | None => s
  end.

(** [func (h *eventHub) markReady()] *)
Definition markReady (s : sys) : sys :=
  set_runs s (alter (λ r, MkRun (streaming r) (ctx_cancelled r) true (failed_closed r))
                (cur (hub s)) (runs s)).

(** [func (h *eventHub) fanout(ev)]: the snapshot of the subscribers, in the
    order [order] the map range happens to give them, ... *)
Definition fanout (s : sys) (ev : Event) (order : list nat) : sys :=
  MkSys (hub s) (heap s) (runs s) (Some (MkFan ev order None)) (cancels s) (closing s)
    (failing s) (feed s ++ [ev]).

(** ... one round of its loop ([select] with a [default]), ... *)
Definition fanout_send (s : sys) : sys :=
  match fan s with
  | Some (MkFan ev (sub :: todo) None) =>
      match heap s !! sub with
      | Some c =>
          if (List.length (events c) <? buffer)%nat
          then set_fan
                 (set_heap s (<[sub := MkSub (events c ++ [ev]) (closed c) (taken c) (since c) (left_ c)]>
                                (heap s)))
                 (Some (MkFan ev todo None))
          else set_fan (set_heap s (<[sub := sub_close eventClosedLagged c]> (heap s)))
                 (Some (MkFan ev todo (Some sub)))
      | None => s
      end
  | _ => s
  end.

(** ... the [h.detach(sub)] of a subscriber whose buffer was full, ... *)
Definition fanout_drop (s : sys) : sys :=
  match fan s with
  | Some (MkFan ev todo (Some sub)) => set_fan (detach_locked s sub) (Some (MkFan ev todo None))
  | _ => s
  end.

(** ... and its return. *)
Definition fanout_done (s : sys) : sys :=
  match fan s with
  | Some (MkFan _ [] None) => set_fan s None
  | _ => s
  end.

(** [func (h *eventHub) run(ctx)]: its critical section after the feed ended
    with [err], the subscribers again in the order of the map range, ... *)
Definition run_end (s : sys) (err : option error) (order : list nat) : sys :=
  let h := hub s in
  MkSys (MkHub ∅ false (cur h) None err) (heap s)
    (alter (λ r, MkRun false (ctx_cancelled r) (ready_closed r) (failed_closed r)) (cur h) (runs s))
    (fan s) (cancels s) (closing s ++ order) (failing s ++ [cur h]) (feed s).

(** ... [close(failed)], ... *)
Definition run_fail (s : sys) (i : nat) : sys :=
  match failing s !! i with
  | Some r =>
      MkSys (hub s) (heap s)
        (alter (λ r, MkRun (streaming r) (ctx_cancelled r) (ready_closed r) true) r (runs s))
        (fan s) (cancels s) (closing s) (delete i (failing s)) (feed s)
  | None => s
  end.

(** ... and [sub.close(eventClosedEngine)]. *)
Definition run_close (s : sys) (i : nat) : sys :=
  match closing s !! i with
  | Some sub =>
      MkSys (hub s) (alter (sub_close eventClosedEngine) sub (heap s)) (runs s) (fan s)
        (cancels s) (delete i (closing s)) (failing s) (feed s)
  | None => s
  end.

(** The client's side: [<-sub.events]. *)
Definition receive (c : eventSubscriber) : eventSubscriber :=
  match events c with
  | ev :: rest => MkSub rest (closed c) (taken c ++ [ev]) (since c) (left_ c)
  | [] => c
  end.

(** [order] is one of the orders a range over the map [subs] may take. *)
Definition range_of (m : gset nat) (order : list nat) : Prop :=
  NoDup order ∧ ∀ i, i ∈ order ↔ i ∈ m.

(** The steps. The goroutine of a run calls [markReady] (once), then
    [fanout], one event at a time, then returns; it does so while its run is
    streaming. Everything else can happen at any time. *)
Inductive step (s : sys) : sys → Prop :=
| step_attach : step s (attach_locked s)
| step_detach sub : step s (detach s sub)
| step_cancel i : step s (run_cancel s i)
| step_stop : step s (stop s)
| step_receive sub : step s (set_heap s (alter receive sub (heap s)))
| step_ready r :
    runs s !! cur (hub s) = Some r → streaming r = true → ready_closed r = false →
    step s (markReady s)
| step_fanout r ev order :
    runs s !! cur (hub s) = Some r → streaming r = true → fan s = None →
    range_of (subs (hub s)) order → step s (fanout s ev order)
| step_send : step s (fanout_send s)
| step_drop : step s (fanout_drop s)
| step_fanned : step s (fanout_done s)
| step_end r err order :
    runs s !! cur (hub s) = Some r → streaming r = true → fan s = None →
    range_of (subs (hub s)) order → step s (run_end s err order)
| step_fail i : step s (run_fail s i)
| step_close i : step s (run_close s i).

Definition reachable (s : sys) : Prop := rtc step init s.

Lemma reachable_invariant (P : sys → Prop) :
  P init → (∀ s s', step s s' → P s → P s') → ∀ s, reachable s → P s.
Proof.
  intros H0 Hs. assert (∀ s s', rtc step s s' → P s → P s') as H by (induction 1; eauto).
  intros s Hr. by eapply H.
Qed.

(** ** The runs of the feed *)

Record inv_runs (s : sys) : Prop := {
  ir_cur : running (hub s) = true →
    cancel (hub s) = Some (cur (hub s)) ∧
    ∃ r, runs s !! cur (hub s) = Some r ∧ streaming r = true;
  ir_only : ∀ i r, runs s !! i = Some r → streaming r = true →
    i = cur (hub s) ∧ running (hub s) = true;
  ir_idle : running (hub s) = false → subs (hub s) = ∅ ∧ fan s = None ∧ cancel (hub s) = None;
  ir_unwatched : running (hub s) = true → subs (hub s) = ∅ →
    cur (hub s) ∈ cancels s ∨ ∃ r, runs s !! cur (hub s) = Some r ∧ ctx_cancelled r = true }.

Lemma alter_Some {A} (f : A → A) k (l : list A) i x :
  l !! i = Some x → alter f k l !! i = Some (if decide (k = i) then f x else x).
Proof.
  intros H. case_decide as Hd; [subst; by rewrite list_lookup_alter_eq, H|].
  by rewrite list_lookup_alter_ne.
Qed.

Lemma alter_Some_inv {A} (f : A → A) k (l : list A) i y :
  alter f k l !! i = Some y → ∃ x, l !! i = Some x ∧ y = if decide (k = i) then f x else x.
Proof.
  case_decide as Hd.
  - subst. rewrite list_lookup_alter_eq. destruct (l !! i); naive_solver.
  - rewrite list_lookup_alter_ne by done. eauto.
Qed.

(** An update of a run that leaves [streaming] alone and cancels at most. *)
Lemma inv_runs_alter s f k :
  (∀ r, streaming (f r) = streaming r) → (∀ r, ctx_cancelled r = true → ctx_cancelled (f r) = true) →
  inv_runs s → inv_runs (set_runs s (alter f k (runs s))).
Proof.
  intros Hf Hc [H1 H2 H3 H4]. split; cbn; try done.
  - intros Hr. destruct (H1 Hr) as (Hcan & r & Hl & Hs). split; [done|].
    rewrite (alter_Some _ _ _ _ _ Hl). eexists. split; [done|]. case_decide; by rewrite ?Hf.
  - intros i r Hl. apply alter_Some_inv in Hl as (r0 & Hl & ->). intros Hs.
    apply (H2 i r0 Hl). case_decide; by rewrite ?Hf in Hs.
  - intros Hr He. destruct (H4 Hr He) as [?|(r & Hl & Hx)]; [by left|right].
    rewrite (alter_Some _ _ _ _ _ Hl). eexists. split; [done|]. case_decide; auto.
Qed.

(** The invariant does not read the heap. *)
Lemma inv_runs_heap s h : inv_runs s → inv_runs (set_heap s h).
Proof. intros [H1 H2 H3 H4]. by split. Qed.

(** It reads [fan] only to say that an idle hub has no [fanout] in progress. *)
Lemma inv_runs_fan s h f : fan s ≠ None → inv_runs s → inv_runs (set_fan (set_heap s h) f).
Proof.
  intros Hf [H1 H2 H3 H4]. split; cbn; try done.
  intros Hrun. by destruct (H3 Hrun) as (_ & ? & _).
Qed.

Lemma inv_runs_detach_locked s sub : inv_runs s → inv_runs (detach_locked s sub).
Proof.
  intros [H1 H2 H3 H4]. unfold detach_locked. case_decide as Hin; [|by split].
  split; cbn; try done.
  - intros Hr. destruct (H3 Hr) as (He & ?). set_solver.
  - intros Hr He. destruct (H1 Hr) as [Hcan _]. rewrite Hcan, Hr.
    rewrite bool_decide_eq_true_2 by done. left. cbn. set_solver.
Qed.

Lemma inv_runs_step s s' : step s s' → inv_runs s → inv_runs s'.
Proof.
  intros Hst Hi. destruct Hst as [|sub|i| |sub|r Hr Hs Hrd|r ev order Hr Hs Hf Ho| | |
                                  |r err order Hr Hs Hf Ho|i|i].
  - destruct Hi as [H1 H2 H3 H4]. unfold attach_locked. destruct (running (hub s)) eqn:Hrun.
    + split; cbn; [auto|auto|done|set_solver].
    + destruct (H3 eq_refl) as (He & Hf & Hc). split; cbn; [|..|set_solver].
      * intros _. split; [done|]. eexists. rewrite lookup_app_r, Nat.sub_diag by lia.
        split; [done|done].
      * intros i r Hi Hs. apply lookup_app_Some in Hi as [Hi|[Hle Hi]].
        { destruct (H2 i r Hi Hs). congruence. }
        apply list_lookup_singleton_Some in Hi as [? _]. split; [lia|done].
      * done.
  - apply inv_runs_detach_locked, inv_runs_heap, Hi.
  - unfold run_cancel. destruct (cancels s !! i) as [r|] eqn:Hr; [|done].
    assert (inv_runs (set_runs s (alter cancel_run r (runs s)))) as [H1 H2 H3 H4]
      by (by apply inv_runs_alter).
    split; cbn in *; try done. intros Hrun He.
    destruct (H4 Hrun He) as [Hin|?]; [|by right].
    destruct (decide (cur (hub s) = r)) as [Heq|Hne].
    + right. destruct (H1 Hrun) as (_ & r' & Hr' & Hs). exists r'. split; [done|].
      apply alter_Some_inv in Hr' as (r0 & _ & ->). by rewrite decide_True.
    + left. rewrite (delete_Permutation _ _ _ Hr) in Hin. set_solver.
  - unfold stop. destruct (cancel (hub s)); [|done]. by apply inv_runs_alter.
  - by apply inv_runs_heap.
  - by apply inv_runs_alter.
  - destruct Hi as [H1 H2 H3 H4]. split; cbn; try done.
    intros Hrun. destruct (H2 _ _ Hr Hs). congruence.
  - unfold fanout_send. destruct (fan s) as [[ev [|sub todo] [d|]]|] eqn:Hf; try done.
    destruct (heap s !! sub) as [c|]; [|done].
    case_match; (apply inv_runs_fan; [by rewrite Hf|done]).
  - unfold fanout_drop. destruct (fan s) as [[ev todo [d|]]|] eqn:Hf; try done.
    apply (inv_runs_fan _ (heap (detach_locked s d))); [|by apply inv_runs_detach_locked].
    unfold detach_locked. case_decide; cbn; by rewrite Hf.
  - unfold fanout_done. destruct (fan s) as [[ev [|] [d|]]|] eqn:Hf; try done.
    apply (inv_runs_fan s (heap s)); [by rewrite Hf|done].
  - destruct Hi as [H1 H2 H3 H4]. split; cbn; try done.
    intros i r' Hl Hs'. apply alter_Some_inv in Hl as (r0 & Hl & ->).
    case_decide as Hd; [done|]. destruct (H2 i r0 Hl Hs'). congruence.
  - unfold run_fail. destruct (failing s !! i) as [r|]; [|done].
    assert (inv_runs (set_runs s (alter (λ r, MkRun (streaming r) (ctx_cancelled r)
      (ready_closed r) true) r (runs s)))) as [H1 H2 H3 H4] by (by apply inv_runs_alter).
    by split.
  - unfold run_close. destruct (closing s !! i); [|done]. destruct Hi as [H1 H2 H3 H4]. by split.
Qed.

Lemma inv_runs_reachable s : reachable s → inv_runs s.
Proof.
  apply reachable_invariant; [|intros; by eapply inv_runs_step].
  split; cbn; try done.
Qed.

(** ** The subscribers *)

Definition todo (s : sys) : list nat := match fan s with Some f => fan_todo f | None => [] end.
Definition dropping (s : sys) : option nat := fan s ≫= fan_drop.
Definition fan_events (s : sys) : list Event := match fan s with Some f => [fan_ev f] | None => [] end.
(** What a subscriber has been given so far, read or not. *)
Definition given (c : eventSubscriber) : list Event := taken c ++ events c.

(** The subscriber [i] in a given situation: [reg] says it is registered,
    [owed] that the [fanout] in progress has still to serve it, [drop] that it
    is being dropped, [clos] that a finished run will close it. *)
Record cell_inv (fd evs : list Event) (reg owed drop clos : Prop) (c : eventSubscriber) : Prop := {
  ci_room : (List.length (events c) <= buffer)%nat;
  ci_since : (since c <= List.length fd)%nat;
  ci_prefix : given c `prefix_of` List.skipn (since c) fd;
  ci_owed : owed → given c ++ evs = List.skipn (since c) fd;
  ci_complete : ¬ owed → reg → ¬ drop → given c = List.skipn (since c) fd;
  ci_open : reg → ¬ drop → closed c = None;
  ci_told : ¬ reg → closed c ≠ None ∨ clos ∨ left_ c = true;
  ci_dropped : drop → closed c ≠ None ∧ ¬ owed }.

Record inv_subs (s : sys) : Prop := {
  is_nodup : NoDup (todo s);
  is_fan : todo s ≠ [] → fan_events s ≠ [];
  is_alive : ∀ i, i ∈ todo s ∨ i ∈ subs (hub s) ∨ i ∈ closing s ∨ dropping s = Some i →
    (i < List.length (heap s))%nat;
  is_closing : ∀ i, i ∈ closing s → i ∉ subs (hub s);
  is_cell : ∀ i c, heap s !! i = Some c →
    cell_inv (feed s) (fan_events s) (i ∈ subs (hub s)) (i ∈ todo s) (dropping s = Some i)
      (i ∈ closing s) c }.

Lemma cell_inv_iff fd evs reg reg' owed owed' drop drop' clos clos' c :
  (reg ↔ reg') → (owed ↔ owed') → (drop ↔ drop') → (clos ↔ clos') →
  cell_inv fd evs reg owed drop clos c → cell_inv fd evs reg' owed' drop' clos' c.
Proof. intros H1 H2 H3 H4 [????????]. split; tauto. Qed.

(** Changes of a cell that keep what it was given and do not reopen it. *)
Lemma cell_inv_change fd evs reg owed drop clos c c' :
  given c' = given c → since c' = since c → (List.length (events c') <= List.length (events c))%nat →
  closed c' = closed c → (left_ c = true → left_ c' = true) →
  cell_inv fd evs reg owed drop clos c → cell_inv fd evs reg owed drop clos c'.
Proof.
  intros Hg Hs Hl Hc Hleft [????????]. split; rewrite ?Hg, ?Hs, ?Hc; try done; [lia|tauto].
Qed.

Lemma inv_subs_attach s : inv_subs s → inv_subs (attach_locked s).
Proof.
  intros [Hn Hf Ha Hc Hcell].
  assert (∀ sg, sg = attach_locked s → subs (hub sg) = {[List.length (heap s)]} ∪ subs (hub s) ∧
    heap sg = heap s ++ [MkSub [] None [] (List.length (feed s)) false] ∧ fan sg = fan s ∧
    closing sg = closing s ∧ feed sg = feed s) as Hsg
    by (intros sg ->; unfold attach_locked; destruct (running (hub s)); done).
  destruct (Hsg _ eq_refl) as (E1 & E2 & E3 & E4 & E5). clear Hsg.
  split; unfold todo, fan_events, dropping in *; rewrite ?E1, ?E2, ?E3, ?E4, ?E5; try done.
  - intros i Hi. rewrite length_app. cbn. specialize (Ha i). set_unfold. destruct Hi as [?|[[?|?]|?]]; lia || (assert (i < List.length (heap s))%nat by tauto; lia).
  - intros i Hi Hin. specialize (Hc i Hi). specialize (Ha i (or_intror (or_intror (or_introl Hi)))).
    set_unfold. destruct Hin; [lia|done].
  - intros i c Hi. apply lookup_app_Some in Hi as [Hi|[Hle Hi]].
    + pose proof (lookup_lt_Some _ _ _ Hi). eapply cell_inv_iff; [..|by apply Hcell]; try done.
      set_unfold. split; [tauto|]. intros [?|?]; [lia|done].
    + apply list_lookup_singleton_Some in Hi as [Hi <-].
      assert (¬ (i < List.length (heap s))%nat) as Hnot by lia.
      split; cbn; try done; try lia.
      * apply prefix_nil.
      * intros Ho. destruct Hnot. apply Ha. tauto.
      * intros _ _ _. by rewrite skipn_all.
      * intros Hr. destruct Hr. set_unfold. lia.
      * intros Ho. destruct Hnot. apply Ha. tauto.
Qed.

Lemma inv_subs_detach_locked s sub :
  (∀ c, heap s !! sub = Some c → closed c ≠ None ∨ left_ c = true) →
  inv_subs s → inv_subs (detach_locked s sub).
Proof.
  intros Hsub Hi. unfold detach_locked. case_decide as Hin; [|done].
  destruct Hi as [Hn Hf Ha Hc Hcell]. split; cbn; try done.
  - intros i Hi. apply Ha. set_solver.
  - intros i Hi. specialize (Hc i Hi). set_solver.
  - intros i c Hi. pose proof (Hcell i c Hi) as [C1 C2 C3 C4 C5 C6 C7 C8]. split; try done.
    + intros Ho Hr. apply C5; [done|set_solver].
    + intros Hr. apply C6. set_solver.
    + intros Hr. destruct (decide (i = sub)) as [->|Hne]; [|apply C7; set_solver].
      destruct (Hsub c Hi); [by left|by right; right].
Qed.

Lemma inv_subs_heap s k f :
  (∀ i c, heap s !! i = Some c → k = i →
     cell_inv (feed s) (fan_events s) (i ∈ subs (hub s)) (i ∈ todo s) (dropping s = Some i)
       (i ∈ closing s) (f c)) →
  inv_subs s → inv_subs (set_heap s (alter f k (heap s))).
Proof.
  intros Hf [Hn Hfan Ha Hc Hcell]. split; cbn; try done.
  - intros i. rewrite length_alter. apply Ha.
  - intros i c Hl. apply alter_Some_inv in Hl as (c0 & Hl & ->).
    case_decide; [by apply Hf|by apply Hcell].
Qed.

Lemma inv_subs_detach s sub : inv_subs s → inv_subs (detach s sub).
Proof.
  intros Hi. apply inv_subs_detach_locked.
  - cbn. intros c Hl. apply alter_Some_inv in Hl as (c0 & _ & ->). rewrite decide_True by done.
    by right.
  - apply inv_subs_heap; [|done]. intros i c Hl ->.
    eapply cell_inv_change; [..|by apply Hi]; done.
Qed.

Lemma inv_subs_fanout s ev order :
  fan s = None → range_of (subs (hub s)) order → inv_subs s → inv_subs (fanout s ev order).
Proof.
  intros Hfan [Hnd Hrange] [Hn Hf Ha Hc Hcell].
  unfold todo, dropping, fan_events in *. rewrite Hfan in *.
  split; unfold todo, dropping, fan_events; cbn; try done.
  - intros i Hi. apply Ha. rewrite Hrange in Hi. tauto.
  - intros i c Hi. destruct (Hcell i c Hi) as [C1 C2 C3 C4 C5 C6 C7 C8].
    assert (List.skipn (since c) (feed s ++ [ev]) = List.skipn (since c) (feed s) ++ [ev]) as Hskip.
    { rewrite List.skipn_app. replace (since c - List.length (feed s))%nat with 0%nat by lia. done. }
    split; try done; rewrite ?Hskip.
    + rewrite length_app. lia.
    + by apply prefix_app_r.
    + intros Ho. f_equal. apply C5; [set_solver|by apply Hrange|done].
    + intros Ho Hr. by rewrite Hrange in Ho.
Qed.

Lemma inv_subs_send s : inv_subs s → inv_subs (fanout_send s).
Proof.
  intros Hi. unfold fanout_send. destruct (fan s) as [[ev [|sub rest] [d|]]|] eqn:Hfan; try done.
  destruct (heap s !! sub) as [c|] eqn:Hsub; [|done].
  destruct Hi as [Hn Hf Ha Hc Hcell]. unfold todo, dropping, fan_events in *. rewrite Hfan in *.
  cbn -[Nat.ltb] in *. apply NoDup_cons in Hn as [Hnot Hn]. pose proof (lookup_lt_Some _ _ _ Hsub) as Hlt.
  destruct (Hcell sub c Hsub) as [C1 C2 C3 C4 C5 C6 C7 C8].
  assert (sub ∈ sub :: rest) as Hin by set_solver. specialize (C4 Hin).
  destruct (Nat.ltb_spec (List.length (events c)) buffer) as [Hroom|Hfull].
  - assert (∀ l, given (MkSub (events c ++ [ev]) l (taken c) (since c) (left_ c)) = given c ++ [ev]) as Hg
      by (intros l; unfold given; cbn; by rewrite app_assoc).
    split; unfold todo, dropping, fan_events; cbn; try done.
    + intros i Hi. rewrite length_insert. apply Ha. set_solver.
    + intros i c' Hi. apply list_lookup_insert_Some in Hi as [(-> & <- & _)|[Hne Hi]].
      * split; rewrite ?Hg; cbn; try done.
        { rewrite length_app. cbn. lia. }
        { by rewrite C4. }
      * eapply cell_inv_iff; [..|by apply Hcell]; try done. set_solver.
  - split; unfold todo, dropping, fan_events; cbn; try done.
    + intros i Hi. rewrite length_insert. destruct Hi as [Hi|[Hi|[Hi|[= <-]]]]; [..|done];
        apply Ha; set_solver.
    + intros i c' Hi. apply list_lookup_insert_Some in Hi as [(-> & <- & _)|[Hne Hi]].
      * assert (closed (sub_close eventClosedLagged c) ≠ None ∧
                given (sub_close eventClosedLagged c) = given c ∧
                events (sub_close eventClosedLagged c) = events c ∧
                since (sub_close eventClosedLagged c) = since c) as (E1 & E2 & E3 & E4).
        { unfold sub_close. destruct (closed c) eqn:Hcl; [by rewrite Hcl|done]. }
        split; rewrite ?E2, ?E3, ?E4; try done; intros; try done; tauto.
      * eapply cell_inv_iff; [..|by apply Hcell]; try done; [set_solver|].
        split; [done|]. intros [= ?]. congruence.
Qed.

Lemma inv_subs_drop s : inv_subs s → inv_subs (fanout_drop s).
Proof.
  intros Hi. unfold fanout_drop. destruct (fan s) as [[ev rest [sub|]]|] eqn:Hfan; try done.
  assert (∀ c, heap s !! sub = Some c → closed c ≠ None) as Hclosed.
  { intros c Hl. apply (is_cell s Hi sub c Hl). unfold dropping. by rewrite Hfan. }
  assert (inv_subs (detach_locked s sub)) as [Hn Hf Ha Hc Hcell].
  { apply inv_subs_detach_locked; [|done]. intros c Hl. left. by apply Hclosed. }
  assert (fan (detach_locked s sub) = fan s) as Hfan'
    by (unfold detach_locked; by case_decide).
  assert (heap (detach_locked s sub) = heap s) as Hheap
    by (unfold detach_locked; by case_decide).
  assert (sub ∉ subs (hub (detach_locked s sub))) as Hout.
  { unfold detach_locked. case_decide; cbn; [set_solver|done]. }
  unfold todo, dropping, fan_events in *. rewrite Hfan', Hfan in *.
  split; unfold todo, dropping, fan_events; cbn; try done.
  - intros i Hi'. apply Ha. cbn. naive_solver.
  - intros i c Hl. destruct (Hcell i c Hl) as [C1 C2 C3 C4 C5 C6 C7 C8]. cbn in *.
    split; try done.
    + intros Ho Hr _. apply C5; [done..|]. intros [= ->]. done.
    + intros Hr _. apply C6; [done|]. intros [= ->]. done.
Qed.

Lemma inv_subs_done s : inv_subs s → inv_subs (fanout_done s).
Proof.
  intros Hi. unfold fanout_done. destruct (fan s) as [[ev [|] [d|]]|] eqn:Hfan; try done.
  destruct Hi as [Hn Hf Ha Hc Hcell]. unfold todo, dropping, fan_events in *. rewrite Hfan in *.
  split; unfold todo, dropping, fan_events; cbn; try done.
  intros i c Hl. destruct (Hcell i c Hl) as [C1 C2 C3 C4 C5 C6 C7 C8]. split; try done; set_solver.
Qed.

Lemma inv_subs_end s err order :
  fan s = None → range_of (subs (hub s)) order → inv_subs s → inv_subs (run_end s err order).
Proof.
  intros Hfan [Hnd Hrange] [Hn Hf Ha Hc Hcell].
  unfold todo, dropping, fan_events in *. rewrite Hfan in *.
  split; unfold todo, dropping, fan_events; cbn; rewrite ?Hfan; try done.
  - intros i. rewrite elem_of_app, Hrange. intros Hi. apply Ha. set_solver.
  - intros i c Hl. destruct (Hcell i c Hl) as [C1 C2 C3 C4 C5 C6 C7 C8]. split; try done.
    intros _. rewrite elem_of_app, Hrange. destruct (decide (i ∈ subs (hub s))) as [Hin|Hout]; [auto|].
    destruct (C7 Hout) as [?|[?|?]]; auto.
Qed.

Lemma inv_subs_close s i : inv_subs s → inv_subs (run_close s i).
Proof.
  intros Hi. unfold run_close. destruct (closing s !! i) as [sub|] eqn:Hsub; [|done].
  assert (∀ j, j ∈ closing s ↔ j = sub ∨ j ∈ delete i (closing s)) as Hdel.
  { intros j. rewrite (delete_Permutation _ _ _ Hsub) at 1. apply elem_of_cons. }
  destruct Hi as [Hn Hf Ha Hc Hcell]. split; cbn; try done.
  - intros j Hj. rewrite length_alter. apply Ha. rewrite Hdel. tauto.
  - intros j Hj. apply Hc, Hdel. tauto.
  - intros j c Hl. apply alter_Some_inv in Hl as (c0 & Hl & ->).
    destruct (Hcell j c0 Hl) as [C1 C2 C3 C4 C5 C6 C7 C8].
    case_decide as Hd; [|split; try done; specialize (Hdel j); naive_solver].
    subst j. assert (sub ∉ subs (hub s)) as Hout by (apply Hc, Hdel; tauto).
    unfold sub_close. destruct (closed c0) eqn:Hcl; split; cbn; try done; intros;
      try (by left); try done; naive_solver.
Qed.

Lemma inv_subs_step s s' : step s s' → inv_subs s → inv_subs s'.
Proof.
  intros Hst Hi. destruct Hst.
  - by apply inv_subs_attach.
  - by apply inv_subs_detach.
  - unfold run_cancel. case_match; [|done]. by destruct Hi.
  - unfold stop. case_match; [|done]. by destruct Hi.
  - apply inv_subs_heap; [|done]. intros i c Hl ->. unfold receive.
    destruct (events c) as [|ev rest] eqn:He; [by apply Hi|].
    eapply cell_inv_change; [..|by apply Hi]; cbn; try done.
    + unfold given. cbn. rewrite He. by rewrite <- app_assoc.
    + rewrite He. cbn. lia.
  - by destruct Hi.
  - by apply inv_subs_fanout.
  - by apply inv_subs_send.
  - by apply inv_subs_drop.
  - by apply inv_subs_done.
  - by apply inv_subs_end.
  - unfold run_fail. case_match; [|done]. by destruct Hi.
  - by apply inv_subs_close.
Qed.

Lemma inv_subs_reachable s : reachable s → inv_subs s.
Proof.
  apply reachable_invariant; [|intros; by eapply inv_subs_step].
  split; cbn; try done; [apply NoDup_nil; done|set_solver..].
Qed.
End Hub.
Arguments eventSubscriber : clear implicits.
Arguments sys : clear implicits.

(** ** Properties *)

(** Two events reach a client whose buffer holds one: it is dropped. *)
Definition lagging : sys nat :=
  let s0 := fanout_done (fanout_send 1 (fanout (markReady (attach_locked init)) 7%nat [0%nat])) in
  fanout_done (fanout_drop (fanout_send 1 (fanout s0 8%nat [0%nat]))).

Lemma lagging_reachable : reachable 1 lagging.
Proof.
  assert (range_of {[0%nat]} [0%nat]) as Hr
    by (split; [apply NoDup_singleton|set_solver]).
  unfold lagging, reachable. cbv zeta.
  eapply rtc_r; [|apply step_fanned]. eapply rtc_r; [|apply step_drop].
  eapply rtc_r; [|apply step_send].
  eapply rtc_r; [|eapply step_fanout; [vm_compute; reflexivity..|exact Hr]].
  eapply rtc_r; [|apply step_fanned]. eapply rtc_r; [|apply step_send].
  eapply rtc_r; [|eapply step_fanout; [vm_compute; reflexivity..|exact Hr]].
  eapply rtc_r; [|eapply step_ready; vm_compute; reflexivity].
  eapply rtc_r; [|apply step_attach]. apply rtc_refl.
Qed.

(** C26 The feed a client sees has no hole. In every reachable state, what a
    subscriber has been given (read or still buffered) is a contiguous stretch
    of the Engine's feed that starts where it attached; between events, a
    subscriber that is still registered has been given all of that feed up to
    now; and its buffer never exceeds the bound, so a client that falls behind
    is dropped rather than served with a gap. *)
Theorem event_feed_no_gap {Event} (buffer : nat) (s : sys Event) (i : nat) (c : eventSubscriber Event)
    (Hreach : reachable buffer s) (Hcell : heap s !! i = Some c) :
  given c `prefix_of` List.skipn (since c) (feed s) ∧
  (List.length (events c) <= buffer)%nat ∧
  (i ∈ subs (hub s) → fan s = None → given c = List.skipn (since c) (feed s)).
Proof.
  destruct (is_cell _ s (inv_subs_reachable _ s Hreach) i c Hcell) as [C1 C2 C3 C4 C5 C6 C7 C8].
  split; [done|]. split; [done|]. intros Hin Hfan. apply C5; [|done|].
  - unfold todo. rewrite Hfan. apply not_elem_of_nil.
  - unfold dropping. by rewrite Hfan.
Qed.

Lemma event_feed_no_gap_witness :
  ∃ c, heap lagging !! 0%nat = Some c ∧ closed c = Some eventClosedLagged ∧ given c = [7%nat] ∧
       given c `prefix_of` List.skipn (since c) (feed lagging).
Proof.
  eexists. split; [vm_compute; reflexivity|]. split; [reflexivity|]. split; [reflexivity|].
  apply (event_feed_no_gap 1 lagging 0 _ lagging_reachable). vm_compute. reflexivity.
Defined.

(** The process holds at most one Engine subscription, whatever the
    interleaving of attaching and detaching clients with the end of a feed: two
    streaming runs are the same run, and there is one exactly when the hub says
    it is running. When the last client has gone, that subscription is
    cancelled, or the call that cancels it is about to be made. *)
Theorem event_hub_one_subscription {Event} (buffer : nat) (s : sys Event)
    (Hreach : reachable buffer s) :
  (∀ i j r r', runs s !! i = Some r → streaming r = true →
               runs s !! j = Some r' → streaming r' = true → i = j) ∧
  (running (hub s) = true ↔ ∃ i r, runs s !! i = Some r ∧ streaming r = true) ∧
  (∀ r, runs s !! cur (hub s) = Some r → streaming r = true → subs (hub s) = ∅ →
        ctx_cancelled r = true ∨ cur (hub s) ∈ cancels s).
Proof.
  destruct (inv_runs_reachable _ s Hreach) as [H1 H2 H3 H4]. split; [|split].
  - intros i j r r' Hi Hr Hj Hr'. destruct (H2 i r Hi Hr), (H2 j r' Hj Hr'). congruence.
  - split; [intros Hrun; destruct (H1 Hrun) as (_ & r & ?); eauto|].
    intros (i & r & Hi & Hr). by destruct (H2 i r Hi Hr).
  - intros r Hr Hs He. destruct (H2 _ _ Hr Hs) as [_ Hrun].
    destruct (H4 Hrun He) as [?|(r' & Hr' & ?)]; [by right|left]. congruence.
Qed.

Lemma event_hub_one_subscription_witness :
  running (hub lagging) = true ∧ subs (hub lagging) = ∅ ∧
  ∀ r, runs lagging !! cur (hub lagging) = Some r → streaming r = true → subs (hub lagging) = ∅ →
       ctx_cancelled r = true ∨ cur (hub lagging) ∈ cancels lagging.
Proof.
  split; [reflexivity|]. split; [vm_compute; reflexivity|].
  apply (event_hub_one_subscription 1 lagging lagging_reachable).
Defined.

(** No client is left waiting on a feed that will not come. A subscriber
    that is not registered any more has either detached itself, or has been
    told why it was closed, or is in the list of subscribers the finished run
    is closing; and a registered one, between events, has not been closed. *)
Theorem event_subscriber_told {Event} (buffer : nat) (s : sys Event) (i : nat)
    (c : eventSubscriber Event) (Hreach : reachable buffer s) (Hcell : heap s !! i = Some c) :
  (i ∉ subs (hub s) → left_ c = true ∨ closed c ≠ None ∨ i ∈ closing s) ∧
  (i ∈ subs (hub s) → fan s = None → closed c = None).
Proof.
  destruct (is_cell _ s (inv_subs_reachable _ s Hreach) i c Hcell) as [C1 C2 C3 C4 C5 C6 C7 C8].
  split.
  - intros Hout. destruct (C7 Hout) as [?|[?|?]]; auto.
  - intros Hin Hfan. apply C6; [done|]. unfold dropping. by rewrite Hfan.
Qed.

Lemma event_subscriber_told_witness :
  ∃ c, heap lagging !! 0%nat = Some c ∧
       (0%nat ∉ subs (hub lagging) → left_ c = true ∨ closed c ≠ None ∨ 0%nat ∈ closing lagging).
Proof.
  eexists. split; [vm_compute; reflexivity|].
  apply (event_subscriber_told 1 lagging 0 _ lagging_reachable). vm_compute. reflexivity.
Defined.
