(* ===== verification/Server.v ===== *)
(** * Server: serving, draining and shutting down (internal/httpapi/server.go)

    [Run] waits for the listener or for its context; [shutdown] cancels every
    request, stops the event hub, closes the connections that never sent a
    request and lets [http.Server] drain. The hook [trackConnState] runs
    meanwhile, on the goroutine of each connection, so the whole is a transition
    system: one step for each critical section of [newConnMu], each
    [conn.Close()] made outside it, each statement of [shutdown], and each step
    of the hub (EventHub.v). A connection is a number; [net/http] reports each
    one's states in the order its documentation gives. *)
From S2P Require Import Prelude EventHub.

(** [http.ConnState] *)
Inductive ConnState : Set := StateNew | StateActive | StateIdle | StateHijacked | StateClosed.
#[export] Instance ConnState_eq_dec : EqDecision ConnState.
Proof. solve_decision. Defined.

(** What may be reported next of a connection last reported in a state. *)
Definition conn_next (old : option ConnState) (new : ConnState) : Prop :=
  match old, new with
  | None, StateNew => True
  | Some StateNew, (StateActive | StateClosed) => True
  | Some StateActive, (StateIdle | StateHijacked | StateClosed) => True
  | Some StateIdle, (StateActive | StateClosed) => True
  | _, _ => False
  end.

(** The fields [newConnMu] guards. *)
Record tracker : Type := MkTracker { newConns : gset nat; draining : bool }.

(** [func (s *Server) trackConnState], its critical section; and whether
    [conn.Close()] follows it. *)
Definition trackConnState (conn : nat) (state : ConnState) (t : tracker) : bool * tracker :=
  match state with
  | StateNew =>
      if draining t then (true, t)
      else (false, MkTracker ({[conn]} ∪ newConns t) (draining t))
  | StateActive | StateIdle | StateHijacked | StateClosed =>
      (false, MkTracker (newConns t ∖ {[conn]}) (draining t))
  end.

(** [func (s *Server) closeNewConns], its critical section; the loop over the
    old map follows it. *)
Definition closeNewConns (t : tracker) : gset nat * tracker := (newConns t, MkTracker ∅ true).

(** [Run], the branch of [errCh]. *)
Definition serve_result (listenAddr : string) (err : option error) : result unit :=
  match err with
  | Some e => if errors_is e HttpErrServerClosed then Ok tt else Err (wrap ("serve https on " +:+ listenAddr) e)
  | None => Ok tt
  end.
(** [shutdown], what it returns of [s.http.Shutdown(sctx)]. *)
Definition shutdown_result (err : option error) : result unit :=
  match err with Some e => Err (wrap "shut down http server" e) | None => Ok tt end.

Section Server.
Context {Event : Type} (buffer : nat) (listenAddr : string).

(** How far [Run] is: in its [select], at a statement of [shutdown], or done. *)
Inductive phase : Type :=
| Serving
| Cancelling                      (** [s.cancelLifecycle()] *)
| StoppingHub                     (** [s.events.stop()], before the cancel *)
| AwaitingHub                     (** [h.wg.Wait()] *)
| Draining                        (** [s.closeNewConns()], before the lock *)
| Sweeping (conns : list nat)     (** its loop, the connections left to close *)
| ShuttingDown                    (** [s.http.Shutdown(sctx)] *)
| Returned (r : result unit).

Record server : Type := MkServer_ {
  ph : phase;
  ctx_done : bool;                       (** the context of [Run] *)
  errCh : option (option error);         (** what the serving goroutine sent *)
  lifecycle_done : bool;                 (** [lifecycleCtx] *)
  hub_ : @sys Event;
  trk : tracker;
  reported : gmap nat ConnState;         (** the last state reported of each connection *)
  pending : list nat;                    (** [conn.Close()]s the hook has still to make *)
  shut : gset nat;                       (** connections the server has closed itself *)
  busy : gset nat }.                     (** ghost: past StateNew when the drain began *)

Definition init_server : server :=
  MkServer_ Serving false None false init (MkTracker ∅ false) ∅ [] ∅ ∅.

Definition set_ph (s : server) (p : phase) : server :=
  MkServer_ p (ctx_done s) (errCh s) (lifecycle_done s) (hub_ s) (trk s) (reported s) (pending s) (shut s) (busy s).
Definition set_hub (s : server) (h : @sys Event) : server :=
  MkServer_ (ph s) (ctx_done s) (errCh s) (lifecycle_done s) h (trk s) (reported s) (pending s) (shut s) (busy s).
Definition close_conn (s : server) (c : nat) : server :=
  MkServer_ (ph s) (ctx_done s) (errCh s) (lifecycle_done s) (hub_ s) (trk s) (reported s) (pending s)
    ({[c]} ∪ shut s) (busy s).

(** A connection's goroutine in the hook, up to the unlock. *)
Definition hook (s : server) (c : nat) (st : ConnState) : server :=
  let '(close, t) := trackConnState c st (trk s) in
  MkServer_ (ph s) (ctx_done s) (errCh s) (lifecycle_done s) (hub_ s) t (<[c := st]> (reported s))
    (if close then c :: pending s else pending s) (shut s) (busy s).

(** [s.cancelLifecycle()] *)
Definition cancelLifecycle (s : server) : server :=
  MkServer_ StoppingHub (ctx_done s) (errCh s) true (hub_ s) (trk s) (reported s) (pending s) (shut s) (busy s).

(** [s.closeNewConns()], up to its loop, which ranges over the map in the order
    [order]. *)
Definition drain (s : server) (order : list nat) : server :=
  let '(_, t) := closeNewConns (trk s) in
  MkServer_ (Sweeping order) (ctx_done s) (errCh s) (lifecycle_done s) (hub_ s) t (reported s) (pending s) (shut s)
    (dom (filter (λ cs, cs.2 ≠ StateNew) (reported s))).

(** The goroutines [h.wg] counts have ended. *)
Definition hub_quiet (h : @sys Event) : Prop :=
  (∀ i r, runs h !! i = Some r → streaming r = false) ∧ closing h = [] ∧ failing h = [].

Inductive server_step (s : server) : server → Prop :=
(** [net/http] and the outside world *)
| sv_hook c st : conn_next (reported s !! c) st → server_step s (hook s c st)
| sv_close c p1 p2 : pending s = p1 ++ c :: p2 →
    server_step s (close_conn (MkServer_ (ph s) (ctx_done s) (errCh s) (lifecycle_done s) (hub_ s) (trk s)
      (reported s) (p1 ++ p2) (shut s) (busy s)) c)
| sv_hub h : EventHub.step buffer (hub_ s) h → server_step s (set_hub s h)
| sv_signal : server_step s (MkServer_ (ph s) true (errCh s) (lifecycle_done s) (hub_ s) (trk s) (reported s)
    (pending s) (shut s) (busy s))
| sv_served err : errCh s = None →
    server_step s (MkServer_ (ph s) (ctx_done s) (Some err) (lifecycle_done s) (hub_ s) (trk s) (reported s)
      (pending s) (shut s) (busy s))
(** the [select] of [Run] *)
| sv_failed err : ph s = Serving → errCh s = Some err → server_step s (set_ph s (Returned (serve_result listenAddr err)))
| sv_done : ph s = Serving → ctx_done s = true → server_step s (set_ph s Cancelling)
(** [shutdown] *)
| sv_cancel : ph s = Cancelling → server_step s (cancelLifecycle s)
| sv_stop : ph s = StoppingHub → server_step s (set_ph (set_hub s (stop (hub_ s))) AwaitingHub)
| sv_wait : ph s = AwaitingHub → hub_quiet (hub_ s) → server_step s (set_ph s Draining)
| sv_drain order : ph s = Draining → range_of (closeNewConns (trk s)).1 order → server_step s (drain s order)
| sv_sweep c todo : ph s = Sweeping (c :: todo) → server_step s (close_conn (set_ph s (Sweeping todo)) c)
| sv_swept : ph s = Sweeping [] → server_step s (set_ph s ShuttingDown)
| sv_shutdown err : ph s = ShuttingDown → server_step s (set_ph s (Returned (shutdown_result err))).

Definition server_reachable (s : server) : Prop := rtc server_step init_server s.

(** ** Connections *)

Definition sweeping (s : server) : list nat := match ph s with Sweeping l => l | _ => [] end.
(** The connections the server closes: closed, or about to be. *)
Definition condemned (s : server) (c : nat) : Prop := c ∈ shut s ∨ c ∈ pending s ∨ c ∈ sweeping s.
(** [shutdown] is past [s.cancelLifecycle()], resp. past the lock in [s.closeNewConns()]. *)
Definition cancelled_phase (p : phase) : bool :=
  match p with StoppingHub | AwaitingHub | Draining | Sweeping _ | ShuttingDown => true | _ => false end.
Definition drained_phase (p : phase) : bool :=
  match p with Sweeping _ | ShuttingDown => true | _ => false end.

Record inv_conns (s : server) : Prop := {
  ic_open : draining (trk s) = false →
    (∀ c, c ∈ newConns (trk s) ↔ reported s !! c = Some StateNew) ∧
    pending s = [] ∧ shut s = ∅ ∧ busy s = ∅ ∧ drained_phase (ph s) = false;
  ic_drain : draining (trk s) = true →
    newConns (trk s) = ∅ ∧ (∀ c, reported s !! c = Some StateNew → condemned s c);
  ic_busy : ∀ c, condemned s c → c ∉ busy s ∧ is_Some (reported s !! c);
  ic_phase : drained_phase (ph s) = true → draining (trk s) = true;
  ic_phase' : draining (trk s) = true → drained_phase (ph s) = true ∨ ∃ r, ph s = Returned r;
  ic_cancel : cancelled_phase (ph s) = true → lifecycle_done s = true;
  ic_known : ∀ c, c ∈ busy s → ∃ st, reported s !! c = Some st ∧ st ≠ StateNew }.

Lemma init_conns : inv_conns init_server.
Proof.
  split; cbn; try done.
  intros c [H|[H|H]]; [by apply elem_of_empty in H|by apply elem_of_nil in H..].
Qed.

(** A step that leaves the table and the reports alone, and closes only what
    was to be closed. *)
Lemma conns_moved s s' : inv_conns s →
  trk s' = trk s → reported s' = reported s → busy s' = busy s → (∀ c, condemned s' c ↔ condemned s c) →
  (draining (trk s) = true ∨ pending s' = pending s ∧ shut s' = shut s) →
  (drained_phase (ph s') = draining (trk s) ∨ ∃ r, ph s' = Returned r) →
  (cancelled_phase (ph s') = true → lifecycle_done s' = true) → inv_conns s'.
Proof.
  intros [Ho Hd Hb Hp Hp' Hc Hk] Ht Hr Hbu Hcond Hsame Hph Hl.
  assert (Hdp : drained_phase (ph s') = true → draining (trk s) = true)
    by (destruct Hph as [<-|[r ->]]; cbn; [done|discriminate]).
  split; rewrite ?Ht, ?Hr, ?Hbu; try done.
  - intros Hf. destruct (Ho Hf) as (H1 & H2 & H3 & H4 & H5). destruct Hsame as [|[-> ->]]; [congruence|].
    repeat (split; [done|]). destruct (drained_phase (ph s')) eqn:E; [|done]. specialize (Hdp eq_refl). congruence.
  - intros Hf. destruct (Hd Hf) as [H1 H2]. split; [done|]. intros c Hn. apply Hcond. by apply H2.
  - intros c Hx. apply Hb. by apply Hcond.
  - intros Hf. destruct Hph as [Hph|Hph]; [left; congruence|by right].
Qed.

Lemma condemned_app c s s' x : ph s' = ph s → shut s' = shut s → pending s' = c :: pending s →
  condemned s' x ↔ x = c ∨ condemned s x.
Proof. unfold condemned, sweeping. intros -> -> ->. rewrite elem_of_cons. naive_solver. Qed.

Lemma condemned_same s s' x : ph s' = ph s → shut s' = shut s → pending s' = pending s →
  condemned s' x ↔ condemned s x.
Proof. unfold condemned, sweeping. by intros -> -> ->. Qed.

(** The reports after one more. *)
Lemma report_new (m : gmap nat ConnState) c st x : <[c := st]> m !! x = Some StateNew ↔
  (x = c ∧ st = StateNew) ∨ (x ≠ c ∧ m !! x = Some StateNew).
Proof. rewrite lookup_insert_Some. naive_solver. Qed.

Lemma hook_conns s c st : conn_next (reported s !! c) st → inv_conns s → inv_conns (hook s c st).
Proof.
  intros Hn [Ho Hd Hb Hp Hp' Hc Hk].
  assert (Hold : st = StateNew → reported s !! c = None) by (intros ->; by destruct (reported s !! c) as [[]|]).
  assert (Hbusy : ∀ x, x ∈ busy s → ∃ st', <[c := st]> (reported s) !! x = Some st' ∧ st' ≠ StateNew).
  { intros x Hx. destruct (Hk x Hx) as (st' & Hs & Hne). destruct (decide (x = c)) as [->|Hx'].
    - exists st. rewrite lookup_insert_eq. split; [done|]. intros Hst. by rewrite Hold in Hs.
    - exists st'. by rewrite lookup_insert_ne. }
  assert (Hsome : ∀ x, is_Some (reported s !! x) → is_Some (<[c := st]> (reported s) !! x)).
  { intros x Hx. rewrite lookup_insert. by case_decide. }
  destruct (draining (trk s)) eqn:Hdr.
  - destruct (Hd eq_refl) as [Hempty Hnew]. unfold hook, trackConnState. rewrite Hdr. destruct (decide (st = StateNew)) as [->|Hst].
    + assert (c ∉ busy s) by (intros Hx; destruct (Hk c Hx) as (st' & Hs & _); by rewrite Hold in Hs).
      split; cbn; rewrite ?Hdr; try done.
      * intros _. split; [done|]. intros x. rewrite report_new, (condemned_app c s) by done. naive_solver.
      * intros x. rewrite (condemned_app c s) by done. intros [->|Hx]; [by rewrite lookup_insert_eq|].
        destruct (Hb x Hx). auto.
    + assert (Hrest : ∀ t, t = MkTracker (newConns (trk s) ∖ {[c]}) true → inv_conns (MkServer_ (ph s) (ctx_done s) (errCh s)
        (lifecycle_done s) (hub_ s) t (<[c:=st]> (reported s)) (pending s) (shut s) (busy s)));
        [|destruct st; try done; by apply Hrest].
      intros t ->. split; cbn; try done.
      * intros _. rewrite Hempty. split; [set_solver|]. intros x. rewrite report_new, (condemned_same s) by done. naive_solver.
      * intros x. rewrite (condemned_same s) by done. intros Hx. destruct (Hb x Hx). auto.
  - destruct (Ho eq_refl) as (Hnew & Hpe & Hsh & Hbu & Hph). unfold hook, trackConnState. rewrite Hdr.
    assert (Hrest : ∀ n, (∀ x, x ∈ n ↔ <[c:=st]> (reported s) !! x = Some StateNew) → inv_conns (MkServer_ (ph s) (ctx_done s) (errCh s)
      (lifecycle_done s) (hub_ s) (MkTracker n false) (<[c:=st]> (reported s)) (pending s) (shut s) (busy s))).
    { intros n Hx. split; cbn; try done.
      intros x. rewrite (condemned_same s) by done. intros Hx'. destruct (Hb x Hx'). auto. }
    destruct st; apply Hrest; intros x; rewrite report_new; [rewrite elem_of_union, elem_of_singleton, Hnew; naive_solver|..];
      rewrite elem_of_difference, elem_of_singleton, Hnew; naive_solver.
Qed.

Lemma drain_conns s order : ph s = Draining → range_of (newConns (trk s)) order → inv_conns s → inv_conns (drain s order).
Proof.
  intros Hph [_ Hrange] [Ho Hd Hb Hp Hp' Hc Hk].
  assert (draining (trk s) = false) as Hdr.
  { destruct (draining (trk s)); [|done]. destruct (Hp' eq_refl) as [H|[r H]]; rewrite Hph in H; done. }
  destruct (Ho Hdr) as (Hnew & Hpe & Hsh & _ & _). unfold drain, closeNewConns.
  assert (Hcond : ∀ x, condemned (MkServer_ (Sweeping order) (ctx_done s) (errCh s) (lifecycle_done s) (hub_ s)
    (MkTracker ∅ true) (reported s) (pending s) (shut s) (dom (filter (λ cs, cs.2 ≠ StateNew) (reported s)))) x ↔
    reported s !! x = Some StateNew).
  { intros x. unfold condemned. cbn. rewrite Hpe, Hsh, Hrange, Hnew, elem_of_empty, elem_of_nil. tauto. }
  split; cbn; try done; try (by auto).
  - intros _. split; [done|]. intros x Hx. by apply Hcond.
  - intros x Hx%Hcond. split; [|by exists StateNew]. rewrite elem_of_dom, map_lookup_filter. rewrite Hx. cbn.
    intros [y Hy]. by case_guard.
  - intros _. apply Hc. by rewrite Hph.
  - intros x [y Hy]%elem_of_dom. apply map_lookup_filter_Some in Hy as [Hy Hne]. by exists y.
Qed.

Lemma step_conns s s' : server_step s s' → inv_conns s → inv_conns s'.
Proof.
  intros Hstep Hi. pose proof Hi as [Ho Hd Hb Hp Hp' Hc Hk].
  assert (Hdr : drained_phase (ph s) = draining (trk s) ∨ ∃ r, ph s = Returned r).
  { destruct (draining (trk s)) eqn:E; [by apply Hp'|left]. by apply Ho. }
  assert (Hser : ∀ p, ph s = p → drained_phase p = false → (∀ r, p ≠ Returned r) → draining (trk s) = false).
  { intros p <- Hf Hr. destruct Hdr as [<-|[r Hr']]; [done|]. by destruct (Hr r). }
  assert (Hcl : ∀ p, ph s = p → cancelled_phase p = true → lifecycle_done s = true) by (intros p <-; done).
  destruct Hstep as [c st Hn|c p1 p2 Hpe|h Hh| |err He|err Hp1 He|Hp1 Hcd|Hp1|Hp1|Hp1 Hq|order Hp1 Hr|c todo Hp1|Hp1|err Hp1];
    [by apply hook_conns| | | | | | | | | |by apply drain_conns| | |]; apply (conns_moved s); cbn; try done; try (by left);
    try (by right); try (by right; eexists); try (intros _; by eapply Hcl); try (by left; symmetry; eapply Hser);
    try (by intros x; unfold condemned, sweeping; cbn; rewrite Hp1; cbn; rewrite ?elem_of_nil).
  - intros x. unfold condemned, sweeping. cbn. rewrite Hpe. set_solver.
  - destruct (draining (trk s)) eqn:E; [by left|]. destruct (Ho eq_refl) as (_ & Hx & _). rewrite Hx in Hpe. by destruct p1.
  - intros x. unfold condemned, sweeping. cbn. rewrite Hp1. set_solver.
  - left. apply Hp. by rewrite Hp1.
  - left. symmetry. apply Hp. by rewrite Hp1.
  - left. symmetry. apply Hp. by rewrite Hp1.
Qed.

Lemma reachable_conns s : server_reachable s → inv_conns s.
Proof.
  intros Hr. assert (∀ a b, rtc server_step a b → inv_conns a → inv_conns b) as H.
  { induction 1 as [|a b c Hab _ IH]; [done|]. intros Ha. apply IH. by eapply step_conns. }
  by eapply H, init_conns.
Qed.

(** ** How [Run] ends *)

Definition ended (s : server) : Prop := ∀ r, ph s = Returned r →
  (∃ err, errCh s = Some err ∧ r = serve_result listenAddr err) ∨
  (lifecycle_done s = true ∧ draining (trk s) = true ∧ ctx_done s = true ∧ ∃ err, r = shutdown_result err).

Lemma hook_drains s c st : draining (trk (hook s c st)) = draining (trk s) ∧ ph (hook s c st) = ph s.
Proof. unfold hook, trackConnState. destruct st; [destruct (draining (trk s)) eqn:E|..]; cbn; auto. Qed.

Definition past_select (s : server) : Prop :=
  match ph s with Serving | Returned _ => True | _ => ctx_done s = true end.

Lemma step_ended s s' : server_step s s' → inv_conns s → past_select s ∧ ended s → past_select s' ∧ ended s'.
Proof.
  intros Hstep Hi [Hs He].
  destruct Hstep as [c st Hn|c p1 p2 Hpe|h Hh| |err Hn|err Hp1 Hn|Hp1 Hcd|Hp1|Hp1|Hp1 Hq|order Hp1 Hr|c todo Hp1|Hp1|err Hp1];
    unfold past_select, ended in *.
  - destruct (hook_drains s c st) as [Hd Hp]. rewrite Hd, Hp. unfold hook. by destruct (trackConnState c st (trk s)).
  - done.
  - done.
  - cbn. split; [by case_match|]. intros r Hr. destruct (He r Hr) as [?|(? & ? & ? & ?)]; auto.
  - cbn. split; [done|]. intros r Hr. destruct (He r Hr) as [(? & Hx & _)|?]; [congruence|auto].
  - cbn. split; [done|]. intros r [= <-]. left. by exists err.
  - done.
  - cbn. by rewrite Hp1 in Hs.
  - cbn. by rewrite Hp1 in Hs.
  - cbn. by rewrite Hp1 in Hs.
  - cbn. by rewrite Hp1 in Hs.
  - cbn. by rewrite Hp1 in Hs.
  - cbn. by rewrite Hp1 in Hs.
  - cbn. split; [done|]. intros r [= <-]. right. rewrite Hp1 in Hs.
    split; [apply Hi; by rewrite Hp1|]. split; [apply Hi; by rewrite Hp1|]. split; [done|]. by exists err.
Qed.

Lemma reachable_ended s : server_reachable s → ended s.
Proof.
  intros Hr. assert (∀ a b, rtc server_step a b → inv_conns a → past_select a ∧ ended a → past_select b ∧ ended b) as H.
  { induction 1 as [|a b c Hab _ IH]; [done|]. intros Ha He. apply IH; [by eapply step_conns|by eapply step_ended]. }
  by apply (H _ _ Hr init_conns).
Qed.

(** ** Properties *)

(** C10 When [http.Server] is asked to drain, nothing is left that could pin the
    grace window: every request's context is cancelled, and every connection
    still in StateNew, those that arrived after the sweep included, has been
    closed or is just being closed by the hook that saw it. And the sweep
    touches no other: a connection that had already sent a request when the drain
    began is never closed by it. *)
Theorem shutdown_drains (s : server) (Hr : server_reachable s) (Hph : ph s = ShuttingDown) :
  lifecycle_done s = true ∧ newConns (trk s) = ∅ ∧
  (∀ c, reported s !! c = Some StateNew → c ∈ shut s ∨ c ∈ pending s) ∧
  (∀ c, c ∈ shut s ∨ c ∈ pending s → c ∉ busy s).
Proof.
  apply reachable_conns in Hr as [_ Hd Hb Hp _ Hc _]. rewrite Hph in Hp, Hc.
  destruct (Hd (Hp eq_refl)) as [Hempty Hnew]. split; [by apply Hc|]. split; [done|]. split.
  - intros c Hn. destruct (Hnew c Hn) as [?|[?|Hx]]; [by left|by right|].
    unfold sweeping in Hx. rewrite Hph in Hx. by apply elem_of_nil in Hx.
  - intros c Hcl. apply (Hb c). unfold condemned. tauto.
Qed.

(** Until the drain begins the table holds exactly the connections in
    StateNew, so it never outgrows them, and the server has closed none. *)
Theorem conn_table_exact (s : server) (Hr : server_reachable s) (Hopen : draining (trk s) = false) :
  (∀ c, c ∈ newConns (trk s) ↔ reported s !! c = Some StateNew) ∧ pending s = [] ∧ shut s = ∅.
Proof. apply reachable_conns in Hr as [Ho _ _ _ _ _ _]. by destruct (Ho Hopen) as (? & ? & ? & _). Qed.

(** [Run] fails only with an error of the listener other than
    ErrServerClosed, or of [http.Server.Shutdown]; a cancelled context ends in a
    nil error when the drain succeeds, and only after the drain. *)
Theorem Run_outcome (s : server) (r : result unit) (Hr : server_reachable s) (Hret : ph s = Returned r) :
  match r with
  | Err e => (∃ e', errCh s = Some (Some e') ∧ errors_is e' HttpErrServerClosed = false ∧
                    e = wrap ("serve https on " +:+ listenAddr) e') ∨
             (draining (trk s) = true ∧ ∃ e', e = wrap "shut down http server" e')
  | Ok _ => errCh s = Some None ∨ (∃ e', errCh s = Some (Some e') ∧ errors_is e' HttpErrServerClosed = true) ∨
            (ctx_done s = true ∧ lifecycle_done s = true ∧ draining (trk s) = true)
  end.
Proof.
  destruct (reachable_ended s Hr r Hret) as [(err & He & ->)|(Hl & Hd & Hc & [err ->])].
  - destruct err as [e'|]; cbn; [|auto]. destruct (errors_is e' HttpErrServerClosed) eqn:E; [eauto|left; eauto].
  - destruct err as [e'|]; cbn; eauto 10.
Qed.
End Server.

(** ** A small run: one connection idles in StateNew, another sends a request,
    and the container is stopped. *)

Notation toy_run := (server_reachable (Event := unit) eventClientBuffer ":8443").
Definition toy_drained (p : phase) : server (Event := unit) :=
  MkServer_ p true None true init (MkTracker ∅ true) (<[3%nat := StateNew]> (<[2%nat := StateActive]> (<[2%nat := StateNew]> (<[1%nat := StateNew]> ∅))))
    [3%nat] {[1%nat]} {[2%nat]}.

Lemma toy_drained_reachable : toy_run (toy_drained ShuttingDown).
Proof.
  unfold server_reachable, init_server.
  eapply rtc_l; [apply (sv_hook _ _ _ 1 StateNew); exact Logic.I|].
  eapply rtc_l; [apply (sv_hook _ _ _ 2 StateNew); exact Logic.I|].
  eapply rtc_l; [apply (sv_hook _ _ _ 2 StateActive); exact Logic.I|].
  eapply rtc_l; [apply sv_signal|]. eapply rtc_l; [by apply sv_done|].
  eapply rtc_l; [by apply sv_cancel|]. eapply rtc_l; [by apply sv_stop|].
  eapply rtc_l; [apply sv_wait; [done|by split]|].
  eapply rtc_l; [apply (sv_drain _ _ _ [1%nat]); [done|]|].
  { split; [apply NoDup_singleton|]. intros i. cbn. set_solver. }
  eapply rtc_l; [by eapply sv_sweep|].
  eapply rtc_l; [apply (sv_hook _ _ _ 3 StateNew); exact Logic.I|].
  eapply rtc_l; [by apply sv_swept|].
  match goal with |- rtc _ ?a ?b => assert (a = b) as ->; [|apply rtc_refl] end.
  vm_compute. reflexivity.
Qed.

Lemma shutdown_drains_witness : 3%nat ∈ pending (toy_drained ShuttingDown).
Proof.
  destruct (shutdown_drains _ _ _ toy_drained_reachable eq_refl) as (_ & _ & Hn & _).
  destruct (Hn 3%nat) as [H|H]; [reflexivity| |exact H]. exfalso. revert H. apply (bool_decide_unpack _). vm_compute. exact Logic.I.
Defined.

Lemma Run_outcome_witness : ended ":8443" (toy_drained (Returned (Ok tt))).
Proof.
  assert (toy_run (toy_drained (Returned (Ok tt)))) as Hr.
  { eapply rtc_r; [exact toy_drained_reachable|]. exact (sv_shutdown _ _ (toy_drained ShuttingDown) None eq_refl). }
  destruct (Run_outcome _ _ _ (Ok tt) Hr eq_refl) as [H|[[e' [H _]]|(Hc & Hl & Hd)]]; [discriminate H|discriminate H|].
  intros r [= <-]. right. split; [exact Hl|]. split; [exact Hd|]. split; [exact Hc|]. by exists None.
Defined.

Lemma conn_table_exact_witness :
  newConns (trk (hook (init_server (Event := unit)) 1 StateNew)) = {[1%nat]} ∧
  shut (hook (init_server (Event := unit)) 1 StateNew) = ∅.
Proof.
  assert (toy_run (hook init_server 1 StateNew)) as Hr by (apply rtc_once, sv_hook; exact Logic.I).
  destruct (conn_table_exact _ _ _ Hr eq_refl) as (_ & _ & Hs). split; [reflexivity|exact Hs].
Defined.
