(* ===== verification/Proxy.v ===== *)
(** * Proxy: the severable Engine endpoint of the end-to-end suite
    (internal/e2e/harness/proxy.go)

    A TCP proxy the suite cuts on command. Its goroutines (the accept loop, one
    [forward] per connection with its two copies, a caller of [sever]) are a
    step relation; the environment opens connections, ends them from either
    side, and answers the dials. What [sever] can and cannot wait for is stated
    on the reachable states. *)
From S2P Require Import Prelude.

(** A [forward]: accepted but not yet counted by [p.wg], dialling, dialled but
    not yet tracked, copying, done. *)
Inductive phase : Set := FAccepted | FDialling | FDialled | FCopying | FDone.
#[export] Instance phase_eq_dec : EqDecision phase.
Proof. solve_decision. Defined.

(** The peers that have gone, the copies that have ended ([up] reads from the
    client, [down] from the Engine), and whether the proxy closed both ends. *)
Record fwd : Set := MkFwd {
  f_phase : phase; client_gone : bool; engine_gone : bool; up_done : bool; down_done : bool; cut_here : bool }.
Definition accepted : fwd := MkFwd FAccepted false false false false false.
Definition at_phase (p : phase) (f : fwd) : fwd :=
  MkFwd p (client_gone f) (engine_gone f) (up_done f) (down_done f) (cut_here f).
Definition counted (f : fwd) : bool := bool_decide (f_phase f ∈ [FDialling; FDialled; FCopying]).
Definition cut_fwd (f : fwd) : fwd := MkFwd (f_phase f) (client_gone f) (engine_gone f) (up_done f) (down_done f) true.

(** [func sever]: where its caller is. The lists are the connections it has
    still to close. *)
Inductive sever_phase : Set := SIdle | SLocked (conns : list nat) | SClosing (conns : list nat) | SWaiting | SReturned.
#[export] Instance sever_phase_eq_dec : EqDecision sever_phase.
Proof. solve_decision. Defined.

Record Proxy : Set := MkProxy { listening : bool; closed : bool; fwds : gmap nat fwd; p_sever : sever_phase }.
Definition set_fwd (i : nat) (f : fwd) (s : Proxy) : Proxy := MkProxy (listening s) (closed s) (<[i := f]> (fwds s)) (p_sever s).
Definition set_sever (p : sever_phase) (s : Proxy) : Proxy := MkProxy (listening s) (closed s) (fwds s) p.

(** [p.conns]: tracked and not yet untracked. *)
Definition tracked (s : Proxy) : list nat :=
  map fst (List.filter (λ '(_, f), bool_decide (f_phase f = FCopying)) (map_to_list (fwds s))).
Definition idle (s : Proxy) : Prop := ∀ i f, fwds s !! i = Some f → counted f = false.

(** What the network does. *)
Inductive env_step (s : Proxy) : Proxy → Prop :=
| connect i : listening s = true → fwds s !! i = None → env_step s (set_fwd i accepted s)
| client_ends i f : fwds s !! i = Some f →
    env_step s (set_fwd i (MkFwd (f_phase f) true (engine_gone f) (up_done f) (down_done f) (cut_here f)) s)
| engine_ends i f : fwds s !! i = Some f →
    env_step s (set_fwd i (MkFwd (f_phase f) (client_gone f) true (up_done f) (down_done f) (cut_here f)) s)
(* [Restore]: [listen] on the same port *)
| restore : p_sever s = SReturned → closed s = true → env_step s (MkProxy true false (fwds s) SIdle).

(** What the proxy does. *)
Inductive proxy_step (s : Proxy) : Proxy → Prop :=
(* [p.wg.Add(1); go p.forward(conn)] *)
| add i f : fwds s !! i = Some f → f_phase f = FAccepted → proxy_step s (set_fwd i (at_phase FDialling f) s)
(* [net.Dial], then [p.track]; or [conn.Close()] and return *)
| dial i f : fwds s !! i = Some f → f_phase f = FDialling → proxy_step s (set_fwd i (at_phase FDialled f) s)
| dial_fails i f : fwds s !! i = Some f → f_phase f = FDialling → proxy_step s (set_fwd i (at_phase FDone f) s)
| track i f : fwds s !! i = Some f → f_phase f = FDialled → proxy_step s (set_fwd i (at_phase FCopying f) s)
(* the two [io.Copy]: each ends with its source, or when the proxy closes both *)
| up_ends i f : fwds s !! i = Some f → f_phase f = FCopying → up_done f = false → client_gone f || cut_here f = true →
    proxy_step s (set_fwd i (MkFwd FCopying (client_gone f) (engine_gone f) true (down_done f) (cut_here f)) s)
| down_ends i f : fwds s !! i = Some f → f_phase f = FCopying → down_done f = false → engine_gone f || cut_here f = true →
    proxy_step s (set_fwd i (MkFwd FCopying (client_gone f) (engine_gone f) (up_done f) true (cut_here f)) s)
(* [pipes.Wait()], then the deferred [untrack] and [wg.Done] *)
| finish i f : fwds s !! i = Some f → f_phase f = FCopying → up_done f = true → down_done f = true →
    proxy_step s (set_fwd i (cut_fwd (at_phase FDone f)) s)
(* [sever], one statement at a time *)
| sever_again : p_sever s = SIdle → closed s = true → proxy_step s (set_sever SReturned s)
| sever_lock : p_sever s = SIdle → closed s = false →
    proxy_step s (MkProxy (listening s) true (fwds s) (SLocked (tracked s)))
| sever_listener conns : p_sever s = SLocked conns → proxy_step s (MkProxy false (closed s) (fwds s) (SClosing conns))
| sever_conn i conns f : p_sever s = SClosing (i :: conns) → fwds s !! i = Some f →
    proxy_step s (MkProxy (listening s) (closed s) (<[i := cut_fwd f]> (fwds s)) (SClosing conns))
| sever_wait : p_sever s = SClosing [] → proxy_step s (set_sever SWaiting s)
| sever_returns : p_sever s = SWaiting → idle s → proxy_step s (set_sever SReturned s).

(** A write to a peer that has gone ends a copy too, when there is something to
    write: that is the environment's doing. *)
Inductive any_step (s s' : Proxy) : Prop := by_env : env_step s s' → any_step s s' | by_proxy : proxy_step s s' → any_step s s'.
Definition fresh_proxy : Proxy := MkProxy true false ∅ SIdle.
Definition reachable : Proxy → Prop := rtc any_step fresh_proxy.

(** [func parseEngineHost]; [parse] is [url.Parse], as scheme, host and path. *)
Definition parseEngineHost (quote : string → string) (parse : string → result (string * string * string)) (host : string)
    : result (string * string) :=
  match parse host with
  | Err e => Err (wrap ("parse docker host " +:+ quote host) e)
  | Ok (scheme, h, path) =>
      if bool_decide (scheme = "unix") then Ok ("unix", path)
      else if bool_decide (scheme = "tcp") then Ok ("tcp", h)
      else Err (Leaf ("unsupported docker host scheme " +:+ quote scheme +:+ " in " +:+ quote host))
  end.

(** ** Lemmas *)

(** What [sever] has still to close. *)
Definition to_close (s : Proxy) : list nat :=
  match p_sever s with SLocked l | SClosing l => l | _ => [] end.

(** Every connection was tracked when [sever] looked, or is done. *)
Record settled (s : Proxy) : Prop := MkSettled {
  st_fwd : ∀ i f, fwds s !! i = Some f → f_phase f = FDone ∨
    f_phase f = FCopying ∧ (p_sever s = SIdle ∨ cut_here f = true ∨ i ∈ to_close s);
  st_close : ∀ i, i ∈ to_close s → is_Some (fwds s !! i);
  st_idle : p_sever s = SIdle → closed s = false }.

Definition fwd_weight (f : fwd) : nat :=
  if bool_decide (f_phase f = FCopying) then 1 + (if up_done f then 0 else 1) + (if down_done f then 0 else 1) else 0.
Definition fwds_weight (m : gmap nat fwd) : nat := map_fold (λ _ f n, fwd_weight f + n)%nat 0%nat m.
Definition weight (s : Proxy) : nat :=
  (fwds_weight (fwds s) +
   match p_sever s with
   | SIdle => 4 + size (fwds s) | SLocked l => 3 + List.length l | SClosing l => 2 + List.length l | SWaiting => 1 | SReturned => 0
   end)%nat.

Lemma fwds_weight_insert m i f g : m !! i = Some f →
  (fwds_weight (<[i := g]> m) + fwd_weight f = fwds_weight m + fwd_weight g)%nat.
Proof.
  intros Hi. unfold fwds_weight. rewrite (map_fold_delete_L _ _ i f m) by (done || (intros; lia)).
  rewrite <- insert_delete_eq, map_fold_insert_L by (done || (intros; lia) || by rewrite lookup_delete_eq). lia.
Qed.

Lemma elem_of_tracked s i : i ∈ tracked s ↔ ∃ f, fwds s !! i = Some f ∧ f_phase f = FCopying.
Proof.
  unfold tracked. rewrite list_elem_of_In, in_map_iff. split.
  - intros ([j f] & <- & [Hin Hp]%filter_In). apply list_elem_of_In, elem_of_map_to_list in Hin. to_prop. eauto.
  - intros (f & Hf & Hp). exists (i, f). split; [done|]. apply filter_In.
    split; [by apply list_elem_of_In, elem_of_map_to_list|by apply bool_decide_eq_true_2].
Qed.

Lemma tracked_size s : (List.length (tracked s) ≤ size (fwds s))%nat.
Proof. unfold tracked. rewrite length_map, <- length_map_to_list. apply filter_length_le. Qed.

Lemma settled_update s i f g : settled s → fwds s !! i = Some f → f_phase f = FCopying →
  f_phase g = FDone ∨ f_phase g = FCopying ∧ cut_here g = cut_here f → settled (set_fwd i g s).
Proof.
  intros [Hf Hc Hi] Hl Hp Hg. split; cbn.
  - intros j h. destruct (decide (j = i)) as [->|Hne]; [|rewrite lookup_insert_ne by done; apply Hf].
    rewrite lookup_insert_eq. intros [= <-]. destruct Hg as [?|[Hg Hcut]]; [by left|right]. rewrite Hcut. split; [done|].
    destruct (Hf i f Hl) as [?|[_ ?]]; [congruence|done].
  - intros j Hj. destruct (decide (j = i)) as [->|]; [rewrite lookup_insert_eq; eauto|rewrite lookup_insert_ne by done; by apply Hc].
  - done.
Qed.

Lemma settled_move s s' : settled s → fwds s' = fwds s → p_sever s ≠ SIdle → p_sever s' ≠ SIdle → to_close s' = to_close s → settled s'.
Proof.
  intros [Hf Hc _] Hw H1 H2 Hl. split; rewrite ?Hw, ?Hl; [|done|done]. intros i f Hi.
  destruct (Hf i f Hi) as [?|[? [?|?]]]; [by left|done|right; tauto].
Qed.

(** A settled proxy stays so, and every step brings it nearer to the end. *)
Lemma settled_step s s' : settled s → proxy_step s s' → settled s' ∧ (weight s' < weight s)%nat.
Proof.
  intros Hs Hstep. pose proof Hs as [Hf Hc Hi].
  assert (Hno : ∀ i f p, fwds s !! i = Some f → f_phase f = p → p ≠ FCopying → p ≠ FDone → False).
  { intros i f p Hl <- H1 H2. destruct (Hf i f Hl) as [?|[? _]]; done. }
  assert (Hup : ∀ i f g, fwds s !! i = Some f → f_phase f = FCopying → (fwd_weight g < fwd_weight f)%nat →
    f_phase g = FDone ∨ f_phase g = FCopying ∧ cut_here g = cut_here f →
    settled (set_fwd i g s) ∧ (weight (set_fwd i g s) < weight s)%nat).
  { intros i f g Hl Hp Hw Hg. split; [by eapply settled_update|]. unfold weight, set_fwd. cbn.
    pose proof (fwds_weight_insert (fwds s) i f g Hl). assert (size (<[i := g]> (fwds s)) = size (fwds s)) as ->.
    { rewrite map_size_insert, Hl. done. } destruct (p_sever s); lia. }
  destruct Hstep as [i f Hl Hp|i f Hl Hp|i f Hl Hp|i f Hl Hp|i f Hl Hp Hd Hg|i f Hl Hp Hd Hg|i f Hl Hp Hu Hd|Hp Hd|Hp Hd
    |l Hp|i l f Hp Hl|Hp|Hp Hidle]; try (exfalso; by eapply Hno).
  - apply (Hup i f); [done..| |by right]. unfold fwd_weight. cbn [f_phase up_done down_done]. rewrite Hd, !bool_decide_eq_true_2 by done. destruct (down_done f); lia.
  - apply (Hup i f); [done..| |by right]. unfold fwd_weight. cbn [f_phase up_done down_done]. rewrite Hd, !bool_decide_eq_true_2 by done. destruct (up_done f); lia.
  - apply (Hup i f); [done..| |by left]. unfold fwd_weight. cbn [f_phase cut_fwd at_phase]. rewrite Hp, (bool_decide_eq_false_2 (FDone = _)) by done.
    rewrite bool_decide_eq_true_2 by done. lia.
  - specialize (Hi Hp). congruence.
  - split; [split; unfold to_close; cbn|].
    + intros i f Hl. destruct (Hf i f Hl) as [?|[Hph _]]; [by left|right]. split; [done|]. right. right.
      apply elem_of_tracked. eauto.
    + intros i (f & Hl & _)%elem_of_tracked. eauto.
    + done.
    + unfold weight. cbn. rewrite Hp. pose proof (tracked_size s). lia.
  - split; [by apply (settled_move s); unfold to_close; cbn; rewrite ?Hp|]. unfold weight. cbn. rewrite Hp. lia.
  - split; [split; unfold to_close in *; cbn; rewrite Hp in *|].
    + intros j h. destruct (decide (j = i)) as [->|Hne].
      * rewrite lookup_insert_eq. intros [= <-]. cbn. destruct (Hf i f Hl) as [?|[? _]]; [by left|right]. tauto.
      * rewrite lookup_insert_ne by done. intros Hj. destruct (Hf j h Hj) as [?|[? [?|[?|Hin]]]]; [by left|done|tauto|].
        apply elem_of_cons in Hin as [?|?]; [done|tauto].
    + intros j Hj. destruct (decide (j = i)) as [->|]; [rewrite lookup_insert_eq; eauto|rewrite lookup_insert_ne by done].
      apply Hc. by apply list_elem_of_further.
    + done.
    + unfold weight. cbn. rewrite Hp. cbn. pose proof (fwds_weight_insert (fwds s) i f (cut_fwd f) Hl).
      change (fwd_weight (cut_fwd f)) with (fwd_weight f) in *. lia.
  - split; [by apply (settled_move s); unfold to_close; cbn; rewrite ?Hp|]. unfold weight, set_sever. cbn. rewrite Hp. cbn. lia.
  - split; [by apply (settled_move s); unfold to_close; cbn; rewrite ?Hp|]. unfold weight, set_sever. cbn. rewrite Hp. lia.
Qed.

(** Until [sever] returns, something can happen without the network's help. *)
Lemma settled_enabled s : settled s → p_sever s ≠ SReturned → ∃ s', proxy_step s s'.
Proof.
  intros [Hf Hc Hi] Hne. destruct (p_sever s) as [|l|[|i l]| |] eqn:Hp; [| | | | |done].
  - eexists. apply sever_lock; auto.
  - eexists. by eapply sever_listener.
  - eexists. by apply sever_wait.
  - unfold to_close in Hc. rewrite Hp in Hc. destruct (Hc i) as [f Hl]; [by apply list_elem_of_here|].
    eexists. by eapply sever_conn.
  - destruct (decide (map_Forall (λ _ f, counted f = false) (fwds s))) as [Hidle|Hn].
    + eexists. apply sever_returns; [done|]. exact Hidle.
    + apply map_not_Forall in Hn as (i & f & Hl & Hcount); [|apply _].
      destruct (Hf i f Hl) as [Hph|[Hph Hcut]]; [by unfold counted in Hcount; rewrite Hph in Hcount|].
      unfold to_close in Hcut. rewrite Hp in Hcut.
      destruct Hcut as [?|[Hcut|Hin]]; [done| |by apply not_elem_of_nil in Hin].
      destruct (up_done f) eqn:Hu; [|eexists; eapply up_ends; eauto; by rewrite Hcut, orb_true_r].
      destruct (down_done f) eqn:Hd; [|eexists; eapply down_ends; eauto; by rewrite Hcut, orb_true_r].
      eexists. by eapply finish.
Qed.

(** ** Properties *)

(** Whatever the schedule, [sever] comes to an end. *)
Inductive must_return (s : Proxy) : Prop :=
| returned : p_sever s = SReturned → must_return s
| goes_on : (∃ s', proxy_step s s') → (∀ s', proxy_step s s' → must_return s') → must_return s.

(** [sever] blocks until every forward has returned, and it does return, with
    no help from either peer, whenever no connection is between its accept and
    its tracking at the moment [sever] takes the lock. *)
Theorem sever_returns_settled (s : Proxy) (Hs : settled s) : must_return s.
Proof.
  remember (weight s) as n eqn:Hn. revert s Hs Hn. induction (lt_wf n) as [n _ IH]. intros s Hs ->.
  destruct (decide (p_sever s = SReturned)) as [Hr|Hr]; [by apply returned|].
  apply goes_on; [by apply settled_enabled|]. intros s' Hstep. destruct (settled_step s s' Hs Hstep) as [Hs' Hlt].
  by eapply IH.
Qed.

Lemma settled_fresh : settled fresh_proxy.
Proof. split; [intros i f Hl; cbn in Hl; by rewrite lookup_empty in Hl|by intros i ?%not_elem_of_nil|done]. Qed.

(** ** The race *)

(** A connection that is dialled when [sever] looks and tracked after it: its
    forward copies on, nobody closes it, and [sever] waits until both peers go
    away of themselves. *)
Definition late (cl eng : bool) : fwd := MkFwd FCopying cl eng false false false.
Definition stuck : Proxy := MkProxy false true {[0%nat := late false false]} SWaiting.

Ltac step t := eapply rtc_l; [t; reflexivity|].
Lemma stuck_reachable : reachable stuck.
Proof.
  step ltac:(apply by_env, (connect _ 0%nat)). step ltac:(apply by_proxy, (add _ 0%nat accepted)).
  step ltac:(apply by_proxy, (dial _ 0%nat (at_phase FDialling accepted))).
  step ltac:(apply by_proxy, sever_lock). step ltac:(apply by_proxy; eapply sever_listener).
  step ltac:(apply by_proxy, sever_wait). step ltac:(apply by_proxy, (track _ 0%nat (at_phase FDialled accepted))).
  exact (rtc_refl any_step stuck).
Qed.

Lemma late_stays (cl : bool) s f i : fwds s = {[0%nat := late cl false]} → fwds s !! i = Some f → f = late cl false ∧ i = 0%nat.
Proof. intros -> Hl. apply lookup_singleton_Some in Hl as [<- <-]. done. Qed.

(** [sever] deadlocks: the proxy can do nothing more. *)
Theorem sever_deadlocks : ∃ s, reachable s ∧ p_sever s = SWaiting ∧ ¬ idle s ∧ ∀ s', ¬ proxy_step s s'.
Proof.
  exists stuck. split; [apply stuck_reachable|]. split; [done|].
  assert (Hbusy : ¬ idle stuck) by (intros Hi; by specialize (Hi 0%nat (late false false) eq_refl)).
  split; [done|]. intros s' Hstep.
  destruct Hstep as [i f Hl Hp|i f Hl Hp|i f Hl Hp|i f Hl Hp|i f Hl Hp Hd Hg|i f Hl Hp Hd Hg|i f Hl Hp Hu Hd|Hp Hd|Hp Hd
    |l Hp|i l f Hp Hl|Hp|Hp Hidle]; try (apply (late_stays false) in Hl as [-> _]; [|done]); done.
Qed.

(** A connection accepted before the listener closed and counted after [sever]
    found nothing to wait for is alive when [sever] has returned. *)
Definition survivor : Proxy := MkProxy false true {[0%nat := late false false]} SReturned.
Theorem sever_misses_connection : reachable survivor.
Proof.
  step ltac:(apply by_env, (connect _ 0%nat)). step ltac:(apply by_proxy, sever_lock).
  step ltac:(apply by_proxy; eapply sever_listener). step ltac:(apply by_proxy, sever_wait).
  eapply rtc_l; [apply by_proxy, sever_returns; [reflexivity|]|].
  { intros i f Hl. cbn in Hl. apply lookup_insert_Some in Hl as [[_ <-]|[_ Hl]]; [done|by rewrite lookup_empty in Hl]. }
  step ltac:(apply by_proxy, (add _ 0%nat accepted)).
  step ltac:(apply by_proxy, (dial _ 0%nat (at_phase FDialling accepted))).
  step ltac:(apply by_proxy, (track _ 0%nat (at_phase FDialled accepted))).
  exact (rtc_refl any_step survivor).
Qed.

(** A forward does not end when either side closes: the copy from the other side
    holds it, and the other side is never told. *)
Definition half_closed : Proxy := MkProxy true false {[0%nat := MkFwd FCopying true false true false false]} SIdle.
Theorem forward_outlives_client : reachable half_closed ∧
  ∀ s', proxy_step half_closed s' → fwds s' = fwds half_closed.
Proof.
  split.
  - step ltac:(apply by_env, (connect _ 0%nat)). step ltac:(apply by_proxy, (add _ 0%nat accepted)).
    step ltac:(apply by_proxy, (dial _ 0%nat (at_phase FDialling accepted))).
    step ltac:(apply by_proxy, (track _ 0%nat (at_phase FDialled accepted))).
    step ltac:(apply by_env, (client_ends _ 0%nat (at_phase FCopying accepted))).
    step ltac:(apply by_proxy, (up_ends _ 0%nat (late true false))).
    exact (rtc_refl any_step half_closed).
  - assert (Hone : ∀ i f, fwds half_closed !! i = Some f → f = MkFwd FCopying true false true false false).
    { intros i f Hl. unfold half_closed in Hl. cbn [fwds] in Hl. by apply lookup_singleton_Some in Hl as [_ <-]. }
    intros s' Hstep. destruct Hstep as [i f Hl Hp|i f Hl Hp|i f Hl Hp|i f Hl Hp|i f Hl Hp Hd Hg|i f Hl Hp Hd Hg|i f Hl Hp Hu Hd
      |Hp Hd|Hp Hd|l Hp|i l f Hp Hl|Hp|Hp Hidle]; try (apply Hone in Hl as ->); done.
Qed.
