(* ===== verification/Engine.v ===== *)
(** * Engine: the Docker Engine as the agent's SDK client presents it

    Nothing here is code of this repository: the records are the fields of
    github.com/moby/moby/api/types that the agent reads, with their nil pointers
    as [option]s, and [EngineApi] is the interface the rest of the development
    is proved against. An Engine call may change the Engine and may fail; the
    only thing assumed of an error is that containerd/errdefs can be asked what
    kind it is. *)
From S2P Require Import Prelude LogFraming.

(** [netip.Addr] and [netip.Prefix]: [None] is the zero (invalid) value, and
    otherwise what [String()] prints. *)
Abbreviation addr := (option string) (only parsing).

Record PortSummary : Set := MkPortSummary {
  psum_IP : addr; psum_PrivatePort : Z; psum_PublicPort : Z; psum_Type : string }.

Record Summary : Type := MkSummary {
  sum_ID : string; sum_Names : list string; sum_Image : string; sum_ImageID : string;
  sum_Command : string; sum_Created : Z; sum_State : string; sum_Status : string;
  sum_Health : option string;              (** [Health.Status] *)
  sum_Labels : option (gmap string string);
  sum_Ports : list PortSummary }.

Record MountPoint : Set := MkMountPoint {
  mp_Type : string; mp_Name : string; mp_Source : string; mp_Destination : string; mp_RW : bool }.

Record ContainerState : Set := MkContainerState {
  st_Status : string; st_Running : bool; st_Paused : bool; st_Restarting : bool;
  st_ExitCode : Z; st_StartedAt : string; st_FinishedAt : string; st_Health : option string }.

Record ContainerConfig : Type := MkContainerConfig {
  cfg_Image : string; cfg_Env : list string; cfg_Labels : option (gmap string string);
  cfg_WorkingDir : string; cfg_User : string; cfg_Entrypoint : list string; cfg_Tty : bool }.

Record EndpointSettings : Set := MkEndpointSettings {
  ep_NetworkID : string; ep_IPAddress : addr; ep_Gateway : addr; ep_MacAddress : string;
  ep_Aliases : list string }.

Record PortBinding : Set := MkPortBinding { pb_HostIP : addr; pb_HostPort : string }.

(** The two maps are given as the sequence of entries a [range] visits. *)
Record NetworkSettings : Type := MkNetworkSettings {
  ns_Networks : list (string * option EndpointSettings);
  ns_Ports : list (Z * string * list PortBinding) }.

Record InspectResponse : Type := MkInspectResponse {
  ir_ID : string; ir_Name : string; ir_Image : string; ir_Created : string; ir_Path : string;
  ir_Args : list string; ir_Platform : string; ir_RestartCount : Z;
  ir_Mounts : list MountPoint; ir_State : option ContainerState;
  ir_Config : option ContainerConfig; ir_RestartPolicy : option string; (** [HostConfig] *)
  ir_NetworkSettings : option NetworkSettings }.

Record ImageSummaryRaw : Type := MkImageSummaryRaw {
  is_ID : string; is_ParentID : string; is_RepoTags : list string; is_RepoDigests : list string;
  is_Created : Z; is_Size : Z; is_Containers : Z; is_Labels : option (gmap string string) }.

Record ImageInspectRaw : Type := MkImageInspectRaw {
  ii_ID : string; ii_RepoTags : list string; ii_RepoDigests : list string; ii_Created : string;
  ii_Size : Z; ii_Architecture : string; ii_Os : string; ii_Author : string; ii_Comment : string;
  ii_ConfigEnv : list string }.

Record NetworkRaw : Type := MkNetworkRaw {
  nw_ID : string; nw_Name : string; nw_Driver : string; nw_Scope : string;
  nw_Created : Z; (** the instant, in nanoseconds *)
  nw_Internal : bool; nw_EnableIPv6 : bool; nw_Labels : option (gmap string string) }.

Record EndpointResource : Set := MkEndpointResource {
  er_Name : string; er_IPv4Address : addr; er_IPv6Address : addr }.

Record NetworkInspectRaw : Type := MkNetworkInspectRaw {
  ni_Network : NetworkRaw; ni_Containers : list (string * EndpointResource) }.

Record VolumeRaw : Type := MkVolumeRaw {
  vol_Name : string; vol_Driver : string; vol_Mountpoint : string; vol_CreatedAt : string;
  vol_Scope : string; vol_Labels : option (gmap string string);
  vol_Options : option (gmap string string); vol_UsageSize : option Z }.

(** [events.Message] *)
Record Message : Type := MkMessage {
  msg_Type : string; msg_Action : string; msg_ActorID : string;
  msg_Attributes : gmap string string; msg_Time : Z; msg_TimeNano : Z }.

(** [client.ContainerLogsOptions] *)
Record ContainerLogsOptions : Set := MkContainerLogsOptions {
  clo_ShowStdout : bool; clo_ShowStderr : bool; clo_Timestamps : bool; clo_Follow : bool;
  clo_Since : string; clo_Tail : string }.

(** The body of a log response: what its [Read]s return, the last one together
    with the error that ends the stream. *)
Record log_body : Set := MkLogBody { lb_reads : list (list ascii); lb_last : list ascii * error }.
Definition lb_reader (b : log_body) : reader :=
  MkReader (List.concat (lb_reads b) ++ (lb_last b).1) (lb_last b).2.

(** The SDK client. *)
Class EngineApi := {
  EngineState : Type;
  api_ContainerList : bool → Comp EngineState (list Summary);
  api_ContainerInspect : string → Comp EngineState InspectResponse;
  api_ContainerStart : string → Comp EngineState unit;
  api_ContainerRestart : string → Z → Comp EngineState unit;
  api_ContainerStop : string → Z → Comp EngineState unit;
  api_ContainerKill : string → Comp EngineState unit;
  api_ContainerRemove : string → Comp EngineState unit;
  api_ContainerLogs : string → ContainerLogsOptions → Comp EngineState log_body;
  api_ImageList : Comp EngineState (list ImageSummaryRaw);
  api_ImageInspect : string → Comp EngineState ImageInspectRaw;
  api_NetworkList : Comp EngineState (list NetworkRaw);
  api_NetworkInspect : string → Comp EngineState NetworkInspectRaw;
  api_VolumeList : Comp EngineState (list VolumeRaw * list string);
  api_VolumeInspect : string → Comp EngineState VolumeRaw;
  (** errdefs *)
  IsNotFound : error → bool;
  IsNotModified : error → bool;
  IsConflict : error → bool }.

(** ** A concrete Engine

    Containers by full ID; a reference is an ID, a twelve-character prefix of
    one, or a name. Enough of the daemon to evaluate the model on. *)
Record toy_container : Type := MkToy { toy_id : string; toy_name : string; toy_running : bool }.

Definition errNoSuch : error := Leaf "no such object".
Definition errToyConflict : error := Leaf "container is running".

Definition toy_matches (ref : string) (c : toy_container) : bool :=
  bool_decide (toy_id c = ref) || bool_decide (take_bytes 12 (toy_id c) = ref) ||
  bool_decide (toy_name c = "/" +:+ ref).

Definition toy_find (ref : string) (cs : list toy_container) : option toy_container :=
  List.find (toy_matches ref) cs.

Definition toy_inspect_of (c : toy_container) : InspectResponse :=
  MkInspectResponse (toy_id c) (toy_name c) "sha256:0" "2026-01-01T00:00:00Z" "/bin/sh" [] "linux" 0 []
    (Some (MkContainerState (if toy_running c then "running" else "exited") (toy_running c)
             false false 0 "" "" None))
    (Some (MkContainerConfig "img" ["SECRET=1"] None "" "" [] false)) (Some "always") None.

Definition toy_summary_of (c : toy_container) : Summary :=
  MkSummary (toy_id c) [toy_name c] "img" "sha256:0" "" 0 "running" "Up" None None [].

Definition toy_set (id : string) (running : bool) (cs : list toy_container) : list toy_container :=
  map (λ c, if decide (toy_id c = id) then MkToy (toy_id c) (toy_name c) running else c) cs.

Definition toy_on (ref : string) (f : toy_container → list toy_container → result unit * list toy_container)
    : Comp (list toy_container) unit := λ cs,
  match toy_find ref cs with None => (Err errNoSuch, cs) | Some c => f c cs end.

#[export] Instance ToyEngine : EngineApi := {|
  EngineState := list toy_container;
  api_ContainerList := λ all cs,
    (Ok (map toy_summary_of (List.filter (λ c, all || toy_running c) cs)), cs);
  api_ContainerInspect := λ ref cs,
    (match toy_find ref cs with Some c => Ok (toy_inspect_of c) | None => Err errNoSuch end, cs);
  api_ContainerStart := λ ref, toy_on ref (λ c cs, (Ok tt, toy_set (toy_id c) true cs));
  api_ContainerRestart := λ ref _, toy_on ref (λ c cs, (Ok tt, toy_set (toy_id c) true cs));
  api_ContainerStop := λ ref _, toy_on ref (λ c cs, (Ok tt, toy_set (toy_id c) false cs));
  api_ContainerKill := λ ref, toy_on ref (λ c cs, (Ok tt, toy_set (toy_id c) false cs));
  api_ContainerRemove := λ ref, toy_on ref (λ c cs,
    if toy_running c then (Err errToyConflict, cs)
    else (Ok tt, List.filter (λ c', negb (bool_decide (toy_id c' = toy_id c))) cs));
  api_ContainerLogs := λ ref _ cs, 
    (Ok (MkLogBody [frame_of "001" (bytes "up" ++ [newline])] ([], Sentinel IoEOF)), cs);
  api_ImageList := λ cs, (Ok [], cs);
  api_ImageInspect := λ _ cs, (Err errNoSuch, cs);
  api_NetworkList := λ cs, (Ok [], cs);
  api_NetworkInspect := λ _ cs, (Err errNoSuch, cs);
  api_VolumeList := λ cs, (Ok ([], []), cs);
  api_VolumeInspect := λ _ cs, (Err errNoSuch, cs);
  IsNotFound := λ e, bool_decide (e = errNoSuch);
  IsNotModified := λ _, false;
  IsConflict := λ e, bool_decide (e = errToyConflict) |}.
