(* ===== verification/Dto.v ===== *)
(** * Dto: what a paired device may learn about a Docker object
    (internal/dockerx/types.go, list.go, and the projections of containers.go,
    images.go, networks.go, volumes.go and events.go)

    One record per response type, one projection per Engine type. A Go slice
    that is built with [make] is a list; nil and empty differ only where the
    source tells them apart (a label map, which [defaultLabels] repairs). *)
From S2P Require Import Prelude GoTime Refs Engine.

(** [type ListResult] *)
Record ListResult (T : Type) : Type := MkListResult { Items : list T; Truncated : bool }.
Arguments MkListResult {T}. Arguments Items {T}. Arguments Truncated {T}.

(** [type Port] *)
Record Port : Set := MkPort { port_IP : string; port_PrivatePort : Z; port_PublicPort : Z; port_Protocol : string }.

(** [type Mount] *)
Record Mount : Set := MkMount {
  mnt_Type : string; mnt_Name : string; mnt_Source : string; mnt_Destination : string; mnt_ReadWrite : bool }.

(** [type EndpointSummary] *)
Record EndpointSummary : Set := MkEndpointSummary {
  es_NetworkName : string; es_NetworkID : string; es_IPAddress : string; es_Gateway : string;
  es_MACAddress : string; es_Aliases : list string }.

(** [type ContainerSummary] *)
Record ContainerSummary : Type := MkContainerSummary {
  cs_ID : string; cs_Names : list string; cs_Image : string; cs_ImageID : string;
  cs_Command : string; cs_CreatedAt : string; cs_State : string; cs_Status : string;
  cs_Health : string; cs_Labels : gmap string string; cs_Ports : list Port; cs_Protected : bool }.

(** [type ContainerDetail] *)
Record ContainerDetail : Type := MkContainerDetail {
  cd_ID : string; cd_Name : string; cd_Image : string; cd_ImageID : string; cd_CreatedAt : string;
  cd_State : string; cd_Running : bool; cd_Paused : bool; cd_Restarting : bool; cd_ExitCode : Z;
  cd_StartedAt : string; cd_FinishedAt : string; cd_Health : string; cd_RestartCount : Z;
  cd_RestartPolicy : string; cd_Platform : string; cd_Labels : gmap string string;
  cd_Command : string; cd_Args : list string; cd_Entrypoint : list string; cd_WorkingDir : string;
  cd_User : string; cd_Mounts : list Mount; cd_Networks : list EndpointSummary;
  cd_Ports : list Port; cd_Protected : bool }.

(** [type ContainerStateSummary] *)
Record ContainerStateSummary : Set := MkContainerStateSummary {
  css_ID : string; css_Name : string; css_State : string; css_Health : string }.

(** [type ContainerEvent] *)
Record ContainerEvent : Set := MkContainerEvent {
  ce_ID : string; ce_Name : string; ce_Event : string; ce_Health : string; ce_Time : string }.

(** [type ImageSummary] *)
Record ImageSummary : Type := MkImageSummary {
  img_ID : string; img_ParentID : string; img_RepoTags : list string; img_RepoDigests : list string;
  img_CreatedAt : string; img_Size : Z; img_Containers : Z; img_Labels : gmap string string }.

(** [type ImageDetail] *)
Record ImageDetail : Set := MkImageDetail {
  imd_ID : string; imd_RepoTags : list string; imd_RepoDigests : list string; imd_CreatedAt : string;
  imd_Size : Z; imd_Architecture : string; imd_OS : string; imd_Author : string; imd_Comment : string }.

(** [type NetworkSummary] *)
Record NetworkSummary : Type := MkNetworkSummary {
  net_ID : string; net_Name : string; net_Driver : string; net_Scope : string; net_CreatedAt : string;
  net_Internal : bool; net_EnableIPv6 : bool; net_Labels : gmap string string }.

(** [type NetworkEndpoint], [type NetworkDetail] *)
Record NetworkEndpoint : Set := MkNetworkEndpoint {
  ne_ContainerID : string; ne_Name : string; ne_IPv4Address : string; ne_IPv6Address : string }.
Record NetworkDetail : Type := MkNetworkDetail {
  nd_Summary : NetworkSummary; nd_Containers : list NetworkEndpoint }.

(** [type VolumeSummary] *)
Record VolumeSummary : Type := MkVolumeSummary {
  vs_Name : string; vs_Driver : string; vs_Mountpoint : string; vs_CreatedAt : string;
  vs_Scope : string; vs_Labels : gmap string string; vs_SizeBytes : option Z }.

(** ** list.go *)

Definition maxListItems : nat := 500.

(** [func truncate] *)
Definition truncate {T} (items : list T) : list T * bool :=
  if (maxListItems <? List.length items)%nat then (List.firstn maxListItems items, true)
  else (items, false).

(** [func defaultLabels] *)
Definition defaultLabels (m : option (gmap string string)) : gmap string string :=
  match m with None => ∅ | Some m => m end.

(** [func unixToRFC3339] *)
Definition unixToRFC3339 (sec : Z) : string := if sec =? 0 then "" else format_rfc3339 sec.

(** ** containers.go *)

(** [if ip.IsValid() { s = ip.String() }] *)
Definition addr_string (a : option string) : string := default "" a.

(** [func toPort] *)
Definition toPort (p : PortSummary) : Port :=
  MkPort (addr_string (psum_IP p)) (psum_PrivatePort p) (psum_PublicPort p) (psum_Type p).

(** [func toContainerSummary] *)
Definition toContainerSummary (s : Summary) (selfID : string) (protected : protectedSet) : ContainerSummary :=
  MkContainerSummary (sum_ID s) (sum_Names s) (sum_Image s) (sum_ImageID s) (sum_Command s)
    (unixToRFC3339 (sum_Created s)) (sum_State s) (sum_Status s)
    (default "" (sum_Health s)) (defaultLabels (sum_Labels s)) (map toPort (sum_Ports s))
    ((bool_decide (sum_ID s = selfID) && negb (bool_decide (selfID = ""))) ||
     matches protected (sum_ID s) (sum_Names s)).

(** [func toMounts] *)
Definition toMounts (mounts : list MountPoint) : list Mount :=
  map (λ m, MkMount (mp_Type m) (mp_Name m) (mp_Source m) (mp_Destination m) (mp_RW m)) mounts.

(** [func zeroTimeToEmpty] *)
Definition zeroTimeToEmpty (ts : string) : string :=
  if bool_decide (ts = "") || has_prefix "0001" ts then "" else ts.

(** [strconv.ParseUint(s, 10, 16)]: decimal digits only, at most 65535. *)
Definition ParseUint16 (s : string) : option Z :=
  if bool_decide (s = "") || negb (string_forallb is_digit s) then None
  else let n := digits_val (bytes s) in if 65535 <? n then None else Some n.

(** [func toPortsFromPortMap] *)
Definition toPortsFromPortMap (ports : list (Z * string * list PortBinding)) : list Port :=
  flat_map (λ '(num, proto, bindings),
    match bindings with
    | [] => [MkPort "" num 0 proto]
    | _ :: _ =>
        map (λ b, MkPort (addr_string (pb_HostIP b)) num
                    (default 0 (ParseUint16 (pb_HostPort b))) proto) bindings
    end) ports.

(** [func toEndpointSummaries] *)
Definition toEndpointSummaries (networks : list (string * option EndpointSettings)) : list EndpointSummary :=
  flat_map (λ '(name, ep),
    match ep with
    | None => []
    | Some ep =>
        [MkEndpointSummary name (ep_NetworkID ep) (addr_string (ep_IPAddress ep))
           (addr_string (ep_Gateway ep)) (ep_MacAddress ep) (ep_Aliases ep)]
    end) networks.

(** [func toContainerDetail] *)
Definition toContainerDetail (r : InspectResponse) (selfID : string) (protected : protectedSet)
    : ContainerDetail :=
  let st {A} (f : ContainerState → A) (z : A) : A := match ir_State r with Some s => f s | None => z end in
  let cfg {A} (f : ContainerConfig → A) (z : A) : A := match ir_Config r with Some c => f c | None => z end in
  {| cd_ID := ir_ID r;
     cd_Name := ir_Name r;
     cd_Image := cfg cfg_Image "";
     cd_ImageID := ir_Image r;
     cd_CreatedAt := ir_Created r;
     cd_State := st st_Status "";
     cd_Running := st st_Running false;
     cd_Paused := st st_Paused false;
     cd_Restarting := st st_Restarting false;
     cd_ExitCode := st st_ExitCode 0;
     cd_StartedAt := st (λ s, zeroTimeToEmpty (st_StartedAt s)) "";
     cd_FinishedAt := st (λ s, zeroTimeToEmpty (st_FinishedAt s)) "";
     cd_Health := st (λ s, default "" (st_Health s)) "";
     cd_RestartCount := ir_RestartCount r;
     cd_RestartPolicy := default "" (ir_RestartPolicy r);
     cd_Platform := ir_Platform r;
     cd_Labels := defaultLabels (cfg cfg_Labels None);
     cd_Command := ir_Path r;
     cd_Args := ir_Args r;
     cd_Entrypoint := cfg cfg_Entrypoint [];
     cd_WorkingDir := cfg cfg_WorkingDir "";
     cd_User := cfg cfg_User "";
     cd_Mounts := toMounts (ir_Mounts r);
     cd_Networks := match ir_NetworkSettings r with
                    | Some n => toEndpointSummaries (ns_Networks n) | None => [] end;
     cd_Ports := match ir_NetworkSettings r with
                 | Some n => toPortsFromPortMap (ns_Ports n) | None => [] end;
     cd_Protected :=
       (bool_decide (ir_ID r = selfID) && negb (bool_decide (selfID = ""))) ||
       matches protected (ir_ID r) [ir_Name r] |}.

(** ** images.go, networks.go, volumes.go *)

(** [func toImageSummary] *)
Definition toImageSummary (s : ImageSummaryRaw) : ImageSummary :=
  MkImageSummary (is_ID s) (is_ParentID s) (is_RepoTags s) (is_RepoDigests s)
    (unixToRFC3339 (is_Created s)) (is_Size s) (is_Containers s) (defaultLabels (is_Labels s)).

(** [func toImageDetail] *)
Definition toImageDetail (r : ImageInspectRaw) : ImageDetail :=
  MkImageDetail (ii_ID r) (ii_RepoTags r) (ii_RepoDigests r) (ii_Created r) (ii_Size r)
    (ii_Architecture r) (ii_Os r) (ii_Author r) (ii_Comment r).

(** [func toNetworkSummary] *)
Definition toNetworkSummary (n : NetworkRaw) : NetworkSummary :=
  MkNetworkSummary (nw_ID n) (nw_Name n) (nw_Driver n) (nw_Scope n)
    (format_rfc3339 (Unix (nw_Created n))) (nw_Internal n) (nw_EnableIPv6 n)
    (defaultLabels (nw_Labels n)).

(** [func toNetworkEndpoint] *)
Definition toNetworkEndpoint (containerID : string) (ep : EndpointResource) : NetworkEndpoint :=
  MkNetworkEndpoint containerID (er_Name ep) (addr_string (er_IPv4Address ep))
    (addr_string (er_IPv6Address ep)).

(** [func toNetworkDetail] *)
Definition toNetworkDetail (n : NetworkInspectRaw) : NetworkDetail :=
  MkNetworkDetail (toNetworkSummary (ni_Network n))
    (map (λ '(id, ep), toNetworkEndpoint id ep) (ni_Containers n)).

(** [func toVolumeSummary] *)
Definition toVolumeSummary (v : VolumeRaw) : VolumeSummary :=
  MkVolumeSummary (vol_Name v) (vol_Driver v) (vol_Mountpoint v) (vol_CreatedAt v) (vol_Scope v)
    (defaultLabels (vol_Labels v)) (vol_UsageSize v).

(** ** events.go *)

(** [func healthOrNone] *)
Definition healthOrNone (h : option string) : string :=
  match h with
  | None => "none"
  | Some s => if decide (s ∈ ["none"; "starting"; "healthy"; "unhealthy"]) then s else "none"
  end.

(** [func toContainerStateSummary] *)
Definition toContainerStateSummary (s : Summary) : ContainerStateSummary :=
  MkContainerStateSummary (sum_ID s)
    (match sum_Names s with n :: _ => trimContainerName n | [] => "" end)
    (sum_State s) (healthOrNone (sum_Health s)).

Definition eventHealthStatus : string := "health_status".

(** The SDK's action constants, and the allowlist. *)
Definition eventActions : gmap string string :=
  list_to_map
    [("health_status: healthy", eventHealthStatus);
     ("health_status: unhealthy", eventHealthStatus);
     ("die", "die"); ("start", "start"); ("stop", "stop"); ("oom", "oom")].

Definition eventHealthByAction : gmap string string :=
  list_to_map [("health_status: healthy", "healthy"); ("health_status: unhealthy", "unhealthy")].

(** [func eventTime] *)
Definition eventTime (msg : Message) : string :=
  if negb (msg_TimeNano msg =? 0) then format_rfc3339 (Unix (msg_TimeNano msg))
  else if negb (msg_Time msg =? 0) then format_rfc3339 (msg_Time msg)
  else "".

(** [func toContainerEvent] *)
Definition toContainerEvent (msg : Message) : option ContainerEvent :=
  if negb (bool_decide (msg_Type msg = "container")) then None
  else match eventActions !! msg_Action msg with
       | None => None
       | Some action =>
           Some (MkContainerEvent (msg_ActorID msg)
                   (trimContainerName (default "" (msg_Attributes msg !! "name"))) action
                   (default "" (eventHealthByAction !! msg_Action msg)) (eventTime msg))
       end.

(** ** Lemmas *)

Lemma truncate_length {T} (l : list T) : (List.length (truncate l).1 <= maxListItems)%nat.
Proof.
  unfold truncate. destruct (Nat.ltb_spec maxListItems (List.length l)); cbn [fst]; [|lia].
  rewrite length_firstn. lia.
Qed.

Lemma truncate_firstn {T} (l : list T) :
  truncate l = (List.firstn maxListItems l, bool_decide (maxListItems < List.length l)%nat).
Proof.
  unfold truncate. destruct (Nat.ltb_spec maxListItems (List.length l)).
  - by rewrite bool_decide_eq_true_2.
  - rewrite bool_decide_eq_false_2 by lia. by rewrite firstn_all2.
Qed.

(** The literals that may appear as an event on the wire. *)
Definition event_literals : list string := ["health_status"; "die"; "start"; "stop"; "oom"].

Lemma eventActions_lookup a :
  eventActions !! a =
    (if bool_decide (a = "health_status: healthy") then Some "health_status"
     else if bool_decide (a = "health_status: unhealthy") then Some "health_status"
     else if bool_decide (a = "die") then Some "die" else if bool_decide (a = "start") then Some "start"
     else if bool_decide (a = "stop") then Some "stop" else if bool_decide (a = "oom") then Some "oom"
     else None).
Proof.
  unfold eventActions. cbn [list_to_map foldr fst snd]. rewrite !lookup_insert, lookup_empty.
  repeat (case_decide; case_bool_decide; simplify_eq; try done).
Qed.

Lemma eventHealth_lookup a :
  eventHealthByAction !! a =
    (if bool_decide (a = "health_status: healthy") then Some "healthy"
     else if bool_decide (a = "health_status: unhealthy") then Some "unhealthy" else None).
Proof.
  unfold eventHealthByAction. cbn [list_to_map foldr fst snd]. rewrite !lookup_insert, lookup_empty.
  repeat (case_decide; case_bool_decide; simplify_eq; try done).
Qed.

(** Only the allowlist reaches a device. An event that is forwarded carries
    one of five literals, with a health of exactly "healthy" or "unhealthy" for
    a health event and none otherwise; a free-form health action (which would
    carry the healthcheck's output) and anything not about a container is
    dropped; and of the actor's attributes, the container's labels, nothing but
    the name has any influence on what is sent. *)
Theorem toContainerEvent_allowlist (msg : Message) (e : ContainerEvent)
    (Hfwd : toContainerEvent msg = Some e) :
  msg_Type msg = "container" ∧ ce_Event e ∈ event_literals ∧
  (ce_Event e = "health_status" ↔ ce_Health e ≠ "") ∧
  ce_Health e ∈ [""; "healthy"; "unhealthy"] ∧
  msg_Action msg ∈ ["health_status: healthy"; "health_status: unhealthy"; "die"; "start"; "stop"; "oom"] ∧
  ∀ attrs, attrs !! "name" = msg_Attributes msg !! "name" →
    toContainerEvent (MkMessage (msg_Type msg) (msg_Action msg) (msg_ActorID msg) attrs
                        (msg_Time msg) (msg_TimeNano msg)) = Some e.
Proof.
  split; [|split; [|split; [|split; [|split]]]].
  6: { intros attrs Ha. rewrite <- Hfwd. unfold toContainerEvent. cbn. by rewrite Ha. }
  all: unfold toContainerEvent in Hfwd; rewrite eventActions_lookup, eventHealth_lookup in Hfwd;
    case_bool_decide; [|done]; cbn [negb] in Hfwd;
    repeat case_bool_decide; simplify_eq/=; unfold event_literals; rewrite ?elem_of_cons; first [tauto | split; intros ?; done].
Qed.

Lemma toContainerEvent_allowlist_witness :
  let msg := MkMessage "container" "health_status: unhealthy" "abc"
               (<["name" := "web"]> (<["SECRET" := "1"]> ∅)) 1700000000 0 in
  toContainerEvent msg = Some (MkContainerEvent "abc" "web" "health_status" "unhealthy" "2023-11-14T22:13:20Z") ∧
  toContainerEvent (MkMessage "container" "health_status: curl failed" "abc" ∅ 0 0) = None ∧
  "health_status" ∈ event_literals.
Proof.
  split; [vm_compute; reflexivity|]. split; [vm_compute; reflexivity|].
  refine (proj1 (proj2 (toContainerEvent_allowlist
    (MkMessage "container" "health_status: unhealthy" "abc" (<["name" := "web"]> ∅) 1700000000 0)
    (MkContainerEvent "abc" "web" "health_status" "unhealthy" "2023-11-14T22:13:20Z") _))).
  vm_compute. reflexivity.
Defined.
