(* ===== verification/DockerClient.v ===== *)
(** * DockerClient: the agent's operations on the Engine
    (internal/dockerx: client.go, self.go, errors.go, containers.go, images.go,
    networks.go, volumes.go, lifecycle.go, logs.go, events.go)

    A method is a computation over the world the client sees: the Engine's own
    state, the calls made to it so far, in order, and the agent's log. The
    timeouts the source puts on each call only decide which of the Engine's
    errors a call may return. *)
From S2P Require Import Prelude GoTime LogFraming Refs SelfId Engine Dto.

(** The calls that reach the Engine. *)
Inductive api_call : Type :=
| CallContainerList (all : bool) | CallContainerInspect (ref : string)
| CallContainerStart (id : string) | CallContainerRestart (id : string) (timeout : Z)
| CallContainerStop (id : string) (timeout : Z) | CallContainerKill (id : string)
| CallContainerRemove (id : string)
| CallContainerLogs (ref : string) (o : ContainerLogsOptions)
| CallImageList | CallImageInspect (ref : string) | CallNetworkList | CallNetworkInspect (ref : string)
| CallVolumeList | CallVolumeInspect (ref : string).

(** [type selfInfo struct] *)
Record selfInfo : Set := MkSelfInfo { containerized : bool; self_id : string }.

(** [type Client struct]: immutable after [New]. *)
Record Client : Type := MkClient { self : selfInfo; protected : protectedSet }.

(** [func (c *Client) SelfID], [SelfKnown], [Containerized] *)
Definition SelfID (c : Client) : string := self_id (self c).
Definition SelfKnown (c : Client) : bool := negb (bool_decide (self_id (self c) = "")).
Definition IsContainerized (c : Client) : bool := containerized (self c).

(** [type LogOptions struct] *)
Record LogOptions : Set := MkLogOptions { lo_Tail : Z; lo_Since : string }.

(** [func (o LogOptions) engineOptions(follow bool)] *)
Definition engineOptions (o : LogOptions) (follow : bool) : result ContainerLogsOptions :=
  if negb (bool_decide (lo_Since o = "")) &&
     match parse_rfc3339nano (lo_Since o) with None => true | Some _ => false end
  then Err (Sentinel ErrInvalidSince)
  else
    let tail := if 0 <? lo_Tail o then pretty (lo_Tail o) else "all" in
    Ok (MkContainerLogsOptions true true true follow (lo_Since o) tail).

Definition stopGraceSeconds : Z := 10.
Definition maxHistoricalLines : nat := 2000.

(** [func containerHasTTY] *)
Definition containerHasTTY (r : InspectResponse) : bool :=
  match ir_Config r with None => false | Some c => cfg_Tty c end.

Section Client.
Context `{EngineApi}.

(** [func classify(op string, err error) error] of a non-nil error. *)
Definition classify (op : string) (err : error) : error :=
  if IsNotFound err then wrap op (Sentinel ErrNotFound)
  else if IsNotModified err then wrap op (Sentinel ErrNotModified)
  else if IsConflict err then wrap op (Sentinel ErrConflict)
  else wrap op err.

Record docker : Type := MkDocker {
  engine : EngineState;
  calls : list api_call;
  dlog : list log_line }.

Definition api {A} (call : api_call) (m : Comp EngineState A) : Comp docker A := λ w,
  let '(r, e) := m (engine w) in (r, MkDocker e (calls w ++ [call]) (dlog w)).

Definition log (l : level) (msg : string) (attrs : list (string * string)) : Comp docker unit :=
  modify (λ w, MkDocker (engine w) (calls w) (dlog w ++ [LogLine_ l msg attrs])).

(** [if err != nil { return ..., classify(op, err) }] *)
Definition classified {A} (op : string) (m : Comp docker A) : Comp docker A := λ w,
  match m w with
  | (Err e, w') => (Err (classify op e), w')
  | r => r
  end.

Definition of_result {A} (r : result A) : Comp docker A := λ w, (r, w).

(** *** Lists *)

Definition capped {A} (items : list A) : ListResult A :=
  let '(items, truncated) := truncate items in MkListResult items truncated.

(** [func (c *Client) ListContainers] *)
Definition ListContainers (c : Client) (all : bool) : Comp docker (ListResult ContainerSummary) :=
  res ← classified "list containers" (api (CallContainerList all) (api_ContainerList all));
  mret (capped (map (λ s, toContainerSummary s (self_id (self c)) (protected c)) res)).

(** [func (c *Client) ListImages] *)
Definition ListImages : Comp docker (ListResult ImageSummary) :=
  res ← classified "list images" (api CallImageList api_ImageList);
  mret (capped (map toImageSummary res)).

(** [func (c *Client) ListNetworks] *)
Definition ListNetworks : Comp docker (ListResult NetworkSummary) :=
  res ← classified "list networks" (api CallNetworkList api_NetworkList);
  mret (capped (map toNetworkSummary res)).

(** [func (c *Client) ListVolumes] *)
Definition ListVolumes : Comp docker (ListResult VolumeSummary) :=
  '(items, warnings) ← classified "list volumes" (api CallVolumeList api_VolumeList);
  (match warnings with
   | [] => mret tt
   | _ :: _ => log LevelWarn "volume list warnings" [("warnings", join " " warnings)]
   end) ≫= λ _,
  mret (capped (map toVolumeSummary items)).

(** [func (c *Client) ContainerStates] *)
Definition ContainerStates : Comp docker (list ContainerStateSummary) :=
  res ← classified "list container states" (api (CallContainerList true) (api_ContainerList true));
  let '(items, truncated) := truncate (map toContainerStateSummary res) in
  (if (truncated : bool)
   then log LevelWarn "container state snapshot truncated" [("count", pretty (List.length res))]
   else mret tt) ≫= λ _,
  mret items.

(** *** Inspects *)

(** [func (c *Client) InspectContainer] *)
Definition InspectContainer (c : Client) (ref : string) : Comp docker ContainerDetail :=
  of_result (ValidateRef ref) ≫= λ _,
  res ← classified "inspect container" (api (CallContainerInspect ref) (api_ContainerInspect ref));
  mret (toContainerDetail res (self_id (self c)) (protected c)).

(** [func (c *Client) InspectImage] *)
Definition InspectImage (ref : string) : Comp docker ImageDetail :=
  of_result (ValidateRef ref) ≫= λ _,
  res ← classified "inspect image" (api (CallImageInspect ref) (api_ImageInspect ref));
  mret (toImageDetail res).

(** [func (c *Client) InspectNetwork] *)
Definition InspectNetwork (ref : string) : Comp docker NetworkDetail :=
  of_result (ValidateRef ref) ≫= λ _,
  res ← classified "inspect network" (api (CallNetworkInspect ref) (api_NetworkInspect ref));
  mret (toNetworkDetail res).

(** [func (c *Client) InspectVolume] *)
Definition InspectVolume (ref : string) : Comp docker VolumeSummary :=
  of_result (ValidateRef ref) ≫= λ _,
  res ← classified "inspect volume" (api (CallVolumeInspect ref) (api_VolumeInspect ref));
  mret (toVolumeSummary res).

(** *** Lifecycle *)

(** [func (c *Client) resolveTarget] *)
Definition resolveTarget (c : Client) (ref : string) : Comp docker string :=
  of_result (ValidateRef ref) ≫= λ _,
  if containerized (self c) && bool_decide (self_id (self c) = "")
  then throw (Sentinel ErrSelfUnknown)
  else
    detail ← InspectContainer c ref;
    if bool_decide (cd_ID detail = self_id (self c)) && negb (bool_decide (self_id (self c) = ""))
    then throw (Sentinel ErrSelfProtected)
    else if matches (protected c) (cd_ID detail) [cd_Name detail]
    then throw (Sentinel ErrProtectedContainer)
    else mret (cd_ID detail).

(** [func (c *Client) StartContainer] *)
Definition StartContainer (c : Client) (ref : string) : Comp docker unit :=
  id ← resolveTarget c ref;
  classified "start container" (api (CallContainerStart id) (api_ContainerStart id)).

(** [func (c *Client) RestartContainer] *)
Definition RestartContainer (c : Client) (ref : string) : Comp docker unit :=
  id ← resolveTarget c ref;
  classified "restart container"
    (api (CallContainerRestart id stopGraceSeconds) (api_ContainerRestart id stopGraceSeconds)).

(** [func (c *Client) StopContainer] *)
Definition StopContainer (c : Client) (ref : string) : Comp docker unit :=
  id ← resolveTarget c ref;
  classified "stop container"
    (api (CallContainerStop id stopGraceSeconds) (api_ContainerStop id stopGraceSeconds)).

(** [func (c *Client) KillContainer] *)
Definition KillContainer (c : Client) (ref : string) : Comp docker unit :=
  id ← resolveTarget c ref;
  classified "kill container" (api (CallContainerKill id) (api_ContainerKill id)).

(** [func (c *Client) RemoveContainer] *)
Definition RemoveContainer (c : Client) (ref : string) : Comp docker unit :=
  id ← resolveTarget c ref;
  classified "remove container" (api (CallContainerRemove id) (api_ContainerRemove id)).

(** *** Logs *)

(** [func (c *Client) containerUsesTTY] *)
Definition containerUsesTTY (ref : string) : Comp docker bool :=
  of_result (ValidateRef ref) ≫= λ _,
  res ← classified "inspect container for tty"
          (api (CallContainerInspect ref) (api_ContainerInspect ref));
  mret (containerHasTTY res).

(** Which of the two readers applies to a body. [keys] is the order in which
    Go ranges over the splitter's map. *)
Definition demux {W} (keys : gmap string lineState → list string) (tty : bool) (body : log_body)
    (emit : LogLine → Comp W unit) : Comp W unit :=
  if tty then demuxTTY emit keys (lb_reads body) (lb_last body)
  else demuxNonTTY emit keys (lb_reader body).

(** The closure [emit] of [ContainerLogs], over its [items] and [truncated]. *)
Definition collect_capped (l : LogLine) : Comp (list LogLine * bool) unit := λ '(items, truncated),
  if (List.length items =? maxHistoricalLines)%nat then (Ok tt, (items, true))
  else (Ok tt, (items ++ [l], truncated)).

(** [func (c *Client) ContainerLogs] *)
Definition ContainerLogs (keys : gmap string lineState → list string) (ref : string) (opts : LogOptions)
    : Comp docker (ListResult LogLine) :=
  tty ← containerUsesTTY ref;
  engineOpts ← of_result (engineOptions opts false);
  body ← classified "container logs"
           (api (CallContainerLogs ref engineOpts) (api_ContainerLogs ref engineOpts));
  match demux keys tty body collect_capped ([], false) with
  | (Err e, _) => throw (wrap "container logs" e)
  | (Ok _, (items, truncated)) => mret (MkListResult items truncated)
  end.

(** [func (c *Client) StreamContainerLogs]: up to the body, then [demux] into
    the caller's [emit], over the caller's state. *)
Definition open_log_stream (ref : string) (opts : LogOptions) : Comp docker (bool * log_body) :=
  tty ← containerUsesTTY ref;
  engineOpts ← of_result (engineOptions opts true);
  body ← classified "stream container logs"
           (api (CallContainerLogs ref engineOpts) (api_ContainerLogs ref engineOpts));
  mret (tty, body).
Definition StreamContainerLogs {W} (keys : gmap string lineState → list string) (ref : string)
    (opts : LogOptions) (emit : LogLine → Comp W unit) (s : W) : docker → result unit * (docker * W) :=
  λ w,
  match open_log_stream ref opts w with
  | (Err e, w') => (Err e, (w', s))
  | (Ok (tty, body), w') =>
      let '(r, s') := demux keys tty body emit s in (r, (w', s'))
  end.

(** *** Events *)

(** What the [select] of [StreamContainerEvents] picks, turn by turn; [err]
    carries whether the context is done by then. *)
Inductive feed_pick : Type :=
| PickDone | PickMessage (msg : Message) | PickMessagesClosed
| PickErr (e : error) (ctx_done : bool) | PickErrClosed.

(** The loop of [StreamContainerEvents]; [None] when it is still waiting
    after the picks given. *)
Fixpoint stream_events {W} (emit : ContainerEvent → Comp W unit) (picks : list feed_pick) (s : W)
    : option (result unit) * W :=
  match picks with
  | [] => (None, s)
  | PickDone :: _ => (Some (Ok tt), s)
  | PickMessagesClosed :: _ | PickErrClosed :: _ => (Some (Err (Sentinel ErrEventFeedClosed)), s)
  | PickMessage msg :: picks =>
      match toContainerEvent msg with
      | None => stream_events emit picks s
      | Some ev =>
          match emit ev s with
          | (Err e, s') => (Some (Err e), s')
          | (Ok _, s') => stream_events emit picks s'
          end
      end
  | PickErr e ctx_done :: _ =>
      if (ctx_done : bool) then (Some (Ok tt), s)
      else if errors_is e IoEOF then (Some (Err (Sentinel ErrEventFeedClosed)), s)
      else (Some (Err (classify "stream container events" e)), s)
  end.

(** [func (c *Client) StreamContainerEvents]: [onReady] once the subscription
    is made, before the first event. *)
Definition StreamContainerEvents {W} (onReady : W → W) (emit : ContainerEvent → Comp W unit)
    (picks : list feed_pick) (s : W) : option (result unit) * W :=
  stream_events emit picks (onReady s).

(** *** Self-identification *)

(** The loop of [confirmSelf]. *)
Fixpoint confirm_loop (detected : Result) (candidates : list string) : Comp docker selfInfo :=
  match candidates with
  | [] =>
      (if Containerized detected
       then log LevelError "agent could not identify its own container; set DEVMON_SELF_CONTAINER to the agent's container name or ID and restart" []
       else log LevelInfo "agent is not running in a container; self-exclusion is inapplicable" []) ≫= λ _,
      mret (MkSelfInfo (Containerized detected) "")
  | candidate :: rest => λ w,
      match api (CallContainerInspect candidate) (api_ContainerInspect candidate) w with
      | (Err err, w') =>
          ((if negb (IsNotFound err)
            then log LevelWarn "verify self-id candidate" [("candidate", candidate)] else mret tt) ≫= λ _,
           (if negb (bool_decide (Override detected = "")) && bool_decide (candidate = Override detected)
            then log LevelWarn "discarding DEVMON_SELF_CONTAINER: the Engine does not recognise it"
                   [("self_container", Override detected)] else mret tt) ≫= λ _,
           confirm_loop detected rest) w'
      | (Ok res, w') =>
          (log LevelInfo "agent self-identified" [("container_id", ir_ID res)] ≫= λ _,
           mret (MkSelfInfo (Containerized detected) (ir_ID res))) w'
      end
  end.

(** [func (c *Client) confirmSelf] *)
Definition confirmSelf (detected : Result) : Comp docker selfInfo :=
  confirm_loop detected (Candidates detected).

(** [func New], from the successful ping on: the Client it returns. *)
Definition New (detected : Result) (protectedContainers : list string) : Comp docker Client :=
  s ← confirmSelf detected;
  let p := newProtectedSet protectedContainers in
  (if negb (protectedSet_empty p)
   then log LevelInfo "protected containers configured" [("entries", join " " protectedContainers)]
   else mret tt) ≫= λ _,
  mret (MkClient s p).
End Client.

(** ** Lemmas *)

Inductive lifecycle_op : Set := LStart | LRestart | LStop | LKill | LRemove.

Section Lemmas.
Context `{EngineApi}.

Definition lifecycle_method (op : lifecycle_op) : Client → string → Comp docker unit :=
  match op with
  | LStart => StartContainer | LRestart => RestartContainer | LStop => StopContainer
  | LKill => KillContainer | LRemove => RemoveContainer
  end.

(** The one changing call an operation makes, on the container [id]. *)
Definition op_call (op : lifecycle_op) (id : string) : api_call :=
  match op with
  | LStart => CallContainerStart id | LRestart => CallContainerRestart id stopGraceSeconds
  | LStop => CallContainerStop id stopGraceSeconds | LKill => CallContainerKill id
  | LRemove => CallContainerRemove id
  end.

Definition op_api (op : lifecycle_op) (id : string) : Comp EngineState unit :=
  match op with
  | LStart => api_ContainerStart id | LRestart => api_ContainerRestart id stopGraceSeconds
  | LStop => api_ContainerStop id stopGraceSeconds | LKill => api_ContainerKill id
  | LRemove => api_ContainerRemove id
  end.

Definition op_name (op : lifecycle_op) : string :=
  match op with
  | LStart => "start container" | LRestart => "restart container" | LStop => "stop container"
  | LKill => "kill container" | LRemove => "remove container"
  end.

Lemma lifecycle_unfold op c ref :
  lifecycle_method op c ref =
    (resolveTarget c ref ≫= λ id, classified (op_name op) (api (op_call op id) (op_api op id))).
Proof. by destruct op. Qed.

Lemma api_run {A} call (m : Comp EngineState A) w :
  ∃ r e, m (engine w) = (r, e) ∧ api call m w = (r, MkDocker e (calls w ++ [call]) (dlog w)).
Proof. unfold api. destruct (m (engine w)) as [r e]. eauto. Qed.

Lemma classified_run {A} op (m : Comp docker A) w r w' :
  m w = (r, w') →
  classified op m w = (match r with Err e => Err (classify op e) | Ok a => Ok a end, w').
Proof. unfold classified. intros ->. by destruct r. Qed.

(** [InspectContainer] makes one call, and its answer is the projection of
    the Engine's. *)
Lemma InspectContainer_run c ref w :
  ValidateRef ref = Ok tt →
  ∃ r e, api_ContainerInspect ref (engine w) = (r, e) ∧
    InspectContainer c ref w =
      (match r with
       | Ok res => Ok (toContainerDetail res (self_id (self c)) (protected c))
       | Err x => Err (classify "inspect container" x)
       end, MkDocker e (calls w ++ [CallContainerInspect ref]) (dlog w)).
Proof.
  intros Hv. unfold InspectContainer, of_result. rewrite Hv. unfold mbind, comp_bind.
  destruct (api_run (CallContainerInspect ref) (api_ContainerInspect ref) w) as (r & e & Hr & Ha).
  rewrite (classified_run _ _ _ _ _ Ha). exists r, e. split; [done|]. by destruct r.
Qed.

(** Whether a resolved container may be acted on. *)
Definition refusal (c : Client) (d : ContainerDetail) : option sentinel :=
  if bool_decide (cd_ID d = self_id (self c)) && negb (bool_decide (self_id (self c) = ""))
  then Some ErrSelfProtected
  else if matches (protected c) (cd_ID d) [cd_Name d] then Some ErrProtectedContainer else None.

Definition self_unknown (c : Client) : bool :=
  containerized (self c) && bool_decide (self_id (self c) = "").

Lemma resolveTarget_run c ref w :
  resolveTarget c ref w =
    match ValidateRef ref with
    | Err e => (Err e, w)
    | Ok _ =>
        if self_unknown c then (Err (Sentinel ErrSelfUnknown), w)
        else match InspectContainer c ref w with
             | (Err e, w') => (Err e, w')
             | (Ok d, w') =>
                 (match refusal c d with Some s => Err (Sentinel s) | None => Ok (cd_ID d) end, w')
             end
    end.
Proof.
  unfold resolveTarget, of_result, refusal, self_unknown. unfold mbind, comp_bind.
  destruct (ValidateRef ref); [|done]. destruct (containerized _ && _); [done|].
  destruct (InspectContainer c ref w) as [[d|e] w']; [|done].
  destruct (_ && _); [done|]. by destruct (matches _ _ _).
Qed.

Lemma refusal_protected c r :
  let d := toContainerDetail r (self_id (self c)) (protected c) in
  cd_Protected d = match refusal c d with Some _ => true | None => false end.
Proof.
  unfold refusal. cbn. destruct (bool_decide _ && _); [done|]. by destruct (matches _ _ _).
Qed.

(** *** Log lines under the cap *)

Definition capped_view (out : list LogLine) : list LogLine * bool :=
  (List.firstn maxHistoricalLines out, bool_decide (maxHistoricalLines < List.length out)%nat).

Lemma collect_capped_view l out :
  collect_capped l (capped_view out) = (Ok tt, capped_view (out ++ [l])).
Proof.
  unfold collect_capped, capped_view. generalize maxHistoricalLines. intros n.
  rewrite length_firstn, length_app, firstn_app. cbn [List.length].
  destruct (Nat.eqb_spec (Nat.min n (List.length out)) n).
  - replace (n - List.length out)%nat with 0%nat by lia. cbn [firstn]. rewrite app_nil_r.
    by rewrite (bool_decide_eq_true_2 (n < _)%nat) by lia.
  - rewrite !bool_decide_eq_false_2 by lia. rewrite (firstn_all2 out) by lia.
    replace (n - List.length out)%nat with (S (n - List.length out - 1)) by lia.
    cbn [firstn]. by rewrite firstn_nil.
Qed.

(** ** Two runs of the demultiplexer, in step

    If two callbacks agree on their answers and keep their states related, so
    do the demultiplexers that call them. *)
Section Related.
Context {W1 W2 : Type} (R : W1 → W2 → Prop).
Context (emit1 : LogLine → Comp W1 unit) (emit2 : LogLine → Comp W2 unit).
Hypothesis emits_related : ∀ l s1 s2, made l → R s1 s2 →
  (emit1 l s1).1 = (emit2 l s2).1 ∧ R (emit1 l s1).2 (emit2 l s2).2.

Definition related {A} (x1 : result unit * (A * W1)) (x2 : result unit * (A * W2)) : Prop :=
  x1.1 = x2.1 ∧ x1.2.1 = x2.2.1 ∧ R x1.2.2 x2.2.2.

Ltac step_emit l Hs :=
  let Hr := fresh "Hr" in
  pose proof (emits_related l _ _ ltac:(by eexists _, _, _) Hs) as [Hr ?];
  destruct (emit1 l _) as [[] ?], (emit2 l _) as [[] ?]; cbn in Hr; simplify_eq/=.

Lemma push_loop_related fuel stream data sp s1 s2 :
  R s1 s2 → related (push_loop emit1 fuel stream data sp s1) (push_loop emit2 fuel stream data sp s2).
Proof.
  revert data sp s1 s2. induction fuel as [|fuel IH]; intros data sp s1 s2 Hs; [by destruct data|].
  destruct data as [|ch data]; [done|]. cbn [push_loop]. unfold emitLine.
  destruct (match cut_nl (ch :: data) with Some (a, b) => (a, b, true) | None => (ch :: data, [], false) end)
    as [[chunk rest] nl].
  destruct (discarding _); [by apply IH|].
  case_match.
  - match goal with |- context [emit1 ?l _] => step_emit l Hs end; [by apply IH|done].
  - destruct nl; [|by apply IH].
    match goal with |- context [emit1 ?l _] => step_emit l Hs end; [by apply IH|done].
Qed.

Lemma flush_keys_related keys sp s1 s2 :
  R s1 s2 → related (flush_keys emit1 keys sp s1) (flush_keys emit2 keys sp s2).
Proof.
  revert sp s1 s2. induction keys as [|k keys IH]; intros sp s1 s2 Hs; [done|]. cbn [flush_keys].
  destruct (sp !! k) as [st|]; [|by apply IH]. destruct (buf st) as [|b bs]; [by apply IH|].
  unfold emitLine. match goal with |- context [emit1 ?l _] => step_emit l Hs end; [by apply IH|done].
Qed.

Lemma flush_related keys sp s1 s2 : R s1 s2 →
  (flush emit1 keys sp s1).1 = (flush emit2 keys sp s2).1 ∧ R (flush emit1 keys sp s1).2 (flush emit2 keys sp s2).2.
Proof.
  intros Hs. unfold flush. destruct (flush_keys_related (keys sp) sp s1 s2 Hs) as (Hr & _ & Hs').
  by destruct (flush_keys emit1 _ sp s1) as [? [? ?]], (flush_keys emit2 _ sp s2) as [? [? ?]].
Qed.

Lemma demux_loop_related keys fuel r sp s1 s2 : R s1 s2 →
  match demux_loop emit1 keys fuel r sp s1, demux_loop emit2 keys fuel r sp s2 with
  | Some (r1, s1'), Some (r2, s2') => r1 = r2 ∧ R s1' s2'
  | None, None => True
  | _, _ => False
  end.
Proof.
  revert r sp s1 s2. induction fuel as [|fuel IH]; intros r sp s1 s2 Hs; [done|]. cbn [demux_loop].
  destruct (readFrame r) as [[[stream payload] r']|e].
  - destruct (push_loop_related (List.length payload) stream payload (splitter_state sp stream).2 s1 s2 Hs)
      as (Hr & Hsp & Hs').
    unfold push. destruct (push_loop emit1 _ _ _ _ s1) as [[] [? ?]], (push_loop emit2 _ _ _ _ s2) as [[] [? ?]];
      cbn in *; simplify_eq/=; [by apply IH|done].
  - destruct (errors_is e IoEOF); [|done]. destruct (flush_related keys sp s1 s2 Hs).
    by destruct (flush emit1 keys sp s1), (flush emit2 keys sp s2).
Qed.

Lemma demuxTTY_related keys reads last sp s1 s2 : R s1 s2 →
  (demuxTTY_loop emit1 keys reads last sp s1).1 = (demuxTTY_loop emit2 keys reads last sp s2).1 ∧
  R (demuxTTY_loop emit1 keys reads last sp s1).2 (demuxTTY_loop emit2 keys reads last sp s2).2.
Proof.
  assert (Hpush : ∀ data sp s1 s2, R s1 s2 →
    related (push emit1 streamStdout data sp s1) (push emit2 streamStdout data sp s2)).
  { intros. by apply push_loop_related. }
  revert sp s1 s2. induction reads as [|chunk reads IH]; intros sp s1 s2 Hs; cbn [demuxTTY_loop].
  - destruct last as [[|b chunk] e]; [by destruct (errors_is e IoEOF); [apply flush_related|]|].
    destruct (Hpush (b :: chunk) sp s1 s2 Hs) as (Hr & Hsp & Hs').
    destruct (push emit1 _ _ _ s1) as [[] [? ?]], (push emit2 _ _ _ s2) as [[] [? ?]];
      cbn in *; simplify_eq/=; [by destruct (errors_is e IoEOF); [apply flush_related|]|done].
  - destruct chunk as [|b chunk]; [by apply IH|].
    destruct (Hpush (b :: chunk) sp s1 s2 Hs) as (Hr & Hsp & Hs').
    destruct (push emit1 _ _ _ s1) as [[] [? ?]], (push emit2 _ _ _ s2) as [[] [? ?]];
      cbn in *; simplify_eq/=; [by apply IH|done].
Qed.

Lemma demux_related keys tty body s1 s2 : R s1 s2 →
  (demux keys tty body emit1 s1).1 = (demux keys tty body emit2 s2).1 ∧
  R (demux keys tty body emit1 s1).2 (demux keys tty body emit2 s2).2.
Proof.
  intros Hs. unfold demux. destruct tty; [by apply demuxTTY_related|]. unfold demuxNonTTY.
  pose proof (demux_loop_related keys (S (List.length (rd_data (lb_reader body)))) (lb_reader body)
    newLineSplitter s1 s2 Hs) as Hd.
  by destruct (demux_loop emit1 _ _ _ _ s1) as [[]|], (demux_loop emit2 _ _ _ _ s2) as [[]|].
Qed.
End Related.

(** Running a demultiplexer with the capped collector is running it with the
    plain one and looking through [capped_view]. *)
Lemma demux_capped keys tty body out :
  demux keys tty body collect_capped (capped_view out) =
    (let '(r, out') := demux keys tty body collect out in (r, capped_view out')).
Proof.
  destruct (demux_related (λ s1 s2, s1 = capped_view s2) collect_capped collect) with
    (keys := keys) (tty := tty) (body := body) (s1 := capped_view out) (s2 := out) as [Hr Hs]; [|done|].
  - intros l s1 s2 _ ->. by rewrite collect_capped_view.
  - destruct (demux keys tty body collect_capped _), (demux keys tty body collect out). by simplify_eq/=.
Qed.
End Lemmas.

(** ** Properties *)

Section Properties.
Context `{EngineApi}.

(** C2 Nothing reaches a container that may not be acted on. Whatever the
    Engine answers, a lifecycle operation either is refused with an error,
    having made no call but its own inspect, or it makes exactly one changing
    call: on the container that inspect has just resolved the reference to,
    by full ID, which is not the agent's container and is not on the
    operator's list, the agent knowing who it is if it runs in a container. *)
Theorem lifecycle_guarded (op : lifecycle_op) (c : Client) (ref : string) (w : docker) :
  let '(r, w') := lifecycle_method op c ref w in
  ((∃ e, r = Err e) ∧ calls w' `prefix_of` calls w ++ [CallContainerInspect ref]) ∨
  (∃ d w1, InspectContainer c ref w = (Ok d, w1) ∧
     calls w' = calls w ++ [CallContainerInspect ref; op_call op (cd_ID d)] ∧
     engine w' = (op_api op (cd_ID d) (engine w1)).2 ∧
     (SelfKnown c = true → cd_ID d ≠ SelfID c) ∧
     matches (protected c) (cd_ID d) [cd_Name d] = false ∧
     (IsContainerized c = true → SelfKnown c = true)).
Proof.
  rewrite lifecycle_unfold. unfold mbind, comp_bind. rewrite resolveTarget_run.
  destruct (ValidateRef ref) as [[]|e] eqn:Hv; [|left; split; [eauto|by eexists]].
  destruct (self_unknown c) eqn:Hu; [left; split; [eauto|by eexists]|].
  destruct (InspectContainer_run c ref w Hv) as (r & e & _ & Hi).
  destruct (InspectContainer c ref w) as [[d|x] w1] eqn:Hd; injection Hi as Hx ->;
    [|left; split; [eauto|reflexivity]].
  destruct (refusal c d) as [s|] eqn:Href.
  { left. split; [eauto|reflexivity]. }
  destruct (api_run (op_call op (cd_ID d)) (op_api op (cd_ID d))
    (MkDocker e (calls w ++ [CallContainerInspect ref]) (dlog w))) as (r2 & e2 & Hr2 & Ha2).
  rewrite (classified_run _ _ _ _ _ Ha2). cbn [engine calls dlog] in *. right.
  exists d, (MkDocker e (calls w ++ [CallContainerInspect ref]) (dlog w)).
  unfold refusal in Href. unfold SelfKnown, SelfID, IsContainerized, self_unknown in *.
  repeat split; try done.
  - by rewrite <- app_assoc.
  - cbn. by rewrite Hr2.
  - intros Hk Heq. rewrite Hk, bool_decide_eq_true_2 in Href; done.
  - destruct (_ && negb _); [done|]. by destruct (matches _ _ _).
  - intros Hc. rewrite Hc in Hu. cbn in Hu. by rewrite Hu.
Qed.

(** The [protected] flag a device is shown is the truth: for an agent that
    knows itself (or has nothing to know), a container that inspect shows as
    protected is refused by every lifecycle operation with one of the two
    protection errors, the fixed rule about the agent's own container first,
    and one shown as unprotected is resolved to its ID. *)
Theorem protected_flag_agrees (c : Client) (ref : string) (w w1 : docker) (d : ContainerDetail)
    (Hknown : self_unknown c = false) (Hinspect : InspectContainer c ref w = (Ok d, w1)) :
  resolveTarget c ref w =
    (if cd_Protected d
     then Err (Sentinel (if bool_decide (cd_ID d = SelfID c) && SelfKnown c
                         then ErrSelfProtected else ErrProtectedContainer))
     else Ok (cd_ID d), w1).
Proof.
  rewrite resolveTarget_run. destruct (ValidateRef ref) as [[]|e] eqn:Hv.
  - rewrite Hknown, Hinspect. destruct (InspectContainer_run c ref w Hv) as (r & e & _ & Hi).
    rewrite Hinspect in Hi. destruct r as [res|x]; [|done]. injection Hi as -> _.
    rewrite refusal_protected. unfold refusal, SelfID, SelfKnown.
    destruct (_ && negb _); [done|]. by destruct (matches _ _ _).
  - unfold InspectContainer, of_result in Hinspect. rewrite Hv in Hinspect. done.
Qed.

(** An agent in a container that could not find out which one fails closed:
    every lifecycle operation on every reference is refused before any call
    to the Engine, and the world is left as it was. *)
Theorem unknown_self_fails_closed (op : lifecycle_op) (c : Client) (ref : string) (w : docker)
    (Hc : IsContainerized c = true) (Hk : SelfKnown c = false) :
  ∃ e, lifecycle_method op c ref w = (Err e, w) ∧
    (errors_is e ErrSelfUnknown = true ∨ errors_is e ErrInvalidRef = true).
Proof.
  rewrite lifecycle_unfold. unfold mbind, comp_bind. rewrite resolveTarget_run.
  destruct (ValidateRef ref) as [[]|e] eqn:Hv.
  - unfold self_unknown. unfold IsContainerized, SelfKnown in *. apply negb_false_iff in Hk.
    rewrite Hc, Hk. eexists. split; [reflexivity|]. by left.
  - eexists. split; [reflexivity|]. right. apply ValidateRef_error in Hv. done.
Qed.

(** Every list is capped and says so: on success the items are the
    projections of the first 500 objects the Engine listed, in its order, and
    [Truncated] holds exactly when the Engine listed more. A failure of the
    Engine is the classified error and no items. *)
Theorem lists_capped (c : Client) (all : bool) (w : docker) :
  (ListContainers c all w).1 =
    match (api_ContainerList all (engine w)).1 with
    | Ok raw => Ok (MkListResult
        (List.firstn 500 (map (λ s, toContainerSummary s (SelfID c) (protected c)) raw))
        (bool_decide (500 < List.length raw)%nat))
    | Err e => Err (classify "list containers" e)
    end ∧
  (ListImages w).1 =
    match (api_ImageList (engine w)).1 with
    | Ok raw => Ok (MkListResult (List.firstn 500 (map toImageSummary raw))
                      (bool_decide (500 < List.length raw)%nat))
    | Err e => Err (classify "list images" e)
    end ∧
  (ListNetworks w).1 =
    match (api_NetworkList (engine w)).1 with
    | Ok raw => Ok (MkListResult (List.firstn 500 (map toNetworkSummary raw))
                      (bool_decide (500 < List.length raw)%nat))
    | Err e => Err (classify "list networks" e)
    end ∧
  (ListVolumes w).1 =
    match (api_VolumeList (engine w)).1 with
    | Ok (raw, _) => Ok (MkListResult (List.firstn 500 (map toVolumeSummary raw))
                           (bool_decide (500 < List.length raw)%nat))
    | Err e => Err (classify "list volumes" e)
    end.
Proof.
  unfold ListContainers, ListImages, ListNetworks, ListVolumes, capped, classified, api, mbind, comp_bind.
  split; [|split; [|split]].
  - destruct (api_ContainerList all (engine w)) as [[raw|e] w1]; [|done]. cbn.
    by rewrite truncate_firstn, length_map.
  - destruct (api_ImageList (engine w)) as [[raw|e] w1]; [|done]. cbn.
    by rewrite truncate_firstn, length_map.
  - destruct (api_NetworkList (engine w)) as [[raw|e] w1]; [|done]. cbn.
    by rewrite truncate_firstn, length_map.
  - destruct (api_VolumeList (engine w)) as [[[raw warn]|e] w1]; [|done]. cbn.
    rewrite truncate_firstn, length_map. by destruct warn.
Qed.

(** A historical fetch returns the first 2000 lines of what the body
    demultiplexes to, whatever the caller asked of the Engine, and says
    [Truncated] exactly when there were more: capping while reading gives the
    same answer as reading everything and cutting afterwards. *)
Theorem ContainerLogs_capped (keys : gmap string lineState → list string) (ref : string)
    (opts : LogOptions) (w : docker) (tty : bool) (w1 w2 : docker) (o : ContainerLogsOptions)
    (body : log_body)
    (Htty : containerUsesTTY ref w = (Ok tty, w1))
    (Hopts : engineOptions opts false = Ok o)
    (Hbody : api (CallContainerLogs ref o) (api_ContainerLogs ref o) w1 = (Ok body, w2)) :
  ContainerLogs keys ref opts w =
    (match demux keys tty body collect [] with
     | (Ok _, lines) => Ok (MkListResult (List.firstn 2000 lines)
                              (bool_decide (2000 < List.length lines)%nat))
     | (Err e, _) => Err (wrap "container logs" e)
     end, w2).
Proof.
  unfold ContainerLogs. rewrite (comp_bind_ok _ _ _ _ _ Htty). unfold of_result, mbind, comp_bind.
  rewrite Hopts, (classified_run _ _ _ _ _ Hbody).
  change ([], false) with (capped_view []). rewrite demux_capped.
  destruct (demux keys tty body collect []) as [[[]|e] lines]; done.
Qed.

(** The agent's own identity is what the Engine confirmed: candidates are
    inspected in order until the Engine knows one, no later one is tried, the
    ID kept is the full one from the Engine's answer rather than the
    candidate, and if none is known the agent starts anyway, without an ID,
    which is what makes lifecycle operations fail closed. *)
Theorem confirmSelf_first (detected : Result) (w : docker) :
  ∃ s w', confirmSelf detected w = (Ok s, w') ∧
    containerized s = Containerized detected ∧
    ∃ tried, tried `prefix_of` Candidates detected ∧
      calls w' = calls w ++ map CallContainerInspect tried ∧
      (self_id s = "" ∧ tried = Candidates detected ∨
       ∃ pre cand e res, tried = pre ++ [cand] ∧
         (api_ContainerInspect cand e).1 = Ok res ∧ self_id s = ir_ID res).
Proof.
  unfold confirmSelf. revert w. induction (Candidates detected) as [|cand rest IH]; intros w.
  - exists (MkSelfInfo (Containerized detected) ""). destruct (Containerized detected) eqn:Hc;
      (eexists; split; [cbn; rewrite Hc; reflexivity|]); (split; [done|]); exists [];
      (split; [done|]); cbn; rewrite app_nil_r; auto.
  - cbn [confirm_loop]. unfold api.
    destruct (api_ContainerInspect cand (engine w)) as [[res|err] e1] eqn:Hi.
    + eexists _, _. split; [reflexivity|]. cbn. split; [done|]. exists [cand].
      split; [by exists rest|]. split; [done|]. right. exists [], cand, (engine w), res.
      by rewrite Hi.
    + match goal with |- context [(?m ≫= λ _, _) ?w1] =>
        assert (∃ l w2, calls w2 = calls w1 ∧ (m w1 = (Ok l, w2))) as (l1 & w2 & Hc2 & Hm)
          by (destruct (negb (IsNotFound err)); eexists _, _; (split; [|reflexivity]); reflexivity) end.
      rewrite (comp_bind_ok _ _ _ _ _ Hm).
      match goal with |- context [(?m ≫= λ _, _) w2] =>
        assert (∃ l w3, calls w3 = calls w2 ∧ (m w2 = (Ok l, w3))) as (l2 & w3 & Hc3 & Hm2)
          by (destruct (_ && _); eexists _, _; (split; [|reflexivity]); reflexivity) end.
      rewrite (comp_bind_ok _ _ _ _ _ Hm2).
      destruct (IH w3) as (s & w' & Hr & Hs & tried & Hp & Hcalls & Hres).
      exists s, w'. split; [done|]. split; [done|]. exists (cand :: tried).
      split; [by apply prefix_cons|]. split.
      * rewrite Hcalls, Hc3, Hc2. cbn. by rewrite <- app_assoc.
      * destruct Hres as [[? ->]|(pre & c' & e & res & -> & ? & ?)]; [by left|].
        right. by exists (cand :: pre), c', e, res.
Qed.

(** What the feed does with the errors and the ends it can meet. *)
Definition feed_result (p : feed_pick) : result unit :=
  match p with
  | PickDone => Ok tt
  | PickErr e done =>
      if (done : bool) then Ok tt
      else if errors_is e IoEOF then Err (Sentinel ErrEventFeedClosed)
      else Err (classify "stream container events" e)
  | _ => Err (Sentinel ErrEventFeedClosed)
  end.

(** The feed that is forwarded is the Engine's feed, filtered: readiness
    is announced once, before any event; then every message of the allowlist
    is emitted once, in order, in its projected form, and nothing else is;
    and how the feed ended decides the result (a cancelled subscription is a
    clean stop, an ended feed is [ErrEventFeedClosed], anything else the
    classified error). *)
Theorem StreamContainerEvents_feed (msgs : list Message) (last : feed_pick)
    (Hlast : ∀ m, last ≠ PickMessage m) :
  StreamContainerEvents (λ l, l ++ [None]) (λ ev l, (Ok tt, l ++ [Some ev]))
    (map PickMessage msgs ++ [last]) []
    = (Some (feed_result last), None :: map Some (omap toContainerEvent msgs)).
Proof.
  unfold StreamContainerEvents. cbn [app].
  assert (∀ out, stream_events (λ ev l, (Ok tt, l ++ [Some ev])) (map PickMessage msgs ++ [last]) out
    = (Some (feed_result last), out ++ map Some (omap toContainerEvent msgs))) as Hs; [|by rewrite Hs].
  induction msgs as [|m msgs IH]; intros out.
  - cbn. rewrite app_nil_r. destruct last as [|m| |e [|]|]; try done; [by destruct (Hlast m)|].
    cbn. by destruct (errors_is e IoEOF).
  - cbn. destruct (toContainerEvent m) as [ev|]; [|apply IH]. rewrite IH.
    f_equal. cbn. by rewrite <- app_assoc.
Qed.
End Properties.

(** ** Witnesses: an agent "me" on a host that also runs "web" and "db" *)

Definition id_me : string := "aaaaaaaaaaaaaaaaaaaaaaaaaaaaaaaaaaaaaaaaaaaaaaaaaaaaaaaaaaaaaaaa".
Definition id_web : string := "bbbbbbbbbbbbbbbbbbbbbbbbbbbbbbbbbbbbbbbbbbbbbbbbbbbbbbbbbbbbbbbb".
Definition id_db : string := "cccccccccccccccccccccccccccccccccccccccccccccccccccccccccccccccc".
Definition toy_host : list toy_container :=
  [MkToy id_me "/me" true; MkToy id_web "/web" true; MkToy id_db "/db" true].
Definition toy_world : @docker ToyEngine := MkDocker (H := ToyEngine) toy_host [] [].
Definition toy_client : Client := MkClient (MkSelfInfo true id_me) (newProtectedSet ["db"]).

Lemma protected_flag_agrees_witness :
  ∃ d w1, InspectContainer (H := ToyEngine) toy_client "db" toy_world = (Ok d, w1) ∧ cd_Protected d = true ∧
    resolveTarget (H := ToyEngine) toy_client "db" toy_world = (Err (Sentinel ErrProtectedContainer), w1).
Proof.
  eassert (InspectContainer (H := ToyEngine) toy_client "db" toy_world = (Ok _, _)) as Hi
    by (vm_compute; reflexivity).
  eexists _, _. split; [exact Hi|]. split; [reflexivity|].
  exact (protected_flag_agrees (H := ToyEngine) toy_client "db" toy_world _ _ eq_refl Hi).
Defined.

Lemma unknown_self_fails_closed_witness :
  ∃ e, lifecycle_method (H := ToyEngine) LStop (MkClient (MkSelfInfo true "") zero_protectedSet) "web" toy_world
    = (Err e, toy_world) ∧ (errors_is e ErrSelfUnknown = true ∨ errors_is e ErrInvalidRef = true).
Proof. apply (unknown_self_fails_closed (H := ToyEngine) LStop); reflexivity. Defined.

Lemma ContainerLogs_capped_witness :
  (ContainerLogs (H := ToyEngine) keys_of "web" (MkLogOptions 100 "") toy_world).1
    = Ok (MkListResult [MkLogLine "" "stdout" "up" false] false).
Proof.
  erewrite (ContainerLogs_capped (H := ToyEngine) keys_of "web" (MkLogOptions 100 "") toy_world);
    [|vm_compute; reflexivity..].
  vm_compute. reflexivity.
Defined.

Lemma StreamContainerEvents_feed_witness :
  StreamContainerEvents (H := ToyEngine) (λ l, l ++ [None]) (λ ev l, (Ok tt, l ++ [Some ev]))
    (map PickMessage [MkMessage "container" "die" "x" ∅ 0 0; MkMessage "container" "exec_start" "x" ∅ 0 0]
       ++ [PickErr (Sentinel IoEOF) false]) []
    = (Some (Err (Sentinel ErrEventFeedClosed)), [None; Some (MkContainerEvent "x" "" "die" "" "")]).
Proof.
  rewrite (StreamContainerEvents_feed (H := ToyEngine)
    [MkMessage "container" "die" "x" ∅ 0 0; MkMessage "container" "exec_start" "x" ∅ 0 0]
    (PickErr (Sentinel IoEOF) false)); [|done].
  vm_compute. reflexivity.
Defined.
