(* ===== verification/Store.v ===== *)
(** * Store: devices, certificates, pairing codes and the audit trail
    (internal/state: devices.go, pairing.go, audit.go, pruner.go, and PruneAudit
    of store.go)

    The database is its tables; a method is the SQL it executes. Any statement
    may fail (a full disk, a lock that is not released in time): [faults] says,
    statement by statement, which do, and a failed statement changes nothing.
    The clock and the random identifiers are arguments. A zero [time.Time] is
    [None]; a time in a table is Unix seconds, as the source stores it. *)
From S2P Require Import Prelude.
From stdpp Require Import sorting.
Open Scope Z_scope.

(** ** The tables *)

Record device_row : Set := MkDeviceRow {
  dr_name : string; dr_paired_at : Z; dr_last_seen_at : option Z; dr_revoked_at : option Z }.

Record cert_row : Set := MkCertRow {
  cr_device_id : string; cr_not_before : Z; cr_not_after : Z; cr_issued_at : Z;
  cr_superseded_at : option Z }.

Record code_row : Set := MkCodeRow {
  co_device_name : string; co_created_at : Z; co_expires_at : Z; co_used_at : option Z;
  co_used_by : option string }.

Record audit_row : Set := MkAuditRow {
  ar_id : Z; ar_occurred_at : Z; ar_device_id : option string; ar_operation : string;
  ar_target : option string; ar_outcome : string; ar_detail : option string }.

(** [audit] is in insertion order; [audit_seq] is the AUTOINCREMENT counter. *)
Record db : Type := MkDb {
  devices : gmap string device_row;
  device_certs : gmap string cert_row;
  pairing_codes : gmap string code_row;
  audit : list audit_row;
  audit_seq : Z }.

Definition empty_db : db := MkDb ∅ ∅ ∅ [] 0.

Definition set_devices (d : db) (m : gmap string device_row) : db :=
  MkDb m (device_certs d) (pairing_codes d) (audit d) (audit_seq d).
Definition set_certs (d : db) (m : gmap string cert_row) : db :=
  MkDb (devices d) m (pairing_codes d) (audit d) (audit_seq d).
Definition set_codes (d : db) (m : gmap string code_row) : db :=
  MkDb (devices d) (device_certs d) m (audit d) (audit_seq d).
Definition set_audit (d : db) (l : list audit_row) : db :=
  MkDb (devices d) (device_certs d) (pairing_codes d) l (audit_seq d).

(** ** Statements *)

Record store : Type := MkStore { sdb : db; faults : list (option error) }.

(** One SQL statement. *)
Definition sql {A} (f : db → result A * db) : Comp store A := λ s,
  match faults s with
  | Some e :: fs => (Err e, MkStore (sdb s) fs)
  | None :: fs => let '(r, d) := f (sdb s) in (r, MkStore d fs)
  | [] => let '(r, d) := f (sdb s) in (r, MkStore d [])
  end.

Definition query {A} (f : db → result A) : Comp store A := sql (λ d, (f d, d)).
Definition exec {A} (f : db → A * db) : Comp store A := sql (λ d, let '(a, d') := f d in (Ok a, d')).

(** [BeginTx], the statements, [Commit], with the deferred [Rollback]. *)
Definition transaction {A} (begin_ctx commit_ctx : string) (m : Comp store A) : Comp store A := λ s,
  match (wrapping begin_ctx (query (λ _, Ok tt)) ≫= λ _,
         a ← m;
         wrapping commit_ctx (query (λ _, Ok tt)) ≫= λ _,
         mret a) s with
  | (Err e, s') => (Err e, MkStore (sdb s) (faults s'))
  | r => r
  end.

(** [if errors.Is(err, sql.ErrNoRows) { return e }; if err != nil { wrap }] *)
Definition no_rows {A} (e : error) (ctx : string) (m : Comp store A) : Comp store A := λ s,
  match m s with
  | (Err x, s') => (Err (if errors_is x SqlErrNoRows then e else wrap ctx x), s')
  | r => r
  end.

Definition errUnique : error := Leaf "UNIQUE constraint failed".
Definition errForeignKey : error := Leaf "FOREIGN KEY constraint failed".

(** ** devices.go *)

Definition lastSeenResolution : Z := 60 * Second.

(** [type Device struct] *)
Record Device : Set := MkDevice {
  dev_ID : string; dev_Name : string; dev_PairedAt : Z; dev_LastSeenAt : option Z;
  dev_RevokedAt : option Z }.

(** [func (d Device) IsRevoked() bool] *)
Definition IsRevoked (d : Device) : bool := match dev_RevokedAt d with Some _ => true | None => false end.

(** [func scanDevice]: a row as a [Device], times in nanoseconds. *)
Definition scanDevice (id : string) (r : device_row) : Device :=
  MkDevice id (dr_name r) (dr_paired_at r * Second) (option_map (λ t, t * Second) (dr_last_seen_at r))
    (option_map (λ t, t * Second) (dr_revoked_at r)).

(** [func (s *Store) CreateDevice]; [id] is the hex of the random bytes. *)
Definition CreateDevice (id name : string) (now : Z) : Comp store Device :=
  wrapping ("create device " +:+ id) (sql (λ d,
    match devices d !! id with
    | Some _ => (Err errUnique, d)
    | None => (Ok tt, set_devices d (<[id := MkDeviceRow name (Unix now) None None]> (devices d)))
    end)) ≫= λ _,
  mret (MkDevice id name now None None).

(** [func (s *Store) RenameDevice] *)
Definition RenameDevice (id name : string) : Comp store unit :=
  n ← wrapping ("rename device " +:+ id) (exec (λ d,
    match devices d !! id with
    | Some r => (1, set_devices d (<[id := MkDeviceRow name (dr_paired_at r) (dr_last_seen_at r)
                                            (dr_revoked_at r)]> (devices d)))
    | None => (0, d)
    end));
  if n =? 0 then throw (Sentinel ErrDeviceNotFound) else mret tt.

(** [func (s *Store) DeleteDevice], with the cascade onto device_certs. *)
Definition DeleteDevice (id : string) : Comp store unit :=
  wrapping ("delete device " +:+ id) (exec (λ d,
    (tt, set_certs (set_devices d (delete id (devices d)))
           (filter (λ sc, cr_device_id sc.2 ≠ id) (device_certs d))))).

(** [func (s *Store) RecordDeviceCert] *)
Definition RecordDeviceCert (deviceID serial : string) (notBefore notAfter now : Z) : Comp store unit :=
  wrapping ("record certificate " +:+ serial +:+ " for device " +:+ deviceID) (sql (λ d,
    match device_certs d !! serial with
    | Some _ => (Err errUnique, d)
    | None =>
        match devices d !! deviceID with
        | None => (Err errForeignKey, d)
        | Some _ =>
            (Ok tt, set_certs d (<[serial := MkCertRow deviceID (Unix notBefore) (Unix notAfter)
                                              (Unix now) None]> (device_certs d)))
        end
    end)).

(** [func (s *Store) SupersedePriorCerts] *)
Definition SupersedePriorCerts (deviceID keepSerial : string) (now : Z) : Comp store unit :=
  wrapping ("supersede prior certificates for device " +:+ deviceID) (exec (λ d,
    (tt, set_certs d (map_imap (λ serial c,
           Some (if decide (cr_device_id c = deviceID ∧ serial ≠ keepSerial ∧ cr_superseded_at c = None)
                 then MkCertRow (cr_device_id c) (cr_not_before c) (cr_not_after c) (cr_issued_at c)
                        (Some (Unix now))
                 else c)) (device_certs d))))).

(** [func (s *Store) DeviceByCertSerial]: the join, then the scan. *)
Definition DeviceByCertSerial (serial : string) : Comp store Device :=
  no_rows (Sentinel ErrDeviceNotFound) ("look up device by certificate serial " +:+ serial) (query (λ d,
    match device_certs d !! serial with
    | None => Err (Sentinel SqlErrNoRows)
    | Some c =>
        match devices d !! cr_device_id c with
        | None => Err (Sentinel SqlErrNoRows)
        | Some r => Ok (scanDevice (cr_device_id c) r)
        end
    end)).

(** [ORDER BY paired_at DESC]; SQL leaves the order of ties open. *)
Definition paired_later (a b : Device) : Prop := dev_PairedAt b <= dev_PairedAt a.
#[export] Instance paired_later_dec a b : Decision (paired_later a b).
Proof. unfold paired_later. apply _. Defined.

(** [func (s *Store) ListDevices] *)
Definition ListDevices : Comp store (list Device) :=
  wrapping "list devices" (query (λ d,
    Ok (merge_sort paired_later (map (λ '(id, r), scanDevice id r) (map_to_list (devices d)))))).

(** [func (s *Store) RevokeDevice] *)
Definition RevokeDevice (id : string) (now : Z) : Comp store unit :=
  ex ← wrapping ("check device " +:+ id +:+ " exists") (query (λ d,
    Ok (match devices d !! id with Some _ => true | None => false end)));
  if negb ex then throw (Sentinel ErrDeviceNotFound)
  else
    wrapping ("revoke device " +:+ id) (exec (λ d,
      (tt, set_devices d (alter (λ r,
             match dr_revoked_at r with
             | Some _ => r
             | None => MkDeviceRow (dr_name r) (dr_paired_at r) (dr_last_seen_at r) (Some (Unix now))
             end) id (devices d))))).

(** [func (s *Store) IsDeviceRevoked] *)
Definition IsDeviceRevoked (id : string) : Comp store bool :=
  no_rows (Sentinel ErrDeviceNotFound) ("check device " +:+ id +:+ " revocation status") (query (λ d,
    match devices d !! id with
    | None => Err (Sentinel SqlErrNoRows)
    | Some r => Ok (match dr_revoked_at r with Some _ => true | None => false end)
    end)).

(** [func (s *Store) TouchDevice] *)
Definition TouchDevice (id : string) (now : Z) : Comp store unit :=
  let threshold := Unix (now - lastSeenResolution) in
  wrapping ("touch device " +:+ id) (exec (λ d,
    (tt, set_devices d (alter (λ r,
           if match dr_last_seen_at r with None => true | Some t => t <? threshold end
           then MkDeviceRow (dr_name r) (dr_paired_at r) (Some (Unix now)) (dr_revoked_at r)
           else r) id (devices d))))).

(** ** pairing.go *)

Definition DefaultPairingCodeTTL : Z := 10 * Minute.

Section Pairing.
(** [hex.EncodeToString(sha256.Sum256([]byte(code)))] *)
Context (hash : string → string).

(** [func (s *Store) MintPairingCode]; [code] is [rand.Text()]. *)
Definition MintPairingCode (code deviceName : string) (ttl now : Z) : Comp store (string * Z) :=
  if ttl <=? 0 then throw (Leaf "mint pairing code: ttl must be positive")
  else
    wrapping "mint pairing code" (sql (λ d,
      match pairing_codes d !! hash code with
      | Some _ => (Err errUnique, d)
      | None =>
          (Ok tt, set_codes d (<[hash code := MkCodeRow deviceName (Unix now) (Unix (now + ttl)) None None]>
                                 (pairing_codes d)))
      end)) ≫= λ _,
    mret (code, now + ttl).

(** [func (s *Store) RedeemPairingCode] *)
Definition RedeemPairingCode (code deviceID : string) (now : Z) : Comp store string :=
  no_rows (Sentinel ErrPairingCodeInvalid) "redeem pairing code" (sql (λ d,
    match pairing_codes d !! hash code with
    | None => (Err (Sentinel SqlErrNoRows), d)
    | Some r =>
        if bool_decide (co_used_at r = None) && (Unix now <? co_expires_at r)
        then (Ok (co_device_name r),
              set_codes d (<[hash code := MkCodeRow (co_device_name r) (co_created_at r)
                               (co_expires_at r) (Some (Unix now)) (Some deviceID)]> (pairing_codes d)))
        else (Err (Sentinel SqlErrNoRows), d)
    end)).
End Pairing.

(** [func (s *Store) PrunePairingCodes] *)
Definition PrunePairingCodes (now : Z) : Comp store Z :=
  wrapping "prune pairing codes" (exec (λ d,
    let kept := filter (λ kc, Unix now <= co_expires_at kc.2) (pairing_codes d) in
    (Z.of_nat (size (pairing_codes d)) - Z.of_nat (size kept), set_codes d kept))).

(** ** audit.go *)

(** [type AuditEntry struct] *)
Record AuditEntry : Set := MkAuditEntry {
  ae_ID : Z; ae_OccurredAt : option Z; ae_DeviceID : string; ae_Operation : string;
  ae_Target : string; ae_Outcome : string; ae_Detail : string }.

Definition OutcomeSuccess : string := "success".
Definition OutcomeDeniedPolicy : string := "denied_policy".
Definition OutcomeDeniedSelf : string := "denied_self".
Definition OutcomeDeniedProtected : string := "denied_protected".
Definition OutcomeNotFound : string := "not_found".
Definition OutcomeInvalid : string := "invalid".
Definition OutcomeConflict : string := "conflict".
Definition OutcomeUnavailable : string := "unavailable".
Definition OutcomeEngineError : string := "engine_error".
Definition OutcomeInternalError : string := "internal_error".

(** [func (s *Store) AppendAudit] *)
Definition AppendAudit (e : AuditEntry) (now : Z) : Comp store unit :=
  let occurredAt := default now (ae_OccurredAt e) in
  wrapping ("append audit entry for operation " +:+ ae_Operation e) (exec (λ d,
    (tt, MkDb (devices d) (device_certs d) (pairing_codes d)
           (audit d ++ [MkAuditRow (audit_seq d + 1) (Unix occurredAt) (Some (ae_DeviceID e))
                          (ae_Operation e) (Some (ae_Target e)) (ae_Outcome e) (Some (ae_Detail e))])
           (audit_seq d + 1)))).

(** [func scanAuditEntry] *)
Definition scanAuditEntry (r : audit_row) : AuditEntry :=
  MkAuditEntry (ar_id r) (Some (ar_occurred_at r * Second)) (default "" (ar_device_id r))
    (ar_operation r) (default "" (ar_target r)) (ar_outcome r) (default "" (ar_detail r)).

Definition newer_id (a b : audit_row) : Prop := ar_id b <= ar_id a.
#[export] Instance newer_id_dec a b : Decision (newer_id a b).
Proof. unfold newer_id. apply _. Defined.

(** [func (s *Store) ListAudit]; a negative LIMIT is no limit. *)
Definition ListAudit (limit : Z) : Comp store (list AuditEntry) :=
  wrapping "list audit entries" (query (λ d,
    let rows := merge_sort newer_id (audit d) in
    Ok (map scanAuditEntry (if limit <? 0 then rows else List.firstn (Z.to_nat limit) rows)))).

(** ** Retention (store.go, pruner.go) *)

(** [COALESCE(device_id, '')] *)
Definition bucket (r : audit_row) : string := default "" (ar_device_id r).

(** [COUNT(DISTINCT COALESCE(device_id, ''))] *)
Definition bucket_count (l : list audit_row) : Z :=
  Z.of_nat (size (list_to_set (map bucket l) : gset string)).

(** How many rows satisfying [p] have a greater id than [r]: the row number of
    [r], less one, in a window ordered by id descending. *)
Definition newer_than (p : audit_row → bool) (l : list audit_row) (r : audit_row) : Z :=
  Z.of_nat (List.length (List.filter (λ r', p r' && (ar_id r <? ar_id r')) l)).

Definition row_number (l : list audit_row) (r : audit_row) : Z :=
  1 + newer_than (λ r', bool_decide (bucket r' = bucket r)) l r.

(** The three DELETEs: what is kept and how many rows went. *)
Definition delete_by_age (cutoff : Z) (l : list audit_row) : list audit_row * Z :=
  delete_where (λ r, ar_occurred_at r <? cutoff) l.
Definition delete_by_share (perDevice : Z) (l : list audit_row) : list audit_row * Z :=
  delete_where (λ r, perDevice <? row_number l r) l.
Definition delete_by_count (maxRows : Z) (l : list audit_row) : list audit_row * Z :=
  delete_where (λ r, negb (maxRows <? 0) && (maxRows <=? newer_than (λ _, true) l r)) l.

Definition delete_audit (f : list audit_row → list audit_row * Z) : db → Z * db := λ d,
  ((f (audit d)).2, set_audit d (f (audit d)).1).

(** [maxRows / buckets], at least one; Go's division truncates. *)
Definition perDeviceShare (maxRows buckets : Z) : Z :=
  let perDevice := Z.quot maxRows buckets in if perDevice <? 1 then 1 else perDevice.

(** [func pruneAuditByDeviceShare] *)
Definition pruneAuditByDeviceShare (maxRows : Z) : Comp store Z :=
  buckets ← wrapping "count audit device buckets" (query (λ d, Ok (bucket_count (audit d))));
  if buckets =? 0 then mret 0
  else
    wrapping "prune audit by device share"
      (exec (delete_audit (delete_by_share (perDeviceShare maxRows buckets)))).

(** [func (s *Store) PruneAudit] *)
Definition PruneAudit (maxAge maxRows now : Z) : Comp store Z :=
  transaction "begin audit prune" "commit audit prune" (
    let cutoff := Unix (now - maxAge) in
    ageRows ← wrapping "prune audit by age" (exec (delete_audit (delete_by_age cutoff)));
    byShare ← pruneAuditByDeviceShare maxRows;
    countRows ← wrapping "prune audit by row count" (exec (delete_audit (delete_by_count maxRows)));
    mret (ageRows + byShare + countRows)).

(** [func (p *Pruner) pruneAudit], [prunePairingCodes], [pruneOnce]: the log
    lines they write. *)
Definition prune_log (r : result Z) (failed pruned : string) : list log_line :=
  match r with
  | Err _ => [LogLine_ LevelError failed []]
  | Ok n => if 0 <? n then [LogLine_ LevelInfo pruned [("removed", pretty n)]] else []
  end.

Definition pruneAudit (maxAge maxRows now : Z) : Comp store (list log_line) :=
  r ← try (PruneAudit maxAge maxRows now);
  mret (prune_log r "audit prune failed" "audit rows pruned").

Definition prunePairingCodes (now : Z) : Comp store (list log_line) :=
  r ← try (PrunePairingCodes now);
  mret (prune_log r "pairing code prune failed" "pairing codes pruned").

Definition pruneOnce (maxAge maxRows now : Z) : Comp store (list log_line) :=
  a ← pruneAudit maxAge maxRows now;
  b ← prunePairingCodes now;
  mret (a ++ b).

(** [func (p *Pruner) Run]: the first pass at [now], one more at each of the
    ticks that come before the context is done. [entered] tells whether it was
    done on entry; what [Run] returns is [ctx.Err()] either way. *)
Fixpoint prune_ticks (maxAge maxRows : Z) (ticks : list Z) : Comp store (list log_line) :=
  match ticks with
  | [] => mret []
  | now :: ticks =>
      a ← pruneOnce maxAge maxRows now;
      b ← prune_ticks maxAge maxRows ticks;
      mret (a ++ b)
  end.
Definition Pruner_Run (maxAge maxRows : Z) (entered : bool) (ctxErr : error) (now : Z) (ticks : list Z)
    : Comp store (list log_line * error) :=
  if entered then mret ([], ctxErr)
  else
    lines ← prune_ticks maxAge maxRows (now :: ticks);
    mret (lines, ctxErr).

(** ** Reasoning about statements

    [steps R m]: whatever fails, [m] takes the database along the relation [R].
    An invariant is the relation [λ d d', I d → I d']. *)

Definition steps {A} (R : db → db → Prop) (m : Comp store A) : Prop :=
  ∀ s, R (sdb s) (sdb (m s).2).

Section Steps.
Context (R : db → db → Prop) `{!PreOrder R}.

Lemma steps_ret {A} (a : A) : steps R (mret a).
Proof. intros s. reflexivity. Qed.

Lemma steps_throw {A} e : steps R (throw (A := A) e).
Proof. intros s. reflexivity. Qed.

Lemma steps_bind {A B} (m : Comp store A) (f : A → Comp store B) :
  steps R m → (∀ a, steps R (f a)) → steps R (m ≫= f).
Proof.
  intros Hm Hf s. unfold mbind, comp_bind. specialize (Hm s).
  destruct (m s) as [[a|e] s']; [|done]. cbn in Hm. etrans; [exact Hm|apply Hf].
Qed.

Lemma steps_wrapping {A} ctx (m : Comp store A) : steps R m → steps R (wrapping ctx m).
Proof. intros Hm s. specialize (Hm s). unfold wrapping. by destruct (m s) as [[a|e] s']. Qed.

Lemma steps_no_rows {A} e ctx (m : Comp store A) : steps R m → steps R (no_rows e ctx m).
Proof. intros Hm s. specialize (Hm s). unfold no_rows. by destruct (m s) as [[a|x] s']. Qed.

Lemma steps_try {A} (m : Comp store A) : steps R m → steps R (try m).
Proof. intros Hm s. specialize (Hm s). unfold try. by destruct (m s). Qed.

Lemma steps_sql {A} (f : db → result A * db) : (∀ d, R d (f d).2) → steps R (sql f).
Proof.
  intros Hf s. unfold sql. specialize (Hf (sdb s)).
  destruct (faults s) as [|[e|] fs]; cbn; [|reflexivity|]; by destruct (f (sdb s)).
Qed.

Lemma steps_query {A} (f : db → result A) : steps R (query f).
Proof. apply steps_sql. intros d. reflexivity. Qed.

Lemma steps_exec {A} (f : db → A * db) : (∀ d, R d (f d).2) → steps R (exec f).
Proof. intros Hf. apply steps_sql. intros d. specialize (Hf d). by destruct (f d). Qed.

Lemma steps_transaction {A} c1 c2 (m : Comp store A) : steps R m → steps R (transaction c1 c2 m).
Proof.
  intros Hm s. unfold transaction.
  pose proof (steps_bind (wrapping c1 (query (λ _, Ok tt)))
    (λ _, a ← m; wrapping c2 (query (λ _, Ok tt)) ≫= λ _, mret a)) as Hb.
  specialize (Hb (steps_wrapping _ _ (steps_query _)) (λ _, steps_bind _ _ Hm
    (λ a, steps_bind _ _ (steps_wrapping _ _ (steps_query _)) (λ _, steps_ret a))) s).
  match type of Hb with R _ (sdb (snd ?x)) => destruct x as [[a|e] s'] end;
    [done|cbn; reflexivity].
Qed.
End Steps.

(** The composition of [steps]; what is left is one goal per statement. *)
Ltac steps_tac :=
  repeat first
    [ apply steps_ret | apply steps_throw | apply steps_query
    | apply steps_bind; [..|intros ?] | apply steps_wrapping | apply steps_no_rows
    | apply steps_try | apply steps_transaction
    | apply steps_exec; [apply _|intros ?] | apply steps_sql; [apply _|intros ?] | apply _
    | progress case_match ].

(** The methods that write, as operations of one machine. *)
Inductive store_op : Set :=
| OpCreate (id name : string) (now : Z)
| OpRename (id name : string)
| OpDelete (id : string)
| OpRecord (id serial : string) (nb na now : Z)
| OpSupersede (id serial : string) (now : Z)
| OpRevoke (id : string) (now : Z)
| OpTouch (id : string) (now : Z)
| OpMint (code name : string) (ttl now : Z)
| OpRedeem (code id : string) (now : Z)
| OpPruneCodes (now : Z)
| OpAppend (e : AuditEntry) (now : Z)
| OpPruneAudit (maxAge maxRows now : Z).

Definition ignore {A} (m : Comp store A) : Comp store unit := try m ≫= λ _, mret tt.

Definition run_op (hash : string → string) (o : store_op) : Comp store unit :=
  match o with
  | OpCreate id name now => ignore (CreateDevice id name now)
  | OpRename id name => ignore (RenameDevice id name)
  | OpDelete id => ignore (DeleteDevice id)
  | OpRecord id serial nb na now => ignore (RecordDeviceCert id serial nb na now)
  | OpSupersede id serial now => ignore (SupersedePriorCerts id serial now)
  | OpRevoke id now => ignore (RevokeDevice id now)
  | OpTouch id now => ignore (TouchDevice id now)
  | OpMint code name ttl now => ignore (MintPairingCode hash code name ttl now)
  | OpRedeem code id now => ignore (RedeemPairingCode hash code id now)
  | OpPruneCodes now => ignore (PrunePairingCodes now)
  | OpAppend e now => ignore (AppendAudit e now)
  | OpPruneAudit maxAge maxRows now => ignore (PruneAudit maxAge maxRows now)
  end.

Definition run_ops (hash : string → string) (ops : list store_op) (s : store) : store :=
  foldl (λ s o, (run_op hash o s).2) s ops.

(** The pruner is two operations a pass, whatever fails. *)
Lemma Pruner_Run_ops hash maxAge maxRows ctxErr now ticks s :
  (Pruner_Run maxAge maxRows true ctxErr now ticks s).2 = s ∧
  (Pruner_Run maxAge maxRows false ctxErr now ticks s).2 =
    run_ops hash (List.concat (map (λ t, [OpPruneAudit maxAge maxRows t; OpPruneCodes t]) (now :: ticks))) s.
Proof.
  split; [done|]. unfold Pruner_Run, mbind, comp_bind.
  assert (∀ l s, is_ok (prune_ticks maxAge maxRows l s).1 = true ∧ (prune_ticks maxAge maxRows l s).2 =
    run_ops hash (List.concat (map (λ t, [OpPruneAudit maxAge maxRows t; OpPruneCodes t]) l)) s) as H.
  { clear. induction l as [|t l IH]; intros s; [done|].
    cbn [prune_ticks map List.concat app]. unfold run_ops. cbn [foldl run_op].
    unfold pruneOnce, pruneAudit, prunePairingCodes, ignore, try, mbind, comp_bind, mret, comp_ret.
    destruct (PruneAudit maxAge maxRows t s) as [r s1]. cbn [snd]. destruct (PrunePairingCodes t s1) as [r2 s2]. cbn [snd].
    destruct (IH s2) as [Ho Hs]. destruct (prune_ticks maxAge maxRows l s2) as [[x|?] s3]; [|done].
    cbn [fst snd] in *. split; [done|]. rewrite Hs. by destruct r, r2. }
  destruct (H (now :: ticks) s) as [Ho Hs]. destruct (prune_ticks _ _ _ s) as [[x|?] s3]; [|done]. exact Hs.
Qed.

(** A property of the database that no operation of a run can end. *)
Definition kept_by (hash : string → string) (I : db → Prop) (o : store_op) : Prop :=
  steps (λ d d', I d → I d') (run_op hash o).

#[export] Instance keeps_preorder (I : db → Prop) : PreOrder (λ d d', I d → I d').
Proof. split; [intros d; tauto|intros a b c; tauto]. Qed.

Lemma run_ops_keeps hash (I : db → Prop) ops s :
  Forall (kept_by hash I) ops → I (sdb s) → I (sdb (run_ops hash ops s)).
Proof.
  unfold run_ops. revert s. induction ops as [|o ops IH]; intros s Hops HI; [done|].
  apply Forall_cons in Hops as [Ho Hops]. cbn [foldl]. apply IH; [done|]. by apply Ho.
Qed.

(** The invariants. *)
Definition cert_owned (serial id : string) (d : db) : Prop :=
  ∃ c r, device_certs d !! serial = Some c ∧ cr_device_id c = id ∧ devices d !! id = Some r.
Definition revoked_at (id : string) (t : Z) (d : db) : Prop :=
  ∃ r, devices d !! id = Some r ∧ dr_revoked_at r = Some t.
Definition code_spent (h : string) (d : db) : Prop :=
  ∀ r, pairing_codes d !! h = Some r → co_used_at r ≠ None.
Definition referential (d : db) : Prop :=
  ∀ serial c, device_certs d !! serial = Some c → is_Some (devices d !! cr_device_id c).

Definition deletes (id : string) (o : store_op) : Prop := match o with OpDelete i => i = id | _ => False end.
Definition mints (hash : string → string) (h : string) (o : store_op) : Prop :=
  match o with OpMint c _ _ _ => hash c = h | _ => False end.

Lemma lookup_alter_Some {A} (f : A → A) k (m : gmap string A) i x :
  m !! i = Some x → alter f k m !! i = Some (if decide (k = i) then f x else x).
Proof.
  intros H. case_decide as Hd; [subst; by rewrite lookup_alter_eq, H|]. by rewrite lookup_alter_ne.
Qed.

(** An update in place of the row [id] keeps every row of the table. *)
Lemma insert_present {A} (m : gmap string A) k x y i :
  m !! k = Some x → is_Some (m !! i) → is_Some (<[k := y]> m !! i).
Proof. intros Hk [z Hi]. rewrite lookup_insert. case_decide; eauto. Qed.

Lemma is_Some_alter {A} (f : A → A) k (m : gmap string A) i :
  is_Some (m !! i) → is_Some (alter f k m !! i).
Proof. intros [x Hx]. rewrite (lookup_alter_Some _ _ _ _ _ Hx). eauto. Qed.

Ltac open_op o :=
  destruct o; unfold kept_by, run_op, ignore, CreateDevice, RenameDevice, DeleteDevice,
    RecordDeviceCert, SupersedePriorCerts, RevokeDevice, TouchDevice, MintPairingCode,
    RedeemPairingCode, PrunePairingCodes, AppendAudit, PruneAudit, pruneAuditByDeviceShare;
  steps_tac; cbn [fst snd]; try (intros ?; assumption).

Lemma keeps_referential hash o : kept_by hash referential o.
Proof.
  open_op o; unfold referential; cbn; intros Hd serial' c Hc.
  - rewrite lookup_insert. case_decide; eauto.
  - eapply insert_present; eauto.
  - apply map_lookup_filter_Some in Hc as [Hc Hne]. cbn in Hne.
    rewrite lookup_delete_ne by done. eauto.
  - apply lookup_insert_Some in Hc as [[<- <-]|[_ Hc]]; cbn; eauto.
  - rewrite map_lookup_imap in Hc. destruct (device_certs _ !! serial') as [c0|] eqn:Hc0; [|done].
    cbn in Hc. apply Hd in Hc0. case_decide; by simplify_eq.
  - apply is_Some_alter. eauto.
  - apply is_Some_alter. eauto.
Qed.

Lemma keeps_cert_owned hash serial id o : ¬ deletes id o → kept_by hash (cert_owned serial id) o.
Proof.
  intros Hnot. open_op o; unfold cert_owned; cbn; intros (c & r & Hc & Hid & Hr); cbn in Hnot.
  - exists c, r. rewrite lookup_insert_ne by congruence. done.
  - destruct (decide (id0 = id)) as [->|]; [eexists c, _|exists c, r].
    + split; [done|]. split; [done|]. apply lookup_insert_eq.
    + by rewrite lookup_insert_ne by done.
  - exists c, r. rewrite lookup_delete_ne by done. split; [|done].
    apply map_lookup_filter_Some. split; [done|]. cbn. congruence.
  - exists c, r. rewrite lookup_insert_ne by congruence. done.
  - eexists _, r. rewrite map_lookup_imap, Hc. cbn. split; [reflexivity|].
    split; [by case_decide|done].
  - eexists c, _. split; [done|]. split; [done|]. by apply lookup_alter_Some.
  - eexists c, _. split; [done|]. split; [done|]. by apply lookup_alter_Some.
Qed.

Lemma keeps_revoked hash id t o : ¬ deletes id o → kept_by hash (revoked_at id t) o.
Proof.
  intros Hnot. open_op o; unfold revoked_at; cbn; intros (r & Hr & Ht); cbn in Hnot.
  - exists r. rewrite lookup_insert_ne by congruence. done.
  - rewrite lookup_insert. case_decide; [|eauto]. subst. eexists. split; [done|]. cbn. congruence.
  - exists r. by rewrite lookup_delete_ne by done.
  - eexists. split; [by apply lookup_alter_Some|]. case_decide; [|done]. by rewrite Ht.
  - eexists. split; [by apply lookup_alter_Some|]. case_decide; [|done]. by case_match.
Qed.

Lemma keeps_spent hash h o : ¬ mints hash h o → kept_by hash (code_spent h) o.
Proof.
  intros Hnot. open_op o; unfold code_spent; cbn; intros Hd r' Hr'; cbn in Hnot.
  - rewrite lookup_insert_ne in Hr' by done. eauto.
  - apply lookup_insert_Some in Hr' as [[_ <-]|[_ Hr']]; [done|eauto].
  - apply map_lookup_filter_Some in Hr' as [Hr' _]. eauto.
Qed.

(** ** Runs of single statements *)

Lemma sql_run {A} (f : db → result A * db) s :
  (∃ e fs, sql f s = (Err e, MkStore (sdb s) fs)) ∨
  (∃ fs, sql f s = ((f (sdb s)).1, MkStore (f (sdb s)).2 fs)).
Proof.
  unfold sql. destruct (faults s) as [|[e|] fs]; [right|left; eauto|right];
    destruct (f (sdb s)); eauto.
Qed.

Lemma exec_run {A} (f : db → A * db) s :
  (∃ e fs, exec f s = (Err e, MkStore (sdb s) fs)) ∨
  (∃ fs, exec f s = (Ok (f (sdb s)).1, MkStore (f (sdb s)).2 fs)).
Proof.
  unfold exec. destruct (sql_run (λ d, let '(a, d') := f d in (Ok a, d')) s) as [?|(fs & H)]; [by left|right].
  exists fs. rewrite H. by destruct (f (sdb s)).
Qed.

Lemma sql_ok {A} (f : db → result A * db) s :
  faults s = [] → sql f s = ((f (sdb s)).1, MkStore (f (sdb s)).2 []).
Proof. unfold sql. intros ->. by destruct (f (sdb s)). Qed.

Lemma query_ok {A} (f : db → result A) s : faults s = [] → query f s = (f (sdb s), MkStore (sdb s) []).
Proof. apply sql_ok. Qed.

Lemma wrapping_ok {A} ctx (m : Comp store A) s a s' : wrapping ctx m s = (Ok a, s') ↔ m s = (Ok a, s').
Proof. unfold wrapping. destruct (m s) as [[x|e] s'']; split; congruence. Qed.

Lemma no_rows_ok {A} e ctx (m : Comp store A) s a s' : no_rows e ctx m s = (Ok a, s') ↔ m s = (Ok a, s').
Proof. unfold no_rows. destruct (m s) as [[x|y] s'']; split; congruence. Qed.

Lemma bind_ok {S A B} (m : Comp S A) (f : A → Comp S B) s b s'' :
  (m ≫= f) s = (Ok b, s'') → ∃ a s', m s = (Ok a, s') ∧ f a s' = (Ok b, s'').
Proof. unfold mbind, comp_bind. destruct (m s) as [[a|e] s']; [eauto|done]. Qed.

Lemma sql_Ok {A} (f : db → result A * db) s a s' :
  sql f s = (Ok a, s') → f (sdb s) = (Ok a, sdb s').
Proof.
  destruct (sql_run f s) as [(e & fs & H)|(fs & H)]; rewrite H; [done|].
  destruct (f (sdb s)). by intros [= -> <-].
Qed.

(** ** Pairing codes *)

Lemma Redeem_Ok hash code id now s name s1 :
  RedeemPairingCode hash code id now s = (Ok name, s1) →
  ∃ r, pairing_codes (sdb s) !! hash code = Some r ∧ co_used_at r = None ∧
    Unix now < co_expires_at r ∧ co_device_name r = name ∧
    pairing_codes (sdb s1) = <[hash code := MkCodeRow name (co_created_at r) (co_expires_at r)
                                 (Some (Unix now)) (Some id)]> (pairing_codes (sdb s)).
Proof.
  unfold RedeemPairingCode. rewrite no_rows_ok. intros H. apply sql_Ok in H.
  destruct (pairing_codes (sdb s) !! hash code) as [r|] eqn:Hr; [|done].
  destruct (bool_decide _ && _) eqn:Hc; [|done]. injection H as <- <-. to_prop. cbn. eauto 10.
Qed.

(** Live until it expires. *)
Definition code_live (h name : string) (exp : Z) (d : db) : Prop :=
  ∃ r, pairing_codes d !! h = Some r ∧ co_used_at r = None ∧ co_expires_at r = exp ∧
       co_device_name r = name.

Definition spends (hash : string → string) (h : string) (exp : Z) (o : store_op) : Prop :=
  match o with
  | OpRedeem c _ _ => hash c = h
  | OpPruneCodes now => exp < Unix now
  | _ => False
  end.

Lemma keeps_live hash h name exp o : ¬ spends hash h exp o → kept_by hash (code_live h name exp) o.
Proof.
  intros Hnot. open_op o; unfold code_live; cbn; intros (r & Hr & Hu & He & Hn); cbn in Hnot.
  - exists r. by rewrite lookup_insert_ne by congruence.
  - exists r. by rewrite lookup_insert_ne by done.
  - exists r. split; [|done]. apply map_lookup_filter_Some. split; [done|]. cbn. lia.
Qed.

(** ** The audit table *)

Abbreviation ascending := (StronglySorted (λ a b, ar_id a < ar_id b)) (only parsing).

Definition audit_ordered (d : db) : Prop :=
  ascending (audit d) ∧ ∀ r, List.In r (audit d) → ar_id r <= audit_seq d.

Lemma ascending_filter (p : audit_row → bool) l : ascending l → ascending (List.filter p l).
Proof.
  induction 1 as [|r l _ IH Hf]; simpl; [constructor|]. destruct (p r); [|done].
  constructor; [done|]. apply Forall_forall. intros x Hx. rewrite list_elem_of_In, List.filter_In in Hx.
  rewrite Forall_forall in Hf. apply Hf. rewrite list_elem_of_In. tauto.
Qed.

Lemma keeps_audit_ordered hash o : kept_by hash audit_ordered o.
Proof.
  assert (∀ (f : list audit_row → list audit_row * Z) (p : list audit_row → audit_row → bool) d,
    (∀ l, (f l).1 = List.filter (p l) l) →
    audit_ordered d → audit_ordered (set_audit d (f (audit d)).1)) as Hdel.
  { intros f p d Hf [Hs Hm]. split; cbn; rewrite Hf; [by apply ascending_filter|].
    intros r Hr. apply List.filter_In in Hr as [Hr _]. by apply Hm. }
  open_op o.
  - intros [Hs Hm]. split; cbn.
    + apply StronglySorted_app. split; [|split; [done|repeat constructor]].
      intros x1 x2 Hx1. rewrite list_elem_of_singleton. intros ->. cbn.
      rewrite list_elem_of_In in Hx1. apply Hm in Hx1. lia.
    + intros r. rewrite List.in_app_iff. intros [Hr|[<-|[]]]; [apply Hm in Hr; lia|cbn; lia].
  - eapply (Hdel (delete_by_age _) (λ _ r, negb (ar_occurred_at r <? _))). done.
  - eapply (Hdel (delete_by_share _) (λ l r, negb (_ <? row_number l r))). done.
  - eapply (Hdel (delete_by_count _) (λ l r, negb (negb (_ <? 0) && (_ <=? newer_than _ l r)))). done.
Qed.

(** In a table in id order, fewer than [k] rows of a kind have fewer than [k]
    newer rows of that kind: the window that [LIMIT k] keeps. *)
Lemma newest_bounded (p : audit_row → bool) k l :
  0 <= k → ascending l →
  Z.of_nat (List.length (List.filter (λ r, p r && (newer_than p l r <? k)) l)) =
    Z.min k (Z.of_nat (List.length (List.filter p l))).
Proof.
  intros Hk. induction 1 as [|r l Hs IH Hf]; [simpl; lia|].
  rewrite Forall_forall in Hf.
  assert (∀ x, List.In x l → newer_than p (r :: l) x = newer_than p l x) as Hx.
  { intros x Hx. unfold newer_than. cbn [List.filter].
    rewrite <- list_elem_of_In in Hx. apply Hf in Hx.
    rewrite (proj2 (Z.ltb_ge (ar_id x) (ar_id r))) by lia. by rewrite andb_false_r. }
  assert (newer_than p (r :: l) r = Z.of_nat (List.length (List.filter p l))) as Hr.
  { unfold newer_than. cbn [List.filter]. rewrite Z.ltb_irrefl, andb_false_r.
    do 2 f_equal. apply List.filter_ext_in. intros x Hx'.
    rewrite <- list_elem_of_In in Hx'. apply Hf in Hx'.
    rewrite (proj2 (Z.ltb_lt _ _)) by lia. by rewrite andb_true_r. }
  cbn [List.filter]. rewrite Hr.
  rewrite (List.filter_ext_in (λ x, p x && (newer_than p (r :: l) x <? k))
    (λ x, p x && (newer_than p l x <? k)) l) by (intros x Hin; by rewrite Hx).
  destruct (p r); cbn [andb List.length]; [|apply IH].
  destruct (Z.ltb_spec (Z.of_nat (List.length (List.filter p l))) k); cbn [List.length]; lia.
Qed.

Lemma filter_filter {A} (p q : A → bool) l :
  List.filter p (List.filter q l) = List.filter (λ x, p x && q x) l.
Proof.
  induction l as [|x l IH]; [done|]. simpl. destruct (q x), (p x) eqn:Hp; simpl; rewrite ?Hp, ?IH; done.
Qed.

Lemma filter_map_length {A B} (f : A → B) (p : B → bool) l :
  List.length (List.filter p (map f l)) = List.length (List.filter (λ x, p (f x)) l).
Proof. induction l as [|x l IH]; [done|]. simpl. destruct (p (f x)); simpl; by rewrite IH. Qed.

(** After the share pass a bucket holds at most its share. *)
Lemma share_bounded k l b :
  0 <= k → ascending l → occ b (map bucket (delete_by_share k l).1) <= k.
Proof.
  intros Hk Hs. unfold occ, delete_by_share, delete_where. cbn [fst].
  rewrite filter_map_length, filter_filter.
  rewrite (List.filter_ext_in _ (λ r, bool_decide (bucket r = b) &&
    (newer_than (λ r', bool_decide (bucket r' = b)) l r <? k))).
  - rewrite newest_bounded by done. lia.
  - intros r _. case_bool_decide as Hb; [|done]. cbn [andb]. unfold row_number. rewrite Hb.
    destruct (Z.ltb_spec k (1 + newer_than (λ r', bool_decide (bucket r' = b)) l r)),
      (Z.ltb_spec (newer_than (λ r', bool_decide (bucket r' = b)) l r) k); try done; lia.
Qed.

Lemma count_bounded k l : 0 <= k → ascending l → Z.of_nat (List.length (delete_by_count k l).1) <= k.
Proof.
  intros Hk Hs. unfold delete_by_count, delete_where. cbn [fst].
  rewrite (List.filter_ext_in _ (λ r, true && (newer_than (λ _, true) l r <? k))).
  - rewrite (newest_bounded (λ _, true)) by done. lia.
  - intros r _. rewrite (proj2 (Z.ltb_ge k 0)) by done. cbn [negb andb].
    destruct (Z.leb_spec k (newer_than (λ _, true) l r)), (Z.ltb_spec (newer_than (λ _, true) l r) k); try done; lia.
Qed.

Lemma newer_than_lt p l r : r ∈ l → p r = true → newer_than p l r < Z.of_nat (List.length (List.filter p l)).
Proof.
  intros Hr Hp. unfold newer_than. apply inj_lt.
  assert (∀ k : list audit_row, (List.length (List.filter (λ r', p r' && (ar_id r <? ar_id r')%Z) k)
    <= List.length (List.filter p k))%nat) as Hle.
  { intros k. induction k as [|x k IH]; simpl; [lia|].
    destruct (p x); cbn [andb]; [|done]. destruct (ar_id r <? ar_id x); simpl; lia. }
  apply list_elem_of_split in Hr as (l1 & l2 & ->).
  rewrite !List.filter_app, !length_app. cbn [List.filter]. rewrite Hp, Z.ltb_irrefl. cbn [andb List.length].
  pose proof (Hle l1). pose proof (Hle l2). lia.
Qed.

(** A row's number in its window is at most the size of its bucket. *)
Lemma row_number_le l r : r ∈ l → row_number l r <= occ (bucket r) (map bucket l).
Proof.
  intros Hr. unfold row_number, occ. rewrite filter_map_length.
  pose proof (newer_than_lt (λ r', bool_decide (bucket r' = bucket r)) l r Hr
    (bool_decide_eq_true_2 _ eq_refl)). lia.
Qed.

(** What a successful prune leaves. *)
Definition pruned (cutoff maxRows : Z) (l : list audit_row) : list audit_row :=
  let aged := (delete_by_age cutoff l).1 in
  let buckets := bucket_count aged in
  let shared := if buckets =? 0 then aged
                else (delete_by_share (perDeviceShare maxRows buckets) aged).1 in
  (delete_by_count maxRows shared).1.

Lemma PruneAudit_Ok maxAge maxRows now s n s' :
  PruneAudit maxAge maxRows now s = (Ok n, s') →
  audit (sdb s') = pruned (Unix (now - maxAge)) maxRows (audit (sdb s)).
Proof.
  unfold PruneAudit, transaction. intros H.
  match type of H with (match ?x with _ => _ end = _) => destruct x as [[n'|e] s1] eqn:Hrun end; [|done].
  injection H as -> ->. apply bind_ok in Hrun as (u & s2 & H0 & Hrun).
  apply wrapping_ok, sql_Ok in H0. injection H0 as _ H0.
  apply bind_ok in Hrun as (a & s3 & Hm & Hrun).
  apply bind_ok in Hrun as (u' & s4 & Hc & Hrun). apply wrapping_ok, sql_Ok in Hc.
  injection Hc as _ Hc. injection Hrun as -> ->.
  apply bind_ok in Hm as (n1 & s5 & Hage & Hm). apply wrapping_ok in Hage.
  apply bind_ok in Hm as (n2 & s6 & Hshare & Hm).
  apply bind_ok in Hm as (n3 & s7 & Hcount & Hm). apply wrapping_ok in Hcount.
  injection Hm as _ <-. rewrite <- Hc. clear Hc.
  apply sql_Ok in Hage, Hcount. cbn [delete_audit] in Hage, Hcount. injection Hage as _ Hage.
  injection Hcount as _ Hcount. rewrite <- Hcount. cbn [audit set_audit]. clear Hcount.
  unfold pruned. rewrite H0. assert (audit (sdb s5) = (delete_by_age (Unix (now - maxAge)) (audit (sdb s2))).1)
    as Haged by (by rewrite <- Hage). clear Hage. rewrite <- Haged. clear Haged.
  do 2 f_equal. unfold pruneAuditByDeviceShare in Hshare.
  apply bind_ok in Hshare as (k & s8 & Hq & Hshare). apply wrapping_ok, sql_Ok in Hq.
  injection Hq as <- Hq. rewrite Hq in Hshare |- *.
  destruct (bucket_count (audit (sdb s8)) =? 0); [by injection Hshare as _ <-|].
  apply wrapping_ok, sql_Ok in Hshare. cbn [delete_audit] in Hshare. by injection Hshare as _ <-.
Qed.

(** ** Properties *)

(** C17 A pairing code is redeemed at most once. A redemption that succeeds found
    the code unused and unexpired and returns the name it was minted for; after
    it, whatever the store does (any statement failing or not), short of the
    same code being minted again, no redemption of that code by anybody ever
    succeeds. *)
Theorem pairing_code_single_use (hash : string → string) (code id name : string) (now : Z)
    (s s1 : store) (ops : list store_op)
    (Hredeem : RedeemPairingCode hash code id now s = (Ok name, s1))
    (Hops : Forall (λ o, ¬ mints hash (hash code) o) ops) :
  (∃ r, pairing_codes (sdb s) !! hash code = Some r ∧ co_used_at r = None ∧
        Unix now < co_expires_at r ∧ co_device_name r = name) ∧
  ∀ id' now' name' s', RedeemPairingCode hash code id' now' (run_ops hash ops s1) ≠ (Ok name', s').
Proof.
  apply Redeem_Ok in Hredeem as (r & Hr & Hu & He & Hn & Hc). split; [by eauto 10|].
  intros id' now' name' s' Hagain. apply Redeem_Ok in Hagain as (r' & Hr' & Hu' & _).
  assert (code_spent (hash code) (sdb (run_ops hash ops s1))) as Hspent.
  { apply run_ops_keeps.
    - eapply Forall_impl; [exact Hops|]. intros o Ho. by apply keeps_spent.
    - intros r0. rewrite Hc, lookup_insert_eq. by intros [= <-]. }
  by apply Hspent in Hr'.
Qed.

(** A hash without collisions, for the witnesses. *)
Definition toy_hash (code : string) : string := "h" +:+ code.

Lemma pairing_code_single_use_witness :
  let s := run_ops toy_hash [OpCreate "d1" "pending" 5; OpMint "C" "phone" DefaultPairingCodeTTL 10]
             (MkStore empty_db []) in
  (RedeemPairingCode toy_hash "C" "d1" 20 s).1 = Ok "phone" ∧
  ∀ id' now' name' s', RedeemPairingCode toy_hash "C" id' now'
    (run_ops toy_hash [OpDelete "d1"; OpPruneCodes 30] (RedeemPairingCode toy_hash "C" "d1" 20 s).2) ≠ (Ok name', s').
Proof.
  intros s. split; [vm_compute; reflexivity|].
  refine (proj2 (pairing_code_single_use toy_hash "C" "d1" "phone" 20 s _
    [OpDelete "d1"; OpPruneCodes 30] _ _)).
  - vm_compute. reflexivity.
  - repeat constructor; intros H; exact H.
Defined.

(** A minted code stays good until it expires: from a successful mint on,
    whatever the store does short of redeeming that code (or pruning codes at
    a time past its expiry), a redemption before the expiry succeeds and gives
    back the name the code was minted for. *)
Theorem minted_code_redeemable (hash : string → string) (code name c id : string)
    (ttl now exp now' : Z) (s s1 : store) (ops : list store_op)
    (Hmint : MintPairingCode hash code name ttl now s = (Ok (c, exp), s1))
    (Hops : Forall (λ o, ¬ spends hash (hash code) (Unix exp) o) ops)
    (Hfaults : faults (run_ops hash ops s1) = []) (Htime : Unix now' < Unix exp) :
  0 < ttl ∧ c = code ∧ exp = now + ttl ∧
  (RedeemPairingCode hash code id now' (run_ops hash ops s1)).1 = Ok name.
Proof.
  unfold MintPairingCode in Hmint. destruct (Z.leb_spec ttl 0) as [|Hpos]; [done|].
  apply bind_ok in Hmint as (u & s2 & Hins & Hret). apply wrapping_ok, sql_Ok in Hins.
  injection Hret as <- <- ->.
  destruct (pairing_codes (sdb s) !! hash code); [done|]. injection Hins as _ Hs1.
  assert (code_live (hash code) name (Unix (now + ttl)) (sdb (run_ops hash ops s1))) as (r & Hr & Hu & He & Hn).
  { apply run_ops_keeps.
    - eapply Forall_impl; [exact Hops|]. intros o Ho. by apply keeps_live.
    - rewrite <- Hs1. eexists. cbn. rewrite lookup_insert_eq. done. }
  split; [done|]. split; [done|]. split; [done|].
  unfold RedeemPairingCode, no_rows. rewrite sql_ok by done. rewrite Hr, Hu, He.
  rewrite bool_decide_eq_true_2 by done. rewrite (proj2 (Z.ltb_lt _ _)) by done. cbn. by rewrite Hn.
Qed.

Lemma minted_code_redeemable_witness :
  (RedeemPairingCode toy_hash "C" "d1" (5 * Minute) (run_ops toy_hash [OpPruneCodes (3 * Minute)]
    (MintPairingCode toy_hash "C" "phone" DefaultPairingCodeTTL 10 (MkStore empty_db [])).2)).1 = Ok "phone".
Proof.
  eapply (minted_code_redeemable toy_hash "C" "phone" "C" "d1" DefaultPairingCodeTTL 10
    (10 + DefaultPairingCodeTTL) (5 * Minute) (MkStore empty_db [])).
  - vm_compute. reflexivity.
  - repeat constructor. vm_compute. discriminate.
  - vm_compute. reflexivity.
  - vm_compute. reflexivity.
Defined.

(** A revocation that succeeds leaves the device revoked, at the first time. *)
Lemma Revoke_Ok id now s s1 :
  RevokeDevice id now s = (Ok tt, s1) →
  ∃ t, revoked_at id t (sdb s1) ∧ ∀ t0, revoked_at id t0 (sdb s) → t = t0.
Proof.
  unfold RevokeDevice. intros Hrevoke. apply bind_ok in Hrevoke as (ex & s' & Hq & Hrev).
  apply wrapping_ok, sql_Ok in Hq. injection Hq as Hex Hs'.
  destruct (devices (sdb s) !! id) as [r|] eqn:Hr; subst ex; cbn [negb] in Hrev; [|done].
  apply wrapping_ok, sql_Ok in Hrev. rewrite <- Hs' in Hrev. injection Hrev as Hs1.
  unfold revoked_at. rewrite <- Hs1. cbn.
  rewrite lookup_alter_eq, Hr. cbn. destruct (dr_revoked_at r) as [t|] eqn:Ht.
  - exists t. split; [eauto|]. intros t0 (r0 & [= <-] & Ht0). congruence.
  - exists (Unix now). split; [eauto|]. intros t0 (r0 & [= <-] & Ht0). congruence.
Qed.

(** A serial that resolves does so through the two tables. *)
Lemma by_serial_Ok serial s dev s1 :
  DeviceByCertSerial serial s = (Ok dev, s1) →
  ∃ r, cert_owned serial (dev_ID dev) (sdb s) ∧ devices (sdb s) !! dev_ID dev = Some r ∧ dev = scanDevice (dev_ID dev) r.
Proof.
  unfold DeviceByCertSerial. intros Hdev. apply no_rows_ok, sql_Ok in Hdev.
  destruct (device_certs (sdb s) !! serial) as [c|] eqn:Hc; [|done].
  destruct (devices (sdb s) !! cr_device_id c) as [r|] eqn:Hr; [|done].
  injection Hdev as <- _. exists r. split; [|done]. exists c, r. done.
Qed.
Lemma by_serial_revoked serial s dev s1 id t :
  DeviceByCertSerial serial s = (Ok dev, s1) → revoked_at id t (sdb s) → dev_ID dev = id → IsRevoked dev = true.
Proof.
  intros Hdev (r & Hr & Ht) <-. destruct (by_serial_Ok _ _ _ _ Hdev) as (r' & _ & Hr' & ->).
  cbn in *. rewrite Hr in Hr'. injection Hr' as <-. unfold IsRevoked. cbn. by rewrite Ht.
Qed.
Lemma Record_Ok id serial nb na now s s1 :
  RecordDeviceCert id serial nb na now s = (Ok tt, s1) →
  cert_owned serial id (sdb s1) ∧ devices (sdb s1) = devices (sdb s).
Proof.
  unfold RecordDeviceCert. intros Hrec. apply wrapping_ok, sql_Ok in Hrec.
  destruct (device_certs (sdb s) !! serial); [done|].
  destruct (devices (sdb s) !! id) as [r|] eqn:Hr; [|done]. injection Hrec as Hs1.
  rewrite <- Hs1. split; [|done]. eexists _, r. cbn. rewrite lookup_insert_eq. done.
Qed.

(** C18 Revocation is permanent and immediate: once a revocation has succeeded,
    the device has a revocation time that no later operation of the store moves
    (revoking again included), short of deleting the device; and from the next
    statement on, the revocation check says so, and every certificate that
    resolves to the device resolves to a revoked one. *)
Theorem revocation_permanent (hash : string → string) (id : string) (now : Z) (s s1 : store)
    (ops : list store_op)
    (Hrevoke : RevokeDevice id now s = (Ok tt, s1)) (Hops : Forall (λ o, ¬ deletes id o) ops)
    (Hfaults : faults (run_ops hash ops s1) = []) :
  let s2 := run_ops hash ops s1 in
  (∃ t, revoked_at id t (sdb s2) ∧ ∀ t0, revoked_at id t0 (sdb s) → t = t0) ∧
  (IsDeviceRevoked id s2).1 = Ok true ∧
  (∀ serial dev s3, DeviceByCertSerial serial s2 = (Ok dev, s3) → dev_ID dev = id → IsRevoked dev = true).
Proof.
  intros s2. destruct (Revoke_Ok _ _ _ _ Hrevoke) as (t & Ht & Hfirst).
  assert (revoked_at id t (sdb s2)) as Hkept.
  { apply run_ops_keeps; [|done]. eapply Forall_impl; [exact Hops|]. intros o Ho. by apply keeps_revoked. }
  split; [by eauto|]. split; [|intros serial dev s3 Hdev Hid; by eapply by_serial_revoked].
  destruct Hkept as (r & Hr & Hrt).
  unfold IsDeviceRevoked, no_rows. rewrite query_ok by done. fold s2. by rewrite Hr, Hrt.
Qed.

Lemma revocation_permanent_witness :
  let s := run_ops toy_hash [OpCreate "d1" "phone" 5; OpRecord "d1" "aa" 5 6 5] (MkStore empty_db []) in
  (IsDeviceRevoked "d1" (run_ops toy_hash [OpRename "d1" "x"; OpTouch "d1" (9 * Minute)]
    (RevokeDevice "d1" (7 * Minute) s).2)).1 = Ok true.
Proof.
  intros s. refine (proj1 (proj2 (revocation_permanent toy_hash "d1" (7 * Minute) s _
    [OpRename "d1" "x"; OpTouch "d1" (9 * Minute)] _ _ _))).
  - vm_compute. reflexivity.
  - repeat constructor; intros H; exact H.
  - vm_compute. reflexivity.
Defined.

(** A lost renewal strands nobody: a certificate that has been recorded for a
    device keeps resolving to that device, whatever is issued or superseded
    later, for as long as the device is not deleted. *)
Theorem recorded_cert_resolves (hash : string → string) (id serial : string) (nb na now : Z)
    (s s1 : store) (ops : list store_op)
    (Hrec : RecordDeviceCert id serial nb na now s = (Ok tt, s1))
    (Hops : Forall (λ o, ¬ deletes id o) ops) (Hfaults : faults (run_ops hash ops s1) = []) :
  ∃ dev, (DeviceByCertSerial serial (run_ops hash ops s1)).1 = Ok dev ∧ dev_ID dev = id.
Proof.
  destruct (Record_Ok _ _ _ _ _ _ _ Hrec) as [Hown _].
  assert (cert_owned serial id (sdb (run_ops hash ops s1))) as (c & r' & Hc & Hid & Hr').
  { apply run_ops_keeps; [|done]. eapply Forall_impl; [exact Hops|]. intros o Ho. by apply keeps_cert_owned. }
  unfold DeviceByCertSerial, no_rows. rewrite query_ok by done. rewrite Hc, Hid, Hr'. eauto.
Qed.

Lemma recorded_cert_resolves_witness :
  let s := run_ops toy_hash [OpCreate "d1" "phone" 5] (MkStore empty_db []) in
  ∃ dev, (DeviceByCertSerial "aa" (run_ops toy_hash [OpRecord "d1" "bb" 7 9 7; OpSupersede "d1" "bb" 7]
    (RecordDeviceCert "d1" "aa" 5 6 5 s).2)).1 = Ok dev ∧ dev_ID dev = "d1".
Proof.
  intros s. apply (recorded_cert_resolves toy_hash "d1" "aa" 5 6 5 s _
    [OpRecord "d1" "bb" 7 9 7; OpSupersede "d1" "bb" 7]).
  - vm_compute. reflexivity.
  - repeat constructor; intros H; exact H.
  - vm_compute. reflexivity.
Defined.

(** Referential integrity: from an empty store, after any run of operations
    with any failures, every certificate belongs to a device that exists. So a
    device that has been deleted takes its certificates with it: none of them
    resolves any more. *)
Theorem store_referential (hash : string → string) (ops : list store_op) (fs : list (option error))
    (id : string) :
  let s := run_ops hash ops (MkStore empty_db fs) in
  referential (sdb s) ∧
  ∀ s1, DeleteDevice id s = (Ok tt, s1) →
    ∀ serial dev s2, DeviceByCertSerial serial s1 = (Ok dev, s2) → dev_ID dev ≠ id.
Proof.
  intros s. assert (referential (sdb s)) as Href.
  { apply run_ops_keeps; [|by intros ? ? ?]. apply Forall_forall. intros o _. apply keeps_referential. }
  split; [done|]. intros s1 Hdel serial dev s2 Hdev <-.
  unfold DeleteDevice in Hdel. apply wrapping_ok, sql_Ok in Hdel. injection Hdel as Hs1.
  unfold DeviceByCertSerial in Hdev. apply no_rows_ok, sql_Ok in Hdev. rewrite <- Hs1 in Hdev.
  cbn in Hdev. destruct (filter _ _ !! serial) as [c|] eqn:Hc; [|done].
  apply map_lookup_filter_Some in Hc as [_ Hne]. cbn in Hne.
  destruct (delete _ _ !! cr_device_id c); [|done]. injection Hdev as <- _. done.
Qed.

Lemma length_pruned_le cutoff maxRows l :
  pruned cutoff maxRows l `sublist_of` List.filter (λ r, negb (ar_occurred_at r <? cutoff)) l.
Proof.
  assert (∀ (p : audit_row → bool) (k : list audit_row), List.filter p k `sublist_of` k) as Hsub.
  { intros p k. induction k as [|x k IH]; simpl; [constructor|].
    destruct (p x); by constructor. }
  unfold pruned. etrans; [apply Hsub|]. case_match; [done|]. apply Hsub.
Qed.

Lemma ascending_pruned_aged cutoff l : ascending l → ascending (delete_by_age cutoff l).1.
Proof. apply ascending_filter. Qed.

Lemma shared_ascending k l : ascending l → ascending (delete_by_share k l).1.
Proof. apply ascending_filter. Qed.

Lemma perDeviceShare_pos maxRows n : 1 <= perDeviceShare maxRows n.
Proof. unfold perDeviceShare. destruct (Z.ltb_spec (Z.quot maxRows n) 1); lia. Qed.

Lemma occ_filter_le d (p : audit_row → bool) l :
  occ d (map bucket (List.filter p l)) <= occ d (map bucket l).
Proof.
  unfold occ. rewrite !filter_map_length, filter_filter.
  induction l as [|x l IH]; simpl; [lia|]. destruct (bool_decide (bucket x = d)), (p x); simpl; lia.
Qed.

(** C19 The retention bounds hold after a prune that succeeds, and a prune that
    fails anywhere changes nothing. What is kept is part of what was there;
    every row kept is young enough; at most [maxRows] rows are kept; and no
    device bucket keeps more than its even share of [maxRows] (one, at least). *)
Theorem PruneAudit_bounds (hash : string → string) (ops : list store_op) (fs : list (option error))
    (maxAge maxRows now : Z) (Hmax : 0 <= maxRows) :
  let s := run_ops hash ops (MkStore empty_db fs) in
  let cutoff := Unix (now - maxAge) in
  let aged := List.filter (λ r, negb (ar_occurred_at r <? cutoff)) (audit (sdb s)) in
  match PruneAudit maxAge maxRows now s with
  | (Err _, s') => sdb s' = sdb s
  | (Ok _, s') =>
      let kept := audit (sdb s') in
      kept `sublist_of` aged ∧
      Z.of_nat (List.length kept) <= maxRows ∧
      ∀ b, occ b (map bucket kept) <= perDeviceShare maxRows (bucket_count aged)
  end.
Proof.
  intros s cutoff aged. destruct (PruneAudit maxAge maxRows now s) as [[n|e] s'] eqn:Hp.
  - apply PruneAudit_Ok in Hp. fold cutoff in Hp. rewrite Hp. clear Hp s' n.
    assert (ascending (audit (sdb s))) as Hasc.
    { apply (run_ops_keeps hash audit_ordered ops (MkStore empty_db fs)).
      - apply Forall_forall. intros o _. apply keeps_audit_ordered.
      - split; [constructor|]. intros r []. }
    split; [apply length_pruned_le|]. unfold pruned. change (delete_by_age cutoff (audit (sdb s))).1 with aged.
    assert (ascending aged) as Haged by (by apply ascending_filter).
    split.
    + apply count_bounded; [done|]. case_match; [done|]. by apply shared_ascending.
    + intros b. etrans; [apply occ_filter_le|]. pose proof (perDeviceShare_pos maxRows (bucket_count aged)).
      destruct (Z.eqb_spec (bucket_count aged) 0) as [He|].
      * assert (aged = []) as ->; [|cbn; unfold occ; cbn; lia].
        destruct aged as [|r l]; [done|]. exfalso. unfold bucket_count in He. cbn in He.
        rewrite <- (Nat2Z.inj_0), Nat2Z.inj_iff, size_empty_iff in He. set_solver.
      * apply share_bounded; [lia|done].
  - unfold PruneAudit, transaction in Hp.
    match type of Hp with (match ?x with _ => _ end = _) => destruct x as [[n'|e'] s1] end; [done|].
    by injection Hp as _ <-.
Qed.

Definition audit_of (id : string) : store_op :=
  OpAppend (MkAuditEntry 0 None id "stop" "web" OutcomeSuccess "") (100 * Second).
Definition flood : list store_op := [audit_of "b"; audit_of "a"; audit_of "a"; audit_of "a"; audit_of "a"].

Lemma PruneAudit_bounds_witness :
  let s' := (PruneAudit Day 4 (101 * Second) (run_ops toy_hash flood (MkStore empty_db []))).2 in
  map bucket (audit (sdb s')) = ["b"; "a"; "a"] ∧ Z.of_nat (List.length (audit (sdb s'))) <= 4.
Proof.
  split; [vm_compute; reflexivity|].
  pose proof (PruneAudit_bounds toy_hash flood [] Day 4 (101 * Second) ltac:(lia)) as H.
  vm_compute in H. vm_compute. apply H.
Defined.

(** Nobody's history is evicted by somebody else's flood: when there are no
    more device buckets than [maxRows], a device that has no more unexpired
    rows than its even share keeps every one of them, whatever the others have
    written. *)
Theorem PruneAudit_fair (hash : string → string) (ops : list store_op) (fs : list (option error))
    (maxAge maxRows now n : Z) (s' : store) (r : audit_row) :
  let s := run_ops hash ops (MkStore empty_db fs) in
  let aged := List.filter (λ r, negb (ar_occurred_at r <? Unix (now - maxAge))) (audit (sdb s)) in
  PruneAudit maxAge maxRows now s = (Ok n, s') →
  bucket_count aged <= maxRows →
  occ (bucket r) (map bucket aged) <= Z.quot maxRows (bucket_count aged) →
  r ∈ aged → r ∈ audit (sdb s').
Proof.
  intros s aged Hp Hfew Hshare Hr. apply PruneAudit_Ok in Hp. rewrite Hp. clear Hp s' n.
  unfold pruned. change (delete_by_age (Unix (now - maxAge)) (audit (sdb s))).1 with aged.
  assert (ascending aged) as Hasc.
  { apply ascending_filter, (run_ops_keeps hash audit_ordered ops (MkStore empty_db fs)).
    - apply Forall_forall. intros o _. apply keeps_audit_ordered.
    - split; [constructor|]. intros x []. }
  assert (0 < bucket_count aged) as Hpos.
  { assert (bucket r ∈ (list_to_set (map bucket aged) : gset string)) as Hin
      by (apply elem_of_list_to_set, list_elem_of_fmap; eauto).
    unfold bucket_count. assert (size (list_to_set (map bucket aged) : gset string) ≠ 0%nat); [|lia].
    rewrite size_non_empty_iff. set_solver. }
  rewrite (proj2 (Z.eqb_neq _ _)) by lia. clearbody aged.
  rewrite Z.quot_div_nonneg in Hshare by lia.
  assert (perDeviceShare maxRows (bucket_count aged) = maxRows / bucket_count aged) as Hk.
  { unfold perDeviceShare. rewrite Z.quot_div_nonneg by lia.
    rewrite (proj2 (Z.ltb_ge _ _)); [done|]. apply Z.div_le_lower_bound; lia. }
  rewrite Hk. set (k := maxRows / bucket_count aged) in *.
  assert (1 <= k) as Hk1 by (pose proof (perDeviceShare_pos maxRows (bucket_count aged)); lia).
  assert (r ∈ (delete_by_share k aged).1) as Hkept.
  { unfold delete_by_share, delete_where. cbn [fst]. rewrite list_elem_of_In, List.filter_In, <- list_elem_of_In.
    split; [done|]. apply negb_true_iff, Z.ltb_ge. etrans; [|exact Hshare].
    by apply row_number_le. }
  unfold delete_by_count, delete_where. cbn [fst].
  rewrite list_elem_of_In, List.filter_In, <- list_elem_of_In. split; [done|].
  rewrite (proj2 (Z.ltb_ge maxRows 0)) by lia. cbn [negb andb]. apply negb_true_iff, Z.leb_gt.
  eapply Z.lt_le_trans; [by apply newer_than_lt|]. rewrite filter_true_id by done.
  rewrite <- (length_map bucket). etrans.
  - apply (length_le_distinct _ k); [lia|]. intros b. by apply share_bounded; [lia|].
  - etrans; [|apply (Z.mul_div_le maxRows (bucket_count aged)); done]. rewrite Z.mul_comm. fold k.
    apply Z.mul_le_mono_nonneg_r; [lia|]. unfold bucket_count. apply inj_le, subseteq_size.
    intros b. rewrite !elem_of_list_to_set, !list_elem_of_fmap. intros (x & -> & Hx).
    exists x. split; [done|]. unfold delete_by_share, delete_where in Hx. cbn [fst] in Hx.
    rewrite list_elem_of_In, List.filter_In, <- list_elem_of_In in Hx. tauto.
Qed.

Lemma PruneAudit_fair_witness :
  let s := run_ops toy_hash flood (MkStore empty_db []) in
  MkAuditRow 1 100 (Some "b") "stop" (Some "web") "success" (Some "")
    ∈ audit (sdb (PruneAudit Day 2 (101 * Second) s).2).
Proof.
  intros s. eapply (PruneAudit_fair toy_hash flood [] Day 2 (101 * Second)).
  - vm_compute. reflexivity.
  - vm_compute. discriminate.
  - vm_compute. discriminate.
  - vm_compute. constructor.
Defined.

(** With more devices than rows the even share is one row each, and the final
    row cap decides by age alone: a newer device then does evict an older one's
    only row, which the comment on [PruneAudit] rules out. *)
Lemma PruneAudit_crowded :
  let s := run_ops toy_hash [audit_of "b"; audit_of "a"] (MkStore empty_db []) in
  map bucket (audit (sdb (PruneAudit Day 1 (101 * Second) s).2)) = ["a"].
Proof. vm_compute. reflexivity. Qed.
