(* ===== verification/GoStrings.v ===== *)
(** * GoStrings: the parts of strings, strconv and net the configuration uses

    Standard-library functions, on byte strings, as their documentation and
    implementation have them. *)
From S2P Require Import Prelude GoTime.

(** ** strconv *)

Definition max_int64 : Z := 2 ^ 63 - 1.

(** [strconv.Atoi]: an optional sign, then decimal digits, in range. *)
Definition Atoi (s : string) : option Z :=
  let '(sgn, digits) :=
    match s with
    | String c s' =>
        if Ascii.eqb c "-" then (-1, s') else if Ascii.eqb c "+" then (1, s') else (1, s)
    | "" => (1, s)
    end in
  if bool_decide (digits = "") || negb (string_forallb is_digit digits) then None
  else
    let n := sgn * digits_val (bytes digits) in
    if (- 2 ^ 63 <=? n) && (n <=? max_int64) then Some n else None.

Lemma Atoi_in_int64 s n : Atoi s = Some n → in_int64 n.
Proof.
  unfold Atoi, in_int64, max_int64.
  destruct (match s with "" => _ | String _ _ => _ end) as [sgn digits].
  destruct (_ || _); [done|]. destruct (_ && _) eqn:H; [|done]. intros [= <-]. to_prop. lia.
Qed.

(** ** strings.TrimSpace *)

Definition ascii_space (c : ascii) : bool :=
  let n := nat_of_ascii c in (n =? 32)%nat || ((9 <=? n)%nat && (n <=? 13)%nat).

(** The UTF-8 encodings of the other code points of White_Space. *)
Definition unicode_spaces : list (list ascii) :=
  let b z := ascii_of_nat (Z.to_nat z) in
  [[b 194; b 133]; [b 194; b 160]; [b 225; b 154; b 128]] ++
  map (λ k, [b 226; b 128; b (128 + Z.of_nat k)]) (List.seq 0 11) ++
  [[b 226; b 128; b 168]; [b 226; b 128; b 169]; [b 226; b 128; b 175]; [b 226; b 129; b 159];
   [b 227; b 128; b 128]].

(** [strip spaces l]: [l] less every leading space; each turn drops a byte. *)
Fixpoint strip (fuel : nat) (spaces : list (list ascii)) (l : list ascii) : list ascii :=
  match fuel with
  | O => l
  | S fuel =>
      match l with
      | [] => []
      | c :: l' =>
          if ascii_space c then strip fuel spaces l'
          else match List.find (λ sp, bool_decide (List.firstn (List.length sp) l = sp)) spaces with
               | Some sp => strip fuel spaces (List.skipn (List.length sp) l)
               | None => l
               end
      end
  end.

Definition TrimSpace (s : string) : string :=
  let l := bytes s in
  let l := strip (List.length l) unicode_spaces l in
  let r := strip (List.length l) (map (@rev ascii) unicode_spaces) (rev l) in
  of_bytes (rev r).

Example TrimSpace_ascii : TrimSpace "  a b
 " = "a b".
Proof. vm_compute. reflexivity. Qed.

(** ** net *)

(** [strings.IndexByte] and the last index, [None] for -1. *)
Fixpoint IndexByte (s : string) (c : ascii) : option nat :=
  match s with
  | "" => None
  | String d s' => if Ascii.eqb d c then Some 0%nat else S <$> IndexByte s' c
  end.
Fixpoint LastIndexByte (s : string) (c : ascii) : option nat :=
  match s with
  | "" => None
  | String d s' =>
      match LastIndexByte s' c with
      | Some i => Some (S i)
      | None => if Ascii.eqb d c then Some 0%nat else None
      end
  end.
Definition has_byte (s : string) (c : ascii) : bool :=
  match IndexByte s c with Some _ => true | None => false end.

Definition addr_error (why addr : string) : error := Leaf ("address " +:+ addr +:+ ": " +:+ why).

(** [net.SplitHostPort] *)
Definition SplitHostPort (hostport : string) : result (string * string) :=
  let missingPort := Err (addr_error "missing port in address" hostport) in
  let tooManyColons := Err (addr_error "too many colons in address" hostport) in
  match LastIndexByte hostport ":" with
  | None => missingPort
  | Some i =>
      let finish (host : string) (j k : nat) :=
        if has_byte (drop_bytes j hostport) "[" then Err (addr_error "unexpected '[' in address" hostport)
        else if has_byte (drop_bytes k hostport) "]" then Err (addr_error "unexpected ']' in address" hostport)
        else Ok (host, drop_bytes (S i) hostport) in
      if has_prefix "[" hostport then
        match IndexByte hostport "]" with
        | None => Err (addr_error "missing ']' in address" hostport)
        | Some e =>
            if (S e =? String.length hostport)%nat then missingPort
            else if (S e =? i)%nat then finish (take_bytes (e - 1) (drop_bytes 1 hostport)) 1%nat (S e)
            else if has_prefix ":" (drop_bytes (S e) hostport) then tooManyColons
            else missingPort
        end
      else
        let host := take_bytes i hostport in
        if has_byte host ":" then tooManyColons else finish host 0%nat 0%nat
  end.

(** One field of a dotted quad: digits, no leading zero, at most 255. *)
Definition ipv4_field (f : string) : bool :=
  negb (bool_decide (f = "")) && string_forallb is_digit f &&
  ((String.length f =? 1)%nat || negb (has_prefix "0" f)) && (digits_val (bytes f) <=? 255).

(** [net.ParseIP(s) != nil] for an [s] without a colon. *)
Definition ParseIPv4 (s : string) : bool :=
  let fields := split_on "." s in
  (List.length fields =? 4)%nat && forallb ipv4_field fields.

(** [Text(16)] of a [big.Int], lowercase. *)
Definition hex_digit (n : N) : ascii :=
  if (n <? 10)%N then ascii_of_N (48 + n) else ascii_of_N (87 + n).
Fixpoint hex_go (fuel : nat) (n : N) (acc : string) : string :=
  match fuel with
  | O => acc
  | S fuel =>
      let acc := String (hex_digit (n mod 16)) acc in
      if (n <? 16)%N then acc else hex_go fuel (n / 16)%N acc
  end.
Definition Text16 (n : Z) : string :=
  (if n <? 0 then "-" else "") +:+ hex_go (S (N.to_nat (N.log2 (Z.abs_N n)))) (Z.abs_N n) "".

(** ** Concatenation *)

Lemma append_nil t : "" +:+ t = t.
Proof. reflexivity. Qed.
Lemma append_cons c s t : String c s +:+ t = String c (s +:+ t).
Proof. reflexivity. Qed.

Definition free_of (sep : ascii) (s : string) : bool := string_forallb (λ c, negb (Ascii.eqb c sep)) s.

Lemma free_of_cons sep c s : free_of sep (String c s) = true ↔ Ascii.eqb c sep = false ∧ free_of sep s = true.
Proof. unfold free_of, string_forallb, bytes. cbn. by rewrite andb_true_iff, negb_true_iff. Qed.

Lemma cut_app sep a s : free_of sep a = true → cut sep (a +:+ s) = (λ '(x, y), (a +:+ x, y)) <$> cut sep s.
Proof.
  induction a as [|c a IH]; [intros _; rewrite append_nil; by destruct (cut sep s) as [[? ?]|]|].
  intros [Hc Ha]%free_of_cons. rewrite append_cons. cbn. rewrite Hc, IH by done. by destruct (cut sep s) as [[x y]|].
Qed.

Lemma IndexByte_app sep a s : free_of sep a = true → IndexByte (a +:+ String sep s) sep = Some (String.length a).
Proof.
  induction a as [|c a IH]; [intros _; rewrite append_nil; cbn; by rewrite Ascii.eqb_refl|].
  intros [Hc Ha]%free_of_cons. rewrite append_cons. cbn. by rewrite Hc, IH.
Qed.

Lemma take_bytes_app a s : take_bytes (String.length a) (a +:+ s) = a.
Proof. induction a as [|c a IH]; [by destruct s|]. rewrite append_cons. cbn. by rewrite IH. Qed.

Lemma drop_bytes_app a s : drop_bytes (String.length a) (a +:+ s) = s.
Proof. induction a as [|c a IH]; [by destruct s|]. exact IH. Qed.

Lemma prefix_app p s : has_prefix p (p +:+ s) = true.
Proof. unfold has_prefix. induction p as [|c p IH]; [by destruct s|]. rewrite append_cons. cbn. by destruct (Ascii.ascii_dec c c). Qed.

Lemma append_app (a b c : string) : (a +:+ b) +:+ c = a +:+ b +:+ c.
Proof. induction a as [|x a IH]; [done|]. by rewrite !append_cons, IH. Qed.

Lemma append_nil_r (a : string) : a +:+ "" = a.
Proof. induction a as [|c a IH]; [done|]. by rewrite append_cons, IH. Qed.

Lemma length_append (a b : string) : String.length (a +:+ b) = (String.length a + String.length b)%nat.
Proof. induction a as [|c a IH]; [done|]. rewrite append_cons. cbn. by rewrite IH. Qed.

Lemma cut_free sep s : free_of sep s = true → cut sep s = None.
Proof. induction s as [|c s IH]; [done|]. intros [Hc Hs]%free_of_cons. cbn. by rewrite Hc, IH. Qed.

Lemma bytes_app a b : bytes (a +:+ b) = bytes a ++ bytes b.
Proof. unfold bytes. induction a as [|c a IH]; [done|]. rewrite append_cons. cbn. by rewrite IH. Qed.

Lemma forallb_append p a b : string_forallb p (a +:+ b) = string_forallb p a && string_forallb p b.
Proof. unfold string_forallb. by rewrite bytes_app, forallb_app. Qed.
Lemma forallb_String p c s : string_forallb p (String c s) = p c && string_forallb p s.
Proof. reflexivity. Qed.

Lemma forallb_weaken (p q : ascii → bool) s : (∀ c, p c = true → q c = true) → string_forallb p s = true → string_forallb q s = true.
Proof. unfold string_forallb. rewrite !forallb_forall. eauto. Qed.

Lemma free_of_app sep a b : free_of sep (a +:+ b) = free_of sep a && free_of sep b.
Proof. apply forallb_append. Qed.

Lemma free_of_drop sep n s : free_of sep s = true → free_of sep (drop_bytes n s) = true.
Proof. revert n. induction s as [|c s IH]; intros [|n]; [done..|]. intros [_ Hs]%free_of_cons. by apply IH. Qed.
Lemma free_of_take sep n s : free_of sep s = true → free_of sep (take_bytes n s) = true.
Proof. revert n. induction s as [|c s IH]; intros [|n]; [done..|]. intros [Hc Hs]%free_of_cons. apply free_of_cons. auto. Qed.

Lemma take_app_le n a b : (n ≤ String.length a)%nat → take_bytes n (a +:+ b) = take_bytes n a.
Proof.
  revert n. induction a as [|c a IH]; intros [|n] Hn; cbn in Hn; try lia.
  - rewrite append_nil. by destruct b.
  - done.
  - rewrite append_cons. cbn. by rewrite IH by lia.
Qed.
Lemma take_app_ge n a b : (String.length a ≤ n)%nat → take_bytes n (a +:+ b) = a +:+ take_bytes (n - String.length a) b.
Proof.
  revert n. induction a as [|c a IH]; intros n Hn; cbn in Hn; [by rewrite !append_nil, Nat.sub_0_r|].
  destruct n as [|n]; [lia|]. rewrite !append_cons. cbn. by rewrite IH by lia.
Qed.

Lemma cut_shorter sep s a b : cut sep s = Some (a, b) → (String.length b < String.length s)%nat.
Proof.
  revert a. induction s as [|c s IH]; intros a; cbn; [done|]. destruct (Ascii.eqb c sep); [intros [= _ <-]; lia|].
  destruct (cut sep s) as [[x y]|]; [|done]. intros [= _ <-]. specialize (IH x eq_refl). lia.
Qed.
Lemma cut_none_free sep s : cut sep s = None → free_of sep s = true.
Proof.
  induction s as [|c s IH]; cbn [cut]; [done|]. destruct (Ascii.eqb c sep) eqn:Hc; [done|].
  destruct (cut sep s) as [[x y]|]; [done|]. intros _. apply free_of_cons. by rewrite IH.
Qed.

(** Tabs and newlines, as format strings have them. *)
Definition tab : string := String "009" "".
Definition nl : string := String "010" "".

Lemma join_cons sep a b l : join sep (a :: b :: l) = a +:+ sep +:+ join sep (b :: l).
Proof. reflexivity. Qed.

Lemma split_on_app sep a s : free_of sep a = true → split_on sep (a +:+ String sep s) = a :: split_on sep s.
Proof.
  induction a as [|c a IH]; [intros _; rewrite append_nil; cbn; by rewrite Ascii.eqb_refl|].
  intros [Hc Ha]%free_of_cons. rewrite append_cons. cbn. by rewrite Hc, IH.
Qed.

Lemma split_on_free sep a : free_of sep a = true → split_on sep a = [a].
Proof. induction a as [|c a IH]; [done|]. intros [Hc Ha]%free_of_cons. cbn. by rewrite Hc, IH. Qed.

Lemma split_join sep l : l ≠ [] → Forall (λ a, free_of sep a = true) l → split_on sep (join (String sep "") l) = l.
Proof.
  induction l as [|a [|b l] IH]; [done|intros _ Hl; by inversion Hl; subst; apply split_on_free|].
  intros _ Hl. inversion Hl as [|? ? Ha Hl']; subst. rewrite join_cons. change (String sep "" +:+ ?x) with (String sep x).
  rewrite split_on_app by done. f_equal. by apply IH.
Qed.
