(* ===== verification/GoJson.v ===== *)
(** * GoJson: what the agent's wire format uses of unicode/utf8 and encoding/json

    [json.Marshal] of the values the streams carry: strings, booleans, objects
    and arrays. A string is written with HTML escaping on, as the package does by
    default: control characters, the quote, the backslash, [<], [>], [&] and
    the two Unicode line separators are escaped, an invalid byte becomes the
    replacement character, every other rune is copied. [unquote] reads such a
    literal back; it is the specification the encoder is proved against. *)
From S2P Require Import Prelude GoStrings.

(** ** unicode/utf8 *)

Definition cont (c : ascii) : bool := byte_in "128" "191" c.

(** [utf8.DecodeRune]: the length of the valid encoding at the front, [None]
    where a byte is to be taken as [RuneError] of length 1. *)
Definition rune_len (l : list ascii) : option nat :=
  match l with
  | [] => None
  | a :: l =>
      if byte_in "000" "127" a then Some 1%nat
      else match l with
      | b :: l =>
          if byte_in "194" "223" a && cont b then Some 2%nat
          else match l with
          | c :: l =>
              if ((Ascii.eqb a "224" && byte_in "160" "191" b) || (Ascii.eqb a "237" && byte_in "128" "159" b) ||
                  ((byte_in "225" "236" a || byte_in "238" "239" a) && cont b)) && cont c then Some 3%nat
              else match l with
              | d :: _ =>
                  if ((Ascii.eqb a "240" && byte_in "144" "191" b) || (Ascii.eqb a "244" && byte_in "128" "143" b) ||
                      (byte_in "241" "243" a && cont b)) && cont c && cont d then Some 4%nat
                  else None
              | [] => None
              end
          | [] => None
          end
      | [] => None
      end
  end.

(** [utf8.RuneCount]; [skip] bytes of the rune at hand are left. *)
Fixpoint rune_count_go (skip : nat) (l : list ascii) : nat :=
  match l with
  | [] => O
  | _ :: l' =>
      match skip with
      | S k => rune_count_go k l'
      | O => S (rune_count_go (default 1%nat (rune_len l) - 1) l')
      end
  end.
Definition RuneCount (s : string) : nat := rune_count_go 0 (bytes s).

(** ** Strings *)

Definition hex4 (c : ascii) : string := String (hex_digit (N_of_ascii c / 16)) (String (hex_digit (N_of_ascii c mod 16)) "").

Definition dq : ascii := "034".   (* the double quote *)

(** A character below 0x80. *)
Definition escape (c : ascii) : string :=
  if Ascii.eqb c dq then String "\" (String dq "")
  else if Ascii.eqb c "\" then "\\"
  else if Ascii.eqb c "008" then "\b"
  else if Ascii.eqb c "009" then "\t"
  else if Ascii.eqb c "010" then "\n"
  else if Ascii.eqb c "012" then "\f"
  else if Ascii.eqb c "013" then "\r"
  else if byte_in "000" "031" c || Ascii.eqb c "<" || Ascii.eqb c ">" || Ascii.eqb c "&" then "\u00" +:+ hex4 c
  else String c "".

(** What is written for the rune of [n] bytes that starts with [c :: l]. *)
Definition line_separator (l : list ascii) : option string :=
  match l with
  | a :: b :: c :: _ =>
      if Ascii.eqb a "226" && Ascii.eqb b "128" then
        if Ascii.eqb c "168" then Some "\u2028" else if Ascii.eqb c "169" then Some "\u2029" else None
      else None
  | _ => None
  end.

(** [skip] bytes of the rune at hand are left, copied when [copy]. *)
Fixpoint appendString (copy : bool) (skip : nat) (l : list ascii) : string :=
  match l with
  | [] => ""
  | c :: l' =>
      match skip with
      | S k => if copy then String c (appendString copy k l') else appendString copy k l'
      | O =>
          match rune_len l with
          | None => "\ufffd" +:+ appendString true 0 l'
          | Some n =>
              if (n =? 1)%nat then escape c +:+ appendString true 0 l'
              else match line_separator l with
                   | Some e => e +:+ appendString false (n - 1) l'
                   | None => String c (appendString true (n - 1) l')
                   end
          end
      end
  end.
Definition quoteJSON (s : string) : string := String dq (appendString true 0 (bytes s) +:+ String dq "").

(** ** Values *)

Inductive json : Type :=
| JString (s : string)
| JBool (b : bool)
| JArray (l : list json)
| JObject (l : list (string * json)).

(** [json.Marshal] *)
Fixpoint Marshal (j : json) : string :=
  match j with
  | JString s => quoteJSON s
  | JBool b => if b then "true" else "false"
  | JArray l => "[" +:+ join "," (map Marshal l) +:+ "]"
  | JObject l => "{" +:+ join "," (map (λ kv, quoteJSON kv.1 +:+ ":" +:+ Marshal kv.2) l) +:+ "}"
  end.

(** ** Reading a string back *)

Definition unhex (c : ascii) : option N :=
  if is_digit c then Some (N_of_ascii c - 48)%N
  else if byte_in "a" "f" c then Some (N_of_ascii c - 87)%N
  else if byte_in "A" "F" c then Some (N_of_ascii c - 55)%N else None.
Definition getu4 (a b c d : ascii) : option N :=
  a ← unhex a; b ← unhex b; c ← unhex c; d ← unhex d; Some (((a * 16 + b) * 16 + c) * 16 + d)%N.
(** The UTF-8 of a code point below 0x10000 ([utf8.AppendRune]). *)
Definition utf8_of (n : N) : list ascii :=
  if (n <? 128)%N then [ascii_of_N n]
  else if (n <? 2048)%N then [ascii_of_N (192 + n / 64); ascii_of_N (128 + n mod 64)]
  else [ascii_of_N (224 + n / 4096); ascii_of_N (128 + n / 64 mod 64); ascii_of_N (128 + n mod 64)].

(** A literal after its opening quote: the bytes it stands for, and what follows
    its closing quote. *)
Fixpoint unquote (l : list ascii) : option (list ascii * list ascii) :=
  match l with
  | [] => None
  | c :: l' =>
      if Ascii.eqb c dq then Some ([], l')
      else if Ascii.eqb c "\" then
        match l' with
        | e :: l'' =>
            let short (b : ascii) := '(x, r) ← unquote l''; Some (b :: x, r) in
            if Ascii.eqb e dq then short dq
            else if Ascii.eqb e "\" then short "\"%char
            else if Ascii.eqb e "/" then short "/"%char
            else if Ascii.eqb e "b" then short "008"%char
            else if Ascii.eqb e "t" then short "009"%char
            else if Ascii.eqb e "n" then short "010"%char
            else if Ascii.eqb e "f" then short "012"%char
            else if Ascii.eqb e "r" then short "013"%char
            else if Ascii.eqb e "u" then
              match l'' with
              | h1 :: h2 :: h3 :: h4 :: l3 =>
                  n ← getu4 h1 h2 h3 h4; '(x, r) ← unquote l3; Some (utf8_of n ++ x, r)
              | _ => None
              end
            else None
        | [] => None
        end
      else if byte_in "000" "031" c then None
      else '(x, r) ← unquote l'; Some (c :: x, r)
  end.

(** What a reader of the literal gets: the string, each invalid byte replaced by
    U+FFFD. *)
Fixpoint valid_go (skip : nat) (l : list ascii) : list ascii :=
  match l with
  | [] => []
  | c :: l' =>
      match skip with
      | S k => c :: valid_go k l'
      | O => match rune_len l with
             | None => utf8_of 65533 ++ valid_go 0 l'
             | Some n => c :: valid_go (n - 1) l'
             end
      end
  end.
Definition valid_UTF8 (s : string) : string := of_bytes (valid_go 0 (bytes s)).

(** ** Lemmas *)

Definition high (c : ascii) : Prop := byte_in "128" "255" c = true.

Lemma byte_in_high lo hi c : byte_in lo hi c = true → byte_in "128" "255" lo = true → high c.
Proof.
  unfold high, byte_in. rewrite !andb_true_iff, !Nat.leb_le. intros [? ?] [? _]. pose proof (nat_ascii_bounded c).
  change (nat_of_ascii "255") with 255%nat. lia.
Qed.
#[local] Ltac hi := match goal with
  | H : byte_in ?lo ?hi ?c = true |- high ?c => apply (byte_in_high lo hi); [exact H|reflexivity]
  | H : cont ?c = true |- high ?c => apply (byte_in_high "128" "191"); [exact H|reflexivity]
  | H : Ascii.eqb ?c _ = true |- high ?c => apply Ascii.eqb_eq in H; subst c; reflexivity
  end.

(** The bytes of a rune after the first are above 0x7f, and so is the first
    unless it is the whole rune. *)
Lemma rune_len_cases a l n : rune_len (a :: l) = Some n →
  (n = 1%nat ∧ byte_in "000" "127" a = true) ∨
  (2 ≤ n ∧ high a ∧ n - 1 ≤ List.length l ∧ Forall high (take (n - 1) l))%nat.
Proof.
  intros H. cbn [rune_len] in H. destruct (byte_in "000" "127" a) eqn:Ha; [left; by simplify_eq|right].
  destruct l as [|b l]; [done|]. destruct (byte_in "194" "223" a && cont b) eqn:E2.
  { simplify_eq. apply andb_true_iff in E2 as [? ?]. cbn. repeat split; [lia|hi|lia|]. repeat constructor; hi. }
  destruct l as [|c l]; [done|]. destruct ((_ || _ || _) && cont c) eqn:E3.
  { simplify_eq. apply andb_true_iff in E3 as [E3 ?]. rewrite !orb_true_iff, !andb_true_iff, orb_true_iff in E3. cbn.
    split; [lia|]. split; [|split; [lia|]]; [|repeat constructor]; naive_solver (try hi). }
  destruct l as [|d l]; [done|]. destruct ((_ || _ || _) && cont c && cont d) eqn:E4; [|done].
  simplify_eq. apply andb_true_iff in E4 as [[E4 ?]%andb_true_iff ?]. rewrite !orb_true_iff, !andb_true_iff in E4. cbn.
  split; [lia|]. split; [|split; [lia|]]; [|repeat constructor]; naive_solver (try hi).
Qed.

Lemma escape_unquote c r : byte_in "000" "127" c = true →
  unquote (bytes (escape c) ++ r) = '(x, r') ← unquote r; Some (c :: x, r').
Proof. intros Hc. destruct c as [[] [] [] [] [] [] [] []]; first [reflexivity|discriminate Hc]. Qed.

Lemma high_unquote c r : high c → unquote (c :: r) = '(x, r') ← unquote r; Some (c :: x, r').
Proof. intros Hc. destruct c as [[] [] [] [] [] [] [] []]; first [reflexivity|discriminate Hc]. Qed.

Definition visible (c : ascii) : bool := negb (byte_in "000" "031" c).
Lemma escape_visible c : byte_in "000" "127" c = true → string_forallb visible (escape c) = true.
Proof. intros Hc. destruct c as [[] [] [] [] [] [] [] []]; first [reflexivity|discriminate Hc]. Qed.
Lemma high_visible c : high c → visible c = true.
Proof. intros Hc. destruct c as [[] [] [] [] [] [] [] []]; first [reflexivity|discriminate Hc]. Qed.

Lemma appendString_copy b l : appendString b 0 l = appendString true 0 l.
Proof. by destruct l. Qed.

Lemma line_separator_cases l e : line_separator l = Some e →
  ∃ c l', l = "226"%char :: "128"%char :: c :: l' ∧ ((c = "168"%char ∧ e = "\u2028") ∨ (c = "169"%char ∧ e = "\u2029")).
Proof.
  unfold line_separator. destruct l as [|a [|b [|c l']]]; [done..|].
  destruct (Ascii.eqb a "226" && Ascii.eqb b "128") eqn:Hab; [|done].
  apply andb_true_iff in Hab as [->%Ascii.eqb_eq ->%Ascii.eqb_eq].
  destruct (Ascii.eqb c "168") eqn:Hc; [apply Ascii.eqb_eq in Hc; intros [= <-]; exists c, l'; by auto|].
  destruct (Ascii.eqb c "169") eqn:Hd; [apply Ascii.eqb_eq in Hd; intros [= <-]; exists c, l'; by auto|done].
Qed.

Lemma escaped_rune r :
  unquote (bytes "\ufffd" ++ r) = ('(x, r') ← unquote r; Some (utf8_of 65533 ++ x, r')) ∧
  unquote (bytes "\u2028" ++ r) = ('(x, r') ← unquote r; Some (map ascii_of_nat [226; 128; 168]%nat ++ x, r')) ∧
  unquote (bytes "\u2029" ++ r) = ('(x, r') ← unquote r; Some (map ascii_of_nat [226; 128; 169]%nat ++ x, r')).
Proof. repeat split; reflexivity. Qed.

(** What is written from inside a rune, read back. *)
Lemma unquote_append rest n : ∀ l skip, (List.length l ≤ n)%nat → Forall high (take skip l) → 
  unquote (bytes (appendString true skip l) ++ dq :: rest) = Some (valid_go skip l, rest).
Proof.
  induction n as [|n IH]; intros [|c l] skip Hn Hh; cbn in Hn; try lia; [reflexivity..|].
  destruct skip as [|k]; cbn [appendString valid_go].
  - destruct (rune_len (c :: l)) as [m|] eqn:Hr.
    + destruct (rune_len_cases c l m Hr) as [[-> Hc]|(Hm & Hc & Hlen & Hl)]; cbn [Nat.eqb Nat.sub].
      * rewrite bytes_app, <- app_assoc, escape_unquote by done. by rewrite IH by (rewrite ?take_0; constructor || lia).
      * destruct (m =? 1)%nat eqn:Hm1; [apply Nat.eqb_eq in Hm1; lia|].
        destruct (line_separator (c :: l)) as [e|] eqn:Hsep.
        -- destruct (line_separator_cases _ _ Hsep) as (c3 & l' & [= -> ->] & He). cbn [List.length] in Hn.
           assert (m = 3%nat) as -> by (destruct He as [[-> _]|[-> _]]; vm_compute in Hr; congruence).
           rewrite bytes_app, <- app_assoc.
           change (appendString false (3 - 1) ("128"%char :: c3 :: l')) with (appendString false 0 l').
           change (valid_go (3 - 1) ("128"%char :: c3 :: l')) with ("128"%char :: c3 :: valid_go 0 l').
           rewrite appendString_copy. 
           destruct He as [[-> ->]|[-> ->]]; [rewrite (proj1 (proj2 (escaped_rune _)))|rewrite (proj2 (proj2 (escaped_rune _)))];
             by rewrite IH by (rewrite ?take_0; constructor || lia).
        -- change (bytes (String c ?x) ++ ?y) with (c :: (bytes x ++ y)). rewrite high_unquote by done.
           by rewrite IH by (done || lia).
    + rewrite bytes_app, <- app_assoc, (proj1 (escaped_rune _)). by rewrite IH by (rewrite ?take_0; constructor || lia).
  - apply Forall_cons in Hh as [Hc Hh]. change (bytes (String c ?x) ++ ?y) with (c :: (bytes x ++ y)).
    rewrite high_unquote by done. by rewrite IH by (done || lia).
Qed.

(** A string literal reads back as the string, whatever its bytes. *)
Lemma unquote_quoteJSON s rest :
  unquote (tail (bytes (quoteJSON s)) ++ rest) = Some (bytes (valid_UTF8 s), rest).
Proof.
  unfold quoteJSON, valid_UTF8. rewrite bytes_of_bytes.
  change (tail (bytes (String dq ?x))) with (bytes x). rewrite bytes_app, <- app_assoc.
  apply (unquote_append rest (List.length (bytes s))); [done|]. rewrite take_0. constructor.
Qed.

(** A literal holds no control character, so neither does a value. *)
Lemma appendString_visible n : ∀ b l skip, (List.length l ≤ n)%nat → (b = true → Forall high (take skip l)) →
  string_forallb visible (appendString b skip l) = true.
Proof.
  induction n as [|n IH]; intros b [|c l] skip Hn Hh; cbn in Hn; try lia; [done..|].
  destruct skip as [|k]; cbn [appendString].
  - destruct (rune_len (c :: l)) as [m|] eqn:Hr.
    + destruct (rune_len_cases c l m Hr) as [[-> Hc]|(Hm & Hc & Hlen & Hl)]; cbn [Nat.eqb Nat.sub].
      * rewrite forallb_append, escape_visible by done. apply IH; [lia|]. intros _. rewrite take_0. constructor.
      * destruct (m =? 1)%nat eqn:Hm1; [apply Nat.eqb_eq in Hm1; lia|].
        destruct (line_separator (c :: l)) as [e|] eqn:Hsep.
        -- rewrite forallb_append. apply andb_true_iff. split; [|by apply IH; [lia|]].
           destruct (line_separator_cases _ _ Hsep) as (? & ? & _ & [[_ ->]|[_ ->]]); reflexivity.
        -- rewrite forallb_String, high_visible by done. by apply IH; [lia|].
    + rewrite forallb_append. apply IH; [lia|]. intros _. rewrite take_0. constructor.
  - destruct b; [|by apply IH; [lia|]]. specialize (Hh eq_refl). apply Forall_cons in Hh as [Hc Hh].
    rewrite forallb_String, high_visible by done. by apply IH; [lia|].
Qed.

Lemma quoteJSON_visible s : string_forallb visible (quoteJSON s) = true.
Proof.
  unfold quoteJSON. rewrite forallb_String, forallb_append.
  rewrite (appendString_visible (List.length (bytes s))); [reflexivity|done|]. intros _. rewrite take_0. constructor.
Qed.

Lemma join_visible sep l : string_forallb visible sep = true → Forall (λ s, string_forallb visible s = true) l →
  string_forallb visible (join sep l) = true.
Proof.
  intros Hs Hl. induction Hl as [|a l Ha Hl IH]; [done|]. destruct l as [|b l]; [exact Ha|].
  change (join sep (a :: b :: l)) with (a +:+ sep +:+ join sep (b :: l)). by rewrite !forallb_append, Ha, Hs, IH.
Qed.

Lemma Marshal_visible : ∀ j, string_forallb visible (Marshal j) = true.
Proof.
  fix IH 1. intros [s|b|l|l]; cbn [Marshal].
  - apply quoteJSON_visible.
  - by destruct b.
  - rewrite !forallb_append, join_visible; [done..|]. induction l as [|j l IHl]; [constructor|].
    constructor; [apply IH|exact IHl].
  - rewrite !forallb_append, join_visible; [done..|]. induction l as [|[k v] l IHl]; [constructor|].
    constructor; [|exact IHl]. cbn [fst snd]. by rewrite !forallb_append, quoteJSON_visible, IH.
Qed.

(** A character outside a class does not occur in a string of that class. *)
Lemma forallb_free p sep s : p sep = false → string_forallb p s = true → free_of sep s = true.
Proof.
  unfold free_of, string_forallb. rewrite !forallb_forall. intros Hs Hv c Hc. apply negb_true_iff, Ascii.eqb_neq.
  intros ->. rewrite (Hv _ Hc) in Hs. done.
Qed.

Example quoteJSON_doc : quoteJSON (of_bytes ["<"; "010"; "\"; "255"; "008"; "226"; "128"; "168"]%char) =
  String dq ("\u003c\n\\\ufffd\b\u2028" +:+ String dq "").
Proof. reflexivity. Qed.
Example RuneCount_doc : RuneCount (of_bytes ["a"; "195"; "169"; "255"; "226"; "130"; "172"]%char) = 4%nat.
Proof. reflexivity. Qed.
