(* ===== verification/GoTabwriter.v ===== *)
(** * GoTabwriter: package text/tabwriter, as the operator's listings use it

    A writer with minimum width 0, padding 2, pad character a space and no
    flags. Text is split into lines of cells ([Write]); a cell that a tab ends
    belongs to the column block of the adjacent lines that have a cell there,
    is padded to the widest of them plus 2, and the last cell of a line is not
    padded ([format], [writeLines]). Widths count runes. A newline after a line
    of one cell also flushes in the source; no column block reaches over such a
    line, so nothing depends on it. *)
From S2P Require Import Prelude GoStrings GoJson.

Definition padding : Z := 2.

(** A cell: its text and its width. *)
Definition cell : Type := string * Z.
Definition Escape : ascii := "255".

(** ** Write

    [esc]: between two [Escape] bytes, where nothing ends a cell. [chunk] is
    the text since the width was last updated, [text] and [width] the cell so
    far. A form feed starts a new segment, formatted on its own. *)
Fixpoint split_text (l : list ascii) (esc : bool) (chunk text : string) (width : Z) (line : list cell)
    (lines : list (list cell)) : list (list (list cell)) :=
  let text' := text +:+ chunk in
  let width' := width + Z.of_nat (RuneCount chunk) in
  match l with
  | [] => [lines ++ [if bool_decide (text' = "") then line else line ++ [(text', if esc then width' - 2 else width')]]]
  | c :: l =>
      if esc then
        if Ascii.eqb c Escape
        then split_text l false "" (text' +:+ String c "") (width + Z.of_nat (RuneCount (chunk +:+ String c "")) - 2) line lines
        else split_text l true (chunk +:+ String c "") text width line lines
      else if Ascii.eqb c "009" || Ascii.eqb c "011" then split_text l false "" "" 0 (line ++ [(text', width')]) lines
      else if Ascii.eqb c "010" then split_text l false "" "" 0 [] (lines ++ [line ++ [(text', width')]])
      else if Ascii.eqb c "012" then
        (lines ++ [line ++ [(text', width')]; []]) :: split_text l false "" "" 0 [] []
      else if Ascii.eqb c Escape then split_text l true (String c "") text' width' line lines
      else split_text l false (chunk +:+ String c "") text width line lines
  end.

(** ** Flush *)

Fixpoint spaces (n : nat) : string := match n with O => "" | S n => String " " (spaces n) end.

(** A line, its cells padded to the widths of the columns it is in. *)
Fixpoint write_line (widths : list Z) (line : list cell) : string :=
  match line with
  | [] => ""
  | (text, w) :: line =>
      match widths with
      | width :: widths => text +:+ spaces (Z.to_nat (width - w)) +:+ write_line widths line
      | [] => text +:+ write_line [] line
      end
  end.

(** The line has a cell that a tab ends in this column. *)
Definition has_col (column : nat) (line : list cell) : bool := (column <? List.length line - 1)%nat.

(** The block at the front of the lines, and the rest. *)
Fixpoint span_block (column : nat) (lines : list (list cell)) : list (list cell) * list (list cell) :=
  match lines with
  | line :: lines' =>
      if has_col column line then let '(b, r) := span_block column lines' in (line :: b, r) else ([], lines)
  | [] => ([], [])
  end.
Definition cell_width (column : nat) (line : list cell) : Z := match line !! column with Some (_, w) => w | None => 0 end.
Definition block_width (column : nat) (block : list (list cell)) : Z :=
  foldr (λ line w, Z.max (cell_width column line + padding) w) 0 block.

(** [format]: the lines as printed. Each turn passes a line, or turns a block's
    column into a known one. *)
Fixpoint format (fuel : nat) (widths : list Z) (lines : list (list cell)) : list string :=
  match fuel, lines with
  | O, _ | _, [] => []
  | S fuel, line :: lines' =>
      let column := List.length widths in
      if has_col column line then
        let '(block, rest) := span_block column lines in
        format fuel (widths ++ [block_width column block]) block ++ format fuel widths rest
      else write_line widths line :: format fuel widths lines'
  end.
Definition weight (column : nat) (lines : list (list cell)) : nat :=
  foldr (λ line n, S (List.length line - column) + n)%nat 0%nat lines.

(** What is written for the text, by the final [Flush]. *)
Definition tabulate (s : string) : string :=
  join "" (map (λ lines, join nl (format (S (weight 0 lines)) [] lines)) (split_text (bytes s) false "" "" 0 [] [])).

(** ** Lemmas *)

Lemma weight_cons column line lines :
  weight column (line :: lines) = (S (List.length line - column) + weight column lines)%nat.
Proof. reflexivity. Qed.

Lemma span_block_weight column lines : 
  weight column lines = (weight column (span_block column lines).1 + weight column (span_block column lines).2)%nat ∧
  weight column (span_block column lines).1 =
    (weight (S column) (span_block column lines).1 + List.length (span_block column lines).1)%nat.
Proof.
  induction lines as [|line lines [IH1 IH2]]; [done|]. cbn [span_block].
  destruct (has_col column line) eqn:Hc; [|done]. unfold has_col in Hc. apply Nat.ltb_lt in Hc.
  destruct (span_block column lines) as [b r]. cbn [fst snd] in *. rewrite !weight_cons. cbn [List.length]. lia.
Qed.

(** The fuel [tabulate] starts with is enough. *)
Lemma format_fuel fuel : ∀ widths lines, (weight (List.length widths) lines < fuel)%nat →
  format fuel widths lines = format (S fuel) widths lines.
Proof.
  induction fuel as [|fuel IH]; intros widths [|line lines'] Hf; [lia..|done|].
  set (lines := line :: lines') in *. assert (Hl : lines = line :: lines') by done.
  change (format (S (S fuel)) widths lines) with
    (let column := List.length widths in
      if has_col column line then
        let '(block, rest) := span_block column lines in
        format (S fuel) (widths ++ [block_width column block]) block ++ format (S fuel) widths rest
      else write_line widths line :: format (S fuel) widths lines').
  change (format (S fuel) widths lines) with
    (let column := List.length widths in
      if has_col column line then
        let '(block, rest) := span_block column lines in
        format fuel (widths ++ [block_width column block]) block ++ format fuel widths rest
      else write_line widths line :: format fuel widths lines').
  cbv zeta. destruct (has_col (List.length widths) line) eqn:Hc.
  - destruct (span_block_weight (List.length widths) lines) as [H1 H2].
    assert (0 < List.length (span_block (List.length widths) lines).1)%nat as H3.
    { subst lines. cbn [span_block]. rewrite Hc. destruct (span_block _ lines'). cbn. lia. }
    destruct (span_block (List.length widths) lines) as [b r]. cbn [fst snd] in *.
    rewrite (IH (widths ++ _) b), (IH widths r); [done| |]; rewrite ?length_app; cbn [List.length]; rewrite ?Nat.add_1_r; lia.
  - rewrite (IH widths lines'); [done|]. subst lines. rewrite weight_cons in Hf. lia.
Qed.

(** ** Tables: every line has the same number of cells *)

(** A byte the writer does not act on. *)
Definition inert (c : ascii) : bool :=
  negb (Ascii.eqb c Escape || Ascii.eqb c "009" || Ascii.eqb c "010" || Ascii.eqb c "011" || Ascii.eqb c "012").
Definition plain_cell (s : string) : Prop := string_forallb inert s = true.
Definition cell_of (s : string) : cell := (s, Z.of_nat (RuneCount s)).

Lemma split_text_cell s l chunk text w line lines : plain_cell s →
  split_text (bytes s ++ l) false chunk text w line lines = split_text l false (chunk +:+ s) text w line lines.
Proof.
  unfold plain_cell. revert chunk. induction s as [|c s IH]; intros chunk Hs; [by rewrite append_nil_r|].
  rewrite forallb_String in Hs. apply andb_true_iff in Hs as [Hc Hs].
  unfold inert in Hc. rewrite negb_true_iff, !orb_false_iff in Hc. destruct Hc as [[[[H1 H2] H3] H4] H5].
  change (bytes (String c s) ++ l) with (c :: bytes s ++ l). cbn [split_text]. rewrite H1, H2, H3, H4, H5. cbn [orb].
  rewrite IH by done. by rewrite append_app, append_cons, append_nil.
Qed.

Lemma split_text_line cells l line lines : cells ≠ [] → Forall plain_cell cells →
  split_text (bytes (join tab cells +:+ nl) ++ l) false "" "" 0 line lines =
  split_text l false "" "" 0 [] (lines ++ [line ++ map cell_of cells]).
Proof.
  intros Hne Hp. revert line. induction Hp as [|c cells Hc Hp IH]; intros line; [done|].
  destruct cells as [|d cells].
  - change (join tab [c]) with c. rewrite bytes_app, <- app_assoc, split_text_cell by done.
    cbn [bytes nl list_ascii_of_string app split_text]. cbn. by rewrite !append_nil.
  - rewrite join_cons. rewrite bytes_app, bytes_app, <- !app_assoc, split_text_cell by done.
    rewrite bytes_app. change (bytes tab) with ["009"%char]. cbn [app]. cbn [split_text].
    rewrite append_nil. change (Ascii.eqb "009" Escape) with false. cbn [Ascii.eqb Bool.eqb andb orb]. 
    rewrite app_assoc, <- bytes_app. rewrite IH by done. rewrite <- app_assoc. done.
Qed.

Lemma split_text_table rows lines : Forall (λ r, r ≠ [] ∧ Forall plain_cell r) rows →
  split_text (bytes (join "" (map (λ r, join tab r +:+ nl) rows))) false "" "" 0 [] lines =
  [lines ++ map (map cell_of) rows ++ [[]]].
Proof.
  intros Hr. revert lines. induction Hr as [|r rows [Hne Hp] Hr IH]; intros lines; [done|].
  assert (join "" (map (λ r, join tab r +:+ nl) (r :: rows)) =
    (join tab r +:+ nl) +:+ join "" (map (λ r, join tab r +:+ nl) rows)) as ->.
  { cbn [map]. destruct (map _ rows); [|by rewrite join_cons, append_nil]. by rewrite append_nil_r. }
  rewrite bytes_app, split_text_line, IH by done. by rewrite <- app_assoc.
Qed.

Lemma format_flat fuel widths lines : (weight (List.length widths) lines < fuel)%nat →
  Forall (λ line, has_col (List.length widths) line = false) lines →
  format fuel widths lines = map (write_line widths) lines.
Proof.
  intros Hf Hl. revert fuel Hf. induction Hl as [|line lines Hc Hl IH]; intros [|fuel] Hf; [lia|done|lia|].
  cbn [format map]. rewrite Hc, IH; [done|]. rewrite weight_cons in Hf. lia.
Qed.

Lemma span_block_all column lines rest : Forall (λ line, has_col column line = true) lines →
  Forall (λ line, has_col column line = false) rest → span_block column (lines ++ rest) = (lines, rest).
Proof.
  intros Hl Hr. induction Hl as [|line lines Hc Hl IH]; cbn [span_block app]; [|by rewrite Hc, IH].
  destruct Hr as [|line rest Hc Hr]; [done|]. cbn [span_block]. by rewrite Hc.
Qed.

(** The columns from the first unknown one on. *)
Definition columns (from m : nat) (lines : list (list cell)) : list Z :=
  map (λ j, block_width j lines) (seq from (m - 1 - from)).

Lemma format_uniform fuel : ∀ widths lines m, lines ≠ [] → Forall (λ line, List.length line = m) lines →
  (List.length widths < m)%nat → (weight (List.length widths) lines < fuel)%nat →
  format fuel widths lines = map (write_line (widths ++ columns (List.length widths) m lines)) lines.
Proof.
  induction fuel as [|fuel IH]; intros widths lines m Hne Hm Hw Hf; [lia|].
  destruct (decide (m - 1 - List.length widths = 0)%nat) as [Hd|Hd].
  { unfold columns. rewrite Hd. cbn [seq map]. rewrite app_nil_r. apply format_flat; [done|].
    eapply Forall_impl; [exact Hm|]. intros line <-. unfold has_col. apply Nat.ltb_ge. lia. }
  assert (Hc : Forall (λ line, has_col (List.length widths) line = true) lines).
  { eapply Forall_impl; [exact Hm|]. intros line <-. unfold has_col. apply Nat.ltb_lt. lia. }
  pose proof (span_block_weight (List.length widths) lines) as [_ Hlight].
  pose proof (span_block_all (List.length widths) lines [] Hc (Forall_nil_2 _)) as Hspan. rewrite app_nil_r in Hspan.
  rewrite Hspan in Hlight. cbn [fst] in Hlight.
  assert (format (S fuel) widths lines =
    format fuel (widths ++ [block_width (List.length widths) lines]) lines ++ format fuel widths []) as ->.
  { destruct lines as [|line lines]; [done|]. inversion Hc as [|? ? Hc1 _]; subst. 
    change (format (S fuel) widths (line :: lines)) with
      (if has_col (List.length widths) line then
        let '(block, rest) := span_block (List.length widths) (line :: lines) in
        format fuel (widths ++ [block_width (List.length widths) block]) block ++ format fuel widths rest
      else write_line widths line :: format fuel widths lines). by rewrite Hc1, Hspan. }
  assert (format fuel widths [] = []) as -> by by destruct fuel. rewrite app_nil_r.
  assert (0 < List.length lines)%nat by (destruct lines; cbn; [done|lia]).
  rewrite (IH (widths ++ _) lines m); [|done|done|rewrite length_app; cbn [List.length]; lia|
    rewrite length_app; cbn [List.length]; rewrite Nat.add_1_r; lia].
  rewrite length_app. cbn [List.length]. rewrite Nat.add_1_r, <- app_assoc. unfold columns.
  replace (m - 1 - List.length widths)%nat with (S (m - 1 - S (List.length widths))) by lia. done.
Qed.

(** The lines of one block, then a last line it does not reach. *)
Lemma format_block fuel lines last m : lines ≠ [] → (2 ≤ m)%nat → Forall (λ line, List.length line = m) lines →
  has_col 0 last = false → (weight 0 (lines ++ [last]) < fuel)%nat →
  format fuel [] (lines ++ [last]) = map (write_line (columns 0 m lines)) lines ++ [write_line [] last].
Proof.
  intros Hne Hm2 Hm Hlast Hf.
  assert (Hc : Forall (λ line, has_col 0 line = true) lines).
  { eapply Forall_impl; [exact Hm|]. intros line <-. apply Nat.ltb_lt. lia. }
  pose proof (span_block_all 0 lines [last] Hc (Forall_cons_2 _ _ _ Hlast (Forall_nil_2 _))) as Hspan.
  destruct (span_block_weight 0 (lines ++ [last])) as [H1 H2]. rewrite Hspan in H1, H2. cbn [fst snd] in H1, H2.
  destruct fuel as [|fuel]; [lia|].
  assert (format (S fuel) [] (lines ++ [last]) = format fuel [block_width 0 lines] lines ++ format fuel [] [last]) as ->.
  { destruct lines as [|line lines]; [done|]. inversion Hc as [|? ? Hc1 _]; subst.
    change ((line :: lines) ++ [last]) with (line :: (lines ++ [last])) in Hspan |- *.
    change (format (S fuel) [] (line :: (lines ++ [last]))) with
      (if has_col 0 line then
        let '(block, rest) := span_block 0 (line :: (lines ++ [last])) in
        format fuel [block_width 0 block] block ++ format fuel [] rest
      else write_line [] line :: format fuel [] (lines ++ [last])). by rewrite Hc1, Hspan. }
  assert (0 < List.length lines)%nat by (destruct lines; cbn; [done|lia]).
  rewrite (format_uniform fuel [block_width 0 lines] lines m) by (done || (cbn [List.length]; lia)).
  rewrite (format_flat fuel [] [last]) by ((cbn [List.length]; lia) || by constructor).
  cbn [List.length app map]. unfold columns. replace (m - 1 - 0)%nat with (S (m - 1 - 1)) by lia. done.
Qed.

Lemma join_nl_last lines : join nl (lines ++ [""]) = join "" (map (λ line, line +:+ nl) lines).
Proof.
  induction lines as [|x lines IH]; [done|]. destruct lines as [|y lines].
  - cbn. by rewrite append_nil_r.
  - change ((x :: y :: lines) ++ [""]) with (x :: y :: (lines ++ [""])). cbn [map] in *. rewrite !join_cons.
    change (y :: lines ++ [""]) with ((y :: lines) ++ [""]). rewrite IH. by rewrite append_nil, append_app.
Qed.

(** A table as it is printed. *)
Definition table_columns (m : nat) (rows : list (list string)) : list Z := columns 0 m (map (map cell_of) rows).

Lemma tabulate_table rows m : rows ≠ [] → (2 ≤ m)%nat →
  Forall (λ r, List.length r = m ∧ Forall plain_cell r) rows →
  tabulate (join "" (map (λ r, join tab r +:+ nl) rows)) =
  join "" (map (λ r, write_line (table_columns m rows) (map cell_of r) +:+ nl) rows).
Proof.
  intros Hne Hm Hr. unfold tabulate.
  rewrite split_text_table by (eapply Forall_impl; [exact Hr|]; intros r [Hl Hp]; split; [by destruct r; cbn in *; [lia|]|done]).
  cbn [app map]. set (lines := map (map cell_of) rows).
  rewrite (format_block _ lines [] m); [|unfold lines; by destruct rows|done| |done|lia].
  - cbn [write_line]. rewrite join_nl_last. cbn [join]. unfold table_columns, lines. by rewrite !map_map.
  - apply Forall_map. eapply Forall_impl; [exact Hr|]. intros r [Hl _]. cbn. by rewrite length_map.
Qed.
