(* ===== verification/Config.v ===== *)
(** * Config: the startup configuration (internal/config/config.go)

    Every knob is an environment variable, read once; [Load] checks all of them
    and reports every fault. The loader's state is the list of problems found
    so far. [url.Parse] and [%q] formatting are parameters: no theorem depends
    on what they print, and of a parsed URL only the scheme is read. *)
From S2P Require Import Prelude GoTime GoStrings Policy.

Definition envStateDir : string := "DEVMON_STATE_DIR".
Definition envListenAddr : string := "DEVMON_LISTEN_ADDR".
Definition envPublicAddr : string := "DEVMON_PUBLIC_ADDR".
Definition envPolicyMode : string := "DEVMON_POLICY_MODE".
Definition envDockerHost : string := "DEVMON_DOCKER_HOST".
Definition envLogLevel : string := "DEVMON_LOG_LEVEL".
Definition envLogMaxAgeDays : string := "DEVMON_LOG_MAX_AGE_DAYS".
Definition envLogMaxTotalMB : string := "DEVMON_LOG_MAX_TOTAL_MB".
Definition envAuditMaxAgeDays : string := "DEVMON_AUDIT_MAX_AGE_DAYS".
Definition envAuditMaxRows : string := "DEVMON_AUDIT_MAX_ROWS".
Definition envSelfContainer : string := "DEVMON_SELF_CONTAINER".
Definition envProtectedContainers : string := "DEVMON_PROTECTED_CONTAINERS".
Definition envRateStatusPerMin : string := "DEVMON_RATE_STATUS_PER_MIN".
Definition envRatePairPerMin : string := "DEVMON_RATE_PAIR_PER_MIN".
Definition envRateGuardedPerSec : string := "DEVMON_RATE_GUARDED_PER_SEC".
Definition envPairTTLMax : string := "DEVMON_PAIR_TTL_MAX_MIN".

Definition defaultStateDir : string := "/var/lib/devmon".
Definition defaultListenAddr : string := ":8443".
Definition defaultDockerHost : string := "unix:///var/run/docker.sock".
Definition defaultLogLevel : string := "info".
Definition defaultLogMaxAgeDays : Z := 1.
Definition defaultLogMaxTotalMB : Z := 64.
Definition defaultAuditMaxAgeDays : Z := 365.
Definition defaultAuditMaxRows : Z := 100000.
Definition defaultRateStatusPerMin : Z := 30.
Definition defaultRatePairPerMin : Z := 5.
Definition defaultRateGuardedPerSec : Z := 20.
Definition defaultPairTTLMaxMin : Z := 10.

Definition minPort : Z := 1.
Definition maxPort : Z := 65535.
Definition minLogMaxTotalMB : Z := 8.
Definition minDays : Z := 1.
Definition minAuditMaxRows : Z := 1000.
Definition minRatePerX : Z := 1.
Definition maxDNSLabelLen : nat := 63.
Definition maxDNSNameLen : nat := 253.
Definition minPairTTLMaxMin : Z := 5.
Definition maxPairTTLMaxMin : Z := 60.
Definition hoursPerDay : Z := 24.

(** [containerRefPattern]: [^[a-zA-Z0-9][a-zA-Z0-9_.-]+$] *)
Definition containerRefPattern (s : string) : bool :=
  match s with
  | String c (String _ _ as rest) =>
      is_alnum c &&
      string_forallb (λ c, is_alnum c || Ascii.eqb c "_" || Ascii.eqb c "." || Ascii.eqb c "-") rest
  | _ => false
  end.

(** [type Config struct] *)
Record Config : Type := MkConfig {
  StateDir : string; ListenAddr : string; PublicAddrs : list string; PolicyMode : Mode;
  DockerHost : string; LogLevel : level; LogMaxAge : Z; LogMaxTotalMB : Z; AuditMaxAge : Z;
  AuditMaxRows : Z; RateStatusPerMin : Z; RatePairPerMin : Z; RateGuardedPerSec : Z;
  PairTTLMax : Z; SelfContainer : string; ProtectedContainers : list string }.

(** [filepath.Join(dir, name)] of an absolute [dir] without dots or double
    slashes, which is how operators write it. *)
Definition join_path (dir name : string) : string := trim_suffix "/" dir +:+ "/" +:+ name.
Definition DBPath (c : Config) : string := join_path (StateDir c) "devmon.db".
Definition CertsDir (c : Config) : string := join_path (StateDir c) "certs".
Definition LogsDir (c : Config) : string := join_path (StateDir c) "logs".
Definition AgentLogPath (c : Config) : string := join_path (LogsDir c) "agent.log".

(** [func isAbsPath]: on the image's platform an absolute path is one that
    starts with a slash. *)
Definition isAbsPath (p : string) : bool := has_prefix "/" p.

(** [func isValidDNSLabel] *)
Definition isValidDNSLabel (label : string) : bool :=
  if bool_decide (label = "") || (maxDNSLabelLen <? String.length label)%nat then false
  else if has_prefix "-" label || has_suffix "-" label then false
  else string_forallb (λ c, is_lower c || is_upper c || is_digit c || Ascii.eqb c "-") label.

(** [func isValidDNSName] *)
Definition isValidDNSName (s : string) : bool :=
  if bool_decide (s = "") || (maxDNSNameLen <? String.length s)%nat then false
  else forallb isValidDNSLabel (split_on "." (trim_suffix "." s)).

(** [func isValidSAN] *)
Definition isValidSAN (e : string) : bool :=
  if string_existsb (λ c, Ascii.eqb c ":" || Ascii.eqb c "/") e then false
  else if ParseIPv4 e then true
  else isValidDNSName e.

Section Load.
(** [strconv.Quote] ([%q]), and [url.Parse]: the scheme, or an error. *)
Context (quote : string → string) (url_scheme : string → result string).
Context (getenv : string → string).

(** [type loader struct]: the problems so far. *)
Definition Loader (A : Type) : Type := list string → A * list string.
#[local] Instance loader_ret : MRet Loader := λ A a ps, (a, ps).
#[local] Instance loader_bind : MBind Loader := λ A B f m ps, let '(a, ps) := m ps in f a ps.

(** [func (l *loader) fail] *)
Definition fail (key text : string) : Loader unit := λ ps, (tt, ps ++ [key +:+ ": " +:+ text]).

(** [func (l *loader) raw] *)
Definition raw (key def : string) : string :=
  let v := TrimSpace (getenv key) in if bool_decide (v = "") then def else v.

Definition err_text (e : error) : string :=
  (fix go e := match e with
    | Sentinel _ => "error" | Wrapf a e b => a +:+ go e +:+ b | Leaf m => m end) e.

(** [func (l *loader) stateDir] *)
Definition stateDir : Loader string :=
  let dir := raw envStateDir defaultStateDir in
  (if isAbsPath dir then mret tt
   else fail envStateDir (quote dir +:+ " is not an absolute path")) ≫= λ _,
  mret dir.

(** [func (l *loader) listenAddr] *)
Definition listenAddr : Loader string :=
  let addr := raw envListenAddr defaultListenAddr in
  match SplitHostPort addr with
  | Err err =>
      fail envListenAddr (quote addr +:+ " is not a valid host:port (" +:+ err_text err +:+ ")") ≫= λ _,
      mret addr
  | Ok (_, port) =>
      (if match Atoi port with
          | None => true
          | Some n => (n <? minPort) || (maxPort <? n)
          end
       then fail envListenAddr ("port " +:+ quote port +:+ " is not in " +:+ pretty minPort +:+ "-"
                                  +:+ pretty maxPort)
       else mret tt) ≫= λ _,
      mret addr
  end.

(** The loop of [publicAddrs]: the addresses and [hadInvalidEntry]. *)
Fixpoint public_loop (parts : list string) (addrs : list string) (hadInvalidEntry : bool)
    : Loader (list string * bool) :=
  match parts with
  | [] => mret (addrs, hadInvalidEntry)
  | part :: parts =>
      let e := TrimSpace part in
      if bool_decide (e = "") then public_loop parts addrs hadInvalidEntry
      else if negb (isValidSAN e) then
        fail envPublicAddr (quote e +:+ " is not a valid DNS name or IP address") ≫= λ _,
        public_loop parts addrs true
      else public_loop parts (addrs ++ [e]) hadInvalidEntry
  end.

(** [func (l *loader) publicAddrs] *)
Definition publicAddrs : Loader (list string) :=
  let r := raw envPublicAddr "" in
  if bool_decide (r = "") then
    fail envPublicAddr "is required (server certificate SANs; no default is safe)" ≫= λ _, mret []
  else
    '(addrs, hadInvalidEntry) ← public_loop (split_on "," r) [] false;
    (if bool_decide (addrs = []) && negb hadInvalidEntry
     then fail envPublicAddr "must list at least one address" else mret tt) ≫= λ _,
    mret addrs.

(** [func (l *loader) policyMode] *)
Definition policyMode : Loader Mode :=
  let '(mode, err) := ParseMode (raw envPolicyMode "") in
  (match err with Some e => fail envPolicyMode (err_text e) | None => mret tt end) ≫= λ _,
  mret mode.

(** [func (l *loader) dockerHost] *)
Definition dockerHost : Loader string :=
  let host := raw envDockerHost defaultDockerHost in
  match url_scheme host with
  | Err err =>
      fail envDockerHost (quote host +:+ " is not a valid URL (" +:+ err_text err +:+ ")") ≫= λ _,
      mret host
  | Ok scheme =>
      (if negb (bool_decide (scheme = "unix")) && negb (bool_decide (scheme = "tcp"))
       then fail envDockerHost ("scheme " +:+ quote scheme +:+ " is not supported (want one of: unix, tcp)")
       else mret tt) ≫= λ _,
      mret host
  end.

Definition bad_ref (ref : string) : string :=
  quote ref +:+ " is not a valid container name or ID (want two or more characters matching [a-zA-Z0-9][a-zA-Z0-9_.-])".

(** [func (l *loader) selfContainer] *)
Definition selfContainer : Loader string :=
  let ref := raw envSelfContainer "" in
  if bool_decide (ref = "") then mret ""
  else
    (if negb (containerRefPattern ref) then fail envSelfContainer (bad_ref ref) else mret tt) ≫= λ _,
    mret ref.

(** The loop of [protectedContainers]; what is seen is what is kept. *)
Fixpoint protected_loop (parts : list string) (entries : list string) : Loader (list string) :=
  match parts with
  | [] => mret entries
  | part :: parts =>
      let e := TrimSpace part in
      if bool_decide (e = "") then protected_loop parts entries
      else if negb (containerRefPattern e) then
        fail envProtectedContainers (bad_ref e) ≫= λ _, protected_loop parts entries
      else if bool_decide (e ∈ entries) then protected_loop parts entries
      else protected_loop parts (entries ++ [e])
  end.

(** [func (l *loader) protectedContainers] *)
Definition protectedContainers : Loader (list string) :=
  let r := raw envProtectedContainers "" in
  if bool_decide (r = "") then mret [] else protected_loop (split_on "," r) [].

(** [func (l *loader) logLevel] *)
Definition logLevel : Loader level :=
  let name := raw envLogLevel defaultLogLevel in
  if bool_decide (name = "debug") then mret LevelDebug
  else if bool_decide (name = "info") then mret LevelInfo
  else if bool_decide (name = "warn") then mret LevelWarn
  else if bool_decide (name = "error") then mret LevelError
  else
    fail envLogLevel (quote name +:+ " is not a valid level (want one of: debug, info, warn, error)") ≫= λ _,
    mret LevelInfo.

(** [func (l *loader) boundedInt] *)
Definition boundedInt (key : string) (def min : Z) : Loader Z :=
  let r := raw key "" in
  if bool_decide (r = "") then mret def
  else match Atoi r with
       | None => fail key (quote r +:+ " is not an integer") ≫= λ _, mret def
       | Some n =>
           if n <? min
           then fail key (pretty n +:+ " is below the minimum of " +:+ pretty min) ≫= λ _, mret def
           else mret n
       end.

(** [func (l *loader) rangedInt] *)
Definition rangedInt (key : string) (def min max : Z) : Loader Z :=
  let r := raw key "" in
  if bool_decide (r = "") then mret def
  else match Atoi r with
       | None => fail key (quote r +:+ " is not an integer") ≫= λ _, mret def
       | Some n =>
           if (n <? min) || (max <? n)
           then fail key (pretty n +:+ " is not in " +:+ pretty min +:+ "-" +:+ pretty max) ≫= λ _, mret def
           else mret n
       end.

(** [time.Duration(n) * hoursPerDay * time.Hour], on int64. *)
Definition days_duration (n : Z) : Z := wrap64 (wrap64 (n * hoursPerDay) * Hour).

(** [func (l *loader) days] *)
Definition days (key : string) (def : Z) : Loader Z :=
  n ← boundedInt key def minDays; mret (days_duration n).

(** [func (l *loader) minutes] *)
Definition minutes (key : string) (def min max : Z) : Loader Z :=
  n ← rangedInt key def min max; mret (wrap64 (n * Minute)).

(** [func (l *loader) checkRetentionOrder] *)
Definition checkRetentionOrder (cfg : Config) : Loader unit :=
  if AuditMaxAge cfg <? LogMaxAge cfg
  then fail envAuditMaxAgeDays
         (pretty (Z.quot (AuditMaxAge cfg) Day) +:+ " days is shorter than " +:+ envLogMaxAgeDays +:+ " ("
            +:+ pretty (Z.quot (LogMaxAge cfg) Day)
            +:+ " days); the audit record must outlive operational logs")
  else mret tt.

(** The fields of [Load]'s [Config] literal, in the order Go evaluates them. *)
Definition fields : Loader Config :=
  sd ← stateDir;
  la ← listenAddr;
  pa ← publicAddrs;
  pm ← policyMode;
  dh ← dockerHost;
  ll ← logLevel;
  lage ← days envLogMaxAgeDays defaultLogMaxAgeDays;
  ltot ← boundedInt envLogMaxTotalMB defaultLogMaxTotalMB minLogMaxTotalMB;
  aage ← days envAuditMaxAgeDays defaultAuditMaxAgeDays;
  arows ← boundedInt envAuditMaxRows defaultAuditMaxRows minAuditMaxRows;
  rs ← boundedInt envRateStatusPerMin defaultRateStatusPerMin minRatePerX;
  rp ← boundedInt envRatePairPerMin defaultRatePairPerMin minRatePerX;
  rg ← boundedInt envRateGuardedPerSec defaultRateGuardedPerSec minRatePerX;
  ttl ← minutes envPairTTLMax defaultPairTTLMaxMin minPairTTLMaxMin maxPairTTLMaxMin;
  sc ← selfContainer;
  pc ← protectedContainers;
  mret (MkConfig sd la pa pm dh ll lage ltot aage arows rs rp rg ttl sc pc).

(** [func Load]: the configuration, or the problems of the
    [*ValidationError]. *)
Definition Load : Config + list string :=
  let '(cfg, problems) := (cfg ← fields; checkRetentionOrder cfg ≫= λ _, mret cfg) [] in
  match problems with [] => inl cfg | _ :: _ => inr problems end.
End Load.

(** ** Lemmas *)

Section Lemmas.
Context (quote : string → string) (url_scheme : string → result string).
Context (getenv : string → string).
#[local] Existing Instance loader_ret.
#[local] Existing Instance loader_bind.

(** What a parser yields, and the problems it adds. *)
Definition value {A} (m : Loader A) : A := (m []).1.
Definition problems {A} (m : Loader A) : list string := (m []).2.

(** A parser appends to the list of problems and does not read it. *)
Definition appends {A} (m : Loader A) : Prop := ∀ ps, m ps = (value m, ps ++ problems m).

Lemma appends_ret {A} (a : A) : appends (mret a).
Proof. intros ps. cbn. unfold problems. cbn. by rewrite app_nil_r. Qed.

Lemma appends_fail key text : appends (fail key text).
Proof. intros ps. done. Qed.

Lemma bind_run {A B} (m : Loader A) (f : A → Loader B) ps :
  appends m → (m ≫= f) ps = f (value m) (ps ++ problems m).
Proof. intros Hm. unfold mbind, loader_bind. by rewrite Hm. Qed.

Lemma value_bind {A B} (m : Loader A) (f : A → Loader B) :
  appends m → (∀ a, appends (f a)) → value (m ≫= f) = value (f (value m)).
Proof. intros Hm Hf. unfold value at 1. by rewrite bind_run, Hf. Qed.

Lemma problems_bind {A B} (m : Loader A) (f : A → Loader B) :
  appends m → (∀ a, appends (f a)) → problems (m ≫= f) = problems m ++ problems (f (value m)).
Proof. intros Hm Hf. unfold problems at 1. by rewrite bind_run, Hf. Qed.

Lemma appends_bind {A B} (m : Loader A) (f : A → Loader B) :
  appends m → (∀ a, appends (f a)) → appends (m ≫= f).
Proof.
  intros Hm Hf ps. rewrite value_bind, problems_bind, bind_run by done.
  by rewrite Hf, app_assoc.
Qed.

Ltac appends_tac :=
  repeat first [ apply appends_ret | apply appends_fail | apply appends_bind; [|intros ?]
               | progress case_match ].

Lemma appends_public_loop parts : ∀ addrs b, appends (public_loop quote parts addrs b).
Proof. induction parts as [|p parts IH]; intros addrs b; cbn [public_loop]; appends_tac; apply IH. Qed.

Lemma appends_protected_loop parts : ∀ es, appends (protected_loop quote parts es).
Proof. induction parts as [|p parts IH]; intros es; cbn [protected_loop]; appends_tac; apply IH. Qed.

Lemma appends_stateDir : appends (stateDir quote getenv).
Proof. unfold stateDir. appends_tac. Qed.
Lemma appends_listenAddr : appends (listenAddr quote getenv).
Proof. unfold listenAddr. appends_tac. Qed.
Lemma appends_publicAddrs : appends (publicAddrs quote getenv).
Proof. unfold publicAddrs. appends_tac. apply appends_public_loop. Qed.
Lemma appends_policyMode : appends (policyMode getenv).
Proof. unfold policyMode. appends_tac. Qed.
Lemma appends_dockerHost : appends (dockerHost quote url_scheme getenv).
Proof. unfold dockerHost. appends_tac. Qed.
Lemma appends_logLevel : appends (logLevel quote getenv).
Proof. unfold logLevel. appends_tac. Qed.
Lemma appends_boundedInt key def min : appends (boundedInt quote getenv key def min).
Proof. unfold boundedInt. appends_tac. Qed.
Lemma appends_rangedInt key def min max : appends (rangedInt quote getenv key def min max).
Proof. unfold rangedInt. appends_tac. Qed.
Lemma appends_days key def : appends (days quote getenv key def).
Proof. unfold days. apply appends_bind; [apply appends_boundedInt|intros; apply appends_ret]. Qed.
Lemma appends_minutes key def min max : appends (minutes quote getenv key def min max).
Proof. unfold minutes. apply appends_bind; [apply appends_rangedInt|intros; apply appends_ret]. Qed.
Lemma appends_selfContainer : appends (selfContainer quote getenv).
Proof. unfold selfContainer. appends_tac. Qed.
Lemma appends_protectedContainers : appends (protectedContainers quote getenv).
Proof. unfold protectedContainers. case_match; [apply appends_ret|apply appends_protected_loop]. Qed.
Lemma appends_checkRetentionOrder cfg : appends (checkRetentionOrder cfg).
Proof. unfold checkRetentionOrder. appends_tac. Qed.

(** The configuration the fields give, whatever problems they have. *)
Definition parsed : Config :=
  MkConfig (value (stateDir quote getenv)) (value (listenAddr quote getenv))
    (value (publicAddrs quote getenv)) (value (policyMode getenv))
    (value (dockerHost quote url_scheme getenv)) (value (logLevel quote getenv))
    (value (days quote getenv envLogMaxAgeDays defaultLogMaxAgeDays))
    (value (boundedInt quote getenv envLogMaxTotalMB defaultLogMaxTotalMB minLogMaxTotalMB))
    (value (days quote getenv envAuditMaxAgeDays defaultAuditMaxAgeDays))
    (value (boundedInt quote getenv envAuditMaxRows defaultAuditMaxRows minAuditMaxRows))
    (value (boundedInt quote getenv envRateStatusPerMin defaultRateStatusPerMin minRatePerX))
    (value (boundedInt quote getenv envRatePairPerMin defaultRatePairPerMin minRatePerX))
    (value (boundedInt quote getenv envRateGuardedPerSec defaultRateGuardedPerSec minRatePerX))
    (value (minutes quote getenv envPairTTLMax defaultPairTTLMaxMin minPairTTLMaxMin maxPairTTLMaxMin))
    (value (selfContainer quote getenv)) (value (protectedContainers quote getenv)).

(** Each field's own problems, in the order of the fields. *)
Definition own_problems : list (list string) :=
  [problems (stateDir quote getenv); problems (listenAddr quote getenv);
   problems (publicAddrs quote getenv); problems (policyMode getenv);
   problems (dockerHost quote url_scheme getenv); problems (logLevel quote getenv);
   problems (days quote getenv envLogMaxAgeDays defaultLogMaxAgeDays);
   problems (boundedInt quote getenv envLogMaxTotalMB defaultLogMaxTotalMB minLogMaxTotalMB);
   problems (days quote getenv envAuditMaxAgeDays defaultAuditMaxAgeDays);
   problems (boundedInt quote getenv envAuditMaxRows defaultAuditMaxRows minAuditMaxRows);
   problems (boundedInt quote getenv envRateStatusPerMin defaultRateStatusPerMin minRatePerX);
   problems (boundedInt quote getenv envRatePairPerMin defaultRatePairPerMin minRatePerX);
   problems (boundedInt quote getenv envRateGuardedPerSec defaultRateGuardedPerSec minRatePerX);
   problems (minutes quote getenv envPairTTLMax defaultPairTTLMaxMin minPairTTLMaxMin maxPairTTLMaxMin);
   problems (selfContainer quote getenv); problems (protectedContainers quote getenv);
   problems (checkRetentionOrder parsed)].

Lemma Load_run :
  Load quote url_scheme getenv =
    match List.concat own_problems with [] => inl parsed | ps => inr ps end.
Proof.
  assert ((cfg ← fields quote url_scheme getenv; checkRetentionOrder cfg ≫= λ _, mret cfg) []
    = (parsed, List.concat own_problems)) as Hrun.
  { unfold fields, mbind, loader_bind.
    rewrite appends_stateDir, appends_listenAddr, appends_publicAddrs, appends_policyMode,
      appends_dockerHost, appends_logLevel, appends_days, appends_boundedInt, appends_days,
      !appends_boundedInt, appends_minutes, appends_selfContainer, appends_protectedContainers.
    cbv beta iota delta [mret loader_ret]. rewrite appends_checkRetentionOrder.
    unfold own_problems. cbn [List.concat]. rewrite app_nil_r, <- !app_assoc. done. }
  unfold Load. rewrite Hrun. by destruct (List.concat own_problems).
Qed.

(** *** What the absence of problems says of each value *)

Lemma problems_fail {A} key text (a : A) : problems (fail key text ≫= λ _, mret a) ≠ [].
Proof. done. Qed.

Lemma stateDir_ok : problems (stateDir quote getenv) = [] → has_prefix "/" (value (stateDir quote getenv)) = true.
Proof. unfold stateDir, isAbsPath. destruct (has_prefix "/" _) eqn:H; done. Qed.

Lemma listenAddr_ok :
  problems (listenAddr quote getenv) = [] →
  ∃ host port n, SplitHostPort (value (listenAddr quote getenv)) = Ok (host, port) ∧
    Atoi port = Some n ∧ 1 <= n <= 65535.
Proof.
  unfold listenAddr. set (addr := raw getenv _ _).
  destruct (SplitHostPort addr) as [[host port]|e] eqn:Hs; [|done].
  destruct (Atoi port) as [n|] eqn:Hn; [|done].
  destruct ((n <? minPort) || (maxPort <? n)) eqn:Hb; [done|]. intros _.
  exists host, port, n. cbn. unfold minPort, maxPort in Hb. to_prop. auto.
Qed.

Lemma public_loop_valid parts addrs b :
  Forall (λ e, isValidSAN e = true) addrs →
  Forall (λ e, isValidSAN e = true) (value (public_loop quote parts addrs b)).1 ∧
  (problems (public_loop quote parts addrs b) = [] → (value (public_loop quote parts addrs b)).2 = b).
Proof.
  revert addrs b. induction parts as [|p parts IH]; intros addrs b Ha; cbn [public_loop]; [done|].
  case_bool_decide; [by apply IH|]. destruct (isValidSAN (TrimSpace p)) eqn:He; cbn [negb].
  - apply IH. apply Forall_app. auto.
  - rewrite value_bind, problems_bind by (apply appends_fail || (intros; apply appends_public_loop)).
    split; [by apply IH|done].
Qed.

Lemma publicAddrs_ok :
  problems (publicAddrs quote getenv) = [] →
  value (publicAddrs quote getenv) ≠ [] ∧
  Forall (λ e, isValidSAN e = true) (value (publicAddrs quote getenv)).
Proof.
  unfold publicAddrs. case_bool_decide; [done|].
  set (m := public_loop quote _ [] false).
  destruct (public_loop_valid (split_on "," (raw getenv envPublicAddr "")) [] false ltac:(constructor)) as [Hv Hb].
  fold m in Hv, Hb. destruct (m []) as [[addrs bad] ps] eqn:Hm.
  unfold value, problems, mbind, loader_bind in *. rewrite Hm in *. cbn in *.
  case_bool_decide; cbn.
  - destruct bad; cbn; [|by destruct ps]. intros ->. by specialize (Hb eq_refl).
  - by intros _.
Qed.

Lemma policyMode_ok : 0 <= value (policyMode getenv) <= 2.
Proof.
  unfold policyMode. destruct (ParseMode _) as [m err] eqn:H.
  assert (0 <= m <= 2).
  { unfold ParseMode, ModeDefault, ModeReadOnly, ModeFull in H.
    repeat case_bool_decide; simplify_eq; lia. }
  by destruct err.
Qed.

Lemma dockerHost_ok :
  problems (dockerHost quote url_scheme getenv) = [] →
  url_scheme (value (dockerHost quote url_scheme getenv)) ∈ [Ok "unix"; Ok "tcp"].
Proof.
  unfold dockerHost. set (h := raw getenv _ _). destruct (url_scheme h) as [s|e] eqn:Hs; [|done].
  repeat case_bool_decide; cbn; intros; simplify_eq; rewrite ?Hs; set_solver.
Qed.

Lemma boundedInt_ok key def min :
  min <= def → in_int64 def →
  min <= value (boundedInt quote getenv key def min) ∧ in_int64 (value (boundedInt quote getenv key def min)).
Proof.
  intros Hd Hi. unfold boundedInt. case_bool_decide; [done|].
  destruct (Atoi _) as [n|] eqn:Hn; [|done]. apply Atoi_in_int64 in Hn.
  destruct (Z.ltb_spec n min); done.
Qed.

Lemma rangedInt_ok key def min max :
  min <= def <= max → min <= value (rangedInt quote getenv key def min max) <= max.
Proof.
  intros Hd. unfold rangedInt. case_bool_decide; [done|].
  destruct (Atoi _) as [n|]; [|done]. destruct (_ || _) eqn:Ho; [done|]. to_prop. cbn. lia.
Qed.

Lemma selfContainer_ok :
  problems (selfContainer quote getenv) = [] →
  value (selfContainer quote getenv) = "" ∨ containerRefPattern (value (selfContainer quote getenv)) = true.
Proof.
  unfold selfContainer. case_bool_decide; [by left|].
  destruct (containerRefPattern _) eqn:Hp; [by right|done].
Qed.

Lemma protected_loop_ok parts es :
  Forall (λ e, containerRefPattern e = true) es → NoDup es →
  Forall (λ e, containerRefPattern e = true) (value (protected_loop quote parts es)) ∧
  NoDup (value (protected_loop quote parts es)).
Proof.
  revert es. induction parts as [|p parts IH]; intros es Hf Hn; cbn [protected_loop]; [done|].
  case_bool_decide; [by apply IH|]. destruct (containerRefPattern (TrimSpace p)) eqn:He; cbn [negb].
  - case_bool_decide; [by apply IH|]. apply IH; [by apply Forall_app; auto|].
    apply NoDup_app. split; [done|]. split; [|apply NoDup_singleton]. set_solver.
  - rewrite value_bind by (apply appends_fail || (intros; apply appends_protected_loop)). by apply IH.
Qed.

Lemma protectedContainers_ok :
  Forall (λ e, containerRefPattern e = true) (value (protectedContainers quote getenv)) ∧
  NoDup (value (protectedContainers quote getenv)).
Proof.
  unfold protectedContainers. case_bool_decide; [split; constructor|].
  apply protected_loop_ok; constructor.
Qed.

Lemma value_days key def : value (days quote getenv key def) =
  days_duration (value (boundedInt quote getenv key def minDays)).
Proof. unfold days. rewrite value_bind; [done|apply appends_boundedInt|intros; apply appends_ret]. Qed.

Lemma value_minutes key def min max : value (minutes quote getenv key def min max) =
  wrap64 (value (rangedInt quote getenv key def min max) * Minute).
Proof. unfold minutes. rewrite value_bind; [done|apply appends_rangedInt|intros; apply appends_ret]. Qed.
End Lemmas.

(** Days are days up to the largest count whose nanoseconds fit an int64. *)
Definition maxDays : Z := 106751.

Lemma days_duration_exact n : - maxDays <= n <= maxDays → days_duration n = n * Day.
Proof.
  unfold maxDays, days_duration, hoursPerDay, Day, Hour, Minute, Second. intros H.
  rewrite (wrap64_id (n * 24)) by (unfold in_int64; lia).
  rewrite wrap64_id by (unfold in_int64; lia). lia.
Qed.

(** ** Properties *)

(** What the rest of the agent may rely on of a loaded configuration. *)
Record valid_config (url_scheme : string → result string) (c : Config) : Prop := {
  vc_state : has_prefix "/" (StateDir c) = true;
  vc_listen : ∃ host port n, SplitHostPort (ListenAddr c) = Ok (host, port) ∧ Atoi port = Some n ∧ 1 <= n <= 65535;
  vc_public : PublicAddrs c ≠ [] ∧ Forall (λ e, isValidSAN e = true) (PublicAddrs c);
  vc_policy : 0 <= PolicyMode c <= 2;
  vc_docker : url_scheme (DockerHost c) ∈ [Ok "unix"; Ok "tcp"];
  vc_budget : 8 <= LogMaxTotalMB c;
  vc_rows : 1000 <= AuditMaxRows c;
  vc_rates : 1 <= RateStatusPerMin c ∧ 1 <= RatePairPerMin c ∧ 1 <= RateGuardedPerSec c;
  vc_ttl : ∃ n, 5 <= n <= 60 ∧ PairTTLMax c = n * Minute;
  vc_self : SelfContainer c = "" ∨ containerRefPattern (SelfContainer c) = true;
  vc_protected : Forall (λ e, containerRefPattern e = true) (ProtectedContainers c) ∧ NoDup (ProtectedContainers c);
  vc_order : LogMaxAge c <= AuditMaxAge c;
  (** the ages as counts of days: exact up to [maxDays], wrapped beyond *)
  vc_ages : ∃ l a, 1 <= l ∧ 1 <= a ∧ LogMaxAge c = days_duration l ∧ AuditMaxAge c = days_duration a ∧
    (l <= maxDays → LogMaxAge c = l * Day) ∧ (a <= maxDays → AuditMaxAge c = a * Day) ∧
    (l <= maxDays → a <= maxDays → l <= a) }.

Lemma Load_ok (quote : string → string) (url_scheme : string → result string)
    (getenv : string → string) (cfg : Config)
    (Hload : Load quote url_scheme getenv = inl cfg) : valid_config url_scheme cfg.
Proof.
  rewrite Load_run in Hload. destruct (List.concat _) eqn:Hnone; [|done]. injection Hload as <-.
  unfold own_problems in Hnone. cbn [List.concat] in Hnone.
  repeat match goal with H : _ ++ _ = [] |- _ => apply app_eq_nil in H as [? H] end.
  assert (∀ key def, 1 <= def → in_int64 def → ∃ n, 1 <= n ∧ value (days quote getenv key def) = days_duration n) as Hdays.
  { intros key def Hge Hin. rewrite value_days. eexists. split; [|done]. by apply boundedInt_ok. }
  assert (∀ key def min, min <= def → in_int64 def → min <= value (boundedInt quote getenv key def min)) as Hint
    by (intros; by apply boundedInt_ok).
  split; unfold parsed; cbn [StateDir ListenAddr PublicAddrs PolicyMode DockerHost LogLevel LogMaxAge
    LogMaxTotalMB AuditMaxAge AuditMaxRows RateStatusPerMin RatePairPerMin RateGuardedPerSec PairTTLMax
    SelfContainer ProtectedContainers].
  - by apply stateDir_ok.
  - by apply listenAddr_ok.
  - by apply publicAddrs_ok.
  - apply policyMode_ok.
  - by apply dockerHost_ok.
  - by apply Hint.
  - by apply Hint.
  - split; [|split]; by apply Hint.
  - rewrite value_minutes.
    pose proof (rangedInt_ok quote getenv envPairTTLMax defaultPairTTLMaxMin minPairTTLMaxMin maxPairTTLMaxMin ltac:(done)) as Hr.
    eexists. split; [exact Hr|]. unfold minPairTTLMaxMin, maxPairTTLMaxMin in Hr.
    apply wrap64_id. unfold in_int64, Minute, Second, minPairTTLMaxMin, maxPairTTLMaxMin. lia.
  - by apply selfContainer_ok.
  - apply (protectedContainers_ok quote url_scheme getenv).
  - match goal with H : problems (checkRetentionOrder _) = [] |- _ => revert H end.
    unfold checkRetentionOrder, parsed. cbn [AuditMaxAge LogMaxAge].
    destruct (Z.ltb_spec (value (days quote getenv envAuditMaxAgeDays defaultAuditMaxAgeDays))
      (value (days quote getenv envLogMaxAgeDays defaultLogMaxAgeDays))); done.
  - destruct (Hdays envLogMaxAgeDays defaultLogMaxAgeDays) as (l & ? & ?); [done|done|].
    destruct (Hdays envAuditMaxAgeDays defaultAuditMaxAgeDays) as (a & ? & ?); [done|done|].
    match goal with H : problems (checkRetentionOrder _) = [] |- _ => revert H end.
    unfold checkRetentionOrder, parsed. cbn [AuditMaxAge LogMaxAge].
    assert (∀ n, 1 <= n → n <= maxDays → days_duration n = n * Day) as Hexact
      by (intros; apply days_duration_exact; unfold maxDays in *; lia).
    match goal with Hl : _ = days_duration l, Ha : _ = days_duration a |- _ => rewrite Hl, Ha end.
    destruct (Z.ltb_spec (days_duration a) (days_duration l)) as [|Hle]; [done|intros _]. exists l, a.
    do 4 (split; [done|]). split; [by apply Hexact|]. split; [by apply Hexact|]. intros Hl' Ha'.
    rewrite !Hexact in Hle by done. unfold Day, Hour, Minute, Second in Hle. lia.
Qed.

(** C29 What [Load] guarantees of a configuration it returns: an absolute state
    directory, a listening port in range, at least one certificate name and none
    malformed, a known policy tier, a supported Docker endpoint, every count at
    or above its floor, a pairing-code ceiling of 5 to 60 minutes, well-formed
    and distinct protected containers. The two retention ages are whole counts of
    days, one or more; up to 106751 days each is exact and the audit trail is
    kept at least as long as the log. No ceiling is checked: a greater count
    wraps in int64, and then only the wrapped values are known to be in order
    ([days_overflow]). *)
Theorem Load_valid (quote : string → string) (url_scheme : string → result string)
    (getenv : string → string) (cfg : Config)
    (Hload : Load quote url_scheme getenv = inl cfg) : valid_config url_scheme cfg.
Proof. by eapply Load_ok. Qed.

(** An operator's environment, for the witnesses. *)
Definition toy_env (kvs : list (string * string)) (key : string) : string :=
  match List.find (λ kv, bool_decide (kv.1 = key)) kvs with Some kv => kv.2 | None => "" end.
Definition toy_scheme (u : string) : result string :=
  match cut ":" u with Some (s, _) => Ok s | None => Err (Leaf "missing protocol scheme") end.
Definition toy_quote (s : string) : string := "'" +:+ s +:+ "'".

Lemma Load_valid_witness :
  ∃ cfg, Load toy_quote toy_scheme (toy_env [(envPublicAddr, "vps.example.com, 192.0.2.7");
           (envProtectedContainers, "db,db,proxy")]) = inl cfg ∧
    PublicAddrs cfg = ["vps.example.com"; "192.0.2.7"] ∧ ProtectedContainers cfg = ["db"; "proxy"] ∧
    valid_config toy_scheme cfg.
Proof.
  eexists. split; [vm_compute; reflexivity|]. split; [reflexivity|]. split; [reflexivity|].
  eapply (Load_valid toy_quote toy_scheme (toy_env [(envPublicAddr, "vps.example.com, 192.0.2.7");
           (envProtectedContainers, "db,db,proxy")])).
  vm_compute. reflexivity.
Defined.

(** C30 Nothing is reported one restart at a time: when [Load] fails, the problems
    are those of every field, in the order of the fields, each exactly what
    that field reports by itself whatever is wrong with the others; and it
    fails exactly when some field has a problem or the two retention ages are
    in the wrong order. *)
Theorem Load_reports_all (quote : string → string) (url_scheme : string → result string)
    (getenv : string → string) :
  let ps := List.concat (own_problems quote url_scheme getenv) in
  (ps = [] → Load quote url_scheme getenv = inl (parsed quote url_scheme getenv)) ∧
  (ps ≠ [] → Load quote url_scheme getenv = inr ps) ∧
  (problems (checkRetentionOrder (parsed quote url_scheme getenv)) = [] ↔
     LogMaxAge (parsed quote url_scheme getenv) <= AuditMaxAge (parsed quote url_scheme getenv)).
Proof.
  intros ps. rewrite Load_run. fold ps. split; [by intros ->|]. split; [by destruct ps|].
  unfold checkRetentionOrder. destruct (Z.ltb_spec (AuditMaxAge (parsed quote url_scheme getenv))
    (LogMaxAge (parsed quote url_scheme getenv))); split; done || lia.
Qed.

Lemma Load_reports_all_witness :
  let env := toy_env [(envPolicyMode, "admin"); (envLogMaxAgeDays, "x"); (envListenAddr, "8443")] in
  List.length (List.concat (own_problems toy_quote toy_scheme env)) = 4%nat ∧
  Load toy_quote toy_scheme env = inr (List.concat (own_problems toy_quote toy_scheme env)).
Proof.
  intros env. split; [vm_compute; reflexivity|].
  apply (Load_reports_all toy_quote toy_scheme env). vm_compute. discriminate.
Defined.

(** Day counts and int64: a count of days becomes that many days up to
    106751, and never above: the product is then out of range and wraps. Since
    [boundedInt] has no ceiling, the environment can reach it: 213505 days of
    audit retention (584 years) are accepted and become a day and less than
    half an hour, and 106752 days of log retention become a negative age that
    passes the check of the retention order. *)
Theorem days_overflow :
  (∀ n, 1 <= n → in_int64 n → (days_duration n = n * Day ↔ n <= maxDays)) ∧
  (∃ cfg, Load toy_quote toy_scheme (toy_env [(envPublicAddr, "h"); (envAuditMaxAgeDays, "213505")]) = inl cfg ∧
          Day <= AuditMaxAge cfg < Day + 30 * Minute) ∧
  (∃ cfg, Load toy_quote toy_scheme (toy_env [(envPublicAddr, "h"); (envLogMaxAgeDays, "106752")]) = inl cfg ∧
          LogMaxAge cfg < 0).
Proof.
  split; [|split].
  - intros n Hn Hi. split; [|intros; apply days_duration_exact; unfold maxDays in *; lia].
    unfold days_duration. intros H. pose proof (wrap64_in (wrap64 (n * hoursPerDay) * Hour)) as Hw.
    rewrite H in Hw. unfold in_int64, maxDays, Day, Hour, Minute, Second in *. lia.
  - eexists. split; [vm_compute; reflexivity|]. vm_compute. split; [discriminate|reflexivity].
  - eexists. split; [vm_compute; reflexivity|]. vm_compute. reflexivity.
Qed.

Lemma days_overflow_witness : days_duration 365 = 365 * Day.
Proof. apply (proj1 days_overflow 365); [lia|split; vm_compute; [discriminate|reflexivity]|vm_compute; discriminate]. Defined.

(** An IPv6 literal is not accepted as a certificate name, though it is an IP
    address: the test for a port rejects every colon. *)
Lemma isValidSAN_no_ipv6 e : string_existsb (λ c, Ascii.eqb c ":") e = true → isValidSAN e = false.
Proof.
  unfold isValidSAN, string_existsb. intros H. rewrite (proj2 (existsb_exists _ (bytes e))); [done|].
  apply existsb_exists in H as (c & Hin & Hc). exists c. by rewrite Hc.
Qed.
