(* ===== verification/Logging.v ===== *)
(** * Logging: the bounded log file (internal/logging/logging.go, rotator.go)

    The sink's settings, the rotation that is forced at startup and on each
    tick, and the reading of the first line it decides by. lumberjack's
    [Rotate] is a parameter, a function of the log file and of the errors the
    world may inject; the file itself, its mode and what is logged about it are
    the state. An operation of [os] is given the error it fails with, if any. *)
From S2P Require Import Prelude GoTime GoStrings Policy Config.
From Stdlib Require Import SpecFloat.
Open Scope Z_scope.

Definition defaultRotateInterval : Z := 24 * Hour.
Definition slogTimeKeyPrefix : string := "time=".
Definition maxBackups : Z := 3.
Definition logFileMode : Z := 384.   (* 0o600 *)

(** ** float64, as far as [Duration.Hours] needs it *)

Definition float64 (z : Z) : spec_float := binary_normalize 53 1024 z 0 false.
(** [int(f)] of a finite [f]. *)
Definition int_of_float (f : spec_float) : Z :=
  match f with
  | S754_finite s m e =>
      let v := if 0 <=? e then Z.pos m * 2 ^ e else Z.quot (Z.pos m) (2 ^ - e) in
      if s then - v else v
  | _ => 0
  end.
(** [func (d Duration) Hours() float64] *)
Definition Hours (d : Z) : spec_float :=
  SFadd 53 1024 (float64 (Z.quot d Hour)) (SFdiv 53 1024 (float64 (Z.rem d Hour)) (float64 Hour)).

(** ** logging.go *)

(** [func perFileMaxMB] *)
Definition perFileMaxMB (totalMB : Z) : Z :=
  let perFile := Z.quot totalMB (maxBackups + 1) in
  if 0 <? perFile then perFile else 1.

(** The fields of lumberjack.Logger that [NewSink] sets. *)
Record lumberjack : Set := MkLumberjack {
  Filename : string; MaxSize : Z; MaxBackups : Z; MaxAge : Z; Compress : bool; LocalTime : bool }.

(** [type Rotator struct] *)
Record Rotator : Set := MkRotator { lj : lumberjack; interval : Z; maxAge : Z }.

(** [func NewSink]: the rotator the sink drives; [mkdirErr] is the error of
    [os.MkdirAll]. *)
Definition NewSink (cfg : Config) (mkdirErr : option error) : result Rotator :=
  match mkdirErr with
  | Some e => Err (wrap ("create logs dir " +:+ LogsDir cfg) e)
  | None =>
      Ok (MkRotator
            (MkLumberjack (AgentLogPath cfg) (perFileMaxMB (LogMaxTotalMB cfg)) maxBackups
               (int_of_float (SFdiv 53 1024 (Hours (LogMaxAge cfg)) (float64 24))) true false)
            defaultRotateInterval (LogMaxAge cfg))
  end.

(** ** The log file *)

Record logfile : Set := MkLogFile { lf_bytes : string; lf_mode : Z }.
Record logdir : Type := MkLogDir {
  current : option logfile;      (** the file at [Filename] *)
  backups : list logfile;        (** rotated aside, oldest first *)
  rlog : list log_line }.        (** what the rotator logs *)
Definition rlog_add (l : level) (msg : string) : Comp logdir unit :=
  modify (λ d, MkLogDir (current d) (backups d) (rlog d ++ [LogLine_ l msg []])).

(** [func tightenPermissions]: [os.Chmod] with the error it meets. *)
Definition tightenPermissions (path : string) (chmodErr : option error) : Comp logdir unit := λ d,
  match chmodErr with
  | Some e => (if errors_is e FsErrNotExist then Ok tt else Err (wrap ("tighten permissions on " +:+ path) e), d)
  | None =>
      match current d with
      | Some f => (Ok tt, MkLogDir (Some (MkLogFile (lf_bytes f) logFileMode)) (backups d) (rlog d))
      | None => (Ok tt, d)   (* [os.IsNotExist] *)
      end
  end.

(** ** rotator.go *)

(** [bufio.Reader.ReadString('\n')] on a file with the given content. *)
Definition newline : ascii := "010".
Definition ReadString (content : string) (readErr : option error) : string * option error :=
  match readErr with
  | Some e => ("", Some e)
  | None => match cut newline content with
            | Some (l, _) => (l +:+ String newline "", None)
            | None => (content, Some (Sentinel IoEOF))
            end
  end.

(** [strings.TrimRight(line, "\r\n")] *)
Fixpoint TrimRight_crlf (s : string) : string :=
  match s with
  | "" => ""
  | String c rest =>
      let r := TrimRight_crlf rest in
      if bool_decide (r = "") && (Ascii.eqb c newline || Ascii.eqb c "013") then "" else String c r
  end.

(** [func firstLineTimestamp], of the content the file has: the line, and what
    it says. The quoted texts of the errors are left out, nothing reads them. *)
Definition line_timestamp (path line : string) : result Z :=
  let line := TrimRight_crlf line in
  if negb (has_prefix slogTimeKeyPrefix line)
  then Err (Leaf ("first line of " +:+ path +:+ " does not start with " +:+ slogTimeKeyPrefix))
  else
    let value := drop_bytes (String.length slogTimeKeyPrefix) line in
    let value := match IndexByte value " " with Some i => take_bytes i value | None => value end in
    match parse_rfc3339nano value with
    | None => Err (Leaf ("parse time from first line of " +:+ path))
    | Some ts => Ok ts
    end.
Definition firstLineTimestamp (path content : string) (openErr readErr : option error) : result Z :=
  match openErr with
  | Some e => Err (wrap ("open " +:+ path) e)
  | None =>
      match ReadString content readErr with
      | (line, None) => line_timestamp path line
      | (line, Some e) =>
          if errors_is e IoEOF then line_timestamp path line
          else Err (wrap ("read first line of " +:+ path) e)
      end
  end.

(** [time.Since(ts)], at the instant [now]: the difference saturates. *)
Definition time_since (now ts : Z) : Z := Z.max (- 2 ^ 63) (Z.min (2 ^ 63 - 1) (now - ts)).

(** The errors of one pass over the file. *)
Record faults_of_pass : Set := MkPass {
  statErr : option error; openErr : option error; readErr : option error; chmodErr : option error }.

Section Rotator.
(** lumberjack's [Rotate]. *)
Context (Rotate : logdir → result unit * logdir).

(** [func (r *Rotator) rotateOnce] *)
Definition rotateOnce (r : Rotator) (chmodErr : option error) : Comp logdir unit :=
  rotated ← try Rotate;
  match rotated with
  | Err _ => rlog_add LevelError "log rotation failed"
  | Ok _ =>
      tightened ← try (tightenPermissions (Filename (lj r)) chmodErr);
      match tightened with
      | Err _ => rlog_add LevelWarn "could not tighten log file permissions"
      | Ok _ => mret tt
      end
  end.

(** [func (r *Rotator) startupRotate] *)
Definition startupRotate (r : Rotator) (f : faults_of_pass) (now : Z) : Comp logdir unit := λ d,
  if maxAge r <=? 0 then (Ok tt, d)
  else
    match statErr f, current d with
    | Some _, _ | None, None => (Ok tt, d)
    | None, Some file =>
        if bool_decide (lf_bytes file = "") then (Ok tt, d)
        else
          match firstLineTimestamp (Filename (lj r)) (lf_bytes file) (openErr f) (readErr f) with
          | Err _ => rotateOnce r (chmodErr f) d
          | Ok ts => if maxAge r <? time_since now ts then rotateOnce r (chmodErr f) d else (Ok tt, d)
          end
    end.

(** [func (r *Rotator) Run]: the ticks until the context is done, each with the
    error [os.Chmod] would meet. [ctxErr] is [ctx.Err()] once it is; [entered]
    tells whether it was on entry. *)
Fixpoint run_ticks (r : Rotator) (ticks : list (option error)) : Comp logdir unit :=
  match ticks with
  | [] => mret tt
  | chmodErr :: ticks => rotateOnce r chmodErr ≫= λ _, run_ticks r ticks
  end.
Definition Run (r : Rotator) (entered : bool) (ctxErr : error) (f : faults_of_pass) (now : Z)
    (ticks : list (option error)) : Comp logdir unit :=
  if entered then throw ctxErr
  else
    startupRotate r f now ≫= λ _,
    run_ticks r ticks ≫= λ _,
    throw ctxErr.
End Rotator.

(** ** The first line *)

Lemma TrimRight_app a c s : Ascii.eqb c newline = false → Ascii.eqb c "013" = false →
  TrimRight_crlf (a +:+ String c s) = a +:+ String c (TrimRight_crlf s).
Proof.
  intros Hn Hr. induction a as [|b a IH].
  - rewrite !append_nil. cbn. by rewrite Hn, Hr, andb_false_r.
  - rewrite !append_cons. cbn. rewrite IH. by rewrite bool_decide_eq_false_2 by (by destruct a).
Qed.


(** A log line as slog's text handler writes it: the record's time first, then
    the other attributes. *)
Definition slog_line (stamp attrs : string) : string := slogTimeKeyPrefix +:+ stamp +:+ String " " attrs.


(** What the first line of such a file says. *)
Definition stamp_result (path stamp : string) : result Z :=
  match parse_rfc3339nano stamp with
  | Some ts => Ok ts
  | None => Err (Leaf ("parse time from first line of " +:+ path))
  end.

Lemma line_stamp path stamp b : free_of " " stamp = true → line_timestamp path (slog_line stamp b) = stamp_result path stamp.
Proof.
  intros Hs. unfold line_timestamp, slog_line. rewrite <- append_app, TrimRight_app, append_app by reflexivity.
  cbv zeta. rewrite prefix_app, drop_bytes_app, (IndexByte_app " "), take_bytes_app by done.
  unfold stamp_result. by destruct (parse_rfc3339nano stamp).
Qed.

Lemma first_line_stamp path stamp attrs :
  free_of newline stamp = true → free_of " " stamp = true →
  firstLineTimestamp path (slog_line stamp attrs) None None = stamp_result path stamp.
Proof.
  intros Hn Hs. unfold firstLineTimestamp, ReadString. unfold slog_line at 1.
  rewrite (cut_app newline), (cut_app newline) by done. cbn [cut]. change (Ascii.eqb " " newline) with false. cbn iota.
  destruct (cut newline attrs) as [[l rest]|]; cbn [fmap option_fmap option_map errors_is].
  - rewrite !append_app, append_cons. by apply line_stamp.
  - rewrite bool_decide_eq_true_2 by done. by apply line_stamp.
Qed.

Lemma prefix_split p s : has_prefix p s = true → ∃ t, s = p +:+ t.
Proof.
  unfold has_prefix. revert s. induction p as [|c p IH]; intros s; [by exists s|]. destruct s as [|d s]; cbn; [done|].
  destruct (Ascii.ascii_dec c d) as [->|]; [|done]. intros [t ->]%IH. by exists t.
Qed.

Lemma TrimRight_split s : ∃ t, s = TrimRight_crlf s +:+ t.
Proof.
  induction s as [|c s [t IH]]; [by exists ""|]. cbn [TrimRight_crlf]. cbv zeta.
  destruct (_ && _); [by exists (String c s)|]. exists t. by rewrite append_cons, <- IH.
Qed.

Lemma cut_split sep s a b : cut sep s = Some (a, b) → s = a +:+ String sep b.
Proof.
  revert a. induction s as [|c s IH]; intros a; cbn; [done|]. destruct (Ascii.eqb c sep) eqn:Hc.
  - apply Ascii.eqb_eq in Hc as ->. by intros [= <- <-].
  - destruct (cut sep s) as [[x y]|]; [|done]. intros [= <- <-]. by rewrite append_cons, <- (IH x).
Qed.

(** A file that does not begin with the time key has no readable first record. *)
Lemma unstamped_first_line path content openErr readErr : has_prefix slogTimeKeyPrefix content = false →
  is_ok (firstLineTimestamp path content openErr readErr) = false.
Proof.
  intros Hp. assert (Hline : ∀ line t, content = line +:+ t → is_ok (line_timestamp path line) = false).
  { intros line t Hc. unfold line_timestamp. destruct (has_prefix slogTimeKeyPrefix (TrimRight_crlf line)) eqn:Hl; [|done].
    apply prefix_split in Hl as [u Hu]. destruct (TrimRight_split line) as [v Hv].
    rewrite Hc, Hv, Hu, !append_app, prefix_app in Hp. done. }
  unfold firstLineTimestamp, ReadString. destruct openErr; [done|]. destruct readErr as [e|].
  - destruct (errors_is e IoEOF); [by apply (Hline "" content)|done].
  - destruct (cut newline content) as [[l rest]|] eqn:Hcut.
    + apply (Hline _ rest). rewrite (cut_split _ _ _ _ Hcut), append_app. done.
    + cbn [errors_is]. rewrite bool_decide_eq_true_2 by done. apply (Hline _ ""). by rewrite append_nil_r.
Qed.

(** ** Rotation *)

(** Content that does not begin with a time is moved aside whatever its age;
    an absent or an empty file, or a disabled age budget, is left alone. *)
Lemma unreadable_rotated Rotate r f now d file : 0 < maxAge r → statErr f = None → current d = Some file →
  lf_bytes file ≠ "" → is_ok (firstLineTimestamp (Filename (lj r)) (lf_bytes file) (openErr f) (readErr f)) = false →
  startupRotate Rotate r f now d = rotateOnce Rotate r (chmodErr f) d.
Proof.
  intros Ha Hs Hc Hne He. unfold startupRotate. rewrite Hs, Hc. destruct (Z.leb_spec (maxAge r) 0); [lia|].
  rewrite bool_decide_eq_false_2 by done. by destruct (firstLineTimestamp _ _ _ _).
Qed.

Lemma nothing_rotated Rotate r f now d :
  maxAge r <= 0 ∨ statErr f ≠ None ∨ current d = None ∨ lf_bytes <$> current d = Some "" →
  startupRotate Rotate r f now d = (Ok tt, d).
Proof.
  intros H. unfold startupRotate. destruct (Z.leb_spec (maxAge r) 0); [done|].
  destruct H as [?|[H|[H|H]]]; [lia|by destruct (statErr f)|rewrite H; by destruct (statErr f)|].
  destruct (current d); [|done]. injection H as ->. by destruct (statErr f).
Qed.

(** A rotation never fails the agent, and the file it leaves is the owner's
    alone. *)
Lemma rotateOnce_ok Rotate r e d : (rotateOnce Rotate r e d).1 = Ok tt.
Proof.
  unfold rotateOnce, mbind, comp_bind, try. destruct (Rotate d) as [[[]|err] d1]; [|done].
  by destruct (tightenPermissions _ _ d1) as [[[]|err] d2].
Qed.

Lemma rotated_mode Rotate r d d1 file : Rotate d = (Ok tt, d1) → current d1 = Some file →
  current (rotateOnce Rotate r None d).2 = Some (MkLogFile (lf_bytes file) logFileMode).
Proof. unfold rotateOnce, mbind, comp_bind, try, tightenPermissions. intros -> Hf. cbn. by rewrite Hf. Qed.

Lemma run_ticks_ok Rotate r ticks d : (run_ticks Rotate r ticks d).1 = Ok tt.
Proof.
  revert d. induction ticks as [|e ticks IH]; intros d; [done|]. cbn. unfold mbind, comp_bind.
  pose proof (rotateOnce_ok Rotate r e d) as Hr. destruct (rotateOnce Rotate r e d) as [[[]|?] d1]; [apply IH|done].
Qed.

Lemma Run_result Rotate r entered ctxErr f now ticks d : (Run Rotate r entered ctxErr f now ticks d).1 = Err ctxErr.
Proof.
  unfold Run. destruct entered; [done|]. unfold mbind, comp_bind.
  assert ((startupRotate Rotate r f now d).1 = Ok tt) as Hs.
  { unfold startupRotate. repeat case_match; try done; apply rotateOnce_ok. }
  destruct (startupRotate Rotate r f now d) as [[[]|?] d1]; [|done].
  pose proof (run_ticks_ok Rotate r ticks d1) as Ht. by destruct (run_ticks Rotate r ticks d1) as [[[]|?] d2].
Qed.

(** The day count lumberjack is given, for budgets of up to two years. *)
Definition lj_days (age : Z) : Z := int_of_float (SFdiv 53 1024 (Hours age) (float64 24)).
Lemma lj_days_exact n : 1 <= n <= 730 → lj_days (n * Day) = n.
Proof.
  intros Hn. assert (Forall (λ k, lj_days (Z.of_nat k * Day) = Z.of_nat k) (seq 1 730)) as H
    by (apply (bool_decide_unpack _); vm_compute; exact Logic.I).
  rewrite Forall_forall in H. specialize (H (Z.to_nat n)). rewrite Z2Nat.id in H by lia. apply H, elem_of_seq. lia.
Qed.

(** ** Properties *)

(** C35 The log keeps within the operator's budget: the current file and its
    backups together are allowed no more than DEVMON_LOG_MAX_TOTAL_MB, the
    rounding loses less than a megabyte per file, and no file has the size limit
    0 that lumberjack takes for its default. *)
Theorem log_budget (quote : string → string) (url_scheme : string → result string) (getenv : string → string)
    (cfg : Config) (r : Rotator) (Hload : Load quote url_scheme getenv = inl cfg) (Hsink : NewSink cfg None = Ok r) :
  1 <= MaxSize (lj r) ∧
  (MaxBackups (lj r) + 1) * MaxSize (lj r) <= LogMaxTotalMB cfg < (MaxBackups (lj r) + 1) * (MaxSize (lj r) + 1).
Proof.
  injection Hsink as <-. cbn. unfold perFileMaxMB, maxBackups. change (3 + 1) with 4.
  assert (8 <= LogMaxTotalMB cfg) as Hmb by (apply Load_ok in Hload; apply Hload).
  rewrite Z.quot_div_nonneg by lia. pose proof (Z.div_mod (LogMaxTotalMB cfg) 4).
  pose proof (Z.mod_pos_bound (LogMaxTotalMB cfg) 4). destruct (Z.ltb_spec 0 (LogMaxTotalMB cfg / 4)); lia.
Qed.

(** C36 When the log file is moved aside at startup, case by case. Nothing is
    done where there is nothing to judge: no age budget, or a file that cannot
    be examined, is not there or is empty. A file whose first line cannot be
    read or does not begin with a record's time is moved aside whatever its age.
    Otherwise the first record decides: if its time does not parse the file goes,
    and if it does the file goes exactly when that time lies further back than
    the age budget. So the lines this boot has already written to a fresh file
    stay where they are, however often the agent restarts. *)
Theorem startup_rotation (Rotate : logdir → result unit * logdir) (r : Rotator) (f : faults_of_pass) (now : Z)
    (d : logdir) (Hmax : maxAge r < 2 ^ 63 - 1) :
  (maxAge r <= 0 ∨ statErr f ≠ None ∨ current d = None ∨ lf_bytes <$> current d = Some "" →
     startupRotate Rotate r f now d = (Ok tt, d)) ∧
  ∀ file, 0 < maxAge r → statErr f = None → current d = Some file → lf_bytes file ≠ "" →
    (openErr f ≠ None ∨ (∃ e, readErr f = Some e ∧ errors_is e IoEOF = false) ∨
     has_prefix slogTimeKeyPrefix (lf_bytes file) = false →
       startupRotate Rotate r f now d = rotateOnce Rotate r (chmodErr f) d) ∧
    (∀ stamp attrs, openErr f = None → readErr f = None → lf_bytes file = slog_line stamp attrs →
       free_of newline stamp = true → free_of " " stamp = true →
       startupRotate Rotate r f now d =
         match parse_rfc3339nano stamp with
         | None => rotateOnce Rotate r (chmodErr f) d
         | Some ts => if decide (now - ts <= maxAge r) then (Ok tt, d) else rotateOnce Rotate r (chmodErr f) d
         end).
Proof.
  split; [apply nothing_rotated|]. intros file Hage Hst Hcur Hne. split.
  - intros Hbad. apply (unreadable_rotated _ _ _ _ _ file); try done. unfold firstLineTimestamp.
    destruct Hbad as [Hop|[(e & He & Heof)|Hpre]]; [by destruct (openErr f)| |by apply unstamped_first_line].
    destruct (openErr f); [done|]. unfold ReadString. by rewrite He, Heof.
  - intros stamp attrs Hop Hrd Hl Hn Hs. unfold startupRotate. rewrite Hst, Hcur, Hop, Hrd, Hl.
    destruct (Z.leb_spec (maxAge r) 0); [lia|]. rewrite bool_decide_eq_false_2 by done.
    rewrite first_line_stamp by done. unfold stamp_result. destruct (parse_rfc3339nano stamp) as [ts|]; [|done].
    unfold time_since. destruct (Z.ltb_spec (maxAge r) (Z.max (- 2 ^ 63) (Z.min (2 ^ 63 - 1) (now - ts))));
      case_decide; try done; lia.
Qed.

(** lumberjack is given the retention the operator asked for: [NewSink]'s
    detour through [Duration.Hours], a float64, loses no day, up to two years. *)
Theorem log_age (cfg : Config) (r : Rotator) (n : Z) (Hn : 1 <= n <= 730) (Hage : LogMaxAge cfg = n * Day)
    (Hsink : NewSink cfg None = Ok r) : MaxAge (lj r) = n ∧ maxAge r = n * Day.
Proof. injection Hsink as <-. cbn. rewrite Hage. split; [by apply lj_days_exact|done]. Qed.

(** ** Examples *)

Definition toy_log_config : Config :=
  MkConfig "/var/lib/devmon" ":8443" ["vps.example.com"] 1 "unix:///var/run/docker.sock" LevelInfo (30 * Day) 66
    (365 * Day) 100000 30 5 20 (10 * Minute) "" [].
Definition toy_rotator : Rotator :=
  MkRotator (MkLumberjack "/var/lib/devmon/logs/agent.log" 16 3 30 true false) defaultRotateInterval (30 * Day).
Definition toy_rotate (d : logdir) : result unit * logdir :=
  (Ok tt, MkLogDir (Some (MkLogFile "" 420)) (backups d ++ option_list (current d)) (rlog d)).

Lemma log_age_witness : MaxAge (lj toy_rotator) = 30.
Proof. apply (log_age toy_log_config toy_rotator 30); [lia|reflexivity|vm_compute; reflexivity]. Defined.

Lemma startup_rotation_witness :
  let d := MkLogDir (Some (MkLogFile (slog_line "2026-03-01T12:00:00.000Z" "level=INFO msg=up") 384)) [] [] in
  let march := 1772366400 * Second in
  startupRotate toy_rotate toy_rotator (MkPass None None None None) (march + 30 * Day) d = (Ok tt, d) ∧
  backups (startupRotate toy_rotate toy_rotator (MkPass None None None None) (march + 31 * Day) d).2 = option_list (current d).
Proof.
  intros d march.
  assert (∀ now, startupRotate toy_rotate toy_rotator (MkPass None None None None) now d =
    if decide (now - march <= 30 * Day) then (Ok tt, d) else rotateOnce toy_rotate toy_rotator None d) as Hs.
  { intros now. apply (proj2 (proj2 (startup_rotation toy_rotate toy_rotator (MkPass None None None None) now d ltac:(done))
      (MkLogFile (slog_line "2026-03-01T12:00:00.000Z" "level=INFO msg=up") 384) ltac:(done) ltac:(done) ltac:(done) ltac:(done))
      "2026-03-01T12:00:00.000Z" "level=INFO msg=up"); done. }
  rewrite !Hs. split; vm_compute; reflexivity.
Defined.

Lemma log_budget_witness :
  ∃ cfg r, NewSink cfg None = Ok r ∧ 4 * MaxSize (lj r) <= LogMaxTotalMB cfg.
Proof.
  destruct (Load toy_quote toy_scheme (toy_env [(envPublicAddr, "vps.example.com")])) as [cfg|] eqn:Hload;
    [|vm_compute in Hload; discriminate Hload].
  eexists cfg, _. split; [reflexivity|]. exact (proj1 (proj2 (log_budget _ _ _ cfg _ Hload eq_refl))).
Defined.
