(* ===== verification/GoFlag.v ===== *)
(** * GoFlag: the parts of package flag (and of strconv) the commands use

    [FlagSet.Parse] for bool, int and string flags with ContinueOnError, as
    the standard library has it: flags come before the first argument that is
    none, a double dash ends them, and [-name=value], [--name value] are the
    same. What [%q] prints is a parameter. *)
From S2P Require Import Prelude GoTime GoStrings.

(** ** strconv.ParseInt(s, 0, 64) *)

(** [lower(c)]: [c | ('x' - 'X')]. *)
Definition lower (c : ascii) : ascii := ascii_of_N (N.lor (N_of_ascii c) 32).

(** The value of a digit in any base, 36 and above for none. *)
Definition digit_of (c : ascii) : Z :=
  if is_digit c then Z.of_N (N_of_ascii c) - 48
  else if byte_in "a" "z" (lower c) then Z.of_N (N_of_ascii (lower c)) - 87
  else 256.

Definition errSyntax : error := Leaf "parse error".
Definition errRange : error := Leaf "value out of range".
Definition maxUint64 : Z := 2 ^ 64 - 1.

(** The loop of [ParseUint]: underscores are skipped when the base is the
    literal's own. *)
Fixpoint uint_digits (base acc : Z) (s : string) : result Z :=
  match s with
  | "" => Ok acc
  | String c s =>
      if Ascii.eqb c "_" then uint_digits base acc s
      else if base <=? digit_of c then Err errSyntax
      else if maxUint64 <? acc * base + digit_of c then Err errRange
      else uint_digits base (acc * base + digit_of c) s
  end.

(** [func underscoreOK], from the state [saw]: ['0'] after a digit or prefix,
    ['_'] after an underscore, ['!'] otherwise. *)
Fixpoint underscores_between (hex : bool) (saw : ascii) (s : string) : bool :=
  match s with
  | "" => negb (Ascii.eqb saw "_")
  | String c s =>
      if is_digit c || (hex && byte_in "a" "f" (lower c)) then underscores_between hex "0" s
      else if Ascii.eqb c "_" then
        if Ascii.eqb saw "0" then underscores_between hex "_" s else false
      else if Ascii.eqb saw "_" then false else underscores_between hex "!" s
  end.
Definition underscoreOK (s : string) : bool :=
  match s with
  | String "0" (String p rest) =>
      if bool_decide (lower p ∈ ["b"; "o"; "x"]%char) then underscores_between (Ascii.eqb (lower p) "x") "0" rest
      else underscores_between false "^" s
  | _ => underscores_between false "^" s
  end.

(** The base of a literal and its digits. *)
Definition split_base (s : string) : Z * string :=
  match s with
  | String "0" (String p (String _ _ as rest)) =>
      if Ascii.eqb (lower p) "b" then (2, rest)
      else if Ascii.eqb (lower p) "o" then (8, rest)
      else if Ascii.eqb (lower p) "x" then (16, rest)
      else (8, String p rest)
  | String "0" rest => (8, rest)
  | _ => (10, s)
  end.

(** [strconv.ParseUint(s, 0, 64)] *)
Definition ParseUint (s : string) : result Z :=
  if bool_decide (s = "") then Err errSyntax
  else
    let '(base, digits) := split_base s in
    n ← uint_digits base 0 digits;
    if has_byte digits "_" && negb (underscoreOK s) then Err errSyntax else Ok n.

(** [strconv.ParseInt(s, 0, 64)] *)
Definition ParseInt (s : string) : result Z :=
  let '(neg, digits) :=
    match s with
    | String "-" rest => (true, rest)
    | String "+" rest => (false, rest)
    | _ => (false, s)
    end in
  un ← ParseUint digits;
  if neg then if 2 ^ 63 <? un then Err errRange else Ok (- un)
  else if 2 ^ 63 <=? un then Err errRange else Ok un.

(** [strconv.ParseBool] *)
Definition ParseBool (s : string) : result bool :=
  if bool_decide (s ∈ ["1"; "t"; "T"; "true"; "TRUE"; "True"]) then Ok true
  else if bool_decide (s ∈ ["0"; "f"; "F"; "false"; "FALSE"; "False"]) then Ok false
  else Err errSyntax.

Example ParseInt_forms :
  map ParseInt ["12"; "-0x1F"; "0b101"; "017"; "1_000"; "08"; "1__0"; ""; "9223372036854775808"] =
  [Ok 12; Ok (-31); Ok 5; Ok 15; Ok 1000; Err errSyntax; Err errSyntax; Err errSyntax; Err errRange].
Proof. vm_compute. reflexivity. Qed.

(** ** flag.FlagSet *)

Inductive flag_kind : Set := FBool | FInt | FString.
Inductive flag_value : Set := VBool (b : bool) | VInt (z : Z) | VString (s : string).

(** [Value.Set] *)
Definition Set_ (kind : flag_kind) (value : string) : result flag_value :=
  match kind with
  | FBool => b ← ParseBool value; Ok (VBool b)
  | FInt => z ← ParseInt value; Ok (VInt z)
  | FString => Ok (VString value)
  end.

(** What is left of the arguments, and the flags set so far (only those
    actually on the command line: what [Visit] visits). *)
Record FlagSet : Type := MkFlagSet { Args : list string; actual : gmap string flag_value }.

(** [f.failf]: the error, which is printed before it is returned. *)
Inductive parse_step : Type := Stop (f : FlagSet) | Seen (f : FlagSet) | Failed (e : error).

Section Parse.
Context (quote : string → string) (formal : gmap string flag_kind).

Definition failf (msg : string) : parse_step := Failed (Leaf msg).

(** [func (f *FlagSet) parseOne], from the name on. *)
Definition parse_named (s name : string) (f : FlagSet) : parse_step :=
  if bool_decide (name = "") || has_prefix "-" name || has_prefix "=" name
  then failf ("bad flag syntax: " +:+ s)
  else
    let '(name, value) :=
      match IndexByte (drop_bytes 1 name) "=" with
      | Some i => (take_bytes (S i) name, Some (drop_bytes (S (S i)) name))
      | None => (name, None)
      end in
    match formal !! name with
    | None =>
        if bool_decide (name = "help" ∨ name = "h") then Failed (Sentinel FlagErrHelp)
        else failf ("flag provided but not defined: -" +:+ name)
    | Some FBool =>
        match Set_ FBool (default "true" value) with
        | Err e => match value with
                   | Some v => Failed (Wrapf ("invalid boolean value " +:+ quote v +:+ " for -" +:+ name +:+ ": ") e "")
                   | None => Failed (Wrapf ("invalid boolean flag " +:+ name +:+ ": ") e "")
                   end
        | Ok v => Seen (MkFlagSet (Args f) (<[name := v]> (actual f)))
        end
    | Some kind =>
        match value, Args f with
        | None, [] => failf ("flag needs an argument: -" +:+ name)
        | None, v :: args | Some v, args =>
            match Set_ kind v with
            | Err e => Failed (Wrapf ("invalid value " +:+ quote v +:+ " for flag -" +:+ name +:+ ": ") e "")
            | Ok x => Seen (MkFlagSet args (<[name := x]> (actual f)))
            end
        end
    end.

(** [func (f *FlagSet) parseOne] *)
Definition parseOne (f : FlagSet) : parse_step :=
  match Args f with
  | [] => Stop f
  | s :: args =>
      match s with
      | String "-" (String "-" "") => Stop (MkFlagSet args (actual f))
      | String "-" (String "-" name) => parse_named s name (MkFlagSet args (actual f))
      | String "-" (String _ _ as name) => parse_named s name (MkFlagSet args (actual f))
      | _ => Stop f
      end
  end.

(** [func (f *FlagSet) Parse]; every flag seen takes an argument away. *)
Fixpoint parse_loop (fuel : nat) (f : FlagSet) : result FlagSet :=
  match fuel with
  | O => Ok f
  | S fuel =>
      match parseOne f with
      | Stop f => Ok f
      | Seen f => parse_loop fuel f
      | Failed e => Err e
      end
  end.
Definition Parse (arguments : list string) : result FlagSet :=
  parse_loop (S (List.length arguments)) (MkFlagSet arguments ∅).

(** [f.Arg(0)], [f.NArg()] *)
Definition Arg0 (f : FlagSet) : string := default "" (head (Args f)).
Definition int_flag (f : FlagSet) (name : string) (def : Z) : Z :=
  match actual f !! name with Some (VInt z) => z | _ => def end.
Definition string_flag (f : FlagSet) (name : string) (def : string) : string :=
  match actual f !! name with Some (VString s) => s | _ => def end.
Definition bool_flag (f : FlagSet) (name : string) : bool :=
  match actual f !! name with Some (VBool b) => b | _ => false end.

(** ** The loop ends by itself *)

Lemma parseOne_consumes f f' : parseOne f = Seen f' → (List.length (Args f') < List.length (Args f))%nat.
Proof.
  assert (Hn : ∀ s name g g', parse_named s name g = Seen g' → (List.length (Args g') <= List.length (Args g))%nat).
  { intros s name g g'. unfold parse_named. destruct (_ || _); [done|].
    destruct (match IndexByte _ _ with Some _ => _ | None => _ end) as [n v].
    destruct (formal !! n) as [[]|]; [|destruct v; [|destruct (Args g) eqn:E; [done|]]..|case_bool_decide; done];
      (destruct (Set_ _ _); [|by try destruct v]); intros [= <-]; cbn; lia. }
  unfold parseOne. destruct f as [[|s args] ac]; [done|]. cbn [Args].
  destruct s as [|c s]; [done|]. destruct c as [[] [] [] [] [] [] [] []]; try done.
  destruct s as [|c s]; [done|].
  assert (Hgo : ∀ s name, parse_named s name (MkFlagSet args ac) = Seen f' →
    (List.length (Args f') < S (List.length args))%nat) by (intros ?? H%Hn; cbn in H; lia).
  destruct c as [[] [] [] [] [] [] [] []]; try (apply Hgo). destruct s; [done|apply Hgo].
Qed.

(** Enough fuel is the number of arguments. *)
Lemma parse_loop_fuel n f : (List.length (Args f) < n)%nat →
  parse_loop n f = match parseOne f with Stop f => Ok f | Seen f => parse_loop n f | Failed e => Err e end.
Proof.
  revert f. induction n as [|n IH]; intros f Hl; [lia|]. cbn [parse_loop].
  destruct (parseOne f) as [f'|f'|e] eqn:E; try done. apply parseOne_consumes in E.
  rewrite IH by lia. cbn [parse_loop]. by destruct (parseOne f').
Qed.
End Parse.

(** A first argument that is no flag ends the parse. *)
Lemma parse_word quote formal a rest : has_prefix "-" a = false → Parse quote formal (a :: rest) = Ok (MkFlagSet (a :: rest) ∅).
Proof.
  intros Ha. unfold Parse. cbn [List.length parse_loop]. unfold parseOne. cbn [Args]. destruct a as [|c s]; [done|].
  assert (Ascii.eqb "-" c = false) as Hc.
  { apply Ascii.eqb_neq. intros <-. unfold has_prefix in Ha. cbn in Ha. by destruct s. }
  by destruct c as [[] [] [] [] [] [] [] []].
Qed.

Lemma bool_flag_none l name : bool_flag (MkFlagSet l ∅) name = false.
Proof. unfold bool_flag. cbn. by rewrite lookup_empty. Qed.
