(* ===== verification/Schema.v ===== *)
(** * Schema: opening the store and walking the migration ladder
    (internal/state/schema.go, and Open, verifyAndMigrate, migrate,
    applyMigration, SchemaVersion of store.go)

    What a migration changes is which tables exist and in which shape, so a
    database is here the set of its tables with the shape number of each, and
    the rows of schema_meta. Any statement may fail; a transaction that fails
    is rolled back. What the driver and the filesystem answer before the first
    statement (the ping, the integrity check, the mode changes) is an input. *)
From S2P Require Import Prelude GoStrings.

Definition currentSchemaVersion : Z := 2.
Definition schemaVersionKey : string := "version".

(** [tables] maps a table to the version of its shape; [meta] is schema_meta,
    [None] while the table does not exist. *)
Record schema_db : Type := MkSchemaDb { tables : gmap string Z; meta : option (gmap string string) }.
Definition fresh_db : schema_db := MkSchemaDb ∅ None.

Record sstore : Type := MkSStore { sch : schema_db; sfaults : list (option error) }.

Definition stmt {A} (f : schema_db → result (A * schema_db)) : Comp sstore A := λ s,
  match sfaults s with
  | Some e :: fs => (Err e, MkSStore (sch s) fs)
  | fs =>
      match f (sch s) with
      | Err e => (Err e, MkSStore (sch s) (tail fs))
      | Ok (a, d) => (Ok a, MkSStore d (tail fs))
      end
  end.

(** ** The schema statements *)

Definition errTableExists (t : string) : error := Leaf ("table " +:+ t +:+ " already exists").
Definition errNoTable (t : string) : error := Leaf ("no such table: " +:+ t).

Definition create_if_not_exists (t : string) (shape : Z) (d : schema_db) : schema_db :=
  match tables d !! t with
  | Some _ => d
  | None => MkSchemaDb (<[t := shape]> (tables d)) (meta d)
  end.
Definition create (t : string) (shape : Z) (d : schema_db) : result schema_db :=
  match tables d !! t with
  | Some _ => Err (errTableExists t)
  | None => Ok (MkSchemaDb (<[t := shape]> (tables d)) (meta d))
  end.
Definition drop_if_exists (t : string) (d : schema_db) : schema_db :=
  MkSchemaDb (delete t (tables d)) (meta d).

(** [schemaMetaTableSQL] *)
Definition schemaMetaTableSQL (d : schema_db) : schema_db :=
  match meta d with Some _ => d | None => MkSchemaDb (tables d) (Some ∅) end.

(** [schemaV1]; the index on devices(cert_serial) needs that column, which only
    the first shape of devices has. *)
Definition schemaV1 (d : schema_db) : result schema_db :=
  let d := create_if_not_exists "devices" 1 d in
  if bool_decide (tables d !! "devices" = Some 1)
  then Ok (create_if_not_exists "audit" 1 d)
  else Err (Leaf "no such column: cert_serial").

(** [schemaV2] *)
Definition schemaV2 (d : schema_db) : result schema_db :=
  let d := drop_if_exists "devices" d in
  d ← create "devices" 2 d;
  d ← create "device_certs" 2 d;
  create "pairing_codes" 2 d.

(** [type migrationStep struct] and [migrations] *)
Record migrationStep : Type := MkMigrationStep { step_version : Z; step_sql : schema_db → result schema_db }.
Definition migrations : list migrationStep := [MkMigrationStep 1 schemaV1; MkMigrationStep 2 schemaV2].

(** ** The walk *)

(** [func (s *Store) SchemaVersion] *)
Definition SchemaVersion : Comp sstore Z := λ s,
  match stmt (λ d, match meta d with
                   | None => Err (errNoTable "schema_meta")
                   | Some m => match m !! schemaVersionKey with
                               | None => Err (Sentinel SqlErrNoRows)
                               | Some v => Ok (v, d)
                               end
                   end) s with
  | (Err e, s') =>
      (Err (if errors_is e SqlErrNoRows then e else wrap "read schema version" e), s')
  | (Ok r, s') =>
      (match Atoi r with
       | None => Err (Wrapf "" (Sentinel ErrStateCorrupt) (": schema version " +:+ r +:+ " is not a number"))
       | Some v => Ok v
       end, s')
  end.

(** [func (s *Store) currentVersionOrZero] *)
Definition currentVersionOrZero : Comp sstore Z :=
  r ← try SchemaVersion;
  match r with
  | Err e => if errors_is e SqlErrNoRows then mret 0 else throw e
  | Ok v => mret v
  end.

Definition stamp (version : Z) (d : schema_db) : result (unit * schema_db) :=
  match meta d with
  | None => Err (errNoTable "schema_meta")
  | Some m => Ok (tt, MkSchemaDb (tables d) (Some (<[schemaVersionKey := pretty version]> m)))
  end.

Definition nothing (d : schema_db) : result (unit * schema_db) := Ok (tt, d).

(** The statements between BeginTx and Commit, both included. *)
Definition migration_tx (step : migrationStep) : Comp sstore unit :=
  wrapping ("begin migration to v" +:+ pretty (step_version step)) (stmt nothing) ≫= λ _,
  wrapping ("apply schema v" +:+ pretty (step_version step))
    (stmt (λ d, match step_sql step d with Ok d' => Ok (tt, d') | Err e => Err e end)) ≫= λ _,
  wrapping ("stamp schema version v" +:+ pretty (step_version step))
    (stmt (stamp (step_version step))) ≫= λ _,
  wrapping ("commit migration to v" +:+ pretty (step_version step)) (stmt nothing).

(** [func (s *Store) applyMigration]: with the deferred Rollback. *)
Definition applyMigration (step : migrationStep) : Comp sstore unit := λ s,
  match migration_tx step s with
  | (Err e, s') => (Err e, MkSStore (sch s) (sfaults s'))
  | r => r
  end.

(** The loop of [migrate]. *)
Fixpoint apply_steps (version : Z) (steps : list migrationStep) : Comp sstore unit :=
  match steps with
  | [] => mret tt
  | step :: steps =>
      if step_version step <=? version then apply_steps version steps
      else applyMigration step ≫= λ _, apply_steps version steps
  end.

(** [func (s *Store) migrate] *)
Definition migrate : Comp sstore unit :=
  wrapping "create schema_meta table" (stmt (λ d, Ok (tt, schemaMetaTableSQL d))) ≫= λ _,
  version ← currentVersionOrZero;
  if currentSchemaVersion <? version
  then throw (Wrapf "" (Sentinel ErrSchemaTooNew) (": found v" +:+ pretty version))
  else apply_steps version migrations.

(** What the driver says before any statement: [PingContext] and the result of
    PRAGMA integrity_check. *)
Record probe : Set := MkProbe { ping : result unit; integrity : result string }.

(** [func (s *Store) verifyAndMigrate] *)
Definition verifyAndMigrate (p : probe) : Comp sstore unit :=
  match ping p with
  | Err _ => throw (Wrapf "" (Sentinel ErrStateCorrupt) ": ping")
  | Ok _ =>
      match integrity p with
      | Err _ => throw (Wrapf "" (Sentinel ErrStateCorrupt) ": integrity_check")
      | Ok r =>
          if negb (bool_decide (r = "ok"))
          then throw (Wrapf "" (Sentinel ErrStateCorrupt) (": integrity_check=" +:+ r))
          else migrate
      end
  end.

(** The loop of [tightenPermissions]: [chmod] answers per path. *)
Fixpoint tighten (chmod : string → option error) (paths : list string) : option error :=
  match paths with
  | [] => None
  | path :: paths =>
      match chmod path with
      | Some e =>
          if errors_is e FsErrNotExist then tighten chmod paths
          else Some (wrap ("tighten permissions on " +:+ path) e)
      | None => tighten chmod paths
      end
  end.

(** [func tightenPermissions] *)
Definition tightenPermissions (chmod : string → option error) (dbPath : string) : option error :=
  tighten chmod [dbPath; dbPath +:+ "-wal"; dbPath +:+ "-shm"].

(** [func Open], after [sql.Open]: [FirstRun], or the error that closes the
    database again. [statErr] is what [os.Stat] said before. *)
Definition Open (statErr : option error) (p : probe) (chmod : string → option error) (path : string)
    : Comp sstore bool :=
  let firstRun := match statErr with Some e => errors_is e FsErrNotExist | None => false end in
  verifyAndMigrate p ≫= λ _,
  match tightenPermissions chmod path with
  | Some e => throw e
  | None => mret firstRun
  end.

(** ** Lemmas *)

(** The database of each version, as far as migrations are concerned. *)
Definition tables_of (v : Z) : gmap string Z :=
  if v =? 0 then ∅
  else if v =? 1 then <["devices" := 1]> (<["audit" := 1]> ∅)
  else <["pairing_codes" := 2]> (<["device_certs" := 2]> (<["devices" := 2]> (<["audit" := 1]> ∅))).

(** A store that stands exactly at version [v]: the tables of that version and,
    but for a store no migration has touched, its stamp. *)
Definition at_version (v : Z) (d : schema_db) : Prop :=
  0 <= v <= 2 ∧ tables d = tables_of v ∧
  (v = 0 → meta d = None ∨ meta d = Some ∅) ∧
  (0 < v → meta d = Some {[schemaVersionKey := pretty v]}).

Lemma stmt_cases {A} (f : schema_db → result (A * schema_db)) s :
  (∃ e fs, stmt f s = (Err e, MkSStore (sch s) fs) ∧
     (sfaults s = [] → f (sch s) = Err e)) ∨
  (∃ a d fs, f (sch s) = Ok (a, d) ∧ stmt f s = (Ok a, MkSStore d fs)).
Proof.
  unfold stmt. destruct (sfaults s) as [|[e|] fs]; [|left; by eexists _, _|];
    destruct (f (sch s)) as [[a d]|e]; [right|left|right|left]; eauto 10.
Qed.

Lemma stmt_no_fault {A} (f : schema_db → result (A * schema_db)) s a d :
  sfaults s = [] → f (sch s) = Ok (a, d) → stmt f s = (Ok a, MkSStore d []).
Proof. unfold stmt. by intros -> ->. Qed.

Lemma Atoi_version v : 0 <= v <= 2 → Atoi (pretty v) = Some v.
Proof. intros Hv. assert (v = 0 ∨ v = 1 ∨ v = 2) as [->|[->| ->]] by lia; vm_compute; reflexivity. Qed.

(** One rung of the ladder takes a store that stands at the version below to
    the next version, or leaves it where it was. *)
Lemma applyMigration_at v step s :
  (v = 0 ∧ step = MkMigrationStep 1 schemaV1 ∨ v = 1 ∧ step = MkMigrationStep 2 schemaV2) →
  at_version v (sch s) → meta (sch s) ≠ None →
  let '(r, s') := applyMigration step s in
  match r with
  | Ok _ => at_version (v + 1) (sch s')
  | Err _ => sch s' = sch s ∧ sfaults s ≠ []
  end.
Proof.
  intros Hstep (Hv & Ht & Hm0 & Hm1) Hmeta. unfold applyMigration, migration_tx.
  assert (∃ d1 d2, step_sql step (sch s) = Ok d1 ∧ stamp (step_version step) d1 = Ok (tt, d2) ∧
    at_version (v + 1) d2) as (d1 & d2 & Hsql & Hstamp & Hat).
  { destruct (sch s) as [tb mt]. cbn in *. destruct Hstep as [[-> ->]|[-> ->]].
    - destruct (Hm0 eq_refl) as [->| ->]; [done|]. subst tb. do 2 eexists.
      split; [vm_compute; reflexivity|]. split; [vm_compute; reflexivity|].
      split; [lia|]. split; [vm_compute; reflexivity|]. split; [lia|]. intros _. vm_compute. reflexivity.
    - rewrite Hm1 by lia. subst tb. do 2 eexists.
      split; [vm_compute; reflexivity|]. split; [vm_compute; reflexivity|].
      split; [lia|]. split; [vm_compute; reflexivity|]. split; [lia|]. intros _. vm_compute. reflexivity. }
  unfold mbind, comp_bind, wrapping.
  unfold stmt at 1. destruct (sfaults s) as [|[e|] fs] eqn:Hfs; cbn; [| done |].
  - rewrite Hsql. cbn. rewrite Hstamp. done.
  - unfold stmt at 1. cbn. rewrite Hsql. destruct fs as [|[e|] fs]; cbn; [|done|].
    + rewrite Hstamp. done.
    + unfold stmt at 1. cbn. rewrite Hstamp. destruct fs as [|[e|] fs]; cbn; [done|done|].
      unfold stmt at 1. cbn. destruct fs as [|[e|] fs]; cbn; done.
Qed.

(** A schedule without faults has none later either. *)
Lemma no_faults_stay step s r s' : applyMigration step s = (r, s') → sfaults s = [] → sfaults s' = [].
Proof.
  intros H Hs. unfold applyMigration in H.
  assert (∀ A (f : schema_db → result (A * schema_db)) t, sfaults t = [] → sfaults (stmt f t).2 = []) as Hstmt.
  { intros A f t Ht. unfold stmt. rewrite Ht. by destruct (f (sch t)) as [[a d]|e]. }
  assert (sfaults (migration_tx step s).2 = []) as Htx.
  { unfold migration_tx, mbind, comp_bind, wrapping.
    repeat match goal with |- context [match stmt ?f ?t with _ => _ end] =>
      let E := fresh in pose proof (Hstmt _ f t) as E; destruct (stmt f t) as [[?|?] ?]; cbn [snd] in E end; cbn;
      auto. }
  destruct (migration_tx step s) as [[u|e] s1]; injection H as <- <-; done.
Qed.

(** The ladder from version [v], once schema_meta exists. *)
Lemma apply_steps_at v s :
  at_version v (sch s) → meta (sch s) ≠ None →
  let '(r, s') := apply_steps v migrations s in
  match r with
  | Ok _ => at_version 2 (sch s')
  | Err _ => sfaults s ≠ [] ∧ ∃ v', v <= v' ∧ at_version v' (sch s')
  end.
Proof.
  intros Hat Hmeta. destruct Hat as (Hv & Hrest). pose proof (conj Hv Hrest) as Hat. clear Hrest.
  assert (∀ s1, at_version 1 (sch s1) →
    let '(r, s') := apply_steps v [MkMigrationStep 2 schemaV2] s1 in v <= 1 →
    match r with Ok _ => at_version 2 (sch s')
               | Err _ => sfaults s1 ≠ [] ∧ ∃ v', v <= v' ∧ at_version v' (sch s') end) as Hsecond.
  { intros s1 H1. assert (meta (sch s1) ≠ None) as Hm1.
    { destruct H1 as (_ & _ & _ & H1). by rewrite H1 by lia. }
    cbn [apply_steps step_version]. destruct (Z.leb_spec 2 v); [cbn; lia|]. unfold mbind, comp_bind.
    pose proof (applyMigration_at 1 (MkMigrationStep 2 schemaV2) s1 (or_intror (conj eq_refl eq_refl)) H1 Hm1) as Ha.
    destruct (applyMigration _ s1) as [[u|e] s']; intros Hle; [done|].
    destruct Ha as [-> Hf]. split; [done|]. by exists 1. }
  unfold migrations. cbn [apply_steps step_version].
  destruct (Z.leb_spec 1 v).
  - destruct (Z.leb_spec 2 v); [assert (v = 2) as -> by lia; done|].
    assert (v = 1) as -> by lia. specialize (Hsecond s Hat). cbn [apply_steps step_version] in Hsecond.
    change (2 <=? 1) with false in Hsecond. cbn iota in Hsecond.
    destruct ((applyMigration _ ≫= _) s) as [[u|e] s']; by apply Hsecond.
  - assert (v = 0) as -> by lia.
    pose proof (applyMigration_at 0 (MkMigrationStep 1 schemaV1) s (or_introl (conj eq_refl eq_refl)) Hat Hmeta) as Ha.
    unfold mbind at 1, comp_bind at 1. destruct (applyMigration (MkMigrationStep 1 schemaV1) s) as [[u|e] s1] eqn:Hrun.
    + specialize (Hsecond s1 Ha). cbn [apply_steps step_version] in Hsecond.
      change (2 <=? 0) with false in Hsecond |- *. cbn iota in Hsecond |- *.
      destruct ((applyMigration _ ≫= _) s1) as [[u'|e] s']; [by apply Hsecond|].
      destruct (Hsecond ltac:(lia)) as [Hf ?]. split; [|done].
      intros Hnil. apply Hf. eapply no_faults_stay; [exact Hrun|done].
    + destruct Ha as [-> Hf]. split; [done|]. by exists 0.
Qed.

Lemma schemaMetaTableSQL_at v d : at_version v d → at_version v (schemaMetaTableSQL d) ∧ meta (schemaMetaTableSQL d) ≠ None.
Proof.
  intros (Hv & Ht & H0 & H1). unfold schemaMetaTableSQL. destruct (meta d) as [m|] eqn:Hm.
  - split; [|by rewrite Hm]. split; [done|]. split; [done|]. rewrite Hm. done.
  - split; [|done]. split; [done|]. split; [done|]. split; [by right|]. intros Hp. by apply H1 in Hp.
Qed.

Lemma currentVersion_at v s :
  at_version v (sch s) → meta (sch s) ≠ None →
  let '(r, s') := currentVersionOrZero s in
  sch s' = sch s ∧ (sfaults s = [] → sfaults s' = []) ∧
  match r with Ok v' => v' = v | Err _ => sfaults s ≠ [] end ∨
  (∃ e fs, sfaults s = Some e :: fs ∧ errors_is e SqlErrNoRows = true).
Proof.
  intros (Hv & Ht & H0 & H1) Hm. unfold currentVersionOrZero, try, SchemaVersion, mbind, comp_bind, stmt.
  destruct (sfaults s) as [|[e|] fs] eqn:Hfs; cbn.
  - destruct (decide (v = 0)) as [->|].
    + destruct (H0 eq_refl) as [?|Hs]; [done|]. rewrite Hs. cbn. by left.
    + rewrite H1 by lia. assert (v = 1 ∨ v = 2) as [->| ->] by lia; vm_compute; by left.
  - destruct (errors_is e SqlErrNoRows) eqn:He; cbn; rewrite ?He; [right; eauto|by left].
  - destruct (decide (v = 0)) as [->|].
    + destruct (H0 eq_refl) as [?|Hs]; [done|]. rewrite Hs. cbn. by left.
    + rewrite H1 by lia. assert (v = 1 ∨ v = 2) as [->| ->] by lia; vm_compute; by left.
Qed.

(** ** Properties *)

(** [sql.ErrNoRows] is what the driver says of an empty result, never of a
    failure. *)
Definition real_faults (fs : list (option error)) : Prop :=
  Forall (λ o, ∀ e, o = Some e → errors_is e SqlErrNoRows = false) fs.

(** C31 The migration ladder always leaves a whole version behind. Started on a
    store at version 0 (new), 1 or 2, [migrate] either succeeds, with the
    tables and the stamp of version 2, or it fails because a statement failed,
    and then the store stands exactly at some version it already was at or had
    reached, never between two; so running it again without failures completes
    it. *)
Theorem migrate_whole_versions (v : Z) (s : sstore)
    (Hat : at_version v (sch s)) (Hreal : real_faults (sfaults s)) :
  let '(r, s') := migrate s in
  match r with
  | Ok _ => at_version 2 (sch s')
  | Err _ => sfaults s ≠ [] ∧ ∃ v', v <= v' ∧ at_version v' (sch s')
  end.
Proof.
  assert (∀ s1, at_version v (sch s1) → meta (sch s1) ≠ None → real_faults (sfaults s1) →
    let '(r, s') := (version ← currentVersionOrZero;
      if currentSchemaVersion <? version
      then throw (Wrapf "" (Sentinel ErrSchemaTooNew) (": found v" +:+ pretty version))
      else apply_steps version migrations) s1 in
    match r with Ok _ => at_version 2 (sch s')
               | Err _ => sfaults s1 ≠ [] ∧ ∃ v', v <= v' ∧ at_version v' (sch s') end) as Hrest.
  { intros s1 H1 Hm Hf. pose proof (currentVersion_at v s1 H1 Hm) as Hc. unfold mbind, comp_bind.
    destruct (currentVersionOrZero s1) as [[v'|e] s2].
    - destruct Hc as [(Hs & Hnf & ->)|(e & fs & Hfs & He)].
      + assert (v <= 2) as Hv by (destruct H1 as [? _]; lia). unfold currentSchemaVersion.
        rewrite (proj2 (Z.ltb_ge _ _)) by done. rewrite <- Hs in H1, Hm.
        pose proof (apply_steps_at v s2 H1 Hm) as Ha.
        destruct (apply_steps v migrations s2) as [[u|e] s']; [done|].
        destruct Ha as [Hne ?]. split; [|done]. intros H0. by apply Hne, Hnf.
      + exfalso. rewrite Hfs in Hf. apply Forall_cons in Hf as [Hf _]. rewrite (Hf e eq_refl) in He. done.
    - destruct Hc as [(Hs & _ & Hne)|(e' & fs & Hfs & He)].
      + split; [done|]. exists v. rewrite Hs. split; [lia|done].
      + exfalso. rewrite Hfs in Hf. apply Forall_cons in Hf as [Hf _]. rewrite (Hf e' eq_refl) in He. done. }
  unfold migrate. unfold mbind at 1, comp_bind at 1, wrapping, stmt.
  destruct (schemaMetaTableSQL_at v (sch s) Hat) as [Hat' Hm'].
  destruct (sfaults s) as [|[e|] fs] eqn:Hfs; cbn.
  - specialize (Hrest (MkSStore (schemaMetaTableSQL (sch s)) []) Hat' Hm' ltac:(constructor)).
    destruct ((currentVersionOrZero ≫= _) _) as [[u|e] s']; [done|]. by destruct Hrest.
  - split; [done|]. exists v. split; [lia|done].
  - apply Forall_cons in Hreal as [_ Hreal].
    specialize (Hrest (MkSStore (schemaMetaTableSQL (sch s)) fs) Hat' Hm' Hreal).
    destruct ((currentVersionOrZero ≫= _) _) as [[u|e] s']; [done|]. split; [done|tauto].
Qed.

(** The write of the second stamp fails on a new store: it is left at version 1. *)
Lemma migrate_whole_versions_witness :
  let s := MkSStore fresh_db [None; None; None; None; None; None; None; None; Some (Leaf "disk full")] in
  is_ok (migrate s).1 = false ∧ meta (sch (migrate s).2) = Some {[schemaVersionKey := "1"]} ∧
  let '(r, s') := migrate s in
  match r with
  | Ok _ => at_version 2 (sch s')
  | Err _ => sfaults s ≠ [] ∧ ∃ v', 0 <= v' ∧ at_version v' (sch s')
  end.
Proof.
  intros s. split; [vm_compute; reflexivity|]. split; [vm_compute; reflexivity|].
  apply (migrate_whole_versions 0 s).
  - split; [lia|]. split; [reflexivity|]. split; [intros _; by left|]. intros H. exfalso. lia.
  - repeat constructor; intros e [= <-]; reflexivity.
Defined.

(** A store this build must not touch is refused untouched: a version above
    the current one is [ErrSchemaTooNew], a version that is not a number is
    [ErrStateCorrupt], and so is a file that does not answer the ping or the
    integrity check, all before any table is written. *)
Theorem Open_refuses (statErr : option error) (p : probe) (chmod : string → option error)
    (path : string) (d : schema_db) (m : gmap string string) (v : string)
    (Hmeta : meta d = Some m) (Hversion : m !! schemaVersionKey = Some v)
    (Hbad : match Atoi v with Some n => currentSchemaVersion < n | None => True end) :
  ∃ e, Open statErr p chmod path (MkSStore d []) = (Err e, MkSStore d []) ∧
    ((errors_is e ErrSchemaTooNew = true ∧ ∃ n, Atoi v = Some n) ∨ errors_is e ErrStateCorrupt = true).
Proof.
  unfold Open, verifyAndMigrate. destruct (ping p) as [[]|]; [|eexists; split; [reflexivity|by right]].
  destruct (integrity p) as [r|]; [|eexists; split; [reflexivity|by right]].
  destruct (negb _); [eexists; split; [reflexivity|by right]|].
  unfold migrate, currentVersionOrZero, try, SchemaVersion, mbind, comp_bind, wrapping, stmt. cbn.
  unfold schemaMetaTableSQL. rewrite Hmeta. cbn. rewrite Hmeta, Hversion. cbn.
  destruct (Atoi v) as [n|]; cbn.
  - rewrite (proj2 (Z.ltb_lt _ _)) by done. eexists. split; [reflexivity|]. left. eauto.
  - eexists. split; [reflexivity|by right].
Qed.

Lemma Open_refuses_witness :
  let d := MkSchemaDb (tables_of 2) (Some {[schemaVersionKey := "3"]}) in
  ∃ e, Open None (MkProbe (Ok tt) (Ok "ok")) (λ _, None) "/var/lib/devmon/devmon.db" (MkSStore d []) = (Err e, MkSStore d []) ∧
    ((errors_is e ErrSchemaTooNew = true ∧ ∃ n, Atoi "3" = Some n) ∨ errors_is e ErrStateCorrupt = true).
Proof.
  apply (Open_refuses None (MkProbe (Ok tt) (Ok "ok")) (λ _, None) "/var/lib/devmon/devmon.db" _
    {[schemaVersionKey := "3"]} "3"); vm_compute; reflexivity.
Defined.
