(* ===== verification/Cli.v ===== *)
(** * Cli: the operator's commands (cmd/devmon-agent/cli.go, pair_code_ttl.go,
    health.go, usage.go)

    [device], [audit] and [health], which run in a process of their own next to
    the agent, on the same database. The state of such a process is what it has
    printed and the database; the schema statements of [state.Open] and the rows
    are the models of Schema.v and Store.v. Parameters: [%q], the random code, the
    hash of a code, the clock, and the answer to the probe's request. *)
From S2P Require Import Schema.
From S2P Require Import Prelude GoTime GoStrings GoTabwriter GoFlag Policy Store Config.
Open Scope Z_scope.

Definition subcommandList : string := "list".
Definition subcommandRevoke : string := "revoke".
Definition subcommandPairCode : string := "pair-code".
Definition pairCodeNameFlag : string := "name".
Definition deviceStateActive : string := "active".
Definition deviceStateRevoked : string := "revoked".
Definition lastSeenNever : string := "never".
Definition auditLimitFlag : string := "limit".
Definition defaultAuditLimit : Z := 100.
Definition auditEmptyColumn : string := "-".
Definition pairCodeTTLFlag : string := "ttl".
Definition pairCodeMinTTLMinutes : Z := 5.
Definition pairTTLMaxEnvVar : string := "DEVMON_PAIR_TTL_MAX_MIN".
Definition healthStatusPath : string := "/v1/status".
Definition loopbackHost : string := "127.0.0.1".
Definition devmonAliasName : string := "devmon".


(** ** usage.go *)

Definition deviceUsage : string := "Usage: devmon device <subcommand> [flags]

Subcommands:
  list                                            list paired devices
  revoke <id>                                     revoke a device's access
  pair-code --name <name> [--ttl minutes]         mint a single-use pairing code

--ttl minutes   pairing code lifetime, 5 to DEVMON_PAIR_TTL_MAX_MIN
                (default: 10, or the ceiling if it is lower)
".
Definition auditUsage : string := "Usage: devmon audit list [--limit N]

--limit N   maximum number of audit rows to print, most recent first (default 100)
".
Definition healthUsage : string := "Usage: devmon health

Probes the running agent's own listener and exits 0 if healthy, 1 otherwise.
Takes no arguments. This is what the image's HEALTHCHECK runs.
".

(** [filepath.Base] *)
Fixpoint strip_slashes (l : list ascii) : list ascii :=
  match l with
  | c :: l => if Ascii.eqb c "/" then strip_slashes l else c :: l
  | [] => []
  end.
Fixpoint until_slash (l : list ascii) : list ascii :=
  match l with
  | c :: l => if Ascii.eqb c "/" then [] else c :: until_slash l
  | [] => []
  end.
Definition Base (path : string) : string :=
  if bool_decide (path = "") then "."
  else
    let l := rev (until_slash (strip_slashes (rev (bytes path)))) in
    if bool_decide (l = []) then "/" else of_bytes l.
(** [strings.ToLower], on ASCII; no other rune lowers to a letter of "devmon.exe". *)
Definition ToLower (s : string) : string :=
  of_bytes (map (λ c, if is_upper c then lower c else c) (bytes s)).

(** [func isDevmonAlias] *)
Definition isDevmonAlias (argv0 : string) : bool :=
  bool_decide (trim_suffix ".exe" (ToLower (Base argv0)) = devmonAliasName).

(** [func helpRequested] *)
Definition helpRequested (args : list string) : bool :=
  existsb (λ a, bool_decide (a ∈ ["-h"; "-help"; "--help"])) args.

(** [func isHelpSubcommand] *)
Definition isHelpSubcommand (a : string) : bool := bool_decide (a ∈ ["help"; "-h"; "-help"; "--help"]).

(** ** pair_code_ttl.go *)

(** [func resolvePairCodeTTL] *)
Definition resolvePairCodeTTL (ttlMinutes : Z) (set : bool) (ceiling : Z) : result Z :=
  if negb set then
    Ok (if ceiling <? DefaultPairingCodeTTL then ceiling else DefaultPairingCodeTTL)
  else
    let ceilingMinutes := Z.quot ceiling Minute in
    if ttlMinutes <? pairCodeMinTTLMinutes then
      Err (Leaf ("device pair-code: --" +:+ pairCodeTTLFlag +:+ " " +:+ pretty ttlMinutes +:+ " is below the " +:+
                 pretty pairCodeMinTTLMinutes +:+ "-minute minimum"))
    else if ceilingMinutes <? ttlMinutes then
      Err (Leaf ("device pair-code: --" +:+ pairCodeTTLFlag +:+ " " +:+ pretty ttlMinutes +:+ " exceeds " +:+
                 pairTTLMaxEnvVar +:+ " (" +:+ pretty ceilingMinutes +:+ ")"))
    else Ok (wrap64 (ttlMinutes * Minute)).

(** ** The process *)

Record host : Type := MkHost {
  stdout : list string; stderr : list string; h_schema : Schema.sstore; h_store : store }.
Definition print (s : string) : Comp host unit :=
  modify (λ h, MkHost (stdout h ++ [s]) (stderr h) (h_schema h) (h_store h)).
Definition eprint (s : string) : Comp host unit :=
  modify (λ h, MkHost (stdout h) (stderr h ++ [s]) (h_schema h) (h_store h)).
Definition on_store {A} (m : Comp store A) : Comp host A := λ h,
  let '(r, s) := m (h_store h) in (r, MkHost (stdout h) (stderr h) (h_schema h) s).
Definition on_schema {A} (m : Comp Schema.sstore A) : Comp host A := λ h,
  let '(r, s) := m (h_schema h) in (r, MkHost (stdout h) (stderr h) s (h_store h)).

(** What [state.Open] meets besides the database itself. *)
Record open_env : Type := MkOpenEnv {
  oe_stat : option error; oe_probe : Schema.probe; oe_chmod : string → option error }.

(** [func formatLastSeen], [deviceStateOf], [deviceNameByID], [orDash],
    [auditDeviceColumn] *)
Definition formatLastSeen (t : option Z) : string :=
  match t with None => lastSeenNever | Some t => format_rfc3339 (Unix t) end.
Definition deviceStateOf (d : Device) : string := if IsRevoked d then deviceStateRevoked else deviceStateActive.
Fixpoint deviceNameByID (devices : list Device) (id : string) : string :=
  match devices with
  | [] => ""
  | d :: devices => if bool_decide (dev_ID d = id) then dev_Name d else deviceNameByID devices id
  end.
Definition orDash (s : string) : string := if bool_decide (s = "") then auditEmptyColumn else s.
Definition auditDeviceColumn (devices : list Device) (id : string) : string :=
  let name := deviceNameByID devices id in
  if bool_decide (name = "") then id else id +:+ " (" +:+ name +:+ ")".

(** One [Fprintf] of a table: the cells between tabs, a newline. *)
Definition table_line (cells : list string) : string := join tab cells +:+ nl.
Definition device_header : list string := ["ID"; "NAME"; "PAIRED"; "LAST SEEN"; "STATE"].
Definition device_cells (d : Device) : list string :=
  [dev_ID d; dev_Name d; format_rfc3339 (Unix (dev_PairedAt d)); formatLastSeen (dev_LastSeenAt d); deviceStateOf d].
Definition audit_header : list string := ["WHEN"; "DEVICE"; "OPERATION"; "TARGET"; "OUTCOME"; "DETAIL"].
Definition audit_cells (devices : list Device) (e : AuditEntry) : list string :=
  [format_rfc3339 (Unix (default 0 (ae_OccurredAt e))); auditDeviceColumn devices (ae_DeviceID e);
   ae_Operation e; orDash (ae_Target e); ae_Outcome e; orDash (ae_Detail e)].
Definition table_text (rows : list (list string)) : string := join "" (map table_line rows).

Section Commands.
Context (quote : string → string) (hash : string → string).
(** [outErr]: the error of writing a table to the standard output. *)
Context (outErr : option error).

Definition print_table (ctx : string) (rows : list (list string)) : Comp host unit :=
  match outErr with
  | Some e => throw (wrap ctx e)
  | None => print (tabulate (table_text rows))
  end.

(** [func openDeviceStore] *)
Definition openDeviceStore (env : open_env) (cfg : Config) : Comp host unit :=
  wrapping "open state store for device command"
    (on_schema (Schema.Open (oe_stat env) (oe_probe env) (oe_chmod env) (DBPath cfg))) ≫= λ _, mret tt.

(** [func runDeviceList] *)
Definition runDeviceList : Comp host unit :=
  devices ← wrapping "list devices" (on_store ListDevices);
  print_table "write device list" (device_header :: map device_cells devices).

(** [fs.Parse] of a subcommand: [flag.ErrHelp] prints the usage and ends it. *)
Definition parse_or_help (usage ctx : string) (formal : gmap string flag_kind) (args : list string)
    (k : FlagSet → Comp host unit) : Comp host unit :=
  match Parse quote formal args with
  | Err e => if errors_is e FlagErrHelp then print usage else throw (wrap ctx e)
  | Ok f => k f
  end.

(** [func runDeviceRevoke] *)
Definition runDeviceRevoke (args : list string) (now : Z) : Comp host unit :=
  parse_or_help deviceUsage "device revoke" ∅ args (λ f,
    match Args f with
    | [id] =>
        devices ← wrapping "list devices before revoke" (on_store ListDevices);
        let name := deviceNameByID devices id in
        wrapping ("revoke device " +:+ id) (on_store (RevokeDevice id now)) ≫= λ _,
        print ("revoked " +:+ id +:+ " (" +:+ name +:+ ")" +:+ nl)
    | l => throw (Leaf ("device revoke: expected exactly one device id argument, got " +:+ pretty (Z.of_nat (List.length l))))
    end).

(** [func runDevicePairCode]; [code] is what [rand.Text()] will return. *)
Definition pair_code_flags : gmap string flag_kind :=
  <[pairCodeNameFlag := FString]> (<[pairCodeTTLFlag := FInt]> ∅).
Definition runDevicePairCode (ttlMax : Z) (args : list string) (code : string) (now : Z) : Comp host unit :=
  parse_or_help deviceUsage "device pair-code" pair_code_flags args (λ f,
    let name := string_flag f pairCodeNameFlag "" in
    if bool_decide (TrimSpace name = "") then
      throw (Leaf ("device pair-code: --" +:+ pairCodeNameFlag +:+ " is required"))
    else
      let ttlSet := bool_decide (is_Some (actual f !! pairCodeTTLFlag)) in
      match resolvePairCodeTTL (int_flag f pairCodeTTLFlag 0) ttlSet ttlMax with
      | Err e => throw e
      | Ok ttl =>
          '(code, expiresAt) ← wrapping "mint pairing code" (on_store (MintPairingCode hash code name ttl now));
          print ("Pairing code: " +:+ code +:+ nl) ≫= λ _,
          print ("Expires:      " +:+ format_rfc3339 (Unix expiresAt) +:+ nl)
      end).

(** [func runDeviceCommand] *)
Definition runDeviceCommand (env : open_env) (cfg : Config) (args : list string) (code : string) (now : Z)
    : Comp host unit :=
  match args with
  | [] => throw (Leaf ("device: missing subcommand (want one of: " +:+ subcommandList +:+ ", " +:+
                        subcommandRevoke +:+ ", " +:+ subcommandPairCode +:+ ")"))
  | sub :: rest =>
      if isHelpSubcommand sub then print deviceUsage
      else if negb (bool_decide (sub ∈ [subcommandList; subcommandRevoke; subcommandPairCode])) then
        throw (Leaf ("device: unknown subcommand " +:+ quote sub +:+ " (want one of: " +:+ subcommandList +:+ ", " +:+
                        subcommandRevoke +:+ ", " +:+ subcommandPairCode +:+ ")"))
      else
        openDeviceStore env cfg ≫= λ _,
        if bool_decide (sub = subcommandList) then runDeviceList
        else if bool_decide (sub = subcommandRevoke) then runDeviceRevoke rest now
        else runDevicePairCode (PairTTLMax cfg) rest code now
  end.

(** [func runAuditList] *)
Definition runAuditList (limit : Z) : Comp host unit :=
  entries ← wrapping "list audit entries" (on_store (ListAudit limit));
  devices ← wrapping "list devices for audit" (on_store ListDevices);
  print_table "write audit list" (audit_header :: map (audit_cells devices) entries).

(** [func runAuditListCommand] *)
Definition runAuditListCommand (args : list string) : Comp host unit :=
  parse_or_help auditUsage "audit list" (<[auditLimitFlag := FInt]> ∅) args (λ f,
    runAuditList (int_flag f auditLimitFlag defaultAuditLimit)).

(** [func runAuditCommand] *)
Definition runAuditCommand (env : open_env) (cfg : Config) (args : list string) : Comp host unit :=
  match args with
  | [] => throw (Leaf ("audit: missing subcommand (want one of: " +:+ subcommandList +:+ ")"))
  | sub :: rest =>
      if isHelpSubcommand sub then print auditUsage
      else if negb (bool_decide (sub = subcommandList)) then
        throw (Leaf ("audit: unknown subcommand " +:+ quote sub +:+ " (want one of: " +:+ subcommandList +:+ ")"))
      else openDeviceStore env cfg ≫= λ _, runAuditListCommand rest
  end.

(** ** health.go *)

(** [net.JoinHostPort] *)
Definition JoinHostPort (host port : string) : string :=
  if has_byte host ":" then "[" +:+ host +:+ "]:" +:+ port else host +:+ ":" +:+ port.

(** [func healthTargetAddr] *)
Definition healthTargetAddr (listenAddr : string) : result string :=
  match SplitHostPort listenAddr with
  | Err e => Err (wrap ("parse listen address " +:+ quote listenAddr) e)
  | Ok (host, port) =>
      let host := if bool_decide (host ∈ [""; "0.0.0.0"; "::"]) then loopbackHost else host in
      Ok (JoinHostPort host port)
  end.

(** [func probeStatus]; [newRequest url] is the error of building the request,
    [do url] the status of the response to it or the error of the client. *)
Definition probeStatus (newRequest : string → option error) (do : string → result Z) (addr : string)
    : Comp host unit :=
  let url := "https://" +:+ addr +:+ healthStatusPath in
  match newRequest url with
  | Some e => throw (wrap "build health request" e)
  | None =>
      match do url with
      | Err e => throw (wrap ("dial " +:+ addr) e)
      | Ok code =>
          if code =? 200 then print ("healthy: GET /v1/status returned 200" +:+ nl)
          else if code =? 429 then
            print ("healthy: GET /v1/status returned 429 (rate-limited, listener is answering)" +:+ nl)
          else throw (Leaf ("unhealthy: GET /v1/status returned " +:+ pretty code))
      end
  end.

(** [func runHealthCommand] *)
Definition runHealthCommand (newRequest : string → option error) (do : string → result Z) (cfg : Config) (args : list string) : Comp host unit :=
  if helpRequested args then print healthUsage
  else
    match args with
    | a :: _ => throw (Leaf ("health: unexpected argument " +:+ quote a +:+ " (health takes no arguments)"))
    | [] =>
        match healthTargetAddr (ListenAddr cfg) with
        | Err e => throw (wrap "health" e)
        | Ok addr => probeStatus newRequest do addr
        end
    end.
End Commands.

(** ** Tables *)

(** Texts without a tab or a newline. *)
Definition plain (s : string) : Prop := free_of "009" s = true ∧ free_of "010" s = true.
#[local] Instance plain_dec s : Decision (plain s).
Proof. unfold plain. apply _. Defined.

Lemma plain_cons c s : plain (String c s) ↔ Ascii.eqb c "009" = false ∧ Ascii.eqb c "010" = false ∧ plain s.
Proof. unfold plain. rewrite !free_of_cons. tauto. Qed.

Lemma plain_app a b : plain a → plain b → plain (a +:+ b).
Proof.
  intros Ha Hb. induction a as [|c a IH]; [done|]. rewrite append_cons. apply plain_cons in Ha as (? & ? & Ha).
  apply plain_cons. auto.
Qed.

Lemma plain_pretty_N (x : N) : plain (pretty x).
Proof.
  unfold pretty, pretty_N. case_decide as Hz; [by split|clear Hz].
  assert (∀ s, plain s → plain (pretty_N_go x s)) as Hgo; [|by apply Hgo].
  induction (N.lt_wf_0 x) as [x _ IH]. intros s Hs. destruct (decide (x = 0%N)) as [->|Hx]; [by rewrite pretty_N_go_0|].
  rewrite pretty_N_go_step by lia. apply IH; [apply N.div_lt; lia|]. apply plain_cons.
  destruct (x mod 10)%N as [|p]; [done|]. by repeat (destruct p as [p|p|]; try done).
Qed.

Lemma plain_pretty (z : Z) : plain (pretty z).
Proof. destruct z as [|p|p]; [by split|apply plain_pretty_N|]. apply (plain_app "-"); [by split|apply plain_pretty_N]. Qed.

Lemma plain_time t : plain (format_rfc3339 t) ∧ format_rfc3339 t ≠ "".
Proof.
  unfold format_rfc3339. destruct (civil_from_days (t / 86400)) as [[y m] d].
  assert (∀ n, plain (pad2 n)) as H2
    by (intros n; unfold pad2; apply plain_app; [by destruct (n <? 10); split|apply plain_pretty]).
  assert (plain (pad4 y)) as H4.
  { unfold pad4. apply plain_app; [by destruct (y <? 0); split|]. cbv zeta.
    repeat case_match; (apply plain_app; [by split|apply plain_pretty]). }
  split; [repeat (apply plain_app; try done)|].
  intros He. apply (f_equal String.length) in He. rewrite !length_append in He. cbn in He. lia.
Qed.

Lemma plain_orDash s : plain s → plain (orDash s) ∧ orDash s ≠ "".
Proof. intros Hs. unfold orDash. by case_bool_decide. Qed.

Lemma plain_name devices id : Forall (λ d, plain (dev_Name d)) devices → plain (deviceNameByID devices id).
Proof. induction 1 as [|d devices Hd _ IH]; [done|]. cbn. by case_bool_decide. Qed.

Lemma plain_device devices id : Forall (λ d, plain (dev_Name d)) devices → plain id →
  plain (auditDeviceColumn devices id) ∧ (auditDeviceColumn devices id = "" ↔ id = "" ∧ deviceNameByID devices id = "").
Proof.
  intros Hd Hid. pose proof (plain_name devices id Hd) as Hn. unfold auditDeviceColumn. case_bool_decide as He; [tauto|].
  split; [repeat (apply plain_app; try done)|]. split; [|tauto].
  intros Hx. apply (f_equal String.length) in Hx. rewrite !length_append in Hx. cbn in Hx. lia.
Qed.

Lemma table_line_cells cells : cells ≠ [] → Forall plain cells →
  split_on "010" (table_line cells) = [join tab cells; ""] ∧ split_on "009" (join tab cells) = cells.
Proof.
  intros Hne Hp. split.
  - unfold table_line. apply split_on_app. clear Hne.
    induction Hp as [|a [|b l] [Ha Hn] Hp IH]; [done|done|]. rewrite join_cons.
    assert (Happ : ∀ x y, free_of "010" x = true → free_of "010" y = true → free_of "010" (x +:+ y) = true).
    { intros x y. induction x as [|c x IHx]; [done|]. rewrite append_cons, !free_of_cons. naive_solver. }
    apply Happ; [done|]. by apply Happ.
  - apply split_join; [done|]. eapply Forall_impl; [exact Hp|]. by intros ? [? _].
Qed.

(** ** Properties *)

(** C34 A pairing code lives as long as was asked for and never longer than the
    operator's ceiling: under any ceiling [Load] admits, [--ttl n] is honoured
    to the minute when n is in the documented range, refused otherwise (zero,
    negative and huge numbers included: nothing is multiplied before the check),
    and without the flag the lifetime is ten minutes or the ceiling. *)
Theorem pair_code_ttl (quote : string → string) (url_scheme : string → result string) (getenv : string → string)
    (cfg : Config) (n : Z) (set : bool) (Hload : Load quote url_scheme getenv = inl cfg) :
  let ceiling := PairTTLMax cfg in
  match resolvePairCodeTTL n set ceiling with
  | Ok ttl => 0 < ttl <= ceiling ∧
      if set then pairCodeMinTTLMinutes * Minute <= n * Minute <= ceiling ∧ ttl = n * Minute
      else ttl = Z.min DefaultPairingCodeTTL ceiling
  | Err _ => set = true ∧ ¬ (pairCodeMinTTLMinutes * Minute <= n * Minute <= ceiling)
  end.
Proof.
  apply Load_ok in Hload. destruct (vc_ttl _ _ Hload) as (m & Hm & ->). cbv zeta.
  unfold resolvePairCodeTTL, DefaultPairingCodeTTL, pairCodeMinTTLMinutes.
  assert (Z.quot (m * Minute) Minute = m) as -> by (apply Z.quot_mul; done).
  assert (Minute = 60000000000) as -> by reflexivity. destruct set; cbn [negb].
  - destruct (Z.ltb_spec n 5); [split; [done|lia]|]. destruct (Z.ltb_spec m n); [split; [done|lia]|].
    rewrite wrap64_id by (unfold in_int64; lia). lia.
  - destruct (Z.ltb_spec (m * 60000000000) (10 * 60000000000)); lia.
Qed.

(** Every row of [audit list] is one line of six cells as long as the stored
    texts hold no tab and no newline; TARGET and DETAIL are never empty, and
    DEVICE is empty exactly for a row that names no device. *)
Theorem audit_line_columns (devices : list Device) (e : AuditEntry)
    (Hnames : Forall (λ d, plain (dev_Name d)) devices)
    (Hplain : Forall plain [ae_DeviceID e; ae_Operation e; ae_Target e; ae_Outcome e; ae_Detail e]) :
  ∃ line whenc device targetc detailc,
    split_on "010" (table_line (audit_cells devices e)) = [line; ""] ∧
    split_on "009" line = [whenc; device; ae_Operation e; targetc; ae_Outcome e; detailc] ∧
    whenc ≠ "" ∧ targetc ≠ "" ∧ detailc ≠ "" ∧
    (device = "" ↔ ae_DeviceID e = "" ∧ deviceNameByID devices "" = "").
Proof.
  rewrite !Forall_cons in Hplain. destruct Hplain as (Hid & Hop & Htg & Hoc & Hdt & _).
  destruct (plain_time (Unix (default 0 (ae_OccurredAt e)))) as [Ht Ht'], (plain_device devices _ Hnames Hid) as [Hd Hd'],
    (plain_orDash _ Htg) as [Hg Hg'], (plain_orDash _ Hdt) as [Hl Hl'].
  destruct (table_line_cells (audit_cells devices e)) as [H1 H2]; [discriminate|unfold audit_cells; repeat (apply Forall_cons_2; [assumption|]); apply Forall_nil_2|].
  exists (join tab (audit_cells devices e)). do 4 eexists. split; [exact H1|]. split; [exact H2|].
  repeat (split; [assumption|]). rewrite Hd'. clear. split; intros [-> ?]; by split.
Qed.

Lemma runDevicePairCode_run (quote hash : string → string) (ttlMax : Z) (args : list string) (code : string) (now : Z)
    (f : FlagSet) (h : host) (Hargs : Parse quote pair_code_flags args = Ok f) (Hfaults : faults (h_store h) = [])
    (Hfresh : pairing_codes (sdb (h_store h)) !! hash code = None) :
  let name := string_flag f pairCodeNameFlag "" in
  let '(res, h') := runDevicePairCode quote hash ttlMax args code now h in
  match res with
  | Ok _ => ∃ ttl, resolvePairCodeTTL (int_flag f pairCodeTTLFlag 0) (bool_decide (is_Some (actual f !! pairCodeTTLFlag))) ttlMax = Ok ttl ∧
      0 < ttl ∧ TrimSpace name ≠ "" ∧
      stdout h' = stdout h ++ ["Pairing code: " +:+ code +:+ nl; "Expires:      " +:+ format_rfc3339 (Unix (now + ttl)) +:+ nl] ∧
      sdb (h_store h') = set_codes (sdb (h_store h))
        (<[hash code := MkCodeRow name (Unix now) (Unix (now + ttl)) None None]> (pairing_codes (sdb (h_store h)))) ∧
      ∀ id t, Unix t < Unix (now + ttl) → (RedeemPairingCode hash code id t (h_store h')).1 = Ok name
  | Err _ => h' = h
  end.
Proof.
  cbv zeta. unfold runDevicePairCode, parse_or_help. rewrite Hargs. case_bool_decide as Hname; [done|].
  destruct (resolvePairCodeTTL _ _ _) as [ttl|e] eqn:Httl; [|done].
  unfold wrapping, on_store, mbind, comp_bind, MintPairingCode. destruct (Z.leb_spec ttl 0).
  { cbn. by destruct h. }
  unfold wrapping, mbind, comp_bind. rewrite sql_ok, Hfresh by done. cbn.
  exists ttl. repeat (split; [first [done|by rewrite <- (assoc_L (++))]|]). intros id t Ht.
  unfold RedeemPairingCode, no_rows. rewrite sql_ok by done. cbn. rewrite lookup_insert_eq. cbn.
  by rewrite (proj2 (Z.ltb_lt _ _)).
Qed.

(** What [device pair-code] prints is what a device can pair with: on a
    database without faults the command stores exactly one code, hashed, for the
    name given, usable from then on until its expiry, and prints the code once;
    an unusable name or lifetime stores and prints nothing. *)
Theorem pair_code_printed (quote hash : string → string) (ttlMax : Z) (args : list string) (code : string) (now : Z)
    (f : FlagSet) (h : host) (Hargs : Parse quote pair_code_flags args = Ok f) (Hfaults : faults (h_store h) = [])
    (Hfresh : pairing_codes (sdb (h_store h)) !! hash code = None) :
  let name := string_flag f pairCodeNameFlag "" in
  let '(res, h') := runDevicePairCode quote hash ttlMax args code now h in
  match res with
  | Ok _ => ∃ ttl, resolvePairCodeTTL (int_flag f pairCodeTTLFlag 0) (bool_decide (is_Some (actual f !! pairCodeTTLFlag))) ttlMax = Ok ttl ∧
      0 < ttl ∧ TrimSpace name ≠ "" ∧
      stdout h' = stdout h ++ ["Pairing code: " +:+ code +:+ nl; "Expires:      " +:+ format_rfc3339 (Unix (now + ttl)) +:+ nl] ∧
      sdb (h_store h') = set_codes (sdb (h_store h))
        (<[hash code := MkCodeRow name (Unix now) (Unix (now + ttl)) None None]> (pairing_codes (sdb (h_store h)))) ∧
      ∀ id t, Unix t < Unix (now + ttl) → (RedeemPairingCode hash code id t (h_store h')).1 = Ok name
  | Err _ => h' = h
  end.
Proof. by apply runDevicePairCode_run. Qed.

(** ** Examples *)

Definition toy_host (s : store) : host := MkHost [] [] (Schema.MkSStore Schema.fresh_db []) s.

Lemma pair_code_ttl_witness :
  ∃ cfg, Load toy_quote toy_scheme (toy_env [(envPublicAddr, "vps.example.com"); (envPairTTLMax, "30")]) = inl cfg ∧
    resolvePairCodeTTL 20 true (PairTTLMax cfg) = Ok (20 * Minute) ∧ 20 * Minute <= PairTTLMax cfg.
Proof.
  destruct (Load toy_quote toy_scheme (toy_env [(envPublicAddr, "vps.example.com"); (envPairTTLMax, "30")])) as [cfg|] eqn:Hload;
    [|vm_compute in Hload; discriminate Hload].
  exists cfg. split; [reflexivity|]. pose proof (pair_code_ttl _ _ _ cfg 20 true Hload) as Ht. cbv zeta in Ht.
  assert (PairTTLMax cfg = 30 * Minute) as Hc by (vm_compute in Hload; by injection Hload as <-).
  rewrite Hc in *. split; [reflexivity|]. vm_compute in Ht. vm_compute. tauto.
Defined.

Definition toy_pair_flags : FlagSet :=
  MkFlagSet [] (<[pairCodeTTLFlag := VInt 7]> (<[pairCodeNameFlag := VString "phone"]> ∅)).

Lemma pair_code_printed_witness :
  stdout (runDevicePairCode toy_quote toy_hash (10 * Minute) ["--name"; "phone"; "--ttl=7"] "CODE" (3 * Second)
    (toy_host (MkStore empty_db []))).2 = ["Pairing code: CODE" +:+ nl; "Expires:      1970-01-01T00:07:03Z" +:+ nl].
Proof.
  pose proof (pair_code_printed toy_quote toy_hash (10 * Minute) ["--name"; "phone"; "--ttl=7"] "CODE" (3 * Second)
    toy_pair_flags (toy_host (MkStore empty_db [])) ltac:(vm_compute; reflexivity) eq_refl eq_refl) as Hp.
  cbv zeta in Hp. destruct (runDevicePairCode _ _ _ _ _ _ _) as [[u|e] h'] eqn:Hr.
  - destruct Hp as (ttl & Ht & _ & _ & Ho & _). cbn [snd]. rewrite Ho.
    assert (ttl = 7 * Minute) as -> by (vm_compute in Ht; by injection Ht). vm_compute. reflexivity.
  - exfalso. vm_compute in Hr. discriminate Hr.
Defined.

Lemma audit_line_columns_witness :
  ∃ line, table_line (audit_cells [MkDevice "d1" "phone" 0 None None]
      (MkAuditEntry 1 (Some 0) "d1" "stop" "web" OutcomeSuccess "")) = line ∧ split_on "010" line ≠ [].
Proof.
  eexists. split; [reflexivity|].
  destruct (audit_line_columns [MkDevice "d1" "phone" 0 None None] (MkAuditEntry 1 (Some 0) "d1" "stop" "web" OutcomeSuccess ""))
    as (l & ? & ? & ? & ? & Hs & _);
    [apply (bool_decide_unpack _); vm_compute; exact Logic.I..|rewrite Hs; discriminate].
Defined.

(** A pairing attempt that failed names no device, and its DEVICE cell is empty. *)
Lemma failed_pair_blank_device :
  audit_cells [MkDevice "d1" "phone" 0 None None] (MkAuditEntry 1 (Some 0) "" "pair" "" OutcomeInvalid "malformed csr") =
  ["1970-01-01T00:00:00Z"; ""; "pair"; "-"; "invalid"; "malformed csr"].
Proof. vm_compute. reflexivity. Qed.

Example resolve_explicit_zero : is_ok (resolvePairCodeTTL 0 true (10 * Minute)) = false.
Proof. reflexivity. Qed.
Example resolve_overflowing : is_ok (resolvePairCodeTTL (2 ^ 62) true (60 * Minute)) = false.
Proof. reflexivity. Qed.
Example health_target : map (healthTargetAddr toy_quote) [":8443"; "[::]:8443"; "192.0.2.1:9"; "[2001:db8::1]:443"] =
  [Ok "127.0.0.1:8443"; Ok "127.0.0.1:8443"; Ok "192.0.2.1:9"; Ok "[2001:db8::1]:443"].
Proof. reflexivity. Qed.
