(* ===== verification/Certs.v ===== *)
(** * Certs: the agent's TLS identity
    (internal/certs: ca.go, issue.go, pki.go, store.go)

    Cryptography and encodings are a parameter ([Crypto]): the operations of
    crypto/x509, crypto/ecdsa, crypto/tls and encoding/pem the source calls,
    with the documented facts the proofs use in [CryptoLaws] and an instance of
    both in [ToyCrypto]. The certificate directory is a map from file name to
    content and mode; any operation on it may fail ([dfaults]). Randomness (the
    generated key and serial) is an argument. *)
From S2P Require Import Prelude SelfId GoStrings Config.

Inductive key_usage : Set :=
| KeyUsageDigitalSignature | KeyUsageKeyEncipherment | KeyUsageCertSign | KeyUsageCRLSign.
Inductive ext_key_usage : Set := ExtKeyUsageServerAuth | ExtKeyUsageClientAuth.

(** The fields of [x509.Certificate] the templates set. *)
Record template : Set := MkTemplate {
  SerialNumber : Z; CommonName : string; Organization : list string;
  NotBefore : Z; NotAfter : Z; KeyUsage : list key_usage; ExtKeyUsage : list ext_key_usage;
  BasicConstraintsValid : bool; IsCA : bool; MaxPathLenZero : bool;
  DNSNames : list string; IPAddresses : list string }.

Class Crypto := {
  PrivateKey : Type;
  PublicKey : Type;
  public : PrivateKey → PublicKey;
  (** [pub.( *ecdsa.PublicKey)] and [pub.Curve == elliptic.P256()] *)
  is_ecdsa : PublicKey → bool;
  on_P256 : PublicKey → bool;
  Certificate : Type;
  Raw : Certificate → string;
  (** the fields a parsed certificate shows *)
  tbs : Certificate → template;
  VerifyHostname : Certificate → string → bool;
  (** [inl t] : signed under itself; [inr c] : under the parent [c] *)
  CreateCertificate : template → template + Certificate → PublicKey → PrivateKey → result string;
  ParseCertificate : string → result Certificate;
  CertificateRequest : Type;
  ParseCertificateRequest : string → result CertificateRequest;
  CheckSignature : CertificateRequest → option error;
  csr_PublicKey : CertificateRequest → PublicKey;
  MarshalPKCS8PrivateKey : PrivateKey → result string;
  (** [None] : a key, but not an ECDSA one *)
  ParsePKCS8PrivateKey : string → result (option PrivateKey);
  (** [tls.LoadX509KeyPair] on the two files' contents: the leaf's DER *)
  X509KeyPair : string → string → result string;
  pem_EncodeToMemory : string → string → string;
  pem_Decode : string → option (string * string);
  sha256_hex : string → string }.

(** *** What the proofs rely on of that code

    X.509 keeps instants to the second. A template comes back as it went in when
    it is one of the shapes the source builds: basic constraints set, with a zero
    path length for a CA only; the key usages in bit order; names that
    [VerifyHostname] treats as names, and dotted quads. *)
Definition pemTypeCertificate : string := "CERTIFICATE".
Definition pemTypePrivateKey : string := "PRIVATE KEY".
Definition whole_seconds (t : Z) : Z := Unix t * Second.
Definition encoded (t : template) : template :=
  MkTemplate (SerialNumber t) (CommonName t) (Organization t) (whole_seconds (NotBefore t)) (whole_seconds (NotAfter t))
    (KeyUsage t) (ExtKeyUsage t) (BasicConstraintsValid t) (IsCA t) (MaxPathLenZero t) (DNSNames t) (IPAddresses t).
Definition dns_name (s : string) : Prop :=
  ParseIPv4 s = false ∧ string_forallb (λ c, is_alnum c || Ascii.eqb c "-" || Ascii.eqb c ".") s = true ∧ s ≠ "" ∧ s ≠ ".".
Record encodable (t : template) : Prop := {
  enc_basic : BasicConstraintsValid t = true ∧ MaxPathLenZero t = IsCA t;
  enc_usage : KeyUsage t ∈ [[KeyUsageDigitalSignature]; [KeyUsageDigitalSignature; KeyUsageKeyEncipherment];
                            [KeyUsageCertSign; KeyUsageCRLSign]];
  enc_dns : Forall dns_name (DNSNames t);
  enc_ips : Forall (λ s, ParseIPv4 s = true) (IPAddresses t) }.

Class CryptoLaws `{Crypto} := {
  pem_roundtrip : ∀ t der, t ∈ [pemTypeCertificate; pemTypePrivateKey] →
    pem_Decode (pem_EncodeToMemory t der) = Some (t, der);
  created_parses : ∀ t p pub k der, encodable t → CreateCertificate t p pub k = Ok der →
    ∃ c, ParseCertificate der = Ok c ∧ tbs c = encoded t ∧ Raw c = der;
  pkcs8_roundtrip : ∀ k der, MarshalPKCS8PrivateKey k = Ok der → ParsePKCS8PrivateKey der = Ok (Some k);
  hostname_covered : ∀ c s,
    s ∈ DNSNames (tbs c) ∧ dns_name s ∨ s ∈ IPAddresses (tbs c) ∧ ParseIPv4 s = true → VerifyHostname c s = true;
  keypair_loads : ∀ t p k signer der kder, encodable t →
    CreateCertificate t p (public k) signer = Ok der → MarshalPKCS8PrivateKey k = Ok kder →
    X509KeyPair (pem_EncodeToMemory pemTypeCertificate der) (pem_EncodeToMemory pemTypePrivateKey kder) = Ok der }.

Definition caValidity : Z := 10 * 365 * 24 * Hour.
Definition deviceCertValidity : Z := 90 * 24 * Hour.
Definition serverCertValidity : Z := 398 * 24 * Hour.
Definition caCertFile : string := "ca.crt".
Definition caKeyFile : string := "ca.key".
Definition serverCertFile : string := "server.crt".
Definition serverKeyFile : string := "server.key".
Definition caCommonName : string := "devmon-agent CA".
Definition certCommonName : string := "devmon-agent".
Definition certOrganization : string := "DevMon".
(** 0600 and 0644 *)
Definition keyFileMode : Z := 384.
Definition crtFileMode : Z := 420.

(** [func splitSANs]; a configured entry holds no colon, so [net.ParseIP] takes
    its dotted-quad branch ([Config.isValidSAN_no_ipv6]). *)
Fixpoint splitSANs (sans : list string) : list string * list string :=
  match sans with
  | [] => ([], [])
  | s :: rest =>
      let '(dnsNames, ips) := splitSANs rest in
      if ParseIPv4 s then (dnsNames, s :: ips) else (s :: dnsNames, ips)
  end.

(** ** The certificate directory *)

Record certdir : Type := MkDir {
  files : gmap string (string * Z);
  dfaults : list (option error);
  clog : list log_line }.

(** One operation on the directory: it fails with the next fault, if there is
    one, leaving the files alone, and otherwise runs. *)
Definition fs {A} (f : gmap string (string * Z) → result A * gmap string (string * Z)) : Comp certdir A := λ s,
  match dfaults s with
  | Some e :: fs => (Err e, MkDir (files s) fs (clog s))
  | None :: fs => let '(r, m) := f (files s) in (r, MkDir m fs (clog s))
  | [] => let '(r, m) := f (files s) in (r, MkDir m [] (clog s))
  end.
Definition clog_add (l : level) (msg : string) : Comp certdir unit :=
  modify (λ s, MkDir (files s) (dfaults s) (clog s ++ [LogLine_ l msg []])).

Definition errNotExist : error := wrap "open" (Sentinel FsErrNotExist).
Definition errExist : error := Leaf "file exists".

(** [func statExists(path string) error] *)
Definition statExists (name : string) : Comp certdir unit :=
  fs (λ m, (match m !! name with Some _ => Ok tt | None => Err errNotExist end, m)).

(** [func keypairExists(certPath, keyPath string) (bool, error)] *)
Definition not_exist (r : result unit) : bool :=
  match r with Err e => errors_is e FsErrNotExist | Ok _ => false end.
Definition stat_fault (r : result unit) : option error :=
  match r with Err e => if errors_is e FsErrNotExist then None else Some e | Ok _ => None end.
Definition keypairExists (dir certFile keyFile : string) : Comp certdir bool :=
  certErr ← try (statExists certFile);
  keyErr ← try (statExists keyFile);
  if is_ok certErr && is_ok keyErr then mret true
  else if not_exist certErr && not_exist keyErr then mret false
  else match stat_fault certErr, stat_fault keyErr with
       | Some e, _ => throw (wrap ("stat " +:+ filepath_join dir [certFile]) e)
       | None, Some e => throw (wrap ("stat " +:+ filepath_join dir [keyFile]) e)
       | None, None =>
           throw (Leaf ("server certificate and key are not both present in " +:+ dir +:+
                        "; remove the remaining file to regenerate"))
       end.

(** [func writeExclusive]: create with [O_EXCL], write, close. A write that
    fails leaves the file behind, short of its data. *)
Definition writeExclusive (name data : string) (mode : Z) : Comp certdir unit :=
  wrapping ("create " +:+ name) (fs (λ m,
    match m !! name with
    | Some _ => (Err errExist, m)
    | None => (Ok tt, <[name := ("", mode)]> m)
    end)) ≫= λ _,
  wrapping ("write " +:+ name) (fs (λ m, (Ok tt, <[name := (data, mode)]> m))) ≫= λ _,
  wrapping ("close " +:+ name) (fs (λ m, (Ok tt, m))).

(** [root.Remove] *)
Definition remove (name : string) : Comp certdir unit :=
  fs (λ m, match m !! name with
           | None => (Err errNotExist, m)
           | Some _ => (Ok tt, delete name m)
           end).

(** [func readFileInRoot] *)
Definition readFileInRoot (name : string) : Comp certdir string :=
  fs (λ m, (match m !! name with Some (data, _) => Ok data | None => Err errNotExist end, m)).

(** [os.MkdirAll] and [os.OpenRoot] *)
Definition mkdirAll (dir : string) : Comp certdir unit :=
  wrapping ("create certs dir " +:+ dir) (fs (λ m, (Ok tt, m))).
Definition openRoot (dir : string) : Comp certdir unit :=
  wrapping ("open certs dir " +:+ dir) (fs (λ m, (Ok tt, m))).

(** The tail [generateAndWriteCA] and [writeServerCert] share: the key first,
    then the certificate; a failed certificate write takes the key back. *)
Definition writePair (dir keyFile certFile keyPEM certPEM orphan : string) : Comp certdir unit :=
  openRoot dir ≫= λ _,
  writeExclusive keyFile keyPEM keyFileMode ≫= λ _,
  r ← try (writeExclusive certFile certPEM crtFileMode);
  match r with
  | Ok _ => mret tt
  | Err err =>
      rmErr ← try (remove keyFile);
      (match rmErr with Ok _ => mret tt | Err _ => clog_add LevelWarn orphan end) ≫= λ _,
      throw err
  end.

Section Certs.
Context `{Crypto}.

Definition lift {A} (r : result A) : Comp certdir A := λ s, (r, s).

(** [type CA struct] *)
Record CA : Type := MkCA { ca_cert : Certificate; ca_key : PrivateKey }.

(** [func (c *CA) Fingerprint], [CertPEM] *)
Definition Fingerprint (c : CA) : string := sha256_hex (Raw (ca_cert c)).
Definition CertPEM (c : CA) : string := pem_EncodeToMemory pemTypeCertificate (Raw (ca_cert c)).

(** [func (c *CA) IssueDeviceCert]; [serial] is what [rand.Int] returned. *)
Definition device_template (commonName : string) (serial now : Z) : template :=
  MkTemplate serial commonName [] (now - Minute) (now + deviceCertValidity)
    [KeyUsageDigitalSignature] [ExtKeyUsageClientAuth] true false false [] [].
Definition IssueDeviceCert (c : CA) (csrDER commonName : string) (now : Z) (serial : result Z)
    : result (string * string * Z) :=
  match ParseCertificateRequest csrDER with
  | Err err => Err (wrap "parse device CSR" err)
  | Ok csr =>
      match CheckSignature csr with
      | Some err => Err (wrap "verify device CSR signature" err)
      | None =>
          let pub := csr_PublicKey csr in
          if negb (is_ecdsa pub) then Err (Leaf "device CSR public key is not ECDSA")
          else if negb (on_P256 pub) then Err (Leaf "device CSR public key is not P-256")
          else match serial with
               | Err err => Err (wrap "generate device certificate serial" err)
               | Ok serialNum =>
                   match CreateCertificate (device_template commonName serialNum now) (inr (ca_cert c)) pub (ca_key c) with
                   | Err err => Err (wrap "create device certificate" err)
                   | Ok der => Ok (pem_EncodeToMemory pemTypeCertificate der, Text16 serialNum,
                                   now + deviceCertValidity)
                   end
               end
      end
  end.

(** [func (c *CA) IssueServerCert] *)
Definition server_template (sans : list string) (serial now : Z) : template :=
  let '(dnsNames, ips) := splitSANs sans in
  MkTemplate serial certCommonName [certOrganization] (now - Minute) (now + serverCertValidity)
    [KeyUsageDigitalSignature; KeyUsageKeyEncipherment] [ExtKeyUsageServerAuth] true false false dnsNames ips.
Definition IssueServerCert (c : CA) (sans : list string) (now : Z) (key : result PrivateKey) (serial : result Z)
    : result (string * string) :=
  match sans with
  | [] => Err (Leaf "issue server certificate: no subject alternative names given")
  | _ :: _ =>
      match key, serial with
      | Err err, _ => Err (wrap "generate server key" err)
      | Ok _, Err err => Err (wrap "generate server certificate serial" err)
      | Ok key, Ok serialNum =>
          match CreateCertificate (server_template sans serialNum now) (inr (ca_cert c)) (public key) (ca_key c) with
          | Err err => Err (wrap "create server certificate" err)
          | Ok der =>
              match MarshalPKCS8PrivateKey key with
              | Err err => Err (wrap "marshal server key" err)
              | Ok keyDER => Ok (pem_EncodeToMemory pemTypeCertificate der,
                                 pem_EncodeToMemory pemTypePrivateKey keyDER)
              end
          end
      end
  end.

(** [func generateAndWriteCA] *)
Definition ca_template (serial now : Z) : template :=
  MkTemplate serial caCommonName [certOrganization] (now - Minute) (now + caValidity)
    [KeyUsageCertSign; KeyUsageCRLSign] [] true true true [] [].
Definition generateAndWriteCA (dir : string) (key : result PrivateKey) (serial : result Z) (now : Z)
    : Comp certdir unit :=
  key ← lift (match key with Err e => Err (wrap "generate CA key" e) | r => r end);
  serial ← lift (match serial with Err e => Err (wrap "generate CA certificate serial" e) | r => r end);
  let t := ca_template serial now in
  der ← wrapping "create CA certificate" (lift (CreateCertificate t (inl t) (public key) key));
  keyDER ← wrapping "marshal CA key" (lift (MarshalPKCS8PrivateKey key));
  writePair dir caKeyFile caCertFile (pem_EncodeToMemory pemTypePrivateKey keyDER)
    (pem_EncodeToMemory pemTypeCertificate der)
    "could not remove the orphaned CA key after a failed certificate write".

(** [func loadCA] *)
Definition loadCA (dir : string) : Comp certdir CA :=
  let certPath := filepath_join dir [caCertFile] in
  let keyPath := filepath_join dir [caKeyFile] in
  openRoot dir ≫= λ _,
  certPEMBytes ← wrapping ("read CA certificate " +:+ certPath) (readFileInRoot caCertFile);
  cert ← match pem_Decode certPEMBytes with
         | Some (typ, der) =>
             if bool_decide (typ = pemTypeCertificate)
             then wrapping ("parse CA certificate " +:+ certPath) (lift (ParseCertificate der))
             else throw (Leaf ("decode CA certificate " +:+ certPath +:+ ": not a PEM certificate"))
         | None => throw (Leaf ("decode CA certificate " +:+ certPath +:+ ": not a PEM certificate"))
         end;
  keyPEMBytes ← wrapping ("read CA key " +:+ keyPath) (readFileInRoot caKeyFile);
  keyAny ← match pem_Decode keyPEMBytes with
           | Some (typ, der) =>
               if bool_decide (typ = pemTypePrivateKey)
               then wrapping ("parse CA key " +:+ keyPath) (lift (ParsePKCS8PrivateKey der))
               else throw (Leaf ("decode CA key " +:+ keyPath +:+ ": not a PEM private key"))
           | None => throw (Leaf ("decode CA key " +:+ keyPath +:+ ": not a PEM private key"))
           end;
  match keyAny with
  | None => throw (Leaf ("CA key " +:+ keyPath +:+ " is not an ECDSA key"))
  | Some key => mret (MkCA cert key)
  end.

(** [func LoadOrCreateCA] *)
Definition LoadOrCreateCA (dir : string) (key : result PrivateKey) (serial : result Z) (now : Z)
    : Comp certdir (CA * bool) :=
  mkdirAll dir ≫= λ _,
  ex ← keypairExists dir caCertFile caKeyFile;
  (if (ex : bool) then mret tt else generateAndWriteCA dir key serial now) ≫= λ _,
  ca ← loadCA dir;
  mret (ca, negb ex).

(** [func writeServerCert] *)
Definition writeServerCert (dir : string) (sans : list string) (c : CA) (key : result PrivateKey)
    (serial : result Z) (now : Z) : Comp certdir unit :=
  '(certPEM, keyPEM) ← lift (IssueServerCert c sans now key serial);
  writePair dir serverKeyFile serverCertFile keyPEM certPEM
    "could not remove the orphaned server key after a failed certificate write".

(** [func ensureKeypair] *)
Definition ensureKeypair (dir : string) (sans : list string) (c : CA) (key : result PrivateKey)
    (serial : result Z) (now : Z) : Comp certdir unit :=
  ex ← keypairExists dir serverCertFile serverKeyFile;
  if (ex : bool) then mret tt
  else
    clog_add LevelWarn "no server certificate found, issuing one from the certificate authority" ≫= λ _,
    writeServerCert dir sans c key serial now.

(** [func loadServerKeypair]: the leaf. [tls.LoadX509KeyPair] reads the two
    files and checks that they belong together. *)
Definition loadServerKeypair (dir : string) : Comp certdir Certificate :=
  der ← wrapping ("load server keypair from " +:+ dir)
    (certPEM ← readFileInRoot serverCertFile;
     keyPEM ← readFileInRoot serverKeyFile;
     lift (X509KeyPair certPEM keyPEM));
  wrapping ("parse server certificate in " +:+ dir) (lift (ParseCertificate der)).

(** [func sanDrift] *)
Definition sanDrift (leaf : Certificate) (sans : list string) : bool :=
  existsb (λ s, negb (VerifyHostname leaf s)) sans.

(** [func reissueServerCert] *)
Definition remove_stale (dir what name : string) : Comp certdir unit :=
  r ← try (remove name);
  match r with
  | Err e => if errors_is e FsErrNotExist then mret tt
             else throw (wrap ("remove stale server " +:+ what +:+ " " +:+ filepath_join dir [name]) e)
  | Ok _ => mret tt
  end.
Definition reissueServerCert (dir : string) (sans : list string) (c : CA) (key : result PrivateKey)
    (serial : result Z) (now : Z) : Comp certdir unit :=
  remove_stale dir "certificate" serverCertFile ≫= λ _,
  remove_stale dir "key" serverKeyFile ≫= λ _,
  writeServerCert dir sans c key serial now.

(** [func LoadOrCreateServerCert]: the leaf the server will present. Each of
    the two places that may issue draws its own key and serial. *)
Definition LoadOrCreateServerCert (dir : string) (sans : list string) (c : CA)
    (rand1 rand2 : result PrivateKey * result Z) (now : Z) : Comp certdir Certificate :=
  mkdirAll dir ≫= λ _,
  ensureKeypair dir sans c rand1.1 rand1.2 now ≫= λ _,
  leaf ← loadServerKeypair dir;
  if negb (sanDrift leaf sans) then mret leaf
  else
    clog_add LevelWarn "server certificate does not cover every configured address" ≫= λ _,
    reissueServerCert dir sans c rand2.1 rand2.2 now ≫= λ _,
    loadServerKeypair dir.
End Certs.

(** [func CheckIdentityConsistency] *)
Definition CheckIdentityConsistency (certsDir : string) (dbExisted : bool) : Comp certdir unit :=
  caExists ← keypairExists certsDir caCertFile caKeyFile;
  let reissueGuidance :=
    "if you proceed by clearing the state directory, every paired device must re-pair" in
  if Bool.eqb dbExisted caExists then mret tt
  else if dbExisted && negb caExists then
    throw (Wrapf "" (Sentinel ErrIdentityIncomplete)
      (": the state database exists but the certificate authority in " +:+ certsDir +:+ " does not; " +:+
       reissueGuidance))
  else
    throw (Wrapf "" (Sentinel ErrIdentityIncomplete)
      (": the certificate authority in " +:+ certsDir +:+ " exists but the state database does not; " +:+
       reissueGuidance)).

(** ** Lemmas *)

(** What a computation may do to the files, however it ends. *)
Definition touches {A} (R : relation (gmap string (string * Z))) (m : Comp certdir A) : Prop :=
  ∀ s, R (files s) (files (m s).2).

Section Touches.
Context (R : relation (gmap string (string * Z))) `{!PreOrder R}.

Lemma touches_ret {A} (a : A) : touches R (mret a).
Proof. by intros s. Qed.
Lemma touches_throw {A} e : touches R (throw (A := A) e).
Proof. by intros s. Qed.
Lemma touches_lift {A} (r : result A) : touches R (lift r).
Proof. by intros s. Qed.
Lemma touches_log l msg : touches R (clog_add l msg).
Proof. by intros s. Qed.
Lemma touches_bind {A B} (m : Comp certdir A) (f : A → Comp certdir B) :
  touches R m → (∀ a, touches R (f a)) → touches R (m ≫= f).
Proof.
  intros Hm Hf s. specialize (Hm s). unfold mbind, comp_bind.
  destruct (m s) as [[a|e] s'] eqn:E; [|done]. cbn in Hm. etrans; [exact Hm|]. apply Hf.
Qed.
Lemma touches_try {A} (m : Comp certdir A) : touches R m → touches R (try m).
Proof. intros Hm s. specialize (Hm s). unfold try. by destruct (m s). Qed.
Lemma touches_wrapping {A} ctx (m : Comp certdir A) : touches R m → touches R (wrapping ctx m).
Proof. intros Hm s. specialize (Hm s). unfold wrapping. by destruct (m s) as [[]]. Qed.
Lemma touches_fs {A} (f : gmap string (string * Z) → result A * gmap string (string * Z)) :
  (∀ m, R m (f m).2) → touches R (fs f).
Proof.
  intros Hf [m fl lg]. unfold fs. cbn. specialize (Hf m). destruct (f m) as [r m'].
  destruct fl as [|[e|] fl]; cbn in *; done.
Qed.
End Touches.

Ltac touches_step :=
  lazymatch goal with
  | |- touches _ (_ ≫= _) => refine (touches_bind _ _ _ _ _); [|intros]
  | |- touches _ (mret _) => refine (touches_ret _ _)
  | |- touches _ (throw _) => refine (touches_throw _ _)
  | |- touches _ (lift _) => refine (touches_lift _ _)
  | |- touches _ (clog_add _ _) => refine (touches_log _ _ _)
  | |- touches _ (try _) => refine (touches_try _ _ _)
  | |- touches _ (wrapping _ _) => refine (touches_wrapping _ _ _ _)
  | |- touches _ (match _ with _ => _ end) => case_match
  end.
Ltac touches_tac := repeat touches_step.

#[export] Instance eq_preorder {A} : PreOrder (@eq A).
Proof. split; [by intros ?|by intros ??? -> ->]. Qed.

(** Reading operations change nothing. *)
Lemma same_statExists name : touches eq (statExists name).
Proof. refine (touches_fs _ _ _). by intros. Qed.
Lemma same_keypairExists dir c k : touches eq (keypairExists dir c k).
Proof. unfold keypairExists. touches_tac; apply same_statExists. Qed.
Lemma same_read name : touches eq (readFileInRoot name).
Proof. refine (touches_fs _ _ _). by intros. Qed.
Lemma same_openRoot dir : touches eq (openRoot dir).
Proof. unfold openRoot. touches_tac. by refine (touches_fs _ _ _). Qed.
Lemma same_mkdirAll dir : touches eq (mkdirAll dir).
Proof. unfold mkdirAll. touches_tac. by refine (touches_fs _ _ _). Qed.
Lemma same_loadCA `{Crypto} dir : touches eq (loadCA dir).
Proof. unfold loadCA. touches_tac; solve [apply same_openRoot | apply same_read]. Qed.
Lemma same_loadServer `{Crypto} dir : touches eq (loadServerKeypair dir).
Proof. unfold loadServerKeypair. touches_tac; apply same_read. Qed.

Lemma touches_eq {A} (R : relation (gmap string (string * Z))) `{!Reflexive R} (m : Comp certdir A) :
  touches eq m → touches R m.
Proof. intros Hm s. by rewrite <- (Hm s). Qed.

(** [writeExclusive] creates its file or leaves the directory alone. *)
Lemma writeExclusive_run name data mode s :
  let '(r, s') := writeExclusive name data mode s in
  (files s' = files s ∨ files s !! name = None ∧ ∃ d, files s' = <[name := (d, mode)]> (files s)) ∧
  (r = Ok tt → files s !! name = None ∧ files s' = <[name := (data, mode)]> (files s)).
Proof.
  destruct s as [m fl lg]. unfold writeExclusive, wrapping, fs, mbind, comp_bind. cbn [dfaults files].
  destruct fl as [|[e|] fl]; cbn; [|by split; [left|]|].
  - destruct (m !! name) eqn:Hn; cbn; [by split; [left|]|].
    rewrite insert_insert_eq. split; [right; eauto|done].
  - destruct (m !! name) eqn:Hn; cbn; [by split; [left|]|].
    destruct fl as [|[e|] fl]; cbn; [|by split; [right; eauto|]|];
      rewrite ?insert_insert_eq; [by split; [right; eauto|]|].
    destruct fl as [|[e|] fl]; cbn; (split; [right; eauto|done]).
Qed.

(** Whatever fails, [writePair] touches no file that was there before. *)
Lemma writePair_keeps dir keyFile certFile kp cp orphan :
  touches (⊆) (writePair dir keyFile certFile kp cp orphan).
Proof.
  refine (touches_bind _ _ _ _ _); [exact (touches_eq _ _ (same_openRoot _))|intros _].
  intros s. unfold mbind at 1, comp_bind.
  pose proof (writeExclusive_run keyFile kp keyFileMode s) as Hk.
  destruct (writeExclusive keyFile kp keyFileMode s) as [[[]|e] s1]; destruct Hk as [Hk Hok].
  2: { cbn [snd]. destruct Hk as [-> | (Hn & d & ->)]; [done|]. by apply insert_subseteq. }
  destruct Hok as [Hn Hs1]; [done|]. clear Hk.
  unfold mbind, comp_bind, try.
  pose proof (writeExclusive_run certFile cp crtFileMode s1) as Hc.
  destruct (writeExclusive certFile cp crtFileMode s1) as [rc s2]; destruct Hc as [Hc _].
  assert (Hsub : files s ⊆ files s2 ∧ files s ⊆ delete keyFile (files s2)).
  { assert (Hd : files s ⊆ delete keyFile (files s2)).
    { rewrite Hs1 in Hc. destruct Hc as [-> | (Hn' & d & ->)].
      - rewrite ?Hs1. by rewrite delete_insert_id.
      - apply lookup_insert_None in Hn' as [Hc' Hne].
        rewrite delete_insert_ne, delete_insert_id by done. by apply insert_subseteq. }
    split; [|done]. etrans; [exact Hd|apply delete_subseteq]. }
  destruct Hsub as [Ha Hb]. destruct rc as [?|err]; [done|].
  unfold remove, fs, clog_add, modify, throw. 
  destruct (dfaults s2) as [|[e|] fl]; cbn; try done;
    destruct (files s2 !! keyFile); cbn; done.
Qed.

Lemma LoadOrCreateCA_keeps `{Crypto} dir key serial now : touches (⊆) (LoadOrCreateCA dir key serial now).
Proof.
  unfold LoadOrCreateCA. touches_tac.
  - exact (touches_eq _ _ (same_mkdirAll _)).
  - exact (touches_eq _ _ (same_keypairExists _ _ _)).
  - unfold generateAndWriteCA. touches_tac. apply writePair_keeps.
  - exact (touches_eq _ _ (same_loadCA _)).
Qed.

(** Only the named files may change. *)
Definition only (names : list string) (m m' : gmap string (string * Z)) : Prop :=
  ∀ n, n ∉ names → m' !! n = m !! n.
#[export] Instance only_preorder names : PreOrder (only names).
Proof.
  split; [by intros m n|]. intros a b c Hab Hbc n Hn. by rewrite (Hbc n Hn), (Hab n Hn).
Qed.

Lemma only_insert names n v m : n ∈ names → only names m (<[n := v]> m).
Proof. intros Hn n' Hn'. apply lookup_insert_ne. by intros ->. Qed.
Lemma only_delete names n m : n ∈ names → only names m (delete n m).
Proof. intros Hn n' Hn'. apply lookup_delete_ne. by intros ->. Qed.

Lemma only_writeExclusive names n d mode : n ∈ names → touches (only names) (writeExclusive n d mode).
Proof.
  intros Hn. unfold writeExclusive. touches_tac; refine (touches_fs _ _ _); intros m;
    repeat case_match; cbn; try done; by apply only_insert.
Qed.
Lemma only_remove names n : n ∈ names → touches (only names) (remove n).
Proof.
  intros Hn. refine (touches_fs _ _ _). intros m. case_match; cbn; [by apply only_delete|done].
Qed.
Lemma only_writePair names dir k c kp cp o :
  k ∈ names → c ∈ names → touches (only names) (writePair dir k c kp cp o).
Proof.
  intros Hk Hc. unfold writePair. touches_tac.
  - exact (touches_eq _ _ (same_openRoot _)).
  - by apply only_writeExclusive.
  - by apply only_writeExclusive.
  - by apply only_remove.
Qed.

Lemma LoadOrCreateServerCert_only `{Crypto} dir sans c r1 r2 now :
  touches (only [serverCertFile; serverKeyFile]) (LoadOrCreateServerCert dir sans c r1 r2 now).
Proof.
  assert (Hw : ∀ r, touches (only [serverCertFile; serverKeyFile])
                      (writeServerCert dir sans c r.1 r.2 now)).
  { intros [k s]. unfold writeServerCert. touches_tac.
    apply only_writePair; repeat (apply list_elem_of_here || apply list_elem_of_further). }
  unfold LoadOrCreateServerCert, ensureKeypair, reissueServerCert, remove_stale. touches_tac;
    first [ apply Hw | exact (touches_eq _ _ (same_mkdirAll _))
          | exact (touches_eq _ _ (same_keypairExists _ _ _))
          | exact (touches_eq _ _ (same_loadServer _))
          | apply only_remove; repeat (apply list_elem_of_here || apply list_elem_of_further) ].
Qed.

(** A pair is written only where neither file was, and then in full. *)
Lemma writePair_Ok dir k c kp cp o s s' :
  writePair dir k c kp cp o s = (Ok tt, s') → k ≠ c →
  files s !! k = None ∧ files s !! c = None ∧
  files s' = <[c := (cp, crtFileMode)]> (<[k := (kp, keyFileMode)]> (files s)).
Proof.
  unfold writePair, mbind, comp_bind, try.
  pose proof (same_openRoot dir s) as Hr. destruct (openRoot dir s) as [[[]|?] s0]; [|done].
  cbn [snd] in Hr. rewrite Hr.
  pose proof (writeExclusive_run k kp keyFileMode s0) as Hk.
  destruct (writeExclusive k kp keyFileMode s0) as [[[]|?] s1]; [|done].
  destruct Hk as [_ Hk]. destruct (Hk eq_refl) as [Hkn Hs1].
  pose proof (writeExclusive_run c cp crtFileMode s1) as Hc.
  destruct (writeExclusive c cp crtFileMode s1) as [[[]|e] s2]; destruct Hc as [_ Hc].
  - intros [= <-] Hne. destruct (Hc eq_refl) as [Hcn Hs2]. rewrite Hs1 in Hcn, Hs2.
    split_and!; [done| |done]. by rewrite lookup_insert_ne in Hcn.
  - destruct (remove k s2) as [[?|?] s3]; done.
Qed.

Lemma LoadOrCreateCA_created `{Crypto} dir key serial now s ca s' :
  LoadOrCreateCA dir key serial now s = (Ok (ca, true), s') →
  files s !! caKeyFile = None ∧ files s !! caCertFile = None.
Proof.
  unfold LoadOrCreateCA, mbind, comp_bind.
  pose proof (same_mkdirAll dir s) as Hm. destruct (mkdirAll dir s) as [[[]|?] s0]; [|done].
  cbn [snd] in Hm. rewrite Hm.
  pose proof (same_keypairExists dir caCertFile caKeyFile s0) as He.
  destruct (keypairExists dir caCertFile caKeyFile s0) as [[ex|?] s1]; [|done]. cbn [snd] in He. rewrite He.
  destruct ex; [cbn; destruct (loadCA dir s1) as [[?|?] ?]; done|].
  destruct (generateAndWriteCA dir key serial now s1) as [[[]|?] s2] eqn:Hg; [|done].
  intros _. unfold generateAndWriteCA, lift, wrapping, mbind, comp_bind in Hg.
  destruct key as [k|?], serial as [sn|?]; try done.
  destruct (CreateCertificate _ _ _ _) as [der|?]; [|done].
  destruct (MarshalPKCS8PrivateKey k) as [kder|?]; [|done].
  apply writePair_Ok in Hg as (Hk & Hc & _); done.
Qed.

(** The CA that a directory's two files hold, as [loadCA] reads them. *)
Definition reads_ca `{Crypto} (c : CA) (m : gmap string (string * Z)) : Prop :=
  ∃ certPEM cm der keyPEM km kder,
    m !! caCertFile = Some (certPEM, cm) ∧ pem_Decode certPEM = Some (pemTypeCertificate, der) ∧
    ParseCertificate der = Ok (ca_cert c) ∧
    m !! caKeyFile = Some (keyPEM, km) ∧ pem_Decode keyPEM = Some (pemTypePrivateKey, kder) ∧
    ParsePKCS8PrivateKey kder = Ok (Some (ca_key c)).

Lemma reads_ca_unique `{Crypto} c c' m m' : reads_ca c m → reads_ca c' m' →
  (∀ n, n ∈ [caCertFile; caKeyFile] → is_Some (m !! n) → m' !! n = m !! n) → c' = c.
Proof.
  intros (p & pm & der & q & qm & kder & Hp & Hpd & Hpc & Hq & Hqd & Hqc)
    (p' & pm' & der' & q' & qm' & kder' & Hp' & Hpd' & Hpc' & Hq' & Hqd' & Hqc') Hsame.
  rewrite (Hsame caCertFile), Hp in Hp' by (rewrite ?Hp; eauto; apply list_elem_of_here).
  rewrite (Hsame caKeyFile), Hq in Hq' by (rewrite ?Hq; eauto; apply list_elem_of_further, list_elem_of_here).
  simplify_eq. destruct c, c'. cbn in *. congruence.
Qed.

Lemma read_Ok name s data s' : readFileInRoot name s = (Ok data, s') →
  files s' = files s ∧ ∃ mode, files s !! name = Some (data, mode).
Proof.
  unfold readFileInRoot, fs. destruct s as [m [|[e|] fl] lg]; cbn; [|done|];
    (destruct (m !! name) as [[d k]|]; [|done]; intros [= <- <-]; cbn; eauto).
Qed.

Lemma loadCA_reads `{Crypto} dir s c s' : loadCA dir s = (Ok c, s') → files s' = files s ∧ reads_ca c (files s).
Proof.
  intros Hl. split; [pose proof (same_loadCA dir s) as Hs; by rewrite Hl in Hs|].
  unfold loadCA, wrapping, lift, mbind, comp_bind in Hl.
  pose proof (same_openRoot dir s) as Ho. destruct (openRoot dir s) as [[[]|?] s0]; [|done]. cbn [snd] in Ho. rewrite Ho.
  destruct (readFileInRoot caCertFile s0) as [[p|?] s1] eqn:Hp; [|done]. apply read_Ok in Hp as [Hs1 [pm Hp]].
  destruct (pem_Decode p) as [[typ der]|] eqn:Hpd; [|done]. case_bool_decide as Ht; [|done]. subst typ.
  destruct (ParseCertificate der) as [cert|] eqn:Hpc; [|done].
  destruct (readFileInRoot caKeyFile s1) as [[q|?] s2] eqn:Hq; [|done]. apply read_Ok in Hq as [Hs2 [qm Hq]].
  destruct (pem_Decode q) as [[typ kder]|] eqn:Hqd; [|done]. case_bool_decide as Ht; [|done]. subst typ.
  destruct (ParsePKCS8PrivateKey kder) as [[key|]|] eqn:Hqc; [|done..]. cbn in Hl. injection Hl as <- <-.
  rewrite Hs1 in Hq. exists p, pm, der, q, qm, kder. by repeat (split; [done|]).
Qed.

(** What [LoadOrCreateCA] returns is what the directory holds when it returns. *)
Lemma LoadOrCreateCA_reads `{Crypto} dir key serial now s c created s' :
  LoadOrCreateCA dir key serial now s = (Ok (c, created), s') → reads_ca c (files s').
Proof.
  unfold LoadOrCreateCA, mbind, comp_bind. destruct (mkdirAll dir s) as [[?|?] s0]; [|done].
  destruct (keypairExists _ _ _ s0) as [[ex|?] s1]; [|done].
  destruct ((if ex then mret tt else generateAndWriteCA dir key serial now) s1) as [[?|?] s2]; [|done].
  destruct (loadCA dir s2) as [[ca|?] s3] eqn:Hl; [|done]. intros [= <- ? <-]. apply loadCA_reads in Hl as [-> Hr]. exact Hr.
Qed.

(** Without faults an operation runs. *)
#[local] Arguments fs : simpl never.
Lemma fs_run {A} f m lg : @fs A f (MkDir m [] lg) = ((f m).1, MkDir (f m).2 [] lg).
Proof. unfold fs. cbn. by destruct (f m). Qed.

Lemma keypairExists_both dir c k m lg vc vk :
  m !! c = Some vc → m !! k = Some vk →
  keypairExists dir c k (MkDir m [] lg) = (Ok true, MkDir m [] lg).
Proof.
  intros Hc Hk. unfold keypairExists, mbind, comp_bind, try, statExists.
  rewrite fs_run. cbn. rewrite Hc, fs_run. cbn. by rewrite Hk.
Qed.
Lemma keypairExists_none dir c k m lg :
  m !! c = None → m !! k = None →
  keypairExists dir c k (MkDir m [] lg) = (Ok false, MkDir m [] lg).
Proof.
  intros Hc Hk. unfold keypairExists, mbind, comp_bind, try, statExists.
  rewrite fs_run. cbn. rewrite Hc, fs_run. cbn. by rewrite Hk.
Qed.
Lemma keypairExists_half dir c k m lg :
  is_Some (m !! c) ↔ ¬ is_Some (m !! k) →
  ∃ e, keypairExists dir c k (MkDir m [] lg) = (Err e, MkDir m [] lg) ∧ errors_is e ErrIdentityIncomplete = false.
Proof.
  intros Hx. unfold keypairExists, mbind, comp_bind, try, statExists.
  rewrite fs_run. cbn. destruct (m !! c) eqn:Hc; rewrite fs_run; cbn; destruct (m !! k) eqn:Hk; cbn.
  - destruct Hx as [Hx _]. destruct Hx; eauto.
  - eexists. split; [done|done].
  - eexists. split; [done|done].
  - destruct Hx as [_ Hx]. destruct Hx as [? ?]; [by intros [? ?]|done].
Qed.

Lemma writePair_run dir k c kp cp o m lg :
  m !! k = None → m !! c = None → k ≠ c →
  writePair dir k c kp cp o (MkDir m [] lg) =
    (Ok tt, MkDir (<[c := (cp, crtFileMode)]> (<[k := (kp, keyFileMode)]> m)) [] lg).
Proof.
  intros Hk Hc Hne. unfold writePair, openRoot, writeExclusive, wrapping, mbind, comp_bind, try.
  repeat (rewrite fs_run; cbn; rewrite ?insert_insert_eq, ?lookup_insert_ne, ?Hc, ?Hk by done; cbn).
  done.
Qed.

Section Properties.
Context `{CryptoLaws}.

Lemma ca_encodable sn now : encodable (ca_template sn now).
Proof. split; cbn; [done|set_solver|constructor|constructor]. Qed.
Lemma device_encodable id sn now : encodable (device_template id sn now).
Proof. split; cbn; [done|set_solver|constructor|constructor]. Qed.

(** The CA files [generateAndWriteCA] leaves. *)
Definition holds_ca (c : CA) (m : gmap string (string * Z)) : Prop :=
  ∃ kder, MarshalPKCS8PrivateKey (ca_key c) = Ok kder ∧ ParseCertificate (Raw (ca_cert c)) = Ok (ca_cert c) ∧
  m !! caCertFile = Some (pem_EncodeToMemory pemTypeCertificate (Raw (ca_cert c)), crtFileMode) ∧
  m !! caKeyFile = Some (pem_EncodeToMemory pemTypePrivateKey kder, keyFileMode).

Lemma loadCA_run dir c m lg :
  holds_ca c m → loadCA dir (MkDir m [] lg) = (Ok c, MkDir m [] lg).
Proof.
  intros (kder & Hm & Hp & Hc & Hk). unfold loadCA, openRoot, readFileInRoot, wrapping, lift, mbind, comp_bind.
  rewrite fs_run. cbn. rewrite fs_run, Hc. cbn. rewrite pem_roundtrip by set_solver. cbn. rewrite Hp, bool_decide_eq_true_2 by done.
  rewrite fs_run, Hk. cbn. rewrite pem_roundtrip by set_solver. cbn. rewrite bool_decide_eq_true_2 by done.
  rewrite (pkcs8_roundtrip _ _ Hm). by destruct c.
Qed.

Lemma LoadOrCreateCA_existing dir key serial now c m lg :
  holds_ca c m → LoadOrCreateCA dir key serial now (MkDir m [] lg) = (Ok (c, false), MkDir m [] lg).
Proof.
  intros Hh. pose proof Hh as (kder & _ & _ & Hc & Hk).
  unfold LoadOrCreateCA, mkdirAll, wrapping, mbind, comp_bind. rewrite fs_run. cbn.
  rewrite (keypairExists_both _ _ _ _ _ _ _ Hc Hk). cbn. by rewrite (loadCA_run _ _ _ _ Hh).
Qed.

Lemma LoadOrCreateCA_fresh dir k sn now m lg der kder :
  m !! caCertFile = None → m !! caKeyFile = None →
  CreateCertificate (ca_template sn now) (inl (ca_template sn now)) (public k) k = Ok der →
  MarshalPKCS8PrivateKey k = Ok kder →
  ∃ c m', ca_key c = k ∧ tbs (ca_cert c) = encoded (ca_template sn now) ∧ holds_ca c m' ∧
    LoadOrCreateCA dir (Ok k) (Ok sn) now (MkDir m [] lg) = (Ok (c, true), MkDir m' [] lg).
Proof.
  intros Hc Hk Hder Hkder. destruct (created_parses _ _ _ _ _ (ca_encodable sn now) Hder) as (cert & Hp & Ht & Hr).
  set (m' := <[caCertFile := (pem_EncodeToMemory pemTypeCertificate der, crtFileMode)]>
               (<[caKeyFile := (pem_EncodeToMemory pemTypePrivateKey kder, keyFileMode)]> m)).
  assert (Hh : holds_ca (MkCA cert k) m').
  { exists kder. cbn [ca_key ca_cert]. rewrite Hr. split_and!; try done.
    - unfold m'. by rewrite lookup_insert_eq.
    - unfold m'. by rewrite lookup_insert_ne, lookup_insert_eq. }
  exists (MkCA cert k), m'. split_and!; try done.
  unfold LoadOrCreateCA, mkdirAll, wrapping, mbind, comp_bind. rewrite fs_run. cbn.
  rewrite (keypairExists_none _ _ _ _ _ Hc Hk). cbn.
  unfold generateAndWriteCA, lift, wrapping, mbind, comp_bind. rewrite Hder, Hkder.
  rewrite writePair_run by done. by rewrite (loadCA_run _ _ _ _ Hh).
Qed.

Lemma whole_seconds_bounds t : whole_seconds t <= t < whole_seconds t + Second.
Proof.
  unfold whole_seconds, Unix. pose proof (Z.div_mod t Second). pose proof (Z.mod_pos_bound t Second).
  unfold Second in *. lia.
Qed.











(** C20 Start-up never replaces an identity: whatever fails along the way,
    [LoadOrCreateCA] leaves every file that was in the directory as it was, and
    reports a new CA only where neither CA file existed; and
    [LoadOrCreateServerCert], re-issue included, touches nothing but the two
    server files. *)
Theorem ca_identity_kept dir key serial now s :
  files s ⊆ files (LoadOrCreateCA dir key serial now s).2 ∧
  (∀ c s', LoadOrCreateCA dir key serial now s = (Ok (c, true), s') →
     files s !! caKeyFile = None ∧ files s !! caCertFile = None) ∧
  (∀ c sans rand1 rand2 n, n ∉ [serverCertFile; serverKeyFile] →
     files (LoadOrCreateServerCert dir sans c rand1 rand2 now s).2 !! n = files s !! n).
Proof.
  split_and!.
  - apply LoadOrCreateCA_keeps.
  - intros c s'. apply LoadOrCreateCA_created.
  - intros c sans r1 r2 n. apply LoadOrCreateServerCert_only.
Qed.

(** C21 The CA outlives restarts: in a directory without one, and nothing
    failing, a start creates the CA the template describes (its instants to the
    second, as certificates keep them), and every later start loads that same
    CA, certificate and key, whatever keys and serials it would have drawn. *)
Theorem ca_survives_restart dir k sn now m lg der kder :
  m !! caCertFile = None → m !! caKeyFile = None →
  CreateCertificate (ca_template sn now) (inl (ca_template sn now)) (public k) k = Ok der →
  MarshalPKCS8PrivateKey k = Ok kder →
  ∃ c m', LoadOrCreateCA dir (Ok k) (Ok sn) now (MkDir m [] lg) = (Ok (c, true), MkDir m' [] lg) ∧
    ca_key c = k ∧ tbs (ca_cert c) = encoded (ca_template sn now) ∧
    ∀ key' serial' now' lg', LoadOrCreateCA dir key' serial' now' (MkDir m' [] lg') =
                             (Ok (c, false), MkDir m' [] lg').
Proof.
  intros Hc Hk Hd Hkd. destruct (LoadOrCreateCA_fresh dir k sn now m lg der kder Hc Hk Hd Hkd)
    as (c & m' & Hck & Ht & Hh & Hrun).
  exists c, m'. split_and!; [done..|]. intros. by apply LoadOrCreateCA_existing.
Qed.

(** C22 A device certificate says what the agent says, not what the CSR asks:
    when one is issued, it parses as a certificate whose common name is the
    given device ID, for client authentication only, not a CA, valid from a
    minute before [now] until 90 days after it, both cut to the second, with the
    serial returned in hex; the expiry the agent reports is the instant before
    that cut, less than a second later than the certificate's; the key certified
    is the CSR's, ECDSA on P-256, and its signature was checked. *)
Theorem IssueDeviceCert_leaf c csrDER id now serial certPEM sn notAfter :
  IssueDeviceCert c csrDER id now serial = Ok (certPEM, sn, notAfter) →
  ∃ csr der cert n,
    ParseCertificateRequest csrDER = Ok csr ∧ CheckSignature csr = None ∧
    is_ecdsa (csr_PublicKey csr) = true ∧ on_P256 (csr_PublicKey csr) = true ∧
    CreateCertificate (device_template id n now) (inr (ca_cert c)) (csr_PublicKey csr) (ca_key c) = Ok der ∧
    pem_Decode certPEM = Some (pemTypeCertificate, der) ∧ ParseCertificate der = Ok cert ∧
    CommonName (tbs cert) = id ∧ ExtKeyUsage (tbs cert) = [ExtKeyUsageClientAuth] ∧
    IsCA (tbs cert) = false ∧ BasicConstraintsValid (tbs cert) = true ∧
    NotBefore (tbs cert) = whole_seconds (now - Minute) ∧ NotAfter (tbs cert) = whole_seconds (now + 90 * Day) ∧
    notAfter = now + 90 * Day ∧ NotAfter (tbs cert) <= notAfter < NotAfter (tbs cert) + Second ∧
    serial = Ok n ∧ SerialNumber (tbs cert) = n ∧ sn = Text16 n.
Proof.
  unfold IssueDeviceCert. destruct (ParseCertificateRequest csrDER) as [csr|?] eqn:Hp; [|done].
  destruct (CheckSignature csr) eqn:Hs; [done|].
  destruct (is_ecdsa _) eqn:He; [|done]. destruct (on_P256 _) eqn:H2; [|done]. cbn.
  destruct serial as [n|?]; [|done]. destruct (CreateCertificate _ _ _ _) as [der|?] eqn:Hc; [|done].
  intros [= <- <- <-]. destruct (created_parses _ _ _ _ _ (device_encodable id n now) Hc) as (cert & Hpc & Ht & _).
  exists csr, der, cert, n. rewrite Ht, pem_roundtrip by set_solver. cbn [encoded NotAfter device_template].
  pose proof (whole_seconds_bounds (now + deviceCertValidity)). by repeat (split; [done|]).
Qed.

End Properties.

Lemma CheckIdentity_cases dir dbExisted m lg :
  let s := MkDir m [] lg in
  let ca := is_Some (m !! caCertFile) in
  let key := is_Some (m !! caKeyFile) in
  (CheckIdentityConsistency dir dbExisted s).2 = s ∧
  match (CheckIdentityConsistency dir dbExisted s).1 with
  | Ok _ => if dbExisted then ca ∧ key else ¬ ca ∧ ¬ key
  | Err e =>
      if errors_is e ErrIdentityIncomplete
      then (if dbExisted then ¬ ca ∧ ¬ key else ca ∧ key)
      else ca ↔ ¬ key
  end.
Proof.
  intros s ca key. unfold CheckIdentityConsistency, mbind, comp_bind. subst s.
  destruct (m !! caCertFile) as [vc|] eqn:Hc, (m !! caKeyFile) as [vk|] eqn:Hk.
  - rewrite (keypairExists_both _ _ _ _ _ _ _ Hc Hk). destruct dbExisted; cbn;
      (split; [done|]); rewrite ?bool_decide_eq_true_2 by done; unfold ca, key; eauto.
  - destruct (keypairExists_half dir caCertFile caKeyFile m lg) as (e & He & Hi).
    { rewrite Hc, Hk. split; [by intros _ [? ?]|eauto]. }
    rewrite He. cbn. rewrite Hi. split; [done|]. unfold ca, key. split; [by intros _ [? ?]|eauto].
  - destruct (keypairExists_half dir caCertFile caKeyFile m lg) as (e & He & Hi).
    { rewrite Hc, Hk. split; [by intros [? ?]|]. intros Hn. destruct Hn. eauto. }
    rewrite He. cbn. rewrite Hi. split; [done|]. unfold ca, key. split; [by intros [? ?]|]. intros Hn. destruct Hn. eauto.
  - rewrite (keypairExists_none _ _ _ _ _ Hc Hk). unfold ca, key.
    destruct dbExisted; cbn; (split; [done|]); rewrite ?bool_decide_eq_true_2 by done;
      split; by intros [? ?].
Qed.

(** A failing operation does not pass for an absent file. *)
Definition honest (flt : list (option error)) : Prop :=
  Forall (λ o, match o with Some e => errors_is e FsErrNotExist = false | None => True end) flt.

Lemma statExists_honest name s : honest (dfaults s) →
  let '(r, s') := statExists name s in
  files s' = files s ∧ honest (dfaults s') ∧
  match r with Ok _ => is_Some (files s !! name) | Err e => errors_is e FsErrNotExist = true → files s !! name = None end.
Proof.
  unfold statExists, fs, honest. destruct s as [m [|[e|] fl] lg]; cbn [dfaults files].
  - intros _. destruct (m !! name) eqn:Hn; cbn; repeat split; eauto.
  - intros [He Hf]%Forall_cons. split; [done|]. split; [done|]. congruence.
  - intros [_ Hf]%Forall_cons. destruct (m !! name) eqn:Hn; cbn; repeat split; eauto.
Qed.

Lemma keypairExists_honest dir c k s : honest (dfaults s) →
  let '(r, s') := keypairExists dir c k s in
  files s' = files s ∧
  match r with
  | Ok true => is_Some (files s !! c) ∧ is_Some (files s !! k)
  | Ok false => files s !! c = None ∧ files s !! k = None
  | Err _ => True
  end.
Proof.
  intros Hs. unfold keypairExists, mbind, comp_bind, try.
  pose proof (statExists_honest c s Hs) as H1. destruct (statExists c s) as [r1 s1]. destruct H1 as (Hf1 & Hh1 & H1).
  pose proof (statExists_honest k s1 Hh1) as H2. destruct (statExists k s1) as [r2 s2]. destruct H2 as (Hf2 & _ & H2).
  rewrite Hf1 in *. destruct r1 as [u1|e1], r2 as [u2|e2]; cbn; [done|..];
    repeat (destruct (errors_is _ _); cbn; try done); repeat split; auto.
Qed.

Lemma CheckIdentity_honest dir dbExisted s : honest (dfaults s) →
  let '(r, s') := CheckIdentityConsistency dir dbExisted s in
  files s' = files s ∧
  match r with
  | Ok _ => if dbExisted then is_Some (files s !! caCertFile) ∧ is_Some (files s !! caKeyFile)
            else files s !! caCertFile = None ∧ files s !! caKeyFile = None
  | Err _ => True
  end.
Proof.
  intros Hs. unfold CheckIdentityConsistency, mbind, comp_bind.
  pose proof (keypairExists_honest dir caCertFile caKeyFile s Hs) as Hk.
  destruct (keypairExists _ _ _ s) as [[[]|e] s'], dbExisted; cbn in *; tauto.
Qed.

(** The identity matrix: with the directory readable, a start is let through
    exactly when the state database and the CA are both there or both missing;
    one without the other is [ErrIdentityIncomplete], and half a CA is refused
    as such. Nothing is written either way. *)
Theorem CheckIdentityConsistency_matrix dir dbExisted m lg :
  let s := MkDir m [] lg in
  let ca := is_Some (m !! caCertFile) in
  let key := is_Some (m !! caKeyFile) in
  (CheckIdentityConsistency dir dbExisted s).2 = s ∧
  match (CheckIdentityConsistency dir dbExisted s).1 with
  | Ok _ => if dbExisted then ca ∧ key else ¬ ca ∧ ¬ key
  | Err e =>
      if errors_is e ErrIdentityIncomplete
      then (if dbExisted then ¬ ca ∧ ¬ key else ca ∧ key)
      else ca ↔ ¬ key
  end.
Proof. apply CheckIdentity_cases. Qed.

(** A certificate write that fails after the file was created takes the key
    back but leaves the short certificate, so the directory ends in the state
    the clean-up is there to avoid: the next start refuses it. *)
Lemma torn_certificate_write dir k c kp cp o m lg e :
  m !! k = None → m !! c = None → k ≠ c →
  let s' := (writePair dir k c kp cp o (MkDir m [None; None; None; None; None; Some e] lg)).2 in
  files s' = <[c := ("", crtFileMode)]> m ∧
  ∃ e', keypairExists dir c k s' = (Err e', s').
Proof.
  intros Hk Hc Hne s'.
  assert (Hs : s' = MkDir (<[c := ("", crtFileMode)]> m) [] lg).
  { unfold s', writePair, openRoot, writeExclusive, remove, wrapping, mbind, comp_bind, try, fs. cbn.
    rewrite Hk. cbn. rewrite insert_insert_eq, lookup_insert_ne, Hc by done. cbn.
    rewrite lookup_insert_ne, lookup_insert_eq by done. cbn. f_equal.
    by rewrite delete_insert_ne, delete_insert_id by done. }
  rewrite Hs. split; [done|].
  destruct (keypairExists_half dir c k (<[c := ("", crtFileMode)]> m) lg) as (e' & He & _); [|eauto].
  rewrite lookup_insert_eq, lookup_insert_ne, Hk by done. split; [by intros _ [? ?]|eauto].
Qed.

(** ** Cryptography to evaluate the model on

    Encodings are the bits of stdpp's [encode]; a key is a number. *)

Fixpoint bits_of (p : positive) : string :=
  match p with xH => "" | xO p => String "0" (bits_of p) | xI p => String "1" (bits_of p) end.
Fixpoint of_bits (s : string) : positive :=
  match s with
  | "" => xH
  | String c s => if Ascii.eqb c "0" then xO (of_bits s) else xI (of_bits s)
  end.
Lemma of_bits_of p : of_bits (bits_of p) = p.
Proof. induction p as [p IH|p IH|]; cbn; by rewrite ?IH. Qed.

Definition enc {A} `{Countable A} (a : A) : string := bits_of (encode a).
Definition dec {A} `{Countable A} (s : string) : option A := decode (of_bits s).
Lemma dec_enc {A} `{Countable A} (a : A) : dec (enc a) = Some a.
Proof. unfold dec, enc. by rewrite of_bits_of, decode_encode. Qed.

#[export] Instance key_usage_eq_dec : EqDecision key_usage.
Proof. solve_decision. Defined.
#[export] Instance ext_key_usage_eq_dec : EqDecision ext_key_usage.
Proof. solve_decision. Defined.
#[export] Instance template_eq_dec : EqDecision template.
Proof. solve_decision. Defined.
#[export] Instance key_usage_countable : Countable key_usage :=
  inj_countable' (λ u, match u with
    | KeyUsageDigitalSignature => 0%nat | KeyUsageKeyEncipherment => 1%nat
    | KeyUsageCertSign => 2%nat | KeyUsageCRLSign => 3%nat end)
    (λ n, match n with 0%nat => KeyUsageDigitalSignature | 1%nat => KeyUsageKeyEncipherment
                     | 2%nat => KeyUsageCertSign | _ => KeyUsageCRLSign end)
    ltac:(by intros []).
#[export] Instance ext_key_usage_countable : Countable ext_key_usage :=
  inj_countable' (λ u, match u with ExtKeyUsageServerAuth => true | ExtKeyUsageClientAuth => false end)
    (λ b : bool, if b then ExtKeyUsageServerAuth else ExtKeyUsageClientAuth) ltac:(by intros []).
#[export] Instance template_countable : Countable template :=
  inj_countable'
    (λ t, (SerialNumber t, CommonName t, Organization t, NotBefore t, NotAfter t, KeyUsage t, ExtKeyUsage t,
           BasicConstraintsValid t, IsCA t, MaxPathLenZero t, DNSNames t, IPAddresses t))
    (λ '(s, cn, o, nb, na, ku, eku, bc, ca, mp, d, ip), MkTemplate s cn o nb na ku eku bc ca mp d ip)
    ltac:(by intros []).

(** The certified public key is in the certificate; a CSR is the number of its
    public key, odd ones off the curve. *)
#[export] Instance ToyCrypto : Crypto := {|
  PrivateKey := Z; PublicKey := Z; public := id;
  is_ecdsa := λ _, true; on_P256 := Z.even;
  Certificate := template * Z;
  Raw := enc; tbs := fst;
  VerifyHostname := λ c s, bool_decide (s ∈ DNSNames c.1 ++ IPAddresses c.1);
  CreateCertificate := λ t _ pub _, Ok (enc (encoded t, pub));
  ParseCertificate := λ s, match dec s with Some c => Ok c | None => Err (Leaf "malformed certificate") end;
  CertificateRequest := Z;
  ParseCertificateRequest := λ s, match dec s with Some c => Ok c | None => Err (Leaf "malformed CSR") end;
  CheckSignature := λ _, None;
  csr_PublicKey := id;
  MarshalPKCS8PrivateKey := λ k, Ok (enc k);
  ParsePKCS8PrivateKey := λ s, match dec s with Some k => Ok (Some k) | None => Err (Leaf "malformed key") end;
  X509KeyPair := λ c k,
    match dec (A := string * string) c, dec (A := string * string) k with
    | Some (_, der), Some (_, kder) =>
        match dec (A := template * Z) der, dec (A := Z) kder with
        | Some (_, pub), Some key =>
            if decide (pub = key) then Ok der else Err (Leaf "key does not match")
        | _, _ => Err (Leaf "malformed keypair")
        end
    | _, _ => Err (Leaf "malformed PEM")
    end;
  pem_EncodeToMemory := λ t der, enc (t, der);
  pem_Decode := dec;
  sha256_hex := λ s, "fp" +:+ pretty (String.length s) |}.

#[export] Instance ToyCrypto_laws : CryptoLaws (H := ToyCrypto).
Proof.
  split; cbn.
  - intros. apply dec_enc.
  - intros t p pub k der _ [= <-]. exists (encoded t, pub). by rewrite dec_enc.
  - intros k der [= <-]. by rewrite dec_enc.
  - intros c s Hs. apply bool_decide_eq_true_2, elem_of_app. tauto.
  - intros t p k signer der kder _ [= <-] [= <-]. rewrite !dec_enc. by rewrite decide_True.
Qed.

Lemma ca_survives_restart_witness :
  ∃ c m', LoadOrCreateCA "/s" (Ok 4) (Ok 7) 0 (MkDir ∅ [] []) = (Ok (c, true), MkDir m' [] []) ∧
    ca_key c = 4 ∧ tbs (ca_cert c) = encoded (ca_template 7 0) ∧
    ∀ key' serial' now' lg', LoadOrCreateCA "/s" key' serial' now' (MkDir m' [] lg') =
                             (Ok (c, false), MkDir m' [] lg').
Proof.
  exact (ca_survives_restart "/s" 4 7 0 ∅ [] _ _ eq_refl eq_refl eq_refl eq_refl).
Defined.

Definition toy_ca : CA := MkCA (H := ToyCrypto) (ca_template 7 0, 4) 4.

(** What issuing a certificate for the public key 6 gives. *)
Definition toy_pem (id : string) (n now : Z) : string :=
  enc (pemTypeCertificate, enc (encoded (device_template id n now), 6)).
Lemma toy_issue ca id n now :
  IssueDeviceCert (H := ToyCrypto) ca (enc 6) id now (Ok n) =
    Ok (toy_pem id n now, Text16 n, now + deviceCertValidity).
Proof.
  unfold IssueDeviceCert. cbn [ParseCertificateRequest ToyCrypto]. by rewrite dec_enc.
Qed.

Lemma IssueDeviceCert_leaf_witness :
  Text16 255 = "ff" ∧ ∃ (der : string) (cert : Certificate (Crypto := ToyCrypto)),
    pem_Decode (Crypto := ToyCrypto) (toy_pem "dev-1" 255 0) = Some (pemTypeCertificate, der) ∧
    ParseCertificate der = Ok cert ∧ CommonName (tbs cert) = "dev-1".
Proof.
  split; [reflexivity|].
  destruct (IssueDeviceCert_leaf toy_ca (enc 6) "dev-1" 0 (Ok 255) _ _ _ (toy_issue toy_ca "dev-1" 255 0))
    as (csr & der & cert & n & _ & _ & _ & _ & _ & Hd & Hp & Hcn & _).
  exists der, cert. split; [exact Hd|]. split; [exact Hp|exact Hcn].
Defined.

