(* ===== verification/HttpCore.v ===== *)
(** * HttpCore: requests, responses and the middleware chain
    (internal/httpapi: middleware.go, respond.go, audit.go, policygate.go,
    ratelimit.go, and the Server of server.go)

    A handler is a computation over the state of one request: the agent's world
    (store, Engine, log, limiters, stream budget), the response being written
    and the audit entry in flight. Its [Err] is a Go panic; ordinary errors are
    values the handlers branch on, with [callS] and [callD]. A request sees one
    reading of the clock and one draw of each random value. *)
From Stdlib Require Import QArith Qround.
From S2P Require Import Prelude GoTime LogFraming Policy Refs RateLimit Streams Engine Dto.
From S2P Require Import DockerClient Store GoStrings Config Certs.
Open Scope Z_scope.

(** ** Payloads and responses *)

(** [type statusResponse struct] *)
Record statusResponse : Set := MkStatusResponse {
  sr_APIVersion : string; sr_AgentVersion : string; sr_PolicyMode : string; sr_ServerTime : string;
  sr_CAFingerprint : string }.
(** [type pairResponse struct], [type renewResponse struct] *)
Record pairResponse : Set := MkPairResponse {
  pr_DeviceID : string; pr_CertificatePEM : string; pr_CACertificate : string; pr_NotAfter : string }.
Record renewResponse : Set := MkRenewResponse { rr_CertificatePEM : string; rr_NotAfter : string }.

(** The values the handlers encode. *)
Inductive payload : Type :=
| PError (msg : string)
| PStatus (r : statusResponse) | PPair (r : pairResponse) | PRenew (r : renewResponse)
| PContainers (l : ListResult ContainerSummary) | PContainer (c : ContainerDetail)
| PImages (l : ListResult ImageSummary) | PImage (i : ImageDetail)
| PNetworks (l : ListResult NetworkSummary) | PNetwork (n : NetworkDetail)
| PVolumes (l : ListResult VolumeSummary) | PVolume (v : VolumeSummary)
| PLogs (l : ListResult LogLine)
| PLine (l : LogLine) | PSnapshot (l : list ContainerStateSummary) | PHealth (e : ContainerEvent)
| PEvent (id name : string) (data : payload)   (* one SSE event frame *)
| PComment (text : string)                     (* one SSE comment frame *)
| PText (s : string).

(** [http.ResponseWriter]: the header map being built; from the first
    [WriteHeader] on, the status and the headers that went out; the body;
    whether the write deadline was cleared; and how the coming operations on
    the connection fare. *)
Record response : Type := MkResponse {
  rs_pending : gmap string string;
  rs_status : option (Z * gmap string string);
  rs_body : list payload;
  rs_undeadlined : bool;
  rs_faults : list (option error) }.
Definition new_response (faults : list (option error)) : response := MkResponse ∅ None [] false faults.

Definition StatusOK := 200.
Definition StatusCreated := 201.
Definition StatusNoContent := 204.
Definition StatusTemporaryRedirect := 307.
Definition StatusBadRequest := 400.
Definition StatusUnauthorized := 401.
Definition StatusForbidden := 403.
Definition StatusNotFound := 404.
Definition StatusMethodNotAllowed := 405.
Definition StatusConflict := 409.
Definition StatusRequestEntityTooLarge := 413.
Definition StatusTooManyRequests := 429.
Definition StatusInternalServerError := 500.
Definition StatusBadGateway := 502.
Definition StatusServiceUnavailable := 503.

Definition rw_set (k v : string) (w : response) : response :=
  MkResponse (<[k := v]> (rs_pending w)) (rs_status w) (rs_body w) (rs_undeadlined w) (rs_faults w).
(** A second [WriteHeader] is ignored. *)
Definition rw_WriteHeader (code : Z) (w : response) : response :=
  match rs_status w with
  | Some _ => w
  | None => MkResponse (rs_pending w) (Some (code, rs_pending w)) (rs_body w) (rs_undeadlined w) (rs_faults w)
  end.

(** An operation on the connection: it takes the next fault, if there is one. *)
Definition conn (f : response → response) : Comp response unit := λ w,
  let after fs := MkResponse (rs_pending w) (rs_status w) (rs_body w) (rs_undeadlined w) fs in
  match rs_faults w with
  | Some e :: fs => (Err e, after fs)
  | None :: fs => (Ok tt, f (after fs))
  | [] => (Ok tt, f (after []))
  end.
(** [Write]: an implicit [WriteHeader(200)], then the bytes. *)
Definition rw_Write (p : payload) : Comp response unit := λ w,
  conn (λ w, MkResponse (rs_pending w) (rs_status w) (rs_body w ++ [p]) (rs_undeadlined w) (rs_faults w))
    (rw_WriteHeader StatusOK w).
(** The status the client sees once the handler has returned. *)
Definition code_of (w : response) : Z := match rs_status w with Some (c, _) => c | None => StatusOK end.

(** ** Requests *)

(** What [json.NewDecoder(http.MaxBytesReader(w, r.Body, limit)).Decode] gives. *)
Inductive decoded : Type :=
| DecodeTooLarge | DecodeError | Decoded (field : string → string).

Record Request : Type := MkRequest {
  rq_method : string;
  rq_path : list string;              (* the URL path's segments, escaped *)
  rq_query : string → string;         (* [r.URL.Query().Get] *)
  rq_remote : string;
  rq_tls : option (list Z);           (* [r.TLS]: the serials of the peer certificates *)
  rq_body : Z → decoded;              (* by the limit set on the body *)
  rq_now : Z;
  rq_uuid : string;                   (* [uuid.NewString()] in CreateDevice *)
  rq_rand : result Z }.               (* the serial [rand.Int] draws *)

(** [type auditEntry struct] *)
Record auditEntry : Set := MkAuditInFlight {
  operation : string; target : string; outcome : string; detail : string; ent_deviceID : string }.

Definition msgClientCertRequired : string := "client certificate required".
Definition msgPolicyForbidden : string := "operation not permitted by host policy".
Definition msgRateLimited : string := "rate limit exceeded".
Definition headerRetryAfter : string := "Retry-After".
Definition unmatchedRoute : string := "(unmatched)".
Definition opPair : string := "pair".
Definition opRenew : string := "renew".
Definition opUnpairSelf : string := "unpair_self".

Definition unauthGlobalPerSec : Z := 50.
Definition unauthGlobalBurst : Z := 100.
Definition guardedBurstMultiplier : Z := 2.
Definition rateLimitMaxKeys : Z := 4096.
Definition secondsPerMinute : Z := 60.

Section Http.
Context `{EngineApi, TokenBucket, Crypto}.
(** [rate.Limit] of a rate per second *)
Context (as_limit : Q → Limit).
(** SHA-256 of a pairing code *)
Context (hash : string → string).
(** [version.Version], set by the build *)
Context (Version : string).

(** [type Server struct]: what [NewServer] sets once. *)
Record Server : Type := MkServer {
  cfg : Config;
  ca : option CA;
  dc : option Client;
  unauthLimit : Q;
  statusLimit : Q;
  pairLimit : Q;
  deviceLimit : Q }.

(** ... and what requests change. *)
Record world : Type := MkWorld {
  w_store : store;
  w_docker : docker;
  w_log : list log_line;
  unauthGlobal : Limiter;
  statusLimits : Registry;
  pairLimits : Registry;
  deviceLimits : Registry;
  streams : Budget.streamBudget }.

(** [NewServer]'s limits. *)
Definition floorRatePerX (v def : Z) : Z := if v <? 1 then def else v.
Definition NewServer (c : Config) (cert : option CA) (d : option Client) (st : store) (dw : docker)
    : Server * world :=
  let statusPerMin := floorRatePerX (RateStatusPerMin c) defaultRateStatusPerMin in
  let pairPerMin := floorRatePerX (RatePairPerMin c) defaultRatePairPerMin in
  let guardedPerSec := floorRatePerX (RateGuardedPerSec c) defaultRateGuardedPerSec in
  let statusL := (inject_Z statusPerMin / inject_Z secondsPerMinute)%Q in
  let pairL := (inject_Z pairPerMin / inject_Z secondsPerMinute)%Q in
  let deviceL := inject_Z guardedPerSec in
  (MkServer c cert d (inject_Z unauthGlobalPerSec) statusL pairL deviceL,
   MkWorld st dw [] (NewLimiter (as_limit (inject_Z unauthGlobalPerSec)) unauthGlobalBurst)
     (NewRegistry (as_limit statusL) statusPerMin rateLimitMaxKeys)
     (NewRegistry (as_limit pairL) pairPerMin rateLimitMaxKeys)
     (NewRegistry (as_limit deviceL) (guardedPerSec * guardedBurstMultiplier) rateLimitMaxKeys)
     (Budget.newStreamBudget maxConcurrentStreams maxStreamsPerDevice)).

(** The state of one request. *)
Record St : Type := MkSt { wld : world; rw : response; entry : option auditEntry }.

(** The request context: the values the middleware stores under its keys. *)
Record Ctx : Type := MkCtx {
  ctx_device : option Device; ctx_route : option string; ctx_vals : list (string * string) }.
Definition emptyCtx : Ctx := MkCtx None None [].
(** [r.PathValue], set by the mux that dispatched the request. *)
Definition PathValue (c : Ctx) (name : string) : string :=
  match List.find (λ kv, bool_decide (kv.1 = name)) (ctx_vals c) with Some (_, v) => v | None => "" end.
Definition Handler : Type := Request → Ctx → Comp St unit.

(** *** Access to the parts of the state *)

Definition with_world (f : world → world) : Comp St unit :=
  modify (λ s, MkSt (f (wld s)) (rw s) (entry s)).
Definition with_rw (f : response → response) : Comp St unit :=
  modify (λ s, MkSt (wld s) (f (rw s)) (entry s)).
Definition set_store (w : world) (x : store) : world :=
  MkWorld x (w_docker w) (w_log w) (unauthGlobal w) (statusLimits w) (pairLimits w) (deviceLimits w) (streams w).
Definition set_docker (w : world) (x : docker) : world :=
  MkWorld (w_store w) x (w_log w) (unauthGlobal w) (statusLimits w) (pairLimits w) (deviceLimits w) (streams w).
Definition set_log (w : world) (x : list log_line) : world :=
  MkWorld (w_store w) (w_docker w) x (unauthGlobal w) (statusLimits w) (pairLimits w) (deviceLimits w) (streams w).
Definition set_global (w : world) (x : Limiter) : world :=
  MkWorld (w_store w) (w_docker w) (w_log w) x (statusLimits w) (pairLimits w) (deviceLimits w) (streams w).
Definition set_statusLimits (w : world) (x : Registry) : world :=
  MkWorld (w_store w) (w_docker w) (w_log w) (unauthGlobal w) x (pairLimits w) (deviceLimits w) (streams w).
Definition set_pairLimits (w : world) (x : Registry) : world :=
  MkWorld (w_store w) (w_docker w) (w_log w) (unauthGlobal w) (statusLimits w) x (deviceLimits w) (streams w).
Definition set_deviceLimits (w : world) (x : Registry) : world :=
  MkWorld (w_store w) (w_docker w) (w_log w) (unauthGlobal w) (statusLimits w) (pairLimits w) x (streams w).
Definition set_streams (w : world) (x : Budget.streamBudget) : world :=
  MkWorld (w_store w) (w_docker w) (w_log w) (unauthGlobal w) (statusLimits w) (pairLimits w) (deviceLimits w) x.

(** [x, err := s.st.Method(...)] and [x, err := s.dc.Method(...)] *)
Definition callS {A} (m : Comp store A) : Comp St (result A) := λ s,
  let '(r, st) := m (w_store (wld s)) in (Ok r, MkSt (set_store (wld s) st) (rw s) (entry s)).
Definition callD {A} (m : Comp docker A) : Comp St (result A) := λ s,
  let '(r, d) := m (w_docker (wld s)) in (Ok r, MkSt (set_docker (wld s) d) (rw s) (entry s)).

(** [err := w.Write(...)] and the like *)
Definition callW {A} (m : Comp response A) : Comp St (result A) := λ s,
  let '(r, w) := m (rw s) in (Ok r, MkSt (wld s) w (entry s)).

Definition logAt (l : level) (msg : string) (attrs : list (string * string)) : Comp St unit :=
  with_world (λ w, set_log w (w_log w ++ [LogLine_ l msg attrs])).

(** ** respond.go *)

(** [func (s *Server) writeJSON]; the values encoded here always encode, so the
    encoder's error is that of the write. *)
Definition writeJSON (code : Z) (body : payload) : Comp St unit :=
  with_rw (rw_set "Content-Type" "application/json") ≫= λ _,
  with_rw (rw_set "Cache-Control" "no-store") ≫= λ _,
  with_rw (rw_set "X-Content-Type-Options" "nosniff") ≫= λ _,
  with_rw (rw_WriteHeader code) ≫= λ _,
  err ← callW (rw_Write body);
  match err with
  | Ok _ => mret tt
  | Err _ => logAt LevelError "write response" []
  end.

(** [func (s *Server) writeError] *)
Definition writeError (code : Z) (msg : string) : Comp St unit := writeJSON code (PError msg).

(** ** audit.go *)

(** [func setAuditOutcome], [func setAuditDeviceID] *)
Definition setAuditOutcome (o d : string) : Comp St unit :=
  modify (λ s, MkSt (wld s) (rw s)
    (match entry s with
     | None => None
     | Some e => Some (MkAuditInFlight (operation e) (target e) o d (ent_deviceID e))
     end)).
Definition setAuditDeviceID (id : string) : Comp St unit :=
  modify (λ s, MkSt (wld s) (rw s)
    (match entry s with
     | None => None
     | Some e => Some (MkAuditInFlight (operation e) (target e) (outcome e) (detail e) id)
     end)).

(** [func (s *Server) recordAudit] *)
Definition recordAudit (r : Request) (c : Ctx) (e : auditEntry) : Comp St unit :=
  let deviceID := match ctx_device c with Some d => dev_ID d | None => ent_deviceID e end in
  let row := MkAuditEntry 0 None deviceID (operation e) (target e) (outcome e) (detail e) in
  res ← callS (AppendAudit row (rq_now r));
  match res with
  | Ok _ => mret tt
  | Err err => logAt LevelError "append audit entry" [("operation", operation e); ("device_id", deviceID)]
  end.

(** The three audit middlewares: the entry is in the context of [next], which
    may refine it, and one row is written once [next] has returned. *)
Definition audited (start : auditEntry) (next : Handler) : Handler := λ r c,
  modify (λ s, MkSt (wld s) (rw s) (Some start)) ≫= λ _,
  next r c ≫= λ _,
  e ← gets (λ s, default start (entry s));
  recordAudit r c e.

(** [func (s *Server) withAudit] *)
Definition withAudit (op : Operation) (next : Handler) : Handler := λ r c,
  audited (MkAuditInFlight op (PathValue c "id") OutcomeSuccess "" "") next r c.
(** [func (s *Server) withIdentityAudit] *)
Definition withIdentityAudit (op : string) (next : Handler) : Handler :=
  audited (MkAuditInFlight op "" OutcomeSuccess "" "") next.
(** [func (s *Server) withPairAudit] *)
Definition withPairAudit (next : Handler) : Handler :=
  audited (MkAuditInFlight opPair "" OutcomeSuccess "" "") next.

(** ** middleware.go *)

(** [func routeFrom], [func DeviceFrom] *)
Definition routeFrom (c : Ctx) : string := default unmatchedRoute (ctx_route c).
Definition DeviceFrom (c : Ctx) : option Device := ctx_device c.

(** [func (s *Server) requireDevice] *)
Definition requireDevice (next : Handler) : Handler := λ r c,
  match rq_tls r with
  | None | Some [] => writeError StatusUnauthorized msgClientCertRequired
  | Some (sn :: _) =>
      let serial := Text16 sn in
      res ← callS (DeviceByCertSerial serial);
      match res with
      | Err err =>
          (if errors_is err ErrDeviceNotFound
           then logAt LevelWarn "rejected request with unknown certificate serial" [("serial", serial)]
           else logAt LevelError "resolve device by certificate serial" [("serial", serial)]) ≫= λ _,
          writeError StatusUnauthorized msgClientCertRequired
      | Ok device =>
          if IsRevoked device then
            logAt LevelWarn "rejected request from revoked device" [("device_id", dev_ID device)] ≫= λ _,
            writeError StatusUnauthorized msgClientCertRequired
          else
            touched ← callS (TouchDevice (dev_ID device) (rq_now r));
            (match touched with
             | Ok _ => mret tt
             | Err _ => logAt LevelWarn "touch device last seen" [("device_id", dev_ID device)]
             end) ≫= λ _,
            next r (MkCtx (Some device) (ctx_route c) (ctx_vals c))
      end
  end.

(** [func (s *Server) withRecovery] *)
Definition withRecovery (next : Handler) : Handler := λ r c s,
  match next r c s with
  | (Ok tt, s') => (Ok tt, s')
  | (Err rec, s') =>
      (logAt LevelError "panic serving request" [("method", rq_method r); ("route", routeFrom c)] ≫= λ _,
       writeError StatusInternalServerError "internal error") s'
  end.

(** [func (s *Server) withRequestLog], with its [statusRecorder]: [status] is
    the code of the first [WriteHeader], 200 if there was none. *)
Definition withRequestLog (next : Handler) : Handler := λ r c,
  next r c ≫= λ _,
  status ← gets (λ s, code_of (rw s));
  logAt LevelDebug "request served"
    [("method", rq_method r); ("route", routeFrom c); ("status", pretty status)].

(** ** policygate.go *)

(** [func (s *Server) requireOp] *)
Definition requireOp (s : Server) (op : Operation) (next : Handler) : Handler := λ r c,
  if negb (Allows (PolicyMode (cfg s)) op) then
    logAt LevelWarn "rejected request forbidden by host policy"
      (("operation", op) :: match DeviceFrom c with Some d => [("device_id", dev_ID d)] | None => [] end) ≫= λ _,
    setAuditOutcome OutcomeDeniedPolicy "" ≫= λ _,
    writeError StatusForbidden msgPolicyForbidden
  else next r c.

(** ** ratelimit.go *)

(** [func clientIP] *)
Definition clientIP (r : Request) : string :=
  match SplitHostPort (rq_remote r) with Ok (host, _) => host | Err _ => rq_remote r end.

(** [func (s *Server) tooManyRequests] *)
Definition tooManyRequests (limit : Q) : Comp St unit :=
  let retryAfter := Qceiling (/ limit) in
  let retryAfter := if retryAfter <? 1 then 1 else retryAfter in
  with_rw (rw_set headerRetryAfter (pretty retryAfter)) ≫= λ _,
  writeError StatusTooManyRequests msgRateLimited.

(** [s.unauthGlobal.AllowN(now, 1)] *)
Definition takeGlobal (now : Z) : Comp St bool := λ s,
  let '(ok, l) := AllowN (unauthGlobal (wld s)) now 1 in
  (Ok ok, MkSt (set_global (wld s) l) (rw s) (entry s)).

(** [func (s *Server) withGlobalUnauthLimit] *)
Definition withGlobalUnauthLimit (s : Server) (next : Handler) : Handler := λ r c,
  ok ← takeGlobal (rq_now r);
  if negb ok then
    logAt LevelWarn "rate limit exceeded" [("tier", "global-unauth")] ≫= λ _,
    tooManyRequests (unauthLimit s)
  else next r c.

(** A registry of the world, as the two fields [withIPLimit] is given. *)
Record tier : Type := MkTier {
  tier_name : string; tier_get : world → Registry; tier_set : world → Registry → world }.
Definition statusTier : tier := MkTier "status" statusLimits set_statusLimits.
Definition pairTier : tier := MkTier "pair" pairLimits set_pairLimits.

Definition takeKey (get : world → Registry) (set : world → Registry → world) (key : string) (now : Z)
    : Comp St (bool * bool) := λ s,
  let '(allowed, keyed, reg) := Allow (get (wld s)) key now in
  (Ok (allowed, keyed), MkSt (set (wld s) reg) (rw s) (entry s)).

(** [func (s *Server) withIPLimit] *)
Definition withIPLimit (t : tier) (limit : Q) (next : Handler) : Handler := λ r c,
  '(allowed, keyed) ← takeKey (tier_get t) (tier_set t) (clientIP r) (rq_now r);
  allowed ← (if negb keyed then takeGlobal (rq_now r) else mret allowed);
  if negb allowed then
    logAt LevelWarn "rate limit exceeded" [("tier", tier_name t)] ≫= λ _,
    tooManyRequests limit
  else next r c.

(** [func (s *Server) withDeviceLimit] *)
Definition withDeviceLimit (s : Server) (next : Handler) : Handler := λ r c,
  match DeviceFrom c with
  | None =>
      logAt LevelError "withDeviceLimit ran without a resolved device in the request context" [] ≫= λ _,
      writeError StatusInternalServerError "internal error"
  | Some device =>
      '(allowed, _) ← takeKey deviceLimits set_deviceLimits (dev_ID device) (rq_now r);
      if negb allowed then
        logAt LevelWarn "rate limit exceeded" [("device_id", dev_ID device)] ≫= λ _,
        tooManyRequests (deviceLimit s)
      else next r c
  end.
End Http.

(** ** A small agent, to evaluate the model on

    The host of [toy_world] (DockerClient.v), the ticking buckets, the concrete
    cryptography; one paired device, ["phone"], whose certificate has serial
    255, and one pairing code, ["CODE"]. *)
Definition toy_limit (q : Q) : nat := Z.to_nat (Qceiling q).
Definition toy_config (m : Mode) : Config :=
  MkConfig "/var/lib/devmon" ":8443" ["vps.example.com"] m "unix:///var/run/docker.sock" LevelInfo Day 64
    (365 * Day) 100000 30 5 20 (10 * Minute) "" ["db"].
Definition toy_store : store :=
  run_ops toy_hash
    [OpCreate "d1" "phone" 5; OpRecord "d1" "ff" 5 (90 * Day) 5; OpMint "CODE" "tablet" DefaultPairingCodeTTL 5]
    (MkStore empty_db []).
Definition toy_agent (m : Mode) : Server * world :=
  NewServer (H := ToyEngine) (H0 := Ticks) (H1 := ToyCrypto) toy_limit (toy_config m) (Some toy_ca)
    (Some toy_client) toy_store toy_world.
Definition toy_request (method : string) (path : list string) (serials : list Z) : Request :=
  MkRequest method path (λ _, "") "192.0.2.1:4711" (match serials with [] => None | _ => Some serials end)
    (λ _, DecodeError) (10 * Second) "d2" (Ok 77).
Definition toy_state (m : Mode) : St (H := ToyEngine) (H0 := Ticks) :=
  MkSt (toy_agent m).2 (new_response []) None.
