(* ===== verification/HttpHandlers.v ===== *)
(** * HttpHandlers: the request handlers
    (internal/httpapi: status.go, reads.go, lifecycle.go, pair.go, device.go,
    logs.go, clientgone.go) *)
From S2P Require Import Prelude GoTime LogFraming Policy Refs RateLimit Streams Engine Dto.
From S2P Require Import DockerClient Store GoStrings Config Certs HttpCore.

Definition APIVersion : string := "v1".
Definition msgInvalidRef : string := "invalid object reference".
Definition msgNotFound : string := "not found".
Definition msgEngineUnavailable : string := "docker engine unavailable".
Definition msgSelfProtected : string := "the agent cannot act on itself".
Definition msgProtectedContainer : string := "container is protected by host configuration".
Definition msgSelfUnknown : string := "agent cannot identify its own container".
Definition msgContainerConflict : string := "container is running".
Definition msgPairFailed : string := "pairing failed".
Definition msgPairInternalError : string := "internal error".
Definition msgRenewFailed : string := "renewal failed".
Definition msgDeviceInternalError : string := "internal error".
Definition msgTooManyStreams : string := "too many concurrent log streams".
Definition msgTooManyDeviceStreams : string := "too many concurrent log streams for this device".
Definition msgInvalidSince : string := "invalid since timestamp".
Definition pendingDeviceName : string := "pending".
Definition pemTypeCertificateRequest : string := "CERTIFICATE REQUEST".
(** [8 << 10] *)
Definition maxPairBodyBytes : Z := 8192.
Definition maxRenewBodyBytes : Z := 8192.
Definition defaultHistoricalTail : Z := 200.
Definition defaultStreamTail : Z := 100.
Definition minTail : Z := 1.
Definition maxTail : Z := 2000.

(** [strconv.ParseBool] *)
Definition ParseBool (s : string) : option bool :=
  if bool_decide (s ∈ ["1"; "t"; "T"; "true"; "TRUE"; "True"]) then Some true
  else if bool_decide (s ∈ ["0"; "f"; "F"; "false"; "FALSE"; "False"]) then Some false
  else None.

(** [func listAllParam] *)
Definition listAllParam (r : Request) : bool :=
  match ParseBool (rq_query r "all") with None => false | Some all => all end.

(** [func tailParam] *)
Definition tailParam (r : Request) (def : Z) : Z :=
  let raw := rq_query r "tail" in
  if bool_decide (raw = "") then def
  else match Atoi raw with
       | None => def
       | Some n => if (n <? minTail) || (maxTail <? n) then def else n
       end.

(** [func sinceParam] *)
Definition sinceParam (r : Request) : result string :=
  let raw := rq_query r "since" in
  if bool_decide (raw = "") then Ok ""
  else match parse_rfc3339nano raw with
       | None => Err (Sentinel ErrInvalidSince)
       | Some _ => Ok raw
       end.

(** The text of an error, as [Error()] renders it: enough of it to search. *)
Fixpoint error_text (e : error) : string :=
  match e with
  | Sentinel _ => ""
  | Wrapf a e b => a +:+ error_text e +:+ b
  | Leaf m => m
  end.

(** [func isClientGone]: [ctxErr] is [ctx.Err() != nil]. *)
Definition isClientGone (ctxErr : bool) (err : option error) : bool :=
  match err with
  | None => false
  | Some err =>
      if ctxErr || errors_is err ContextCanceled then true
      else if errors_is err NetErrClosed then true
      else contains "client disconnected" (error_text err) || contains "http2: stream closed" (error_text err)
  end.

Section Handlers.
Context `{EngineApi, TokenBucket, Crypto}.
Context (hash : string → string) (Version : string).
Notation St := (St (H := _) (H0 := _)).
Notation Handler := (Handler (H := _) (H0 := _)).

(** ** status.go *)

(** [func (s *Server) handleStatus] *)
Definition handleStatus (s : Server) : Handler := λ r _,
  let fingerprint := match ca s with Some c => Fingerprint c | None => "" end in
  writeJSON StatusOK (PStatus
    (MkStatusResponse APIVersion Version (Mode_String (PolicyMode (cfg s)))
       (format_rfc3339 (Unix (rq_now r))) fingerprint)).

(** ** reads.go *)

(** [func (s *Server) writeDockerError] *)
Definition writeDockerError (op : string) (err : error) : Comp St unit :=
  if errors_is err ErrInvalidRef then
    setAuditOutcome OutcomeInvalid "" ≫= λ _, writeError StatusBadRequest msgInvalidRef
  else if errors_is err ErrNotFound then
    setAuditOutcome OutcomeNotFound "" ≫= λ _, writeError StatusNotFound msgNotFound
  else if errors_is err ErrNotModified then with_rw (rw_WriteHeader StatusNoContent)
  else if errors_is err ErrSelfProtected then
    setAuditOutcome OutcomeDeniedSelf "" ≫= λ _, writeError StatusForbidden msgSelfProtected
  else if errors_is err ErrProtectedContainer then
    setAuditOutcome OutcomeDeniedProtected "" ≫= λ _, writeError StatusForbidden msgProtectedContainer
  else if errors_is err ErrSelfUnknown then
    setAuditOutcome OutcomeUnavailable "" ≫= λ _, writeError StatusServiceUnavailable msgSelfUnknown
  else if errors_is err ErrConflict then
    setAuditOutcome OutcomeConflict "" ≫= λ _, writeError StatusConflict msgContainerConflict
  else
    setAuditOutcome OutcomeEngineError "" ≫= λ _,
    logAt LevelError op [] ≫= λ _,
    writeError StatusBadGateway msgEngineUnavailable.

(** [func (s *Server) requireDocker]: the handler's body runs with the client. *)
Definition requireDocker (s : Server) (body : Client → Comp St unit) : Comp St unit :=
  match dc s with
  | None =>
      logAt LevelError "docker reader not configured" [] ≫= λ _,
      writeError StatusBadGateway msgEngineUnavailable
  | Some c => body c
  end.

(** The body the eight read handlers repeat. *)
Definition handleRead {A} (s : Server) (op : string) (m : Client → Comp docker A) (p : A → payload)
    : Comp St unit :=
  requireDocker s (λ c,
    resp ← callD (m c);
    match resp with
    | Err err => writeDockerError op err
    | Ok resp => writeJSON StatusOK (p resp)
    end).

Definition handleListContainers (s : Server) : Handler := λ r _,
  handleRead s "list containers" (λ c, ListContainers c (listAllParam r)) PContainers.
Definition handleInspectContainer (s : Server) : Handler := λ r x,
  handleRead s "inspect container" (λ c, InspectContainer c (PathValue x "id")) PContainer.
Definition handleListImages (s : Server) : Handler := λ r _,
  handleRead s "list images" (λ _, ListImages) PImages.
Definition handleInspectImage (s : Server) : Handler := λ r x,
  handleRead s "inspect image" (λ _, InspectImage (PathValue x "id")) PImage.
Definition handleListNetworks (s : Server) : Handler := λ r _,
  handleRead s "list networks" (λ _, ListNetworks) PNetworks.
Definition handleInspectNetwork (s : Server) : Handler := λ r x,
  handleRead s "inspect network" (λ _, InspectNetwork (PathValue x "id")) PNetwork.
Definition handleListVolumes (s : Server) : Handler := λ r _,
  handleRead s "list volumes" (λ _, ListVolumes) PVolumes.
Definition handleInspectVolume (s : Server) : Handler := λ r x,
  handleRead s "inspect volume" (λ _, InspectVolume (PathValue x "name")) PVolume.

(** ** lifecycle.go *)

(** [func (s *Server) handleLifecycle] *)
Definition handleLifecycle (s : Server) (op : string) (act : Client → string → Comp docker unit) : Handler := λ r x,
  requireDocker s (λ c,
    res ← callD (act c (PathValue x "id"));
    match res with
    | Err err => writeDockerError op err
    | Ok _ =>
        setAuditOutcome OutcomeSuccess "" ≫= λ _,
        with_rw (rw_WriteHeader StatusNoContent)
    end).

Definition handleStartContainer (s : Server) : Handler := handleLifecycle s "start container" StartContainer.
Definition handleRestartContainer (s : Server) : Handler := handleLifecycle s "restart container" RestartContainer.
Definition handleStopContainer (s : Server) : Handler := handleLifecycle s "stop container" StopContainer.
Definition handleKillContainer (s : Server) : Handler := handleLifecycle s "kill container" KillContainer.
Definition handleRemoveContainer (s : Server) : Handler := handleLifecycle s "remove container" RemoveContainer.

(** ** device.go and pair.go *)

(** [func (s *Server) requireCA] *)
Definition requireCA (s : Server) (msg : string) (body : CA → Comp St unit) : Comp St unit :=
  match ca s with
  | None =>
      logAt LevelError "certificate authority not configured" [] ≫= λ _,
      setAuditOutcome OutcomeInternalError "" ≫= λ _,
      writeError StatusInternalServerError msg
  | Some c => body c
  end.

(** [func (s *Server) decodePairRequest], [decodeRenewRequest]: the two differ
    in the type they decode into. [None] once an error has been written. *)
Definition decodeRequest (r : Request) (limit : Z) : Comp St (option (string → string)) :=
  match rq_body r limit with
  | Decoded f => mret (Some f)
  | DecodeTooLarge =>
      writeError StatusRequestEntityTooLarge "request body too large" ≫= λ _, mret None
  | DecodeError => writeError StatusBadRequest "malformed request body" ≫= λ _, mret None
  end.
Definition decodePairRequest (r : Request) : Comp St (option (string → string)) :=
  decodeRequest r maxPairBodyBytes.
Definition decodeRenewRequest (r : Request) : Comp St (option (string → string)) :=
  decodeRequest r maxRenewBodyBytes.

(** [func decodeCSRPEM] *)
Definition decodeCSRPEM (csrPEM : string) : option string :=
  match pem_Decode csrPEM with
  | None => None
  | Some (typ, der) => if bool_decide (typ = pemTypeCertificateRequest) then Some der else None
  end.

(** [func (s *Server) deleteOrphanedDevice] *)
Definition deleteOrphanedDevice (deviceID : string) : Comp St unit :=
  res ← callS (DeleteDevice deviceID);
  match res with
  | Ok _ => mret tt
  | Err _ => logAt LevelError "delete orphaned device after failed pairing" [("device_id", deviceID)]
  end.

(** [if err != nil { s.deleteOrphanedDevice(device.ID); return ..., wrapped }] *)
Definition orphaned {A B} (id ctx : string) (r : result A) (k : A → Comp St (result B)) : Comp St (result B) :=
  match r with
  | Ok a => k a
  | Err err => deleteOrphanedDevice id ≫= λ _, mret (Err (wrap ctx err))
  end.

(** [func (s *Server) pairDevice], once the device's row is created. *)
Definition pairCreated (c : CA) (r : Request) (code csrDER id : string) : Comp St (result pairResponse) :=
  res ← callS (RedeemPairingCode hash code id (rq_now r));
  orphaned id "redeem pairing code" res (λ deviceName,
  res ← callS (RenameDevice id deviceName);
  orphaned id "rename paired device" res (λ _,
  orphaned id "issue device certificate" (IssueDeviceCert c csrDER id (rq_now r) (rq_rand r))
    (λ '(certPEM, serial, notAfter),
  res ← callS (RecordDeviceCert id serial (rq_now r) notAfter (rq_now r));
  orphaned id "record device certificate" res (λ _,
  mret (Ok (MkPairResponse id certPEM (CertPEM c) (format_rfc3339 (Unix notAfter)))))))).
Definition pairDevice (c : CA) (r : Request) (code csrDER : string) : Comp St (result pairResponse) :=
  res ← callS (CreateDevice (rq_uuid r) pendingDeviceName (rq_now r));
  match res with
  | Err err => mret (Err (wrap "create device for pairing" err))
  | Ok device => pairCreated c r code csrDER (dev_ID device)
  end.

(** [func (s *Server) handlePair] *)
Definition handlePair (s : Server) : Handler := λ r _,
  requireCA s msgPairInternalError (λ c,
    req ← decodePairRequest r;
    match req with
    | None => mret tt
    | Some f =>
        match decodeCSRPEM (f "csr_pem") with
        | None =>
            setAuditOutcome OutcomeInvalid "malformed csr" ≫= λ _,
            writeError StatusUnauthorized msgPairFailed
        | Some csrDER =>
            resp ← pairDevice c r (f "pairing_code") csrDER;
            match resp with
            | Err err =>
                if errors_is err ErrPairingCodeInvalid then
                  setAuditOutcome OutcomeInvalid "invalid or expired pairing code" ≫= λ _,
                  writeError StatusUnauthorized msgPairFailed
                else
                  logAt LevelError "pair device" [] ≫= λ _,
                  setAuditOutcome OutcomeInternalError "" ≫= λ _,
                  writeError StatusInternalServerError msgPairInternalError
            | Ok resp =>
                setAuditDeviceID (pr_DeviceID resp) ≫= λ _,
                writeJSON StatusCreated (PPair resp)
            end
        end
    end).

(** [func (s *Server) renewDevice] *)
Definition renewDevice (c : CA) (r : Request) (deviceID csrDER : string) : Comp St (result renewResponse) :=
  match IssueDeviceCert c csrDER deviceID (rq_now r) (rq_rand r) with
  | Err err => mret (Err (wrap ("issue renewed certificate for device " +:+ deviceID) err))
  | Ok (certPEM, serial, notAfter) =>
      res ← callS (RecordDeviceCert deviceID serial (rq_now r) notAfter (rq_now r));
      match res with
      | Err err => mret (Err (wrap ("record renewed certificate for device " +:+ deviceID) err))
      | Ok _ =>
          res ← callS (SupersedePriorCerts deviceID serial (rq_now r));
          match res with
          | Err err => mret (Err (wrap ("supersede prior certificates for device " +:+ deviceID) err))
          | Ok _ => mret (Ok (MkRenewResponse certPEM (format_rfc3339 (Unix notAfter))))
          end
      end
  end.

(** [func (s *Server) handleRenew] *)
Definition handleRenew (s : Server) : Handler := λ r x,
  requireCA s msgDeviceInternalError (λ c,
    match DeviceFrom x with
    | None => writeError StatusInternalServerError msgDeviceInternalError
    | Some device =>
        req ← decodeRenewRequest r;
        match req with
        | None => setAuditOutcome OutcomeInvalid "malformed request body"
        | Some f =>
            match decodeCSRPEM (f "csr_pem") with
            | None =>
                setAuditOutcome OutcomeInvalid "malformed csr" ≫= λ _,
                writeError StatusUnauthorized msgRenewFailed
            | Some csrDER =>
                resp ← renewDevice c r (dev_ID device) csrDER;
                match resp with
                | Err err =>
                    logAt LevelError "renew device certificate" [("device_id", dev_ID device)] ≫= λ _,
                    setAuditOutcome OutcomeInternalError "" ≫= λ _,
                    writeError StatusInternalServerError msgDeviceInternalError
                | Ok resp => writeJSON StatusOK (PRenew resp)
                end
            end
        end
    end).

(** [func (s *Server) handleUnpairSelf] *)
Definition handleUnpairSelf : Handler := λ r x,
  match DeviceFrom x with
  | None => writeError StatusInternalServerError msgDeviceInternalError
  | Some device =>
      res ← callS (RevokeDevice (dev_ID device) (rq_now r));
      match res with
      | Err err =>
          logAt LevelError "revoke self" [("device_id", dev_ID device)] ≫= λ _,
          setAuditOutcome OutcomeInternalError "" ≫= λ _,
          writeError StatusInternalServerError msgDeviceInternalError
      | Ok _ => with_rw (rw_WriteHeader StatusNoContent)
      end
  end.

(** ** logs.go *)

(** [func (s *Server) handleContainerLogs] *)
Definition handleContainerLogs (keys : gmap string lineState → list string) (s : Server) : Handler := λ r x,
  requireDocker s (λ c,
    match sinceParam r with
    | Err _ => writeError StatusBadRequest msgInvalidSince
    | Ok since =>
        let opts := MkLogOptions (tailParam r defaultHistoricalTail) since in
        resp ← callD (ContainerLogs keys (PathValue x "id") opts);
        match resp with
        | Err err => writeDockerError "container logs" err
        | Ok resp => writeJSON StatusOK (PLogs resp)
        end
    end).

(** [func (s *Server) streamRevoked] *)
Definition streamRevoked (deviceID : string) : Comp St bool :=
  res ← callS (IsDeviceRevoked deviceID);
  match res with
  | Ok revoked => mret revoked
  | Err err =>
      if errors_is err ErrDeviceNotFound then mret true
      else
        logAt LevelWarn "check device revocation status for open stream" [("device_id", deviceID)] ≫= λ _,
        mret false
  end.

(** [func (s *Server) handleStreamContainerLogs], up to the stream itself:
    [stream device opts] is what runs while the slot is held. *)
Definition acquireStream (deviceID : string) : Comp St Budget.streamOutcome := λ s,
  let '(o, b) := Budget.acquire (streams (wld s)) deviceID in
  (Ok o, MkSt (set_streams (wld s) b) (rw s) (entry s)).
Definition releaseStream (deviceID : string) : Comp St unit :=
  with_world (λ w, set_streams w (Budget.release_body (streams w) deviceID)).
(** [defer release()]: on every way out, a panic included. *)
Definition defer_release (deviceID : string) (m : Comp St unit) : Comp St unit := λ st,
  let '(res, st) := m st in
  let '(_, st) := releaseStream deviceID st in (res, st).
Definition handleStreamContainerLogs (s : Server)
    (stream : Client → Device → string → LogOptions → Comp St unit) : Handler := λ r x,
  requireDocker s (λ c,
    match sinceParam r with
    | Err _ => writeError StatusBadRequest msgInvalidSince
    | Ok since =>
        match DeviceFrom x with
        | None =>
            logAt LevelError "handleStreamContainerLogs ran without a resolved device in the request context" []
              ≫= λ _, writeError StatusInternalServerError "internal error"
        | Some device =>
            outcome ← acquireStream (dev_ID device);
            match outcome with
            | Budget.streamGranted =>
                defer_release (dev_ID device)
                  (stream c device (PathValue x "id") (MkLogOptions (tailParam r defaultStreamTail) since))
            | Budget.streamDeviceFull =>
                logAt LevelWarn "too many concurrent log streams for device"
                  [("device_id", dev_ID device); ("limit", pretty maxStreamsPerDevice)] ≫= λ _,
                writeError StatusServiceUnavailable msgTooManyDeviceStreams
            | Budget.streamHostFull =>
                logAt LevelWarn "too many concurrent log streams for host"
                  [("device_id", dev_ID device)] ≫= λ _,
                writeError StatusServiceUnavailable msgTooManyStreams
            end
        end
    end).
End Handlers.
