(* ===== verification/Sse.v ===== *)
(** * Sse: the two server-sent-event streams
    (internal/httpapi: sse.go, the streaming halves of logs.go and events.go)

    A stream is two goroutines over one response: the handler's own, and the
    ticker's, which keeps the connection warm and re-checks that the device may
    still be served. Each writes whole frames under the writer's mutex, so an
    interleaving is a sequence of the steps below; the handler's computation is
    given, at each of its own steps, the ticker's steps that fall before it
    (the schedule). *)
From S2P Require Import Prelude GoTime LogFraming Policy Refs RateLimit Streams EventHub.
From S2P Require Import Engine Dto DockerClient Store GoStrings Config Certs HttpCore.
From S2P Require Import HttpHandlers.

Definition sseContentType : string := "text/event-stream".
Definition sseEventLog : string := "log".
Definition sseEventError : string := "error".
Definition sseEventSnapshot : string := "snapshot".
Definition sseEventHealth : string := "health".
Definition msgStreamRevoked : string := "device revoked".
Definition msgEventStreamLagged : string := "event stream fell behind".
Definition msgEventStreamSuperseded : string := "event stream superseded".

(** Where the ticker's goroutine is in the body of its loop. *)
Inductive ticker_pc : Set := TWaiting | TChecking | TFraming | TCancelling | TExited.
#[export] Instance ticker_pc_eq_dec : EqDecision ticker_pc.
Proof. solve_decision. Defined.

(** What may happen beside the handler: a step of the ticker's goroutine, or
    the request's own context ending (the client left, the server stops). *)
Inductive side_step : Set := STick | SCheck | SFrame | SCancel | SExit | SClientGone.

Section Sse.
Context `{EngineApi, TokenBucket, Crypto}.
Notation St := (St (H := _) (H0 := _)).

(** The request's state; [started] of the [sseWriter]; the [sync.Once] of the
    terminal frame; the handler's own context and the request's; the ticker. *)
Record SseSt : Type := MkSse {
  ss_st : St;
  started : bool;
  once : bool;
  cancelled : bool;
  client_gone : bool;
  ticker : ticker_pc }.
Definition set_st (s : SseSt) (x : St) : SseSt :=
  MkSse x (started s) (once s) (cancelled s) (client_gone s) (ticker s).
Definition set_started (s : SseSt) : SseSt :=
  MkSse (ss_st s) true (once s) (cancelled s) (client_gone s) (ticker s).
Definition set_once (s : SseSt) : SseSt :=
  MkSse (ss_st s) (started s) true (cancelled s) (client_gone s) (ticker s).
Definition set_cancelled (s : SseSt) : SseSt :=
  MkSse (ss_st s) (started s) (once s) true (client_gone s) (ticker s).
Definition set_client_gone (s : SseSt) : SseSt :=
  MkSse (ss_st s) (started s) (once s) (cancelled s) true (ticker s).
Definition set_ticker (s : SseSt) (x : ticker_pc) : SseSt :=
  MkSse (ss_st s) (started s) (once s) (cancelled s) (client_gone s) x.
(** [ctx.Err() != nil] of the handler's derived context. *)
Definition ctx_done (s : SseSt) : bool := cancelled s || client_gone s.

(** An operation on the response; its error is returned. *)
Definition wr {A} (m : Comp response A) : Comp SseSt A := λ s,
  let '(r, w) := m (rw (ss_st s)) in
  (r, set_st s (MkSt (wld (ss_st s)) w (entry (ss_st s)))).
(** A stream, run to its end, as the rest of a handler. *)
Definition as_handler (f : St → SseSt) : Comp St unit := λ st, (Ok tt, ss_st (f st)).
(** A computation of the handler that cannot fail. *)
Definition doing (m : Comp St unit) (s : SseSt) : SseSt := set_st s (m (ss_st s)).2.

(** ** sse.go *)

Definition clear_deadline : Comp response unit :=
  conn (λ w, MkResponse (rs_pending w) (rs_status w) (rs_body w) true (rs_faults w)).
Definition flush_conn : Comp response unit := conn id.

(** [func (s *sseWriter) startLocked] *)
Definition startLocked : Comp SseSt unit :=
  wr (modify (rw_set "Content-Type" sseContentType)) ≫= λ _,
  wr (modify (rw_set "Cache-Control" "no-store")) ≫= λ _,
  wr (modify (rw_set "X-Content-Type-Options" "nosniff")) ≫= λ _,
  wr (modify (rw_set "Connection" "keep-alive")) ≫= λ _,
  wr (modify (rw_set "X-Accel-Buffering" "no")) ≫= λ _,
  wrapping "clear write deadline" (wr clear_deadline) ≫= λ _,
  wr (modify (rw_WriteHeader StatusOK)) ≫= λ _,
  modify set_started ≫= λ _,
  wrapping "flush sse headers" (wr flush_conn).

Definition ensure_started : Comp SseSt unit := λ s, if started s then (Ok tt, s) else startLocked s.

(** [func (s *sseWriter) event]; the payloads sent here always marshal. *)
Definition event (id name : string) (data : payload) : Comp SseSt unit :=
  ensure_started ≫= λ _,
  wrapping "write sse frame" (wr (rw_Write (PEvent id name data))) ≫= λ _,
  wrapping "flush sse frame" (wr flush_conn).

(** [func (s *sseWriter) comment], [keepalive], [Started] *)
Definition comment (text : string) : Comp SseSt unit :=
  ensure_started ≫= λ _,
  wrapping "write sse comment" (wr (rw_Write (PComment text))) ≫= λ _,
  wrapping "flush sse comment" (wr flush_conn).
Definition keepalive : Comp SseSt unit := comment "keepalive".
Definition Started : Comp SseSt bool := gets started.

(** [err] ignored: [_ = f()] *)
Definition run {A} (m : Comp SseSt A) (s : SseSt) : SseSt := (m s).2.

(** [terminalOnce.Do(func() { err = sse.event("", "error", msg) })]: the error
    of the write, if it was this call that wrote. *)
Definition terminalOnce (msg : string) (s : SseSt) : option (result unit) * SseSt :=
  if once s then (None, s)
  else let '(r, s') := event "" sseEventError (PError msg) (set_once s) in (Some r, s').

(** ** The ticker's goroutine

    [beat] is the frame of a tick, [revoked_frame] what it does once the device
    is revoked. *)
Section Ticker.
Context (deviceID : string) (beat : Comp SseSt unit) (revoked_frame : SseSt → SseSt).

Definition side (s : SseSt) (k : side_step) : SseSt :=
  match k, ticker s with
  | SClientGone, _ => set_client_gone s
  | STick, TWaiting => set_ticker (run beat s) TChecking
  | SCheck, TChecking =>
      match streamRevoked deviceID (ss_st s) with
      | (Ok true, st) => set_ticker (set_st s st) TFraming
      | (_, st) => set_ticker (set_st s st) TWaiting
      end
  | SFrame, TFraming => set_ticker (revoked_frame s) TCancelling
  | SCancel, TCancelling => set_ticker (set_cancelled s) TExited
  | SExit, TWaiting => if ctx_done s then set_ticker s TExited else s
  | _, _ => s
  end.
Definition sides (s : SseSt) (ks : list side_step) : SseSt := foldl side s ks.
End Ticker.

(** ** The log stream: the body of [handleStreamContainerLogs] *)

Definition log_revoked_frame (s : SseSt) : SseSt := (terminalOnce msgStreamRevoked s).2.
Definition log_sides (deviceID : string) : SseSt → list side_step → SseSt :=
  sides deviceID keepalive log_revoked_frame.

(** Where the ticker's steps fall: before each line, before the [Started]
    check, before the error response, before the terminal frame, at the end. *)
Record log_schedule : Set := MkLogSchedule {
  sc_lines : list (list side_step);
  sc_check : list side_step;
  sc_respond : list side_step;
  sc_terminal : list side_step;
  sc_end : list side_step }.

(** [emit], over the stream's state and what is left of [sc_lines]. *)
Definition emit_line (deviceID : string) (l : LogLine) : Comp (SseSt * list (list side_step)) unit := λ '(s, sc),
  let s := log_sides deviceID s (match sc with ks :: _ => ks | [] => [] end) in
  let '(r, s) := event (ll_Timestamp l) sseEventLog (PLine l) s in
  (r, (s, match sc with _ :: sc' => sc' | [] => [] end)).

(** What the handler does with the stream's end. *)
Definition log_end (deviceID : string) (sc : log_schedule) (res : result unit) (s : SseSt) : SseSt :=
  match res with
  | Ok _ => s
  | Err streamErr =>
      let s := log_sides deviceID s (sc_check sc) in
      if negb (started s) then
        let s := log_sides deviceID s (sc_respond sc) in
        doing (writeDockerError "stream container logs" streamErr) s
      else if isClientGone (ctx_done s) (Some streamErr) then s
      else
        let s := log_sides deviceID s (sc_terminal sc) in
        match terminalOnce msgEngineUnavailable s with
        | (Some (Err writeErr), s) =>
            if isClientGone (ctx_done s) (Some writeErr)
            then doing (logAt LevelDebug "stream container logs: write terminal error frame" []) s
            else doing (logAt LevelError "stream container logs: write terminal error frame" []) s
        | (_, s) => s
        end
  end.

Definition log_stream_run (keys : gmap string lineState → list string) (sc : log_schedule) (c : Client)
    (device : Device) (ref : string) (opts : LogOptions) (st : St) : SseSt :=
  let s0 := MkSse st false false false false TWaiting in
  let '(res, (d, (s, _))) :=
    StreamContainerLogs keys ref opts (emit_line (dev_ID device)) (s0, sc_lines sc) (w_docker (wld st)) in
  let s := set_st s (MkSt (set_docker (wld (ss_st s)) d) (rw (ss_st s)) (entry (ss_st s))) in
  let s := log_end (dev_ID device) sc res s in
  (* [cancel()], then [wg.Wait()]: the goroutine finishes what it is in *)
  log_sides (dev_ID device) (set_cancelled s) (sc_end sc).

Definition logStream (keys : gmap string lineState → list string) (sc : log_schedule) (c : Client)
    (device : Device) (ref : string) (opts : LogOptions) : Comp St unit :=
  as_handler (log_stream_run keys sc c device ref opts).

(** ** The event stream: [handleEventStream] *)

(** [func (s *Server) writeTerminalEventError]: it asks whether the request's
    own context, not the handler's, is done. *)
Definition writeTerminalEventError (msg : string) (s : SseSt) : SseSt :=
  if client_gone s then s
  else
    match event "" sseEventError (PError msg) s with
    | (Ok _, s) => s
    | (Err err, s) =>
        if isClientGone (client_gone s) (Some err)
        then doing (logAt LevelDebug "stream container events: write terminal error frame" []) s
        else doing (logAt LevelError "stream container events: write terminal error frame" []) s
    end.
(** [func (s *Server) terminalEventFrameSender] *)
Definition terminalFrame (msg : string) (s : SseSt) : SseSt :=
  if once s then s else writeTerminalEventError msg (set_once s).

Definition event_sides (deviceID : string) : SseSt → list side_step → SseSt :=
  sides deviceID (comment "heartbeat") (terminalFrame msgStreamRevoked).

(** What the [select] of the handler's loop picks, and the ticker's steps
    before it. A superseding stream cancels this one's context as well. *)
Inductive event_pick : Type :=
| PSide (k : side_step) | PSupersededCancel | PSuperseded | PCtxDone
| PHealthEvent (e : ContainerEvent) | PClosed (reason : eventCloseReason).

(** The loop; [false] while it is still waiting after the picks given. *)
Fixpoint event_loop (deviceID : string) (picks : list event_pick) (s : SseSt) : bool * SseSt :=
  match picks with
  | [] => (false, s)
  | PSide k :: picks => event_loop deviceID picks (event_sides deviceID s [k])
  | PSupersededCancel :: picks => event_loop deviceID picks (set_cancelled s)
  | PSuperseded :: _ => (true, terminalFrame msgEventStreamSuperseded s)
  | PCtxDone :: picks => if ctx_done s then (true, s) else event_loop deviceID picks s
  | PHealthEvent e :: picks =>
      match event "" sseEventHealth (PHealth e) s with
      | (Ok _, s) => event_loop deviceID picks s
      | (Err _, s) => (true, s)
      end
  | PClosed reason :: _ =>
      let msg := match reason with
                 | eventClosedLagged => msgEventStreamLagged
                 | eventClosedEngine => msgEngineUnavailable
                 end in
      (true, terminalFrame msg s)
  end.

(** What the request meets: the answer of [s.events.attach], the picks of its
    loop, and the ticker's last steps. *)
Record event_schedule : Type := MkEventSchedule {
  es_attach : result unit;
  es_picks : list event_pick;
  es_end : list side_step }.

(** Once the snapshot's states are known. *)
Definition event_stream_run (sc : event_schedule) (deviceID : string) (states : list ContainerStateSummary)
    (st : St) : SseSt :=
  let s0 := MkSse st false false false false TWaiting in
  match event "" sseEventSnapshot (PSnapshot states) s0 with
  | (Err _, s) => s
  | (Ok _, s) =>
      let '(_, s) := event_loop deviceID (es_picks sc) s in
      event_sides deviceID (set_cancelled s) (es_end sc)
  end.

(** [func (s *Server) handleEventStream] *)
Definition handleEventStream (sc : event_schedule) (s : Server) : Handler (H := _) (H0 := _) := λ r x,
  requireDocker s (λ c,
    match DeviceFrom x with
    | None =>
        logAt LevelError "handleEventStream ran without a resolved device in the request context" [] ≫= λ _,
        writeError StatusInternalServerError "internal error"
    | Some device =>
        match es_attach sc with
        | Err err => writeDockerError "attach event stream" err
        | Ok _ =>
            states ← callD ContainerStates;
            match states with
            | Err err => writeDockerError "container states" err
            | Ok states => as_handler (event_stream_run sc (dev_ID device) states)
            end
        end
    end).
End Sse.

(** ** Lemmas *)

Definition is_frame (p : payload) : bool := match p with PEvent _ _ _ | PComment _ => true | _ => false end.
Definition is_error_frame (p : payload) : bool :=
  match p with PEvent _ name _ => bool_decide (name = sseEventError) | _ => false end.
Definition error_frames (l : list payload) : nat := List.length (List.filter is_error_frame l).

#[local] Arguments error_frames : simpl never.

Lemma error_frames_snoc l p : error_frames (l ++ [p]) = (error_frames l + if is_error_frame p then 1 else 0)%nat.
Proof.
  unfold error_frames. rewrite List.filter_app, length_app. cbn. by destruct (is_error_frame p).
Qed.

Section Lemmas.
Context `{EngineApi, TokenBucket, Crypto}.
Notation St := (St (H := _) (H0 := _)).
Notation SseSt := (SseSt (H := _) (H0 := _)).

Definition body (s : SseSt) : list payload := rs_body (rw (ss_st s)).

(** What the response of a stream looks like while it runs, after [pre]. *)
Context (pre : list payload).
Record sse_inv (s : SseSt) : Prop := {
  inv_errors : (error_frames (body s) <= if once s then 1 else 0)%nat;
  inv_frames : Forall (λ p, is_frame p = true) (body s);
  inv_prefix : pre `prefix_of` body s;
  inv_head : if started s
    then (∃ h, rs_status (rw (ss_st s)) = Some (StatusOK, h) ∧ h !! "Content-Type" = Some sseContentType) ∧
         rs_undeadlined (rw (ss_st s)) = true
    else rs_status (rw (ss_st s)) = None ∧ body s = [] }.

(** Nothing but the response, and [started], changes. *)
Definition same_flags (s s' : SseSt) : Prop :=
  once s' = once s ∧ cancelled s' = cancelled s ∧ client_gone s' = client_gone s ∧ ticker s' = ticker s ∧
  wld (ss_st s') = wld (ss_st s) ∧ entry (ss_st s') = entry (ss_st s).

(** The head of a stream, step by step: five headers, the deadline, the status,
    the flush. *)
Definition pop (fs : list (option error)) : option error * list (option error) :=
  match fs with [] => (None, []) | f :: fs => (f, fs) end.
Definition sse_headers (m : gmap string string) : gmap string string :=
  <["X-Accel-Buffering" := "no"]> (<["Connection" := "keep-alive"]> (<["X-Content-Type-Options" := "nosniff"]>
    (<["Cache-Control" := "no-store"]> (<["Content-Type" := sseContentType]> m)))).
Definition wr_head (st : option (Z * gmap string string)) (m : gmap string string) : option (Z * gmap string string) :=
  match st with Some x => Some x | None => Some (StatusOK, m) end.

Lemma header_step {A} k v (K : unit → Comp SseSt A) w pend st bd und flt en sta on ca cg tk :
  (wr (modify (rw_set k v)) ≫= K) (MkSse (MkSt w (MkResponse pend st bd und flt) en) sta on ca cg tk) =
  K tt (MkSse (MkSt w (MkResponse (<[k := v]> pend) st bd und flt) en) sta on ca cg tk).
Proof. reflexivity. Qed.

Lemma startLocked_run w pend st bd und flt en on ca cg tk :
  startLocked (MkSse (MkSt w (MkResponse pend st bd und flt) en) false on ca cg tk) =
  match pop flt with
  | (Some e, f1) =>
      (Err (wrap "clear write deadline" e),
       MkSse (MkSt w (MkResponse (sse_headers pend) st bd und f1) en) false on ca cg tk)
  | (None, f1) =>
      (match (pop f1).1 with Some e => Err (wrap "flush sse headers" e) | None => Ok tt end,
       MkSse (MkSt w (MkResponse (sse_headers pend) (wr_head st (sse_headers pend)) bd true (pop f1).2) en)
         true on ca cg tk)
  end.
Proof.
  unfold startLocked. rewrite !header_step.
  change (<["X-Accel-Buffering" := "no"]> (<["Connection" := "keep-alive"]> (<["X-Content-Type-Options" := "nosniff"]>
    (<["Cache-Control" := "no-store"]> (<["Content-Type" := sseContentType]> pend))))) with (sse_headers pend).
  generalize (sse_headers pend). intros m. destruct st as [[c h]|], flt as [|[e|] [|[e'|] flt]]; reflexivity.
Qed.

Lemma startLocked_inv s :
  sse_inv s → started s = false →
  let '(r, s') := startLocked s in
  sse_inv s' ∧ body s' = [] ∧ same_flags s s' ∧ (r = Ok tt → started s' = true).
Proof.
  intros [He Hf Hpre Hh] Hs. rewrite Hs in Hh. destruct Hh as [Hst Hb].
  destruct s as [[w [pend status bd und flt] en] sta on ca cg tk]. unfold body in *. cbn in *. subst sta status bd.
  rewrite startLocked_run.
  destruct (pop flt) as [[e|] f1]; [|destruct (pop f1) as [[e|] f2]]; cbn [wr_head];
    (split; [split; cbn|]); try done; repeat split; try done; eexists; (split; [reflexivity|]);
    unfold sse_headers; by rewrite !lookup_insert_ne, lookup_insert_eq by done.
Qed.

Lemma wr_frame_inv p s :
  sse_inv s → started s = true → is_frame p = true →
  (is_error_frame p = true → once s = true ∧ error_frames (body s) = 0%nat) →
  let '(r, s') := wr (rw_Write p) s in
  sse_inv s' ∧ started s' = true ∧ same_flags s s' ∧
  (r = Ok tt ∧ body s' = body s ++ [p] ∨ r ≠ Ok tt ∧ body s' = body s).
Proof.
  intros [He Hf Hpre Hh] Hs Hp Hone. rewrite Hs in Hh. destruct Hh as [[h [Hst Hct]] Hu].
  destruct s as [[w [pend status bd und flt] en] sta on ca cg tk]. unfold body in *. cbn in *. subst sta status und.
  unfold wr, rw_Write, rw_WriteHeader, conn. cbn.
  assert (Hok : (error_frames (bd ++ [p]) <= if on then 1 else 0)%nat).
  { rewrite error_frames_snoc. destruct (is_error_frame p); [|rewrite Nat.add_0_r; exact He].
    destruct Hone as [-> ->]; [done|]. lia. }
  assert (Hfr : Forall (λ p, is_frame p = true) (bd ++ [p])) by (apply Forall_app; by repeat constructor).
  assert (Hpr : pre `prefix_of` bd ++ [p]) by by apply prefix_app_r.
  destruct flt as [|[e|] flt]; cbn; (split; [split; cbn|]); try done; eauto;
    (split; [done|]); (split; [by repeat split|]); first [by left|by right].
Qed.

Lemma wr_flush_inv s :
  sse_inv s → let '(_, s') := wr flush_conn s in sse_inv s' ∧ started s' = started s ∧ body s' = body s ∧ same_flags s s'.
Proof.
  intros [He Hf Hpre Hh]. destruct s as [[w [pend status bd und flt] en] sta on ca cg tk]. unfold body in *. cbn in *.
  unfold wr, flush_conn, conn. cbn. destruct flt as [|[e|] flt]; cbn; by repeat split.
Qed.

Lemma same_flags_trans a b c : same_flags a b → same_flags b c → same_flags a c.
Proof. unfold same_flags. intuition congruence. Qed.

(** One frame, the lazy start included. *)
Lemma frame_inv p c1 c2 s :
  sse_inv s → is_frame p = true → (is_error_frame p = true → once s = true ∧ error_frames (body s) = 0%nat) →
  let x := (ensure_started ≫= λ _, wrapping c1 (wr (rw_Write p)) ≫= λ _, wrapping c2 (wr flush_conn)) s in
  sse_inv x.2 ∧ same_flags s x.2 ∧ (body x.2 = body s ++ [p] ∨ body x.2 = body s ∧ x.1 ≠ Ok tt).
Proof.
  intros Hi Hp Hone x. subst x. unfold mbind, comp_bind, wrapping.
  assert (Hst : let '(r, s1) := ensure_started s in
    sse_inv s1 ∧ body s1 = body s ∧ same_flags s s1 ∧ (r = Ok tt → started s1 = true)).
  { unfold ensure_started. destruct (started s) eqn:Hs; [by repeat split; destruct Hi|].
    pose proof (startLocked_inv s Hi Hs) as Hx. destruct (startLocked s) as [r s1].
    destruct Hx as (? & -> & ? & ?). pose proof (inv_head _ Hi) as Hh. rewrite Hs in Hh. by destruct Hh as [_ ->]. }
  destruct (ensure_started s) as [[[]|e] s1]; destruct Hst as (Hi1 & Hb1 & Hf1 & Hok);
    [specialize (Hok eq_refl)|by split; [done|split; [done|right]]].
  assert (Hone1 : is_error_frame p = true → once s1 = true ∧ error_frames (body s1) = 0%nat).
  { intros Hx. destruct Hf1 as (-> & _). rewrite Hb1. by apply Hone. }
  pose proof (wr_frame_inv p s1 Hi1 Hok Hp Hone1) as Hw.
  destruct (wr (rw_Write p) s1) as [[[]|e] s2]; destruct Hw as (Hi2 & _ & Hf2 & Hb2).
  - destruct Hb2 as [[_ Hb2]|[Hn _]]; [|by destruct Hn].
    pose proof (wr_flush_inv s2 Hi2) as Hl. destruct (wr flush_conn s2) as [[[]|e] s3];
      destruct Hl as (Hi3 & _ & Hb3 & Hf3); (split; [done|]);
      (split; [by eapply same_flags_trans; [|eapply same_flags_trans]|]); left; cbn [snd];
      by rewrite Hb3, Hb2, Hb1.
  - destruct Hb2 as [[Hn _]|[_ Hb2]]; [done|].
    split; [done|]. split; [by eapply same_flags_trans|]. right. cbn [snd]. by rewrite Hb2, Hb1.
Qed.

Lemma event_frame id name data s :
  sse_inv s → name ≠ sseEventError →
  let x := event id name data s in
  sse_inv x.2 ∧ same_flags s x.2 ∧
  (body x.2 = body s ++ [PEvent id name data] ∨ body x.2 = body s ∧ x.1 ≠ Ok tt).
Proof.
  intros Hi Hn. apply frame_inv; [done|done|]. cbn. intros Hx. by apply bool_decide_eq_true in Hx.
Qed.

Lemma event_inv id name data s :
  sse_inv s → name ≠ sseEventError →
  sse_inv (event id name data s).2 ∧ same_flags s (event id name data s).2.
Proof.
  intros Hi Hn.
  by destruct (event_frame id name data s Hi Hn) as (? & ? & _).
Qed.

Lemma comment_inv text s : sse_inv s → sse_inv (comment text s).2 ∧ same_flags s (comment text s).2.
Proof.
  intros Hi.
  by destruct (frame_inv (PComment text) "write sse comment" "flush sse comment" s Hi eq_refl) as (? & ? & _).
Qed.

(** The terminal frame, once [once] has just been set. *)
Lemma error_event_inv msg s :
  sse_inv s → once s = false →
  sse_inv (event "" sseEventError (PError msg) (set_once s)).2 ∧
  once (event "" sseEventError (PError msg) (set_once s)).2 = true.
Proof.
  intros Hi Ho. assert (Hz : error_frames (body s) = 0%nat) by (pose proof (inv_errors _ Hi); rewrite Ho in *; lia).
  assert (Hi' : sse_inv (set_once s)).
  { destruct Hi as [He Hf Hpre Hh]. split; [|exact Hf|exact Hpre|exact Hh]. change (body (set_once s)) with (body s). rewrite Hz. cbn. lia. }
  destruct (frame_inv (PEvent "" sseEventError (PError msg)) "write sse frame" "flush sse frame" _ Hi' eq_refl)
    as (? & Hsf & _); [done|]. split; [done|]. exact (proj1 Hsf).
Qed.

Lemma terminalOnce_inv msg s : sse_inv s → sse_inv (terminalOnce msg s).2.
Proof.
  intros Hi. unfold terminalOnce. destruct (once s) eqn:Ho; [done|].
  destruct (error_event_inv msg s Hi Ho) as [? _]. by destruct (event _ _ _ _).
Qed.

(** The invariant reads the response and the flags only. *)
Lemma sse_inv_world (s : SseSt) (w : world) en : sse_inv s → sse_inv (set_st s (MkSt w (rw (ss_st s)) en)).
Proof. intros [? ? ? ?]. by split. Qed.

Lemma doing_log_inv l msg attrs s : sse_inv s → sse_inv (doing (logAt l msg attrs) s).
Proof. intros Hi. by apply sse_inv_world. Qed.

Lemma terminalFrame_inv msg s : sse_inv s → sse_inv (terminalFrame msg s).
Proof.
  intros Hi. unfold terminalFrame, writeTerminalEventError. destruct (once s) eqn:Ho; [done|].
  destruct (error_event_inv msg s Hi Ho) as [He _].
  assert (sse_inv (set_once s)).
  { destruct Hi as [He' Hf Hpre Hh]. split; [|exact Hf|exact Hpre|exact Hh]. change (body (set_once s)) with (body s).
    rewrite Ho in He'. cbn. lia. }
  destruct (client_gone (set_once s)) eqn:Hg; [done|].
  destruct (event _ _ _ _) as [[[]|e] s']; [done|]. case_match; by apply doing_log_inv.
Qed.

Lemma streamRevoked_rw id (st : St) :
  rw (streamRevoked id st).2 = rw st ∧ entry (streamRevoked id st).2 = entry st ∧
  ∃ b, (streamRevoked id st).1 = Ok b.
Proof.
  unfold streamRevoked, mbind, comp_bind, callS.
  destruct (IsDeviceRevoked id _) as [[?|e] ?]; [by eauto|]. destruct (errors_is e _); by eauto.
Qed.

Section Ticker.
Context (deviceID : string) (beat : Comp SseSt unit) (revoked_frame : SseSt → SseSt).
Hypothesis beat_inv : ∀ s, sse_inv s → sse_inv (beat s).2.
Hypothesis frame_inv' : ∀ s, sse_inv s → sse_inv (revoked_frame s).

Lemma flags_inv s s' : sse_inv s → ss_st s' = ss_st s → started s' = started s → once s' = once s → sse_inv s'.
Proof.
  intros [? ? ? ?] Hs Hst Ho. unfold body in *. split; unfold body; rewrite ?Hs, ?Hst, ?Ho; done.
Qed.

Lemma side_inv s k : sse_inv s → sse_inv (side deviceID beat revoked_frame s k).
Proof.
  intros Hi. unfold side, run. destruct k, (ticker s) eqn:Ht; try done; try by eapply flags_inv.
  - eapply (flags_inv (beat s).2); try done. by apply beat_inv.
  - destruct (streamRevoked_rw deviceID (ss_st s)) as (Hrw & Hen & b & Hb).
    destruct (streamRevoked deviceID (ss_st s)) as [r st]. cbn in *. subst r.
    assert (Hs' : sse_inv (set_st s st)).
    { destruct st as [w rw' en]. cbn in *. subst rw' en. by apply (sse_inv_world s w (entry (ss_st s))). }
    destruct b; by eapply (flags_inv (set_st s st)).
  - eapply (flags_inv (revoked_frame s)); try done. by apply frame_inv'.
  - case_match; [by eapply flags_inv|done].
Qed.
Lemma sides_inv s ks : sse_inv s → sse_inv (sides deviceID beat revoked_frame s ks).
Proof.
  revert s. induction ks as [|k ks IH]; intros s Hi; [done|]. cbn. apply IH. by apply side_inv.
Qed.
End Ticker.

Lemma log_sides_inv id s ks : sse_inv s → sse_inv (log_sides id s ks).
Proof.
  apply sides_inv; intros; [by apply comment_inv|by apply terminalOnce_inv].
Qed.
Lemma event_sides_inv id s ks : sse_inv s → sse_inv (event_sides id s ks).
Proof.
  apply sides_inv; intros; [by apply comment_inv|by apply terminalFrame_inv].
Qed.

Lemma emit_line_inv id l p : sse_inv p.1 → sse_inv (emit_line id l p).2.1.
Proof.
  destruct p as [s sc]. cbn. intros Hi. 
  pose proof (event_inv (ll_Timestamp l) sseEventLog (PLine l) _
    (log_sides_inv id s (match sc with ks :: _ => ks | [] => [] end) Hi) ltac:(done)) as [He _].
  by destruct (event _ _ _ _).
Qed.

Lemma demux_keeps {W} (P : W → Prop) (emit : LogLine → Comp W unit) keys tty b s :
  (∀ l s, made l → P s → P (emit l s).2) → P s → P (demux keys tty b emit s).2.
Proof.
  intros He Hs. apply (demux_related (λ s1 s2, s1 = s2 ∧ P s1) emit emit) with (s1 := s) (s2 := s); [|done].
  intros l s1 ? Hl [<- Hp]. split; [done|]. split; [done|by apply He].
Qed.

Lemma event_loop_inv id picks s : sse_inv s → sse_inv (event_loop id picks s).2.
Proof.
  revert s. induction picks as [|p picks IH]; intros s Hi; [done|]. cbn [event_loop].
  destruct p.
  - apply IH. by apply event_sides_inv.
  - apply IH. by eapply flags_inv.
  - by apply terminalFrame_inv.
  - case_match; [done|by apply IH].
  - destruct (event_inv "" sseEventHealth (PHealth e) s Hi ltac:(done)) as [He _].
    destruct (event _ _ _ _) as [[[]|?] s']; [by apply IH|done].
  - by apply terminalFrame_inv.
Qed.

(** *** On a connection that does not fail *)

Definition line_of (p : payload) : option LogLine := match p with PEvent _ _ (PLine l) => Some l | _ => None end.

Definition healthy (s : SseSt) : Prop := rs_faults (rw (ss_st s)) = [].

Lemma frame_healthy p c1 c2 s :
  healthy s →
  let '(r, s') := (ensure_started ≫= λ _, wrapping c1 (wr (rw_Write p)) ≫= λ _, wrapping c2 (wr flush_conn)) s in
  r = Ok tt ∧ healthy s' ∧ started s' = true ∧ body s' = body s ++ [p] ∧ same_flags s s'.
Proof.
  unfold healthy, body. destruct s as [[w [pend status bd und flt] en] sta on ca cg tk]. cbn [ss_st rw rs_faults]. intros ->.
  unfold mbind, comp_bind, wrapping, ensure_started. cbn [started].
  destruct sta; [|rewrite startLocked_run; cbn [pop fst snd]; generalize (sse_headers pend); intros m];
    (destruct status as [[c h]|]; by repeat split).
Qed.

Lemma event_healthy id name data s : healthy s →
  let '(r, s') := event id name data s in
  r = Ok tt ∧ healthy s' ∧ started s' = true ∧ body s' = body s ++ [PEvent id name data] ∧ same_flags s s'.
Proof. apply frame_healthy. Qed.
Lemma comment_healthy text s : healthy s →
  let '(r, s') := comment text s in
  r = Ok tt ∧ healthy s' ∧ started s' = true ∧ body s' = body s ++ [PComment text] ∧ same_flags s s'.
Proof. apply frame_healthy. Qed.

(** The error answer of a stream that never started. *)
Lemma writeError_body code msg (st : St) : rs_faults (rw st) = [] →
  let st' := (writeError code msg st).2 in
  rs_faults (rw st') = [] ∧ rs_body (rw st') = rs_body (rw st) ++ [PError msg] ∧
  (rs_status (rw st) = None → ∃ h, rs_status (rw st') = Some (code, h)).
Proof.
  destruct st as [w [pend status bd und flt] en]. cbn [rw rs_faults]. intros ->.
  destruct status as [[c h]|]; cbn; (split; [done|]); (split; [done|]); intros ?; [done|eauto].
Qed.

Lemma writeDockerError_body op e (st : St) : rs_faults (rw st) = [] →
  let st' := (writeDockerError op e st).2 in
  rs_faults (rw st') = [] ∧
  (rs_body (rw st') = rs_body (rw st) ∨ ∃ msg, rs_body (rw st') = rs_body (rw st) ++ [PError msg]) ∧
  (rs_status (rw st) = None → ∃ code h, rs_status (rw st') = Some (code, h) ∧ code ≠ StatusOK).
Proof.
  intros Hf. unfold writeDockerError, setAuditOutcome, modify, mbind, comp_bind.
  assert (Herr : ∀ code msg (st' : St), rw st' = rw st → code ≠ StatusOK →
    let st'' := (writeError code msg st').2 in
    rs_faults (rw st'') = [] ∧
    (rs_body (rw st'') = rs_body (rw st) ∨ ∃ msg, rs_body (rw st'') = rs_body (rw st) ++ [PError msg]) ∧
    (rs_status (rw st) = None → ∃ code h, rs_status (rw st'') = Some (code, h) ∧ code ≠ StatusOK)).
  { intros code msg st' Hrw Hc. rewrite <- Hrw in Hf |- *.
    destruct (writeError_body code msg st' Hf) as (H1' & H2' & H3'). split; [done|]. split; [eauto|].
    intros Hn. destruct (H3' Hn) as [h Hh]. eauto. }
  repeat (destruct (errors_is e _); [first [by apply Herr | idtac]|]); [|by apply Herr].
  cbn. destruct (rw st) as [pend status bd und flt]. cbn in *. subst flt.
  destruct status as [[c h]|]; cbn; eauto 10.
Qed.

(** What a log stream sends beside its lines. *)
Definition quiet (p : payload) : Prop :=
  match p with
  | PComment text => text = "keepalive"
  | PEvent id name (PError _) => id = "" ∧ name = sseEventError
  | PError _ => True
  | _ => False
  end.

(** What holds of everything sent so far, whatever of that kind is added. *)
Section Sent.
Context (Q : list payload → Prop) (Q_quiet : ∀ b p, quiet p → Q b → Q (b ++ [p])).
Definition sent (s : SseSt) : Prop := healthy s ∧ Q (body s).

Lemma sent_terminalOnce msg s : sent s → sent (terminalOnce msg s).2 ∧ (∀ e, (terminalOnce msg s).1 ≠ Some (Err e)).
Proof.
  intros [Hh Hq]. unfold terminalOnce. destruct (once s); [by split|].
  pose proof (event_healthy "" sseEventError (PError msg) (set_once s) Hh) as Hc.
  destruct (event _ _ _ _) as [r s']. destruct Hc as (-> & Hh' & _ & Hb & _).
  split; [|done]. split; [exact Hh'|]. cbn [snd]. rewrite Hb. by apply Q_quiet.
Qed.

Lemma sent_log_sides id s ks : sent s → sent (log_sides id s ks).
Proof.
  revert s. induction ks as [|k ks IH]; intros s Hl; [done|]. cbn. apply IH. clear IH ks.
  unfold side, run. destruct k, (ticker s); try done.
  - destruct Hl as [Hh Hl]. pose proof (comment_healthy "keepalive" s Hh) as Hc. unfold keepalive.
    destruct (comment "keepalive" s) as [r s']. destruct Hc as (_ & Hh' & _ & Hb & _).
    cbn [snd]. split; [exact Hh'|]. change (body (set_ticker s' TChecking)) with (body s').
    rewrite Hb. by apply Q_quiet.
  - destruct (streamRevoked_rw id (ss_st s)) as (Hrw & _ & b & Hb).
    destruct (streamRevoked id (ss_st s)) as [r st]. cbn in *. subst r.
    unfold sent, healthy, body in *. destruct b; cbn; rewrite Hrw; done.
  - exact (proj1 (sent_terminalOnce msgStreamRevoked s Hl)).
  - by destruct (ctx_done s).
Qed.

Lemma sent_emit id l p : sent p.1 →
  (emit_line id l p).1 = Ok tt ∧ healthy (emit_line id l p).2.1 ∧
  ∃ b, Q b ∧ body (emit_line id l p).2.1 = b ++ [PEvent (ll_Timestamp l) sseEventLog (PLine l)].
Proof.
  destruct p as [s sc]. cbn. intros Hl.
  pose proof (sent_log_sides id s (match sc with ks :: _ => ks | [] => [] end) Hl) as [Hh Ho].
  pose proof (event_healthy (ll_Timestamp l) sseEventLog (PLine l) _ Hh) as Hc.
  destruct (event _ _ _ _) as [r s']. destruct Hc as (-> & Hh' & _ & Hb & _). by eauto.
Qed.

Lemma sent_log_end id sc res s : sent s → sent (log_end id sc res s).
Proof.
  intros Hl. destruct res as [?|err]; [done|]. unfold log_end.
  pose proof (sent_log_sides id s (sc_check sc) Hl) as Hl1.
  destruct (started (log_sides id s (sc_check sc))) eqn:Hst.
  2: { cbn [negb]. pose proof (sent_log_sides id _ (sc_respond sc) Hl1) as [Hh Ho].
       destruct (writeDockerError_body "stream container logs" err _ Hh) as (Hh' & Hb & _). split; [exact Hh'|].
       unfold body, doing in *. cbn [ss_st set_st].
       destruct Hb as [-> | [msg ->]]; [exact Ho|]. by apply Q_quiet. }
  cbn [negb]. case_match; [done|].
  pose proof (sent_log_sides id _ (sc_terminal sc) Hl1) as Hl2.
  destruct (sent_terminalOnce msgEngineUnavailable _ Hl2) as [Hl3 Hn].
  destruct (terminalOnce _ _) as [[[?|?]|] s']; [exact Hl3| |exact Hl3]. by destruct (Hn e).
Qed.
End Sent.

(** The lines on the wire so far. *)
Definition lines_are (out : list LogLine) : SseSt → Prop := sent (λ b, omap line_of b = out).

Lemma quiet_no_line out b p : quiet p → omap line_of b = out → omap line_of (b ++ [p]) = out.
Proof.
  intros Hq <-. rewrite omap_app. assert (line_of p = None) as Hn by (by destruct p as [| | | | | | | | | | | | | | | |? ? []| |]).
  cbn. by rewrite Hn, app_nil_r.
Qed.

Lemma lines_log_sides id out s ks : lines_are out s → lines_are out (log_sides id s ks).
Proof. apply sent_log_sides. apply quiet_no_line. Qed.

Lemma emit_line_lines id l p out : lines_are out p.1 →
  (emit_line id l p).1 = Ok tt ∧ lines_are (out ++ [l]) (emit_line id l p).2.1.
Proof.
  intros Hl. destruct (sent_emit _ (quiet_no_line out) id l p Hl) as (He & Hh & b & Hb & Heq).
  split; [done|]. split; [done|]. rewrite Heq, omap_app, Hb. done.
Qed.

Lemma log_end_lines id sc res s out : lines_are out s → lines_are out (log_end id sc res s).
Proof. apply sent_log_end. apply quiet_no_line. Qed.
End Lemmas.

(** A stream on a healthy connection whose ticker is idle until it starts. *)
Section Idle.
Context `{EngineApi, TokenBucket, Crypto}.
Notation SseSt := (SseSt (H := _) (H0 := _)).

Record log_inv (s : SseSt) : Prop := {
  li_sse : sse_inv [] s;
  li_healthy : healthy s;
  li_idle : started s = false → ticker s = TWaiting ∨ ticker s = TExited }.

Lemma healthy_log_sides id s ks : healthy s → healthy (log_sides id s ks).
Proof. intros Hh. by destruct (lines_log_sides id _ s ks (conj Hh eq_refl)). Qed.

Lemma log_inv_sides id s ks : log_inv s → log_inv (log_sides id s ks).
Proof.
  revert s. induction ks as [|k ks IH]; intros s Hi; [done|]. cbn. apply IH. clear IH ks.
  pose proof (log_sides_inv [] id s [k] (li_sse _ Hi)) as Hs.
  pose proof (healthy_log_sides id s [k] (li_healthy _ Hi)) as Hh. cbn in Hs, Hh.
  split; [exact Hs|exact Hh|]. clear Hs Hh. destruct Hi as [_ Hh Hid]. unfold side, run.
  destruct k, (ticker s) eqn:Ht; try (by rewrite ?Ht in *; auto); cbn.
  - pose proof (comment_healthy "keepalive" s Hh) as Hc. unfold keepalive.
    destruct (comment "keepalive" s) as [r s']. destruct Hc as (_ & _ & Hst & _). cbn. by rewrite Hst.
  - destruct (streamRevoked id (ss_st s)) as [[[]|?] ?]; cbn; intros Hn; destruct (Hid Hn); done.
  - intros Hn. unfold log_revoked_frame, terminalOnce in *. destruct (once s).
    { cbn in Hn. by destruct (Hid Hn). }
    pose proof (event_healthy "" sseEventError (PError msgStreamRevoked) (set_once s) Hh) as Hc.
    destruct (event _ _ _ _) as [r s']. destruct Hc as (_ & _ & Hst & _). cbn in Hn. by rewrite Hst in Hn.
  - destruct (ctx_done s); cbn; [by right|by left].
  - by rewrite Ht.
  - by rewrite Ht.
  - by rewrite Ht.
Qed.

Lemma log_inv_emit id l p : log_inv p.1 → log_inv (emit_line id l p).2.1.
Proof.
  intros Hi. pose proof (emit_line_inv [] id l p (li_sse _ Hi)) as Hs.
  destruct (emit_line_lines id l p _ (conj (li_healthy _ Hi) eq_refl)) as [_ [Hh _]].
  split; [exact Hs|exact Hh|]. destruct p as [s sc]. cbn in *.
  pose proof (li_healthy _ (log_inv_sides id s (match sc with ks :: _ => ks | [] => [] end) Hi)) as Hh1.
  pose proof (event_healthy (ll_Timestamp l) sseEventLog (PLine l) _ Hh1) as Hc.
  destruct (event _ _ _ _) as [r s']. destruct Hc as (_ & _ & Hst & _). cbn. by rewrite Hst.
Qed.

Lemma log_inv_world (s : SseSt) (w : world) en : log_inv s → log_inv (set_st s (MkSt w (rw (ss_st s)) en)).
Proof. intros [Hs Hh Hid]. split; [by apply sse_inv_world|exact Hh|exact Hid]. Qed.

(** With the stream not started and no tick, the ticker writes nothing. *)
Lemma idle_sides id s ks :
  ticker s = TWaiting ∨ ticker s = TExited → STick ∉ ks → rw (ss_st (log_sides id s ks)) = rw (ss_st s).
Proof.
  revert s. induction ks as [|k ks IH]; intros s Hid Hn; [done|]. cbn.
  apply not_elem_of_cons in Hn as [Hk Hn].
  assert (rw (ss_st (side id keepalive log_revoked_frame s k)) = rw (ss_st s) ∧
          (ticker (side id keepalive log_revoked_frame s k) = TWaiting ∨
           ticker (side id keepalive log_revoked_frame s k) = TExited)) as [<- Hid'].
  { unfold side. destruct k; destruct Hid as [Ht|Ht]; rewrite ?Ht; try done; auto.
    destruct (ctx_done s); cbn; auto. }
  by apply IH.
Qed.
End Idle.

(** ** Properties *)

Section Properties.
Context `{EngineApi, TokenBucket, Crypto}.
Notation St := (St (H := _) (H0 := _)).

(** A response nothing has been written to. *)
Definition untouched (st : St) : Prop := rs_status (rw st) = None ∧ rs_body (rw st) = [].

Lemma fresh_inv (st : St) : untouched st → sse_inv [] (MkSse st false false false false TWaiting).
Proof. intros [Hs Hb]. split; cbn; unfold body; cbn; by rewrite ?Hb. Qed.

(** How a stream may leave the response. *)
Record stream_response (w : response) : Prop := {
  sr_one_error : (error_frames (rs_body w) <= 1)%nat;
  sr_frames : Forall (λ p, is_frame p = true) (rs_body w);
  sr_head : rs_status w = None ∧ rs_body w = [] ∨
    (∃ h, rs_status w = Some (StatusOK, h) ∧ h !! "Content-Type" = Some sseContentType) ∧
    rs_undeadlined w = true }.

Lemma sse_inv_response pre s : sse_inv pre s → stream_response (rw (ss_st s)).
Proof.
  intros [He Hf _ Hh]. split; [|exact Hf|].
  - unfold body in He. destruct (once s); lia.
  - destruct (started s); [right|left]; exact Hh.
Qed.

(** An event stream never mixes its frames with anything else: however the
    picks of its loop, the ticker's steps and connection failures fall, the
    response carries either nothing at all or an SSE head with the write
    deadline cleared and then whole frames, the snapshot first, with at most
    one terminal error frame among them. *)
Theorem event_stream_shape sc deviceID states (st : St) (Hst : untouched st) :
  let s := event_stream_run sc deviceID states st in
  stream_response (rw (ss_st s)) ∧
  (rs_body (rw (ss_st s)) = [] ∨
   [PEvent "" sseEventSnapshot (PSnapshot states)] `prefix_of` rs_body (rw (ss_st s))).
Proof.
  intros s. subst s. unfold event_stream_run.
  pose proof (fresh_inv st Hst) as Hi.
  destruct (event_frame [] "" sseEventSnapshot (PSnapshot states) _ Hi ltac:(done)) as (Hi1 & _ & Hb1).
  destruct (event _ _ _ _) as [r s1]. cbn [fst snd] in *.
  assert (Hb0 : body (MkSse st false false false false TWaiting) = []) by apply Hst.
  rewrite Hb0 in Hb1. cbn [app] in Hb1.
  destruct r as [[]|e].
  2: { split; [by eapply sse_inv_response|]. unfold body in Hb1. by destruct Hb1 as [-> | [-> _]]; [right|left]. }
  destruct Hb1 as [Hb1|[_ Hn]]; [|by destruct Hn].
  assert (Hip : sse_inv (body s1) s1) by (destruct Hi1 as [? ? _ ?]; by split).
  pose proof (event_loop_inv (body s1) deviceID (es_picks sc) s1 Hip) as Hl.
  destruct (event_loop deviceID (es_picks sc) s1) as [b s2]. cbn [snd] in Hl.
  assert (Hl' : sse_inv (body s1) (set_cancelled s2)) by (by eapply flags_inv).
  pose proof (event_sides_inv (body s1) deviceID _ (es_end sc) Hl') as He.
  split; [by eapply sse_inv_response|]. right.
  pose proof (inv_prefix _ _ He) as Hp. by rewrite Hb1 in Hp.
Qed.

(** What a log stream sends, against the lines of the demultiplexer: a relation
    that holds at the start, that each line's own frame continues and the other
    frames do not disturb, holds at the end. *)
Lemma log_stream_sent (R : list LogLine → list payload → Prop) keys sc c device ref opts (st : St)
    (Hquiet : ∀ out b p, quiet p → R out b → R out (b ++ [p]))
    (Hline : ∀ out b l, made l → R out b → R (out ++ [l]) (b ++ [PEvent (ll_Timestamp l) sseEventLog (PLine l)]))
    (Hst : untouched st) (Hconn : rs_faults (rw st) = []) (Hinit : R [] []) :
  R (StreamContainerLogs keys ref opts collect [] (w_docker (wld st))).2.2
    (rs_body (rw (ss_st (log_stream_run keys sc c device ref opts st)))).
Proof.
  unfold log_stream_run, StreamContainerLogs.
  assert (Hend : ∀ out res s, sent (R out) s →
    R out (body (log_sides (dev_ID device) (set_cancelled (log_end (dev_ID device) sc res s)) (sc_end sc)))).
  { intros out res s Hs. apply (sent_log_sides (R out) (Hquiet out)).
    exact (sent_log_end (R out) (Hquiet out) (dev_ID device) sc res s Hs). }
  assert (Hs0 : sent (R []) (MkSse st false false false false TWaiting)).
  { split; [exact Hconn|]. unfold body. cbn. by rewrite (proj2 Hst). }
  destruct (open_log_stream ref opts (w_docker (wld st))) as [[[tty b]|e] d].
  - pose proof (demux_related (λ p out, sent (R out) p.1) (emit_line (dev_ID device)) collect) as Hrel.
    specialize (Hrel ltac:(intros l p out Hm Hp; destruct (sent_emit (R out) (Hquiet out) (dev_ID device) l p Hp)
      as (-> & Hh & b' & Hb' & Heq); split; [done|]; split; [done|]; rewrite Heq; by apply Hline)
      keys tty b (MkSse st false false false false TWaiting, sc_lines sc) [] Hs0).
    destruct Hrel as [Hr Hl].
    destruct (demux keys tty b (emit_line _) _) as [r [s sc']], (demux keys tty b collect []) as [r' out].
    cbn [fst snd] in *. subst r'. by apply (Hend out).
  - by apply (Hend []).
Qed.

(** No line is lost, repeated or reordered on the way to the client: on a
    connection that does not fail, whatever the ticker does in between, the
    [log] frames of a stream carry exactly the lines the demultiplexer produces
    from the Engine's body, in order. *)
Theorem log_stream_lines keys sc c device ref opts (st : St)
    (Hst : untouched st) (Hconn : rs_faults (rw st) = []) :
  omap line_of (rs_body (rw (ss_st (log_stream_run keys sc c device ref opts st)))) =
    (StreamContainerLogs keys ref opts collect [] (w_docker (wld st))).2.2.
Proof.
  apply (log_stream_sent (λ out b, omap line_of b = out)); [apply quiet_no_line| |done|done|done].
  intros out b l _ <-. by rewrite omap_app.
Qed.

(** How a log stream that was refused before its first frame answers. *)
Definition error_response (w : response) : Prop :=
  (∃ code h, rs_status w = Some (code, h) ∧ code ≠ StatusOK) ∧
  (rs_body w = [] ∨ ∃ msg, rs_body w = [PError msg]).

Lemma log_end_shape id sc res (s : SseSt (H := _) (H0 := _)) :
  log_inv s → STick ∉ sc_respond sc →
  log_inv (log_end id sc res s) ∨
  (error_response (rw (ss_st (log_end id sc res s))) ∧
   (ticker (log_end id sc res s) = TWaiting ∨ ticker (log_end id sc res s) = TExited)).
Proof.
  intros Hi Hn. destruct res as [?|err]; [by left|]. unfold log_end.
  pose proof (log_inv_sides id s (sc_check sc) Hi) as Hi1.
  generalize dependent (log_sides id s (sc_check sc)). intros s1 Hi1.
  destruct (started s1) eqn:Hst; cbn [negb].
  - left. case_match; [done|].
    pose proof (log_inv_sides id s1 (sc_terminal sc) Hi1) as Hi2.
    generalize dependent (log_sides id s1 (sc_terminal sc)). intros s2 Hi2. unfold terminalOnce.
    destruct (once s2) eqn:Ho; [exact Hi2|].
    destruct (error_event_inv [] msgEngineUnavailable s2 (li_sse _ Hi2) Ho) as [Hs _].
    pose proof (event_healthy "" sseEventError (PError msgEngineUnavailable) (set_once s2) (li_healthy _ Hi2)) as Hc.
    destruct (event _ _ _ _) as [r s3]. destruct Hc as (-> & Hh & Hst3 & _).
    split; [exact Hs|exact Hh|]. by rewrite Hst3.
  - right. pose proof (li_idle _ Hi1 Hst) as Hid.
    assert (Hid2 : ticker (log_sides id s1 (sc_respond sc)) = TWaiting ∨
                   ticker (log_sides id s1 (sc_respond sc)) = TExited).
    { clear -Hid Hn. revert s1 Hid. induction (sc_respond sc) as [|k ks IH]; intros s1 Hid; [done|].
      apply not_elem_of_cons in Hn as [Hk Hn]. cbn. apply IH; [done|]. unfold side.
      destruct k; destruct Hid as [Ht|Ht]; rewrite ?Ht; try done; auto. destruct (ctx_done s1); cbn; auto. }
    split; [|exact Hid2].
    pose proof (idle_sides id s1 (sc_respond sc) Hid Hn) as Hrw.
    pose proof (inv_head _ _ (li_sse _ Hi1)) as Hh. rewrite Hst in Hh. destruct Hh as [Hs Hb].
    destruct (writeDockerError_body "stream container logs" err (ss_st (log_sides id s1 (sc_respond sc))))
      as (_ & Hbody & Hstat).
    { rewrite Hrw. exact (li_healthy _ Hi1). }
    rewrite Hrw in Hbody, Hstat. unfold body in Hb. rewrite Hb in Hbody.
    split; [by apply Hstat|]. cbn [app] in Hbody.
    destruct Hbody as [Hbody | [msg Hbody]]; [left|right; exists msg]; exact Hbody.
Qed.

(** A log stream answers in one of two ways: with an SSE head, the write
    deadline cleared and whole frames, at most one of them the terminal error;
    or, when it failed before anything was sent, with that failure's own status
    and JSON body. This holds for every interleaving in which no tick falls
    between the check that nothing was sent and the handler's return. *)
Theorem log_stream_shape keys sc c device ref opts (st : St)
    (Hst : untouched st) (Hconn : rs_faults (rw st) = [])
    (Htick : STick ∉ sc_respond sc ++ sc_end sc) :
  let w := rw (ss_st (log_stream_run keys sc c device ref opts st)) in
  stream_response w ∨ error_response w.
Proof.
  apply not_elem_of_app in Htick as [Hn1 Hn2].
  assert (H0' : log_inv (MkSse st false false false false TWaiting)).
  { split; [by apply fresh_inv|exact Hconn|by left]. }
  assert (Hafter : ∀ s res, log_inv s →
    let w := rw (ss_st (log_sides (dev_ID device) (set_cancelled (log_end (dev_ID device) sc res s)) (sc_end sc))) in
    stream_response w ∨ error_response w).
  { intros s res Hi. destruct (log_end_shape (dev_ID device) sc res s Hi Hn1) as [Hl | [He Hid]].
    - left. eapply sse_inv_response. apply (log_sides_inv []). eapply flags_inv; [exact (li_sse _ Hl)|done..].
    - right. rewrite idle_sides; [exact He|exact Hid|exact Hn2]. }
  unfold log_stream_run, StreamContainerLogs.
  destruct (open_log_stream ref opts (w_docker (wld st))) as [[[tty b]|e] d].
  - pose proof (demux_keeps (λ p, log_inv p.1) (emit_line (dev_ID device)) keys tty b
      (MkSse st false false false false TWaiting, sc_lines sc)) as Hk.
    destruct (demux keys tty b (emit_line _) _) as [r [s sc']]. cbn in Hk.
    apply Hafter. apply log_inv_world. exact (Hk (λ l p _, log_inv_emit (dev_ID device) l p) H0').
  - apply Hafter. exact (log_inv_world _ _ _ H0').
Qed.

(** What the re-check of a stream learns of its device: nothing when the lookup
    fails, else whether the device is revoked or gone. *)
Definition recheck (id : string) (st : store) : option bool :=
  match faults st with
  | Some _ :: _ => None
  | _ => Some (match devices (sdb st) !! id with Some r => bool_decide (is_Some (dr_revoked_at r)) | None => true end)
  end.
(** A failing lookup fails for a reason other than a missing row. *)
Definition lookup_honest (st : store) : Prop :=
  match faults st with
  | Some e :: _ => errors_is e SqlErrNoRows = false ∧ errors_is e ErrDeviceNotFound = false
  | _ => True
  end.

Lemma streamRevoked_run id (st : St) : lookup_honest (w_store (wld st)) →
  ∃ st', streamRevoked id st = (Ok (default false (recheck id (w_store (wld st)))), st') ∧ rw st' = rw st.
Proof.
  unfold lookup_honest, recheck, streamRevoked, callS, IsDeviceRevoked, no_rows, query, sql, mbind, comp_bind.
  destruct (faults (w_store (wld st))) as [|[e|] fl].
  - intros _. cbn. destruct (devices _ !! id) as [row|]; cbn; [destruct (dr_revoked_at row)|]; by eexists.
  - intros [H1' H2']. cbn. rewrite H1'. cbn. rewrite H2'. by eexists.
  - intros _. cbn. destruct (devices _ !! id) as [row|]; cbn; [destruct (dr_revoked_at row)|]; by eexists.
Qed.

Definition revoked_frame : payload := PEvent "" sseEventError (PError msgStreamRevoked).

(** One turn of a ticker that finds its device revoked, or does not. [ok] says
    on which streams (client gone or not) the frame is sent at all. *)
Lemma tick_run id text (frame : SseSt → SseSt) (ok : bool → Prop) (s : SseSt)
    (Hframe : ∀ s, healthy s → once (frame s) = true ∧ cancelled (frame s) = cancelled s ∧
      (ok (client_gone s) → body (frame s) = body s ++ if once s then [] else [revoked_frame]))
    (Hh : healthy s) (Ht : ticker s = TWaiting) (Hl : lookup_honest (w_store (wld (ss_st s)))) :
  let s' := sides id (comment text) frame s [STick; SCheck; SFrame; SCancel] in
  if default false (recheck id (w_store (wld (ss_st s)))) then
    (ok (client_gone s) → body s' = body s ++ PComment text :: if once s then [] else [revoked_frame]) ∧
    once s' = true ∧ ctx_done s' = true ∧ ticker s' = TExited
  else body s' = body s ++ [PComment text] ∧ once s' = once s ∧ ctx_done s' = ctx_done s ∧ ticker s' = TWaiting.
Proof.
  pose proof (comment_healthy text s Hh) as Hc. destruct (comment text s) as [r s1] eqn:Hk.
  destruct Hc as (_ & Hh1 & _ & Hb1 & (Ho1 & Hc1 & Hg1 & _ & Hw1 & _)).
  rewrite <- Hw1 in *. destruct (streamRevoked_run id (ss_st s1) Hl) as (st2 & Hrev & Hrw2).
  set (f := side id (comment text) frame). cbv zeta.
  assert (E1 : f s STick = set_ticker s1 TChecking) by (unfold f, side, run; by rewrite Ht, Hk).
  change (sides id (comment text) frame s [STick; SCheck; SFrame; SCancel]) with (f (f (f (f s STick) SCheck) SFrame) SCancel).
  rewrite E1.
  assert (E2 : f (set_ticker s1 TChecking) SCheck = set_ticker (set_st (set_ticker s1 TChecking) st2)
    (if default false (recheck id (w_store (wld (ss_st s1)))) then TFraming else TWaiting)).
  { unfold f, side. cbn [ticker set_ticker ss_st]. rewrite Hrev. by destruct (default false _). }
  rewrite E2. destruct (default false _).
  - set (s2 := set_ticker _ TFraming).
    assert (Hh2 : healthy s2) by (unfold healthy, s2; cbn; by rewrite Hrw2).
    assert (Hb2 : body s2 = body s1) by (unfold body, s2; cbn; by rewrite Hrw2).
    destruct (Hframe s2 Hh2) as (Ho3 & Hc3 & Hb3).
    change (f s2 SFrame) with (set_ticker (frame s2) TCancelling).
    change (f _ SCancel) with (set_ticker (set_cancelled (set_ticker (frame s2) TCancelling)) TExited).
    split; [|by split]. intros Hok. change (client_gone s2) with (client_gone s1) in Hb3.
    change (once s2) with (once s1) in Hb3. rewrite Hg1, Hb2, Hb1, Ho1 in Hb3.
    etrans; [exact (Hb3 Hok)|]. by rewrite <- app_assoc.
  - set (s2 := set_ticker _ TWaiting). change (f (f s2 SFrame) SCancel) with s2.
    assert (Hb2 : body s2 = body s1) by (unfold body, s2; cbn; by rewrite Hrw2).
    split; [by rewrite Hb2|]. split; [exact Ho1|]. split; [|done]. unfold ctx_done, s2. cbn. congruence.
Qed.

Lemma log_frame_once (s : SseSt) : healthy s → once (log_revoked_frame s) = true ∧
  cancelled (log_revoked_frame s) = cancelled s ∧
  (True → body (log_revoked_frame s) = body s ++ if once s then [] else [revoked_frame]).
Proof.
  intros Hh. unfold log_revoked_frame, terminalOnce. destruct (once s) eqn:Ho; [cbn; by rewrite app_nil_r|].
  pose proof (event_healthy "" sseEventError (PError msgStreamRevoked) (set_once s) Hh) as Hc.
  destruct (event _ _ _ _) as [r s3]. destruct Hc as (_ & _ & _ & Hb & (Ho3 & Hc3 & _)). by split.
Qed.

Lemma event_frame_once (s : SseSt) : healthy s → once (terminalFrame msgStreamRevoked s) = true ∧
  cancelled (terminalFrame msgStreamRevoked s) = cancelled s ∧
  (client_gone s = false →
   body (terminalFrame msgStreamRevoked s) = body s ++ if once s then [] else [revoked_frame]).
Proof.
  intros Hh. unfold terminalFrame. destruct (once s) eqn:Ho; [by rewrite app_nil_r|].
  unfold writeTerminalEventError. cbn [client_gone set_once]. destruct (client_gone s); [done|].
  pose proof (event_healthy "" sseEventError (PError msgStreamRevoked) (set_once s) Hh) as Hc.
  destruct (event _ _ _ _) as [r s3]. destruct Hc as (-> & _ & _ & Hb & (Ho3 & Hc3 & _)). by split.
Qed.

Lemma exited_quiet id beat frame ks (s : SseSt) : ticker s = TExited →
  body (sides id beat frame s ks) = body s.
Proof.
  revert s. induction ks as [|k ks IH]; intros s Ht; [done|]. unfold sides. cbn [foldl]. unfold sides in IH.
  assert (ticker (side id beat frame s k) = TExited ∧ body (side id beat frame s k) = body s) as [Ht' <-]
    by (unfold side; rewrite Ht; by destruct k). by apply IH.
Qed.

(** C40 A device revoked while it streams is told at most once, and cut off. On a
    connection that does not fail, a whole turn of the ticker of a log stream or
    of an event stream sends the heartbeat and looks the device up. If it is
    revoked or gone, the terminal frame follows, unless a terminal frame of this
    stream was sent already (or, on an event stream, the client has left): then
    nothing does. Either way the stream is cancelled, the ticker has stopped and
    sends nothing ever again, and no other terminal frame can follow. If the
    device is neither, or its lookup fails (the re-check lets the stream live
    then), the stream goes on with nothing else sent. *)
Theorem revoked_stream_told id (s : SseSt)
    (Hh : healthy s) (Ht : ticker s = TWaiting) (Hl : lookup_honest (w_store (wld (ss_st s)))) :
  let steps := [STick; SCheck; SFrame; SCancel] in
  let told := if once s then [] else [PEvent "" sseEventError (PError msgStreamRevoked)] in
  let logs := log_sides id s steps in
  let events := event_sides id s steps in
  match recheck id (w_store (wld (ss_st s))) with
  | Some true =>
      (body logs = body s ++ PComment "keepalive" :: told ∧ ctx_done logs = true ∧
       (∀ ks, body (log_sides id logs ks) = body logs) ∧ ∀ msg, terminalOnce msg logs = (None, logs)) ∧
      (client_gone s = false → body events = body s ++ PComment "heartbeat" :: told) ∧ ctx_done events = true ∧
      (∀ ks, body (event_sides id events ks) = body events) ∧ ∀ msg, terminalFrame msg events = events
  | _ =>
      (body logs = body s ++ [PComment "keepalive"] ∧ ctx_done logs = ctx_done s ∧ once logs = once s ∧ ticker logs = TWaiting) ∧
      body events = body s ++ [PComment "heartbeat"] ∧ ctx_done events = ctx_done s ∧ once events = once s ∧ ticker events = TWaiting
  end.
Proof.
  pose proof (tick_run id "keepalive" log_revoked_frame (λ _, True) s log_frame_once Hh Ht Hl) as Hlog.
  pose proof (tick_run id "heartbeat" (terminalFrame msgStreamRevoked) (λ g, g = false) s event_frame_once Hh Ht Hl) as Hev.
  cbv zeta in Hlog, Hev |- *. unfold log_sides, event_sides, keepalive.
  revert Hlog Hev. generalize (sides id (comment "keepalive") log_revoked_frame s [STick; SCheck; SFrame; SCancel]).
  generalize (sides id (comment "heartbeat") (terminalFrame msgStreamRevoked) s [STick; SCheck; SFrame; SCancel]).
  intros events logs. destruct (recheck _ _) as [[]|]; cbn [default from_option Datatypes.id].
  - intros (Hb & Ho & Hc & Hx) (Hb' & Ho' & Hc' & Hx'). split; [|split; [exact Hb'|split; [done|split]]].
    + split; [by apply Hb|]. split; [done|]. split; [intros ks; by apply exited_quiet|].
      intros msg. unfold terminalOnce. by rewrite Ho.
    + intros ks. by apply exited_quiet.
    + intros msg. unfold terminalFrame. by rewrite Ho'.
  - tauto.
  - tauto.
Qed.
End Properties.

(** ** Witnesses *)

Definition toy_device : Device := MkDevice "d1" "phone" 5 None None.
Definition quiet_schedule : log_schedule := MkLogSchedule [] [] [] [] [].

Lemma event_stream_shape_witness :
  let s := event_stream_run
    (MkEventSchedule (Ok tt) [PSide STick; PHealthEvent (MkContainerEvent "x" "" "die" "" ""); PSuperseded] [])
    "d1" [] (toy_state 0) in
  stream_response (rw (ss_st s)) ∧ error_frames (rs_body (rw (ss_st s))) = 1%nat.
Proof.
  split; [|vm_compute; reflexivity].
  apply (event_stream_shape _ "d1" [] (toy_state 0)). split; reflexivity.
Defined.

Lemma log_stream_lines_witness :
  omap line_of (rs_body (rw (ss_st (log_stream_run keys_of
    (MkLogSchedule [[STick; SCheck]] [] [] [] [STick]) toy_client toy_device "web" (MkLogOptions 100 "")
    (toy_state 0))))) = [MkLogLine "" "stdout" "up" false].
Proof.
  rewrite log_stream_lines; [vm_compute; reflexivity|split; reflexivity|reflexivity].
Defined.

Lemma log_stream_shape_witness :
  let w := rw (ss_st (log_stream_run keys_of
    (MkLogSchedule [] [] [] [] []) toy_client toy_device "gone" (MkLogOptions 100 "") (toy_state 0))) in
  rs_body w = [PError "not found"] ∧ (stream_response w ∨ error_response w).
Proof.
  split; [vm_compute; reflexivity|].
  apply (log_stream_shape keys_of (MkLogSchedule [] [] [] [] []) toy_client toy_device "gone"
    (MkLogOptions 100 "") (toy_state 0)); [split; reflexivity|reflexivity|apply not_elem_of_nil].
Defined.

Lemma revoked_stream_told_witness :
  let s := MkSse (H := ToyEngine) (H0 := Ticks) (toy_state 0) false false false false TWaiting in
  body (log_sides "d9" s [STick; SCheck; SFrame; SCancel]) =
    [PComment "keepalive"; PEvent "" sseEventError (PError msgStreamRevoked)] ∧
  body (log_sides "d9" (set_once s) [STick; SCheck; SFrame; SCancel]) = [PComment "keepalive"].
Proof.
  intros s. split.
  - exact (proj1 (proj1 (revoked_stream_told "d9" s eq_refl eq_refl I))).
  - exact (proj1 (proj1 (revoked_stream_told "d9" (set_once s) eq_refl eq_refl I))).
Defined.

(** The proviso of [log_stream_shape] is needed: nothing orders the ticker's
    first keepalive after the handler's check that nothing was sent, and when
    it falls between the check and the error answer, the JSON error lands
    behind an SSE head with status 200. *)
Lemma late_tick_mixes :
  let w := rw (ss_st (log_stream_run keys_of
    (MkLogSchedule [] [] [STick] [] []) toy_client toy_device "gone" (MkLogOptions 100 "") (toy_state 0))) in
  rs_body w = [PComment "keepalive"; PError "not found"] ∧ code_of w = 200.
Proof. vm_compute. done. Qed.
