(* ===== verification/Routes.v ===== *)
(** * Routes: the mux, the route table and the outer chain
    (internal/httpapi: the [routes] of server.go, [withRoute] of middleware.go)

    [net/http.ServeMux] is modelled as far as the table needs: a pattern is a
    method and a path whose segments are literals or one-segment wildcards, no
    two patterns of the table match the same request, a GET pattern serves
    HEAD, an unclean path is redirected, a path matched under another method
    only is answered 405 and everything else 404. *)
From Stdlib Require Import QArith.
From S2P Require Import Prelude GoTime LogFraming Policy Refs RateLimit Streams Engine Dto.
From S2P Require Import DockerClient Store GoStrings Config Certs HttpCore HttpHandlers.
Open Scope Z_scope.

(** ** Patterns *)

Inductive segment : Set := Lit (s : string) | Wild (name : string).
Record pattern : Set := MkPattern { pat_method : string; pat_path : list segment }.

Definition parse_segment (s : string) : segment :=
  if has_prefix "{" s then Wild (trim_suffix "}" (trim_prefix "{" s)) else Lit s.
(** A pattern literal, ["METHOD /path/{name}"]. *)
Definition parse_pattern (s : string) : pattern :=
  match cut " " s with
  | Some (m, p) => MkPattern m (map parse_segment (split_on "/" (trim_prefix "/" p)))
  | None => MkPattern "" (map parse_segment (split_on "/" (trim_prefix "/" s)))
  end.

(** [url.PathUnescape] of one segment; the segment itself when malformed. *)
Definition hex_value (c : ascii) : option N :=
  let n := N_of_ascii c in
  if is_digit c then Some (n - 48)%N
  else if byte_in "a" "f" c then Some (n - 87)%N
  else if byte_in "A" "F" c then Some (n - 55)%N
  else None.
Fixpoint unescape (l : list ascii) : option (list ascii) :=
  match l with
  | [] => Some []
  | c :: l' =>
      if Ascii.eqb c "%" then
        match l' with
        | a :: b :: l'' =>
            match hex_value a, hex_value b, unescape l'' with
            | Some x, Some y, Some rest => Some (ascii_of_N (16 * x + y) :: rest)
            | _, _, _ => None
            end
        | _ => None
        end
      else match unescape l' with Some rest => Some (c :: rest) | None => None end
  end.
Definition pathUnescape (s : string) : string :=
  match unescape (bytes s) with Some l => of_bytes l | None => s end.

(** The path values, if the path matches. A wildcard takes one non-empty
    segment. *)
Fixpoint match_path (pat : list segment) (path : list string) : option (list (string * string)) :=
  match pat, path with
  | [], [] => Some []
  | Lit l :: pat, s :: path => if bool_decide (pathUnescape s = l) then match_path pat path else None
  | Wild n :: pat, s :: path =>
      if bool_decide (s = "") then None
      else match match_path pat path with Some vs => Some ((n, pathUnescape s) :: vs) | None => None end
  | _, _ => None
  end.
Definition match_method (pat method : string) : bool :=
  bool_decide (pat = method) || (bool_decide (pat = "GET") && bool_decide (method = "HEAD")).

(** [cleanPath] on the segments: "." and empty ones go, ".." takes one back, a
    trailing slash stays. *)
Fixpoint clean_go (stack : list string) (path : list string) : list string :=
  match path with
  | [] => rev stack
  | [""] => rev ("" :: stack)
  | s :: path =>
      if bool_decide (s = "") || bool_decide (s = ".") then clean_go stack path
      else if bool_decide (s = "..") then clean_go (tail stack) path
      else clean_go (s :: stack) path
  end.
Definition cleanPath (path : list string) : list string := clean_go [] path.

Section Routes.
Context `{EngineApi, TokenBucket, Crypto}.
Context (hash : string → string) (Version : string).
Context (keys : gmap string lineState → list string).
(** The bodies of the two streams, once the stream is admitted: Sse.v. *)
Context (stream : Client → Device → string → LogOptions → Comp (St (H := _) (H0 := _)) unit).
Context (handleEventStream : Server → Handler (H := _) (H0 := _)).
Notation Handler := (Handler (H := _) (H0 := _)).
Notation world := (world (H := _) (H0 := _)).

Definition mux : Type := list (string * Handler).

Definition mux_matches (r_path : list string) (p : pattern) : option (list (string * string)) :=
  match_path (pat_path p) r_path.
Fixpoint mux_find (m : mux) (method : string) (path : list string)
    : option (string * Handler * list (string * string)) :=
  match m with
  | [] => None
  | (pat, h) :: m =>
      let p := parse_pattern pat in
      match (if match_method (pat_method p) method then match_path (pat_path p) path else None) with
      | Some vals => Some (pat, h, vals)
      | None => mux_find m method path
      end
  end.
Definition path_known (m : mux) (path : list string) : bool :=
  existsb (λ ph, match match_path (pat_path (parse_pattern ph.1)) path with Some _ => true | None => false end) m.

(** [mux.Handler(r)]: the handler and the pattern. *)
Definition mux_Handler (m : mux) (r : Request) : Handler * string :=
  let clean := cleanPath (rq_path r) in
  if negb (bool_decide (clean = rq_path r)) then
    (λ _ _, with_rw (rw_set "Location" ("/" +:+ join "/" clean)) ≫= λ _,
            with_rw (rw_WriteHeader StatusTemporaryRedirect),
     match mux_find m (rq_method r) clean with Some (pat, _, _) => pat | None => "" end)
  else
    match mux_find m (rq_method r) (rq_path r) with
    | Some (pat, h, vals) => (λ r c, h r (MkCtx (ctx_device c) (ctx_route c) vals), pat)
    | None =>
        let '(code, text) := if path_known m (rq_path r) then (StatusMethodNotAllowed, "Method Not Allowed")
                             else (StatusNotFound, "404 page not found") in
        (λ _ _, with_rw (rw_WriteHeader code) ≫= λ _,
                (callW (rw_Write (PText text)) ≫= λ _, mret tt), "")
    end.
Definition mux_ServeHTTP (m : mux) : Handler := λ r c, (mux_Handler m r).1 r c.

(** [func (s *Server) withRoute] *)
Definition withRoute (m : mux) (next : Handler) : Handler := λ r c,
  let pat := (mux_Handler m r).2 in
  let route := if bool_decide (pat ∈ map fst m) then pat else unmatchedRoute in
  next r (MkCtx (ctx_device c) (Some route) (ctx_vals c)).

(** The closures [read], [logs] and [mutate] of [routes]. *)
Definition read (s : Server) (h : Handler) : Handler :=
  requireDevice (withDeviceLimit s (requireOp s OpRead h)).
Definition logs (s : Server) (h : Handler) : Handler :=
  requireDevice (withDeviceLimit s (requireOp s OpLogs h)).
Definition mutate (s : Server) (op : Operation) (h : Handler) : Handler :=
  requireDevice (withDeviceLimit s (withAudit op (requireOp s op h))).
Definition identity (s : Server) (op : string) (h : Handler) : Handler :=
  requireDevice (withDeviceLimit s (withIdentityAudit op h)).

(** The table of [func (s *Server) routes]. *)
Definition route_table (s : Server) : mux :=
  [ ("GET /v1/status",
       withGlobalUnauthLimit s (withIPLimit statusTier (statusLimit s) (handleStatus Version s)));
    ("POST /v1/pair",
       withGlobalUnauthLimit s (withIPLimit pairTier (pairLimit s) (withPairAudit (handlePair hash s))));
    ("POST /v1/device/renew", identity s opRenew (handleRenew s));
    ("DELETE /v1/device/self", identity s opUnpairSelf handleUnpairSelf);
    ("GET /v1/containers", read s (handleListContainers s));
    ("GET /v1/containers/{id}", read s (handleInspectContainer s));
    ("GET /v1/images", read s (handleListImages s));
    ("GET /v1/images/{id}", read s (handleInspectImage s));
    ("GET /v1/networks", read s (handleListNetworks s));
    ("GET /v1/networks/{id}", read s (handleInspectNetwork s));
    ("GET /v1/volumes", read s (handleListVolumes s));
    ("GET /v1/volumes/{name}", read s (handleInspectVolume s));
    ("GET /v1/containers/{id}/logs", logs s (handleContainerLogs keys s));
    ("GET /v1/containers/{id}/logs/stream", logs s (handleStreamContainerLogs s stream));
    ("GET /v1/events/stream", read s (handleEventStream s));
    ("POST /v1/containers/{id}/start", mutate s OpStart (handleStartContainer s));
    ("POST /v1/containers/{id}/restart", mutate s OpRestart (handleRestartContainer s));
    ("POST /v1/containers/{id}/stop", mutate s OpStop (handleStopContainer s));
    ("POST /v1/containers/{id}/kill", mutate s OpKill (handleKillContainer s));
    ("DELETE /v1/containers/{id}", mutate s Policy.OpDelete (handleRemoveContainer s)) ].

(** [func (s *Server) routes] *)
Definition routes (s : Server) : Handler :=
  let m := route_table s in withRoute m (withRecovery (withRequestLog (mux_ServeHTTP m))).

(** One request served: the response and the world after it. A panic that gets
    out of the chain would be [net/http]'s to handle; none does. *)
Definition serve (s : Server) (r : Request) (faults : list (option error)) (w : world) : response * world :=
  let '(_, st) := routes s r emptyCtx (MkSt w (new_response faults) None) in (rw st, wld st).
End Routes.
