(* ===== verification/Effects.v ===== *)
(** * Effects: what a part of a request may change

    [moves Rs Rd Rb m]: however [m] ends, it takes the database along [Rs], the
    Engine (its state, and the calls made to it) along [Rd] and the stream
    budget along [Rb]. The relations are preorders, so the footprint of a
    handler is that of its parts; the log and the rate limiters may always
    change. The theorems on whole requests (Requests.v) are instances. *)
From Stdlib Require Import QArith.
From S2P Require Import Prelude GoTime LogFraming Policy Refs RateLimit Streams EventHub Engine.
From S2P Require Import Dto DockerClient Store GoStrings Config Certs HttpCore HttpHandlers.
From S2P Require Import Sse Routes.
Open Scope Z_scope.

(** ** The Engine *)

(** The calls that change a container; all the others only read. *)
Definition mutating (k : api_call) : bool :=
  match k with
  | CallContainerStart _ | CallContainerRestart _ _ | CallContainerStop _ _
  | CallContainerKill _ | CallContainerRemove _ => true
  | _ => false
  end.

Section Engine.
Context `{EngineApi}.

Definition changes (w : docker) : list api_call := List.filter mutating (calls w).

(** No changing call is made. *)
Definition same_changes (w w' : docker) : Prop := changes w' = changes w.
#[export] Instance same_changes_preorder : PreOrder same_changes.
Proof. split; [done|]. unfold same_changes. congruence. Qed.

Definition only_reads {A} (m : Comp docker A) : Prop := ∀ w, same_changes w (m w).2.

Lemma only_reads_ret {A} (a : A) : only_reads (mret a).
Proof. by intros w. Qed.
Lemma only_reads_throw {A} e : only_reads (throw (A := A) e).
Proof. by intros w. Qed.
Lemma only_reads_of_result {A} (r : result A) : only_reads (of_result r).
Proof. by intros w. Qed.
Lemma only_reads_log l msg attrs : only_reads (log l msg attrs).
Proof. by intros w. Qed.
Lemma only_reads_bind {A B} (m : Comp docker A) (f : A → Comp docker B) :
  only_reads m → (∀ a, only_reads (f a)) → only_reads (m ≫= f).
Proof.
  intros Hm Hf w. unfold mbind, comp_bind. specialize (Hm w). destruct (m w) as [[a|e] w1]; [|done].
  etrans; [exact Hm|apply Hf].
Qed.
Lemma only_reads_classified {A} op (m : Comp docker A) : only_reads m → only_reads (classified op m).
Proof. intros Hm w. specialize (Hm w). unfold classified. by destruct (m w) as [[a|e] w1]. Qed.
Lemma only_reads_api {A} k (m : Comp EngineState A) : mutating k = false → only_reads (api k m).
Proof.
  intros Hk w. unfold api, same_changes, changes. destruct (m (engine w)) as [r e]. cbn.
  rewrite List.filter_app. cbn. by rewrite Hk, app_nil_r.
Qed.
End Engine.

Ltac only_reads_tac :=
  repeat first
    [ apply only_reads_ret | apply only_reads_throw | apply only_reads_of_result | apply only_reads_log
    | apply only_reads_bind; [|intros ?] | apply only_reads_classified
    | apply only_reads_api; reflexivity | progress case_match | done ].

Section Reads.
Context `{EngineApi}.
Lemma ListContainers_reads c all : only_reads (ListContainers c all).
Proof. unfold ListContainers. only_reads_tac. Qed.
Lemma ListImages_reads : only_reads ListImages.
Proof. unfold ListImages. only_reads_tac. Qed.
Lemma ListNetworks_reads : only_reads ListNetworks.
Proof. unfold ListNetworks. only_reads_tac. Qed.
Lemma ListVolumes_reads : only_reads ListVolumes.
Proof. unfold ListVolumes. only_reads_tac. Qed.
Lemma ContainerStates_reads : only_reads ContainerStates.
Proof. unfold ContainerStates. only_reads_tac. Qed.
Lemma InspectContainer_reads c ref : only_reads (InspectContainer c ref).
Proof. unfold InspectContainer. only_reads_tac. Qed.
Lemma InspectImage_reads ref : only_reads (InspectImage ref).
Proof. unfold InspectImage. only_reads_tac. Qed.
Lemma InspectNetwork_reads ref : only_reads (InspectNetwork ref).
Proof. unfold InspectNetwork. only_reads_tac. Qed.
Lemma InspectVolume_reads ref : only_reads (InspectVolume ref).
Proof. unfold InspectVolume. only_reads_tac. Qed.
Lemma ContainerLogs_reads keys ref opts : only_reads (ContainerLogs keys ref opts).
Proof. unfold ContainerLogs, containerUsesTTY. only_reads_tac. Qed.
Lemma open_log_stream_reads ref opts : only_reads (open_log_stream ref opts).
Proof. unfold open_log_stream, containerUsesTTY. only_reads_tac. Qed.
End Reads.
Create HintDb reads discriminated.
#[export] Hint Resolve ListContainers_reads ListImages_reads ListNetworks_reads ListVolumes_reads
  ContainerStates_reads InspectContainer_reads InspectImage_reads InspectNetwork_reads
  InspectVolume_reads ContainerLogs_reads open_log_stream_reads : reads.

Section Lifecycle.
Context `{EngineApi}.

(** A lifecycle operation changes nothing, or exactly the container its inspect
    resolved, which is not one to refuse. *)
Lemma lifecycle_changes op c ref w :
  let '(r, w') := lifecycle_method op c ref w in
  (same_changes w w' ∧ r ≠ Ok tt) ∨
  ∃ d w1, InspectContainer c ref w = (Ok d, w1) ∧ refusal c d = None ∧ self_unknown c = false ∧
    changes w' = changes w ++ [op_call op (cd_ID d)].
Proof.
  rewrite lifecycle_unfold. unfold mbind, comp_bind. rewrite resolveTarget_run.
  destruct (ValidateRef ref) as [[]|e]; [|cbn; left; by split]. destruct (self_unknown c) eqn:Hu; [cbn; left; by split|].
  pose proof (InspectContainer_reads c ref w) as Hr.
  destruct (InspectContainer c ref w) as [[d|e] w1]; [|cbn; left; by split].
  destruct (refusal c d) eqn:Hd; [cbn; left; by split|].
  destruct (api_run (op_call op (cd_ID d)) (op_api op (cd_ID d)) w1) as (r & e & _ & Ha).
  rewrite (classified_run _ _ _ _ _ Ha). right. exists d, w1. split; [done|]. split; [done|]. split; [done|].
  unfold changes. cbn. rewrite List.filter_app. unfold same_changes, changes in Hr. cbn in Hr. rewrite Hr.
  by destruct op.
Qed.

Lemma lifecycle_method_name op : lifecycle_method op =
  match op with LStart => StartContainer | LRestart => RestartContainer | LStop => StopContainer
              | LKill => KillContainer | LRemove => RemoveContainer end.
Proof. by destruct op. Qed.
End Lifecycle.

(** ** Requests *)

Section Moves.
Context `{EngineApi, TokenBucket, Crypto}.
Notation St := (St (H := _) (H0 := _)).
Notation world := (world (H := _) (H0 := _)).
Notation Handler := (Handler (H := _) (H0 := _)).
Notation SseSt := (SseSt (H := _) (H0 := _)).
Context (Rs : db → db → Prop) (Rd : docker → docker → Prop).
Context (Rb : Budget.streamBudget → Budget.streamBudget → Prop).
Context `{!PreOrder Rs, !PreOrder Rd, !PreOrder Rb}.

Definition wmoves (w w' : world) : Prop :=
  Rs (sdb (w_store w)) (sdb (w_store w')) ∧ Rd (w_docker w) (w_docker w') ∧ Rb (streams w) (streams w').
#[export] Instance wmoves_preorder : PreOrder wmoves.
Proof.
  split; [by intros w|]. intros a b c (? & ? & ?) (? & ? & ?). repeat split; by etrans.
Qed.

Definition moves {A} (m : Comp St A) : Prop := ∀ s, wmoves (wld s) (wld (m s).2).
Definition hmoves (h : Handler) : Prop := ∀ r c, moves (h r c).

Lemma moves_ret {A} (a : A) : moves (mret a).
Proof. by intros s. Qed.
Lemma moves_throw {A} e : moves (throw (A := A) e).
Proof. by intros s. Qed.
Lemma moves_gets {A} (f : St → A) : moves (gets f).
Proof. by intros s. Qed.
Lemma moves_bind {A B} (m : Comp St A) (f : A → Comp St B) :
  moves m → (∀ a, moves (f a)) → moves (m ≫= f).
Proof.
  intros Hm Hf s. unfold mbind, comp_bind. specialize (Hm s). destruct (m s) as [[a|e] s1]; [|done].
  etrans; [exact Hm|apply Hf].
Qed.
Lemma moves_modify f : (∀ s, wmoves (wld s) (wld (f s))) → moves (modify f).
Proof. intros Hf s. apply Hf. Qed.
Lemma moves_with_rw f : moves (with_rw f).
Proof. by intros s. Qed.
Lemma moves_callW {A} (m : Comp response A) : moves (callW m).
Proof. intros s. unfold callW. by destruct (m (rw s)). Qed.
Lemma moves_logAt l msg attrs : moves (logAt l msg attrs).
Proof. by intros s. Qed.
Lemma moves_outcome o d : moves (setAuditOutcome o d).
Proof. by intros s. Qed.
Lemma moves_device d : moves (setAuditDeviceID d).
Proof. by intros s. Qed.
Lemma moves_callS {A} (m : Comp store A) : steps Rs m → moves (callS m).
Proof. intros Hm s. unfold callS. specialize (Hm (w_store (wld s))). by destruct (m _) as [? ?]. Qed.
Lemma moves_callD {A} (m : Comp docker A) : (∀ w, Rd w (m w).2) → moves (callD m).
Proof. intros Hm s. unfold callD. specialize (Hm (w_docker (wld s))). by destruct (m _) as [? ?]. Qed.
Lemma moves_global now : moves (takeGlobal now).
Proof. intros s. unfold takeGlobal. by destruct (AllowN _ _ _). Qed.
Lemma moves_key t key now : t ∈ [statusTier; pairTier] → moves (takeKey (tier_get t) (tier_set t) key now).
Proof.
  intros Ht s. unfold takeKey. destruct (Allow _ _ _) as [[? ?] reg].
  apply elem_of_cons in Ht as [->|Ht]; [done|]. by apply list_elem_of_singleton in Ht as ->.
Qed.
Lemma moves_device_key key now : moves (takeKey deviceLimits set_deviceLimits key now).
Proof. intros s. unfold takeKey. by destruct (Allow _ _ _) as [[? ?] reg]. Qed.
Lemma moves_writeJSON code p : moves (writeJSON code p).
Proof.
  unfold writeJSON. do 4 (apply moves_bind; [apply moves_with_rw|intros _]).
  apply moves_bind; [apply moves_callW|intros []]; [apply moves_ret|apply moves_logAt].
Qed.
Lemma moves_writeError code msg : moves (writeError code msg).
Proof. apply moves_writeJSON. Qed.
End Moves.

(** One step of the decomposition of a computation into its parts; what
    [moves_tac] leaves is one goal per call of the store, the Engine or the
    budget, and per handler called. *)
Ltac moves_step :=
  lazymatch goal with
  | |- moves _ _ _ (_ ≫= _) => apply moves_bind; [apply _..| |intros ?]
  | |- moves _ _ _ (mret _) => apply moves_ret; apply _
  | |- moves _ _ _ (throw _) => apply moves_throw; apply _
  | |- moves _ _ _ (gets _) => apply moves_gets; apply _
  | |- moves _ _ _ (with_rw _) => apply moves_with_rw; apply _
  | |- moves _ _ _ (callW _) => apply moves_callW; apply _
  | |- moves _ _ _ (logAt _ _ _) => apply moves_logAt; apply _
  | |- moves _ _ _ (setAuditOutcome _ _) => apply moves_outcome; apply _
  | |- moves _ _ _ (setAuditDeviceID _) => apply moves_device; apply _
  | |- moves _ _ _ (writeJSON _ _) => apply moves_writeJSON; apply _
  | |- moves _ _ _ (writeError _ _) => apply moves_writeError; apply _
  | |- moves _ _ _ (takeGlobal _) => apply moves_global; apply _
  | |- moves _ _ _ (takeKey deviceLimits _ _ _) => apply moves_device_key; apply _
  | |- moves _ _ _ (if ?b then _ else _) => destruct b
  | |- moves _ _ _ (match ?x with _ => _ end) => destruct x
  end.
Ltac moves_tac := repeat moves_step.

Section Handlers.
Context `{EngineApi, TokenBucket, Crypto}.
Notation St := (St (H := _) (H0 := _)).
Notation Handler := (Handler (H := _) (H0 := _)).
Notation SseSt := (SseSt (H := _) (H0 := _)).
Context (Rs : db → db → Prop) (Rd : docker → docker → Prop).
Context (Rb : Budget.streamBudget → Budget.streamBudget → Prop).
Context `{!PreOrder Rs, !PreOrder Rd, !PreOrder Rb}.
Notation moves := (moves Rs Rd Rb).
Notation hmoves := (hmoves Rs Rd Rb).

(** *** Middleware *)

Hypothesis touch_steps : ∀ id now, steps Rs (TouchDevice id now).
Hypothesis append_steps : ∀ e now, steps Rs (AppendAudit e now).
Hypothesis record_steps : ∀ id sn nb na now, steps Rs (RecordDeviceCert id sn nb na now).
Hypothesis supersede_steps : ∀ id sn now, steps Rs (SupersedePriorCerts id sn now).
Hypothesis revoke_steps : ∀ id now, steps Rs (RevokeDevice id now).
Hypothesis reads_steps : ∀ A (m : Comp docker A), only_reads m → ∀ w, Rd w (m w).2.
Hypothesis lifecycle_steps : ∀ op c ref w, Rd w (lifecycle_method op c ref w).2.
Hypothesis acquire_steps : ∀ b id, Rb b (Budget.acquire b id).2.
Hypothesis release_steps : ∀ b id, Rb b (Budget.release_body b id).

Lemma store_moves {A} (m : Comp store A) : steps Rs m → moves (callS m).
Proof. by apply moves_callS; apply _. Qed.
Lemma docker_moves {A} (m : Comp docker A) : (∀ w, Rd w (m w).2) → moves (callD m).
Proof. by apply moves_callD; apply _. Qed.
Lemma by_serial_moves serial : moves (callS (DeviceByCertSerial serial)).
Proof. apply store_moves. unfold DeviceByCertSerial. apply steps_no_rows, steps_query. apply _. Qed.
Lemma revoked_moves id : moves (callS (IsDeviceRevoked id)).
Proof. apply store_moves. unfold IsDeviceRevoked. apply steps_no_rows, steps_query. apply _. Qed.

Lemma requireDevice_moves h : hmoves h → hmoves (requireDevice h).
Proof.
  intros Hh r c. unfold requireDevice. destruct (rq_tls r) as [[|sn l]|]; [moves_tac| |moves_tac].
  apply moves_bind; [apply _..|apply by_serial_moves|intros [d|e]].
  - destruct (IsRevoked d); [moves_tac|].
    apply moves_bind; [apply _..|apply store_moves, touch_steps|intros t].
    apply moves_bind; [apply _..|moves_tac|intros _]. apply Hh.
  - moves_tac.
Qed.

Lemma withDeviceLimit_moves s h : hmoves h → hmoves (withDeviceLimit s h).
Proof.
  intros Hh r c. unfold withDeviceLimit, tooManyRequests. destruct (DeviceFrom c); [|moves_tac].
  apply moves_bind; [apply _..|apply moves_device_key; apply _|intros [[] ?]]; cbn [negb]; [apply Hh|moves_tac].
Qed.

Lemma withGlobalUnauthLimit_moves s h : hmoves h → hmoves (withGlobalUnauthLimit s h).
Proof.
  intros Hh r c. unfold withGlobalUnauthLimit, tooManyRequests.
  apply moves_bind; [apply _..|apply moves_global; apply _|intros []]; cbn [negb]; [apply Hh|moves_tac].
Qed.

Lemma withIPLimit_moves t q h : t ∈ [statusTier; pairTier] → hmoves h → hmoves (withIPLimit t q h).
Proof.
  intros Ht Hh r c. unfold withIPLimit, tooManyRequests.
  apply moves_bind; [apply _..|by apply moves_key; try apply _|intros [a k]].
  apply moves_bind; [apply _..|destruct k; cbn [negb]; moves_tac|intros []]; cbn [negb]; [apply Hh|moves_tac].
Qed.

Lemma requireOp_moves s op h : hmoves h → hmoves (requireOp s op h).
Proof. intros Hh r c. unfold requireOp. destruct (negb _); [moves_tac|apply Hh]. Qed.

Lemma recordAudit_moves r c e : moves (recordAudit r c e).
Proof.
  unfold recordAudit. apply moves_bind; [apply _..|apply store_moves, append_steps|intros ?]. moves_tac.
Qed.

Lemma audited_moves e h : hmoves h → hmoves (audited e h).
Proof.
  intros Hh r c. unfold audited. apply moves_bind; [apply _..|by apply moves_modify|intros _].
  apply moves_bind; [apply _..|apply Hh|intros _].
  apply moves_bind; [apply _..|moves_tac|intros ?]. apply recordAudit_moves.
Qed.

Lemma withAudit_moves op h : hmoves h → hmoves (withAudit op h).
Proof. intros Hh r c. unfold withAudit. by apply audited_moves. Qed.

(** *** Handlers *)

Lemma writeDockerError_moves op e : moves (writeDockerError op e).
Proof. unfold writeDockerError. moves_tac. Qed.

Lemma requireDocker_moves s f : (∀ c, moves (f c)) → moves (requireDocker s f).
Proof. intros Hf. unfold requireDocker. destruct (dc s); [apply Hf|moves_tac]. Qed.

Lemma handleRead_moves {A} s op (m : Client → Comp docker A) p :
  (∀ c, only_reads (m c)) → moves (handleRead s op m p).
Proof.
  intros Hm. apply requireDocker_moves. intros c.
  apply moves_bind; [apply _..|by apply docker_moves, reads_steps|intros [a|e]];
    [moves_tac|apply writeDockerError_moves].
Qed.

Lemma handleLifecycle_moves s name op : hmoves (handleLifecycle s name (lifecycle_method op)).
Proof.
  intros r c. unfold handleLifecycle. apply requireDocker_moves. intros k.
  apply moves_bind; [apply _..|apply docker_moves; intros w; apply lifecycle_steps|intros [a|e]];
    [moves_tac|apply writeDockerError_moves].
Qed.

Lemma requireCA_moves s msg f : (∀ c, moves (f c)) → moves (requireCA s msg f).
Proof. intros Hf. unfold requireCA. destruct (ca s); [apply Hf|moves_tac]. Qed.

Lemma decodeRequest_moves r limit : moves (decodeRequest r limit).
Proof. unfold decodeRequest. destruct (rq_body r limit); moves_tac. Qed.

Lemma handlePair_moves hash s : (∀ c r code csr, moves (pairDevice hash c r code csr)) → hmoves (handlePair hash s).
Proof.
  intros Hp r x. unfold handlePair. apply requireCA_moves. intros c.
  apply moves_bind; [apply _..|apply decodeRequest_moves|intros [f|]]; [|moves_tac].
  destruct (decodeCSRPEM _); [|moves_tac].
  apply moves_bind; [apply _..|apply Hp|intros [p|e]]; [moves_tac|]. destruct (errors_is e _); moves_tac.
Qed.

Lemma renewDevice_moves c r id csr : moves (renewDevice c r id csr).
Proof.
  unfold renewDevice. destruct (IssueDeviceCert _ _ _ _ _) as [[[pem sn] na]|e]; [|moves_tac].
  apply moves_bind; [apply _..|apply store_moves, record_steps|intros [?|?]]; [|moves_tac].
  apply moves_bind; [apply _..|apply store_moves, supersede_steps|intros [?|?]]; moves_tac.
Qed.

Lemma handleRenew_moves s : hmoves (handleRenew s).
Proof.
  intros r x. unfold handleRenew. apply requireCA_moves. intros c. destruct (DeviceFrom x); [|moves_tac].
  apply moves_bind; [apply _..|apply decodeRequest_moves|intros [f|]]; [|moves_tac].
  destruct (decodeCSRPEM _); [|moves_tac].
  apply moves_bind; [apply _..|apply renewDevice_moves|intros [p|e]]; moves_tac.
Qed.

Lemma handleUnpairSelf_moves : hmoves handleUnpairSelf.
Proof.
  intros r x. unfold handleUnpairSelf. destruct (DeviceFrom x); [|moves_tac].
  apply moves_bind; [apply _..|apply store_moves, revoke_steps|intros [?|?]]; moves_tac.
Qed.

Lemma handleContainerLogs_moves keys s : hmoves (handleContainerLogs keys s).
Proof.
  intros r x. unfold handleContainerLogs. apply requireDocker_moves. intros c.
  destruct (sinceParam r); [|moves_tac].
  apply moves_bind; [apply _..|apply docker_moves, reads_steps; auto with reads|intros [?|?]];
    [moves_tac|apply writeDockerError_moves].
Qed.

Lemma streamRevoked_moves id : moves (streamRevoked id).
Proof.
  unfold streamRevoked. apply moves_bind; [apply _..|apply revoked_moves|intros [?|e]]; [moves_tac|].
  destruct (errors_is e _); moves_tac.
Qed.

(** *** Streams *)

Definition smoves (s s' : SseSt) : Prop := wmoves Rs Rd Rb (wld (ss_st s)) (wld (ss_st s')).
#[local] Instance smoves_preorder : PreOrder smoves.
Proof. split; [by intros s|]. intros a b c. unfold smoves. apply transitivity. Qed.

(** The frames of a stream touch the response only. *)
Definition keeps_world {A} (m : Comp SseSt A) : Prop := ∀ s, wld (ss_st (m s).2) = wld (ss_st s).
Lemma keeps_bind {A B} (m : Comp SseSt A) (f : A → Comp SseSt B) :
  keeps_world m → (∀ a, keeps_world (f a)) → keeps_world (m ≫= f).
Proof.
  intros Hm Hf s. unfold mbind, comp_bind. specialize (Hm s). destruct (m s) as [[a|e] s1]; [|done].
  rewrite (Hf a s1). exact Hm.
Qed.
Lemma keeps_wr {A} (m : Comp response A) : keeps_world (wr m).
Proof. intros s. unfold wr. by destruct (m _). Qed.
Lemma keeps_wrapping {A} ctx (m : Comp SseSt A) : keeps_world m → keeps_world (wrapping ctx m).
Proof. intros Hm s. specialize (Hm s). unfold wrapping. by destruct (m s) as [[a|e] s1]. Qed.
Lemma ensure_started_keeps : keeps_world ensure_started.
Proof.
  intros s. unfold ensure_started. destruct (started s); [done|].
  assert (keeps_world startLocked) as Hk; [|apply Hk]. unfold startLocked.
  repeat first [apply keeps_bind; [|intros _] | apply keeps_wr | apply keeps_wrapping]. by intros s'.
Qed.
Lemma frame_keeps c1 c2 p :
  keeps_world (ensure_started ≫= λ _, wrapping c1 (wr (rw_Write p)) ≫= λ _, wrapping c2 (wr flush_conn)).
Proof.
  apply keeps_bind; [apply ensure_started_keeps|intros _].
  apply keeps_bind; [|intros _]; apply keeps_wrapping, keeps_wr.
Qed.
Lemma event_keeps id name data : keeps_world (event id name data).
Proof. apply frame_keeps. Qed.
Lemma comment_keeps text : keeps_world (comment text).
Proof. apply frame_keeps. Qed.

Lemma smoves_world s s' : wld (ss_st s') = wld (ss_st s) → smoves s s'.
Proof. unfold smoves. by intros ->. Qed.
Lemma event_smoves id name data s : smoves s (event id name data s).2.
Proof. apply smoves_world, event_keeps. Qed.
Lemma doing_smoves (m : Comp St unit) s : moves m → smoves s (doing m s).
Proof. intros Hm. apply Hm. Qed.
Lemma terminalOnce_smoves msg s : smoves s (terminalOnce msg s).2.
Proof.
  unfold terminalOnce. destruct (once s); [done|].
  pose proof (event_smoves "" sseEventError (PError msg) (set_once s)) as He. by destruct (event _ _ _ _).
Qed.
Lemma terminalFrame_smoves msg s : smoves s (terminalFrame msg s).
Proof.
  unfold terminalFrame, writeTerminalEventError. destruct (once s); [done|].
  destruct (client_gone _); [done|].
  pose proof (event_smoves "" sseEventError (PError msg) (set_once s)) as He.
  destruct (event _ _ _ _) as [[?|e] s1]; [exact He|].
  destruct (isClientGone _ _); (etrans; [exact He|apply doing_smoves; moves_tac]).
Qed.

Lemma sides_smoves id beat frame s ks :
  keeps_world beat → (∀ s, smoves s (frame s)) → smoves s (sides id beat frame s ks).
Proof.
  intros Hb Hf. revert s. induction ks as [|k ks IH]; intros s; [done|]. cbn.
  etrans; [|apply IH]. clear IH. unfold side, run. destruct k, (ticker s); try done.
  - apply smoves_world. cbn. apply Hb.
  - pose proof (streamRevoked_moves id (ss_st s)) as Hr. destruct (streamRevoked id (ss_st s)) as [[[]|?] ?]; exact Hr.
  - apply (Hf s).
  - by destruct (ctx_done s).
Qed.
Lemma log_sides_smoves id s ks : smoves s (log_sides id s ks).
Proof. apply sides_smoves; [apply comment_keeps|]. intros s'. apply terminalOnce_smoves. Qed.
Lemma event_sides_smoves id s ks : smoves s (event_sides id s ks).
Proof. apply sides_smoves; [apply comment_keeps|]. intros s'. apply terminalFrame_smoves. Qed.

Lemma log_end_smoves id sc res s : smoves s (log_end id sc res s).
Proof.
  unfold log_end. destruct res as [?|e]; [done|].
  etrans; [apply (log_sides_smoves id s (sc_check sc))|]. destruct (negb _).
  - etrans; [apply (log_sides_smoves id _ (sc_respond sc))|]. apply doing_smoves, writeDockerError_moves.
  - destruct (isClientGone _ _); [done|]. etrans; [apply (log_sides_smoves id _ (sc_terminal sc))|].
    match goal with |- context [terminalOnce ?m ?x] => pose proof (terminalOnce_smoves m x) as Ht end.
    destruct (terminalOnce _ _) as [[[?|?]|] s1]; try exact Ht.
    destruct (isClientGone _ _); (etrans; [exact Ht|apply doing_smoves; moves_tac]).
Qed.

Lemma emit_line_smoves id l p : smoves p.1 (emit_line id l p).2.1.
Proof.
  destruct p as [s sc]. cbn. etrans; [apply (log_sides_smoves id s (match sc with ks :: _ => ks | [] => [] end))|].
  match goal with |- context [event ?a ?b ?c ?x] => pose proof (event_smoves a b c x) as He end.
  by destruct (event _ _ _ _).
Qed.

Lemma logStream_moves keys sc c d ref opts : moves (logStream keys sc c d ref opts).
Proof.
  intros st. unfold logStream, as_handler. cbn [snd]. unfold log_stream_run, StreamContainerLogs.
  set (s0 := MkSse st false false false false TWaiting).
  pose proof (reads_steps _ _ (open_log_stream_reads ref opts) (w_docker (wld st))) as Ho.
  assert (∀ res d' s1, smoves s0 s1 → Rd (w_docker (wld st)) d' →
    wmoves Rs Rd Rb (wld st) (wld (ss_st (log_sides (dev_ID d) (set_cancelled (log_end (dev_ID d) sc res
      (set_st s1 (MkSt (set_docker (wld (ss_st s1)) d') (rw (ss_st s1)) (entry (ss_st s1)))))) (sc_end sc))))) as Hend.
  { intros res d' s1 (H1' & _ & H3') Hd.
    set (s2 := set_st s1 _). assert (smoves s0 s2) as H2 by (repeat split; done).
    change (smoves s0 (log_sides (dev_ID d) (set_cancelled (log_end (dev_ID d) sc res s2)) (sc_end sc))).
    etrans; [exact H2|]. etrans; [apply (log_end_smoves (dev_ID d) sc res)|].
    apply (log_sides_smoves _ (set_cancelled _)). }
  destruct (open_log_stream ref opts (w_docker (wld st))) as [[[tty body]|e] w1]; cbn [snd] in Ho.
  - pose proof (demux_keeps (λ p, smoves s0 p.1) (emit_line (dev_ID d)) keys tty body (s0, sc_lines sc)) as Hk.
    destruct (demux _ _ _ _ _) as [res [s1 sc1]]. apply Hend; [|exact Ho]. apply Hk; [|reflexivity].
    intros l p _ Hp. cbn. etrans; [exact Hp|apply emit_line_smoves].
  - by apply Hend.
Qed.

Lemma event_loop_smoves id picks s : smoves s (event_loop id picks s).2.
Proof.
  revert s. induction picks as [|p picks IH]; intros s; [done|]. cbn [event_loop]. destruct p.
  - etrans; [|apply IH]. apply event_sides_smoves.
  - etrans; [|apply IH]. done.
  - apply terminalFrame_smoves.
  - destruct (ctx_done s); [done|apply IH].
  - pose proof (event_smoves "" sseEventHealth (PHealth e) s) as He.
    destruct (event _ _ _ _) as [[?|?] s1]; [|exact He]. etrans; [exact He|apply IH].
  - apply terminalFrame_smoves.
Qed.

Lemma handleEventStream_moves sc s : hmoves (handleEventStream sc s).
Proof.
  intros r x. unfold handleEventStream. apply requireDocker_moves. intros c.
  destruct (DeviceFrom x) as [d|]; [|moves_tac].
  destruct (es_attach sc); [|apply writeDockerError_moves].
  apply moves_bind; [apply _..|apply docker_moves, reads_steps; auto with reads|intros [states|e]];
    [|apply writeDockerError_moves].
  intros st. unfold as_handler, event_stream_run. cbn [snd].
  set (s0 := MkSse st false false false false TWaiting).
  pose proof (event_smoves "" sseEventSnapshot (PSnapshot states) s0) as He.
  destruct (event _ _ _ _) as [[?|?] s1]; [|exact He].
  pose proof (event_loop_smoves (dev_ID d) (es_picks sc) s1) as Hl. destruct (event_loop _ _ _) as [b s2].
  cbn [snd] in *. change (smoves s0 (event_sides (dev_ID d) (set_cancelled s2) (es_end sc))).
  etrans; [exact He|]. etrans; [exact Hl|]. apply (event_sides_smoves _ (set_cancelled s2)).
Qed.

Lemma handleStreamContainerLogs_moves s stream :
  (∀ c d ref opts, moves (stream c d ref opts)) → hmoves (handleStreamContainerLogs s stream).
Proof.
  intros Hs r x. unfold handleStreamContainerLogs. apply requireDocker_moves. intros c.
  destruct (sinceParam r) as [since|]; [|moves_tac]. destruct (DeviceFrom x) as [d|]; [|moves_tac].
  apply moves_bind; [apply _..| |intros []]; [|  |moves_tac..].
  - intros st. unfold acquireStream. pose proof (acquire_steps (streams (wld st)) (dev_ID d)) as Ha.
    destruct (Budget.acquire _ _). by repeat split.
  - intros st. unfold defer_release, releaseStream, with_world, modify.
    specialize (Hs c d (PathValue x "id") (MkLogOptions (tailParam r defaultStreamTail) since) st).
    destruct (stream _ _ _ _ st) as [res st1]. etrans; [exact Hs|].
    split; [|split]; [done|done|apply release_steps].
Qed.
End Handlers.

(** ** Routing *)

Section Routing.
Context `{EngineApi, TokenBucket, Crypto}.
Notation St := (St (H := _) (H0 := _)).
Notation world := (world (H := _) (H0 := _)).
Notation Handler := (Handler (H := _) (H0 := _)).

Lemma mux_find_in (m : mux) method path pat h vals :
  mux_find m method path = Some (pat, h, vals) → (pat, h) ∈ m.
Proof.
  induction m as [|[p h'] m IH]; cbn [mux_find]; [done|]. intros Hf.
  destruct (if match_method _ _ then _ else _); [injection Hf as -> -> _; by left|right; by apply IH].
Qed.

(** The log line of a request. *)
Definition served (r : Request) (route : string) (status : Z) : log_line :=
  LogLine_ LevelDebug "request served" [("method", rq_method r); ("route", route); ("status", pretty status)].

(** Where a request ends up: at one entry of the table, which runs under that
    entry's pattern and path values, or with an answer of the mux. *)
Definition matched (m : mux (H := _) (H0 := _)) (r : Request) : option (string * Handler * list (string * string)) :=
  if bool_decide (cleanPath (rq_path r) = rq_path r) then mux_find m (rq_method r) (rq_path r) else None.

Definition mux_answer (m : mux (H := _) (H0 := _)) (r : Request) : Comp St unit :=
  (mux_Handler m r).1 r emptyCtx.

Lemma matched_route (m : mux (H := _) (H0 := _)) r pat h vals : matched m r = Some (pat, h, vals) →
  (pat, h) ∈ m ∧ mux_Handler m r = (λ r c, h r (MkCtx (ctx_device c) (ctx_route c) vals), pat) ∧ pat ∈ map fst m.
Proof.
  unfold matched, mux_Handler. case_bool_decide as Hc; [|done]. intros Hf. cbn. rewrite Hf.
  pose proof (mux_find_in _ _ _ _ _ _ Hf) as Hin. split; [done|]. split; [done|].
  apply list_elem_of_In, in_map_iff. exists (pat, h). split; [done|]. by apply list_elem_of_In.
Qed.
End Routing.

Section Serve.
Context `{EngineApi, TokenBucket, Crypto}.
Notation St := (St (H := _) (H0 := _)).
Notation world := (world (H := _) (H0 := _)).
Notation Handler := (Handler (H := _) (H0 := _)).
Context (hash : string → string) (Version : string).
Context (keys : gmap string lineState → list string).
Context (stream : Client → Device → string → LogOptions → Comp St unit).
Context (handleEvents : Server → Handler).

Notation table s := (route_table hash Version keys stream handleEvents s).
Notation serve := (serve hash Version keys stream handleEvents).

(** What the recovery and logging layers add to a matched handler. *)
Definition finish (r : Request) (route : string) (x : result unit * St) : response * world :=
  match x with
  | (Ok _, st) => (rw st, set_log (wld st) (w_log (wld st) ++ [served r route (code_of (rw st))]))
  | (Err _, st) =>
      let st := (logAt LevelError "panic serving request" [("method", rq_method r); ("route", route)] ≫= λ _,
                 writeError StatusInternalServerError "internal error") st in
      (rw st.2, wld st.2)
  end.

Definition start (faults : list (option error)) (w : world) : St := MkSt w (new_response faults) None.

Lemma serve_matched s r fs w pat h vals : matched (table s) r = Some (pat, h, vals) →
  serve s r fs w = finish r pat (h r (MkCtx None (Some pat) vals) (start fs w)).
Proof.
  intros Hm. destruct (matched_route _ _ _ _ _ Hm) as (_ & Hh & Hin).
  unfold Routes.serve, routes, withRoute. rewrite Hh. cbn [snd].
  rewrite bool_decide_eq_true_2 by done. unfold withRecovery, withRequestLog, mux_ServeHTTP. rewrite Hh.
  cbn [fst]. unfold mbind, comp_bind, start. cbn [ctx_device ctx_route ctx_vals emptyCtx].
  destruct (h r _ _) as [[[]|e] st]; cbn [gets]; [done|].
  unfold finish, mbind, comp_bind. cbn [routeFrom ctx_route from_option default id].
  destruct (logAt _ _ _ st) as [[?|?] st1]; [|done]. by destruct (writeError _ _ st1).
Qed.

(** An answer of the mux itself. *)
Lemma serve_unmatched s r fs w : matched (table s) r = None →
  (∃ log, (serve s r fs w).2 = set_log w log) ∧
  code_of (serve s r fs w).1 ∈ [StatusTemporaryRedirect; StatusMethodNotAllowed; StatusNotFound].
Proof.
  unfold matched, Routes.serve, routes, withRoute, withRecovery, withRequestLog, mux_ServeHTTP, mux_Handler.
  case_bool_decide as Hc; cbn [negb].
  - intros ->. destruct (path_known _ _); cbn; destruct fs as [|[?|] ?]; cbn; (split; [by eexists|set_solver]).
  - intros _. cbn. split; [by eexists|set_solver].
Qed.

(** A footprint every entry of the table has, every request has. *)
Lemma finish_moves Rs Rd Rb `{!PreOrder Rs, !PreOrder Rd, !PreOrder Rb} r route w x :
  wmoves Rs Rd Rb w (wld x.2) → wmoves Rs Rd Rb w (finish r route x).2.
Proof.
  intros Hm. destruct x as [[?|e] st]; cbn [finish snd] in *; [exact Hm|].
  etrans; [exact Hm|]. pose proof (moves_bind Rs Rd Rb (logAt LevelError "panic serving request"
    [("method", rq_method r); ("route", route)]) (λ _, writeError StatusInternalServerError "internal error")) as Hb.
  apply Hb; [by intros ?|intros _]. apply moves_writeError; apply _.
Qed.

Lemma serve_moves Rs Rd Rb `{!PreOrder Rs, !PreOrder Rd, !PreOrder Rb} s r fs w :
  Forall (λ ph, hmoves Rs Rd Rb ph.2) (table s) → wmoves Rs Rd Rb w (serve s r fs w).2.
Proof.
  intros Ht. destruct (matched (table s) r) as [[[pat h] vals]|] eqn:Hm.
  - rewrite (serve_matched _ _ _ _ _ _ _ Hm). apply finish_moves; [apply _..|].
    destruct (matched_route _ _ _ _ _ Hm) as (Hin & _). rewrite Forall_forall in Ht. exact (Ht _ Hin r _ (start fs w)).
  - destruct (serve_unmatched s r fs w Hm) as [[l ->] _]. by repeat split.
Qed.

(** *** The kinds of routes *)

(** The policy operation of a lifecycle route. *)
Definition policy_op (lop : lifecycle_op) : Operation :=
  match lop with
  | LStart => OpStart | LRestart => OpRestart | LStop => OpStop | LKill => OpKill | LRemove => Policy.OpDelete
  end.
Definition lifecycle_handler (s : Server) (lop : lifecycle_op) : Handler :=
  handleLifecycle s (op_name lop) (lifecycle_method lop).

(** Its pattern. *)
Definition lifecycle_route (lop : lifecycle_op) : string :=
  match lop with
  | LStart => "POST /v1/containers/{id}/start" | LRestart => "POST /v1/containers/{id}/restart"
  | LStop => "POST /v1/containers/{id}/stop" | LKill => "POST /v1/containers/{id}/kill"
  | LRemove => "DELETE /v1/containers/{id}"
  end.

Inductive kind (s : Server) : string → Handler → Prop :=
| KStatus : kind s "GET /v1/status" (withGlobalUnauthLimit s (withIPLimit statusTier (statusLimit s) (handleStatus Version s)))
| KPair : kind s "POST /v1/pair" (withGlobalUnauthLimit s (withIPLimit pairTier (pairLimit s) (withPairAudit (handlePair hash s))))
| KIdentity pat op g : (op, g) ∈ [(opRenew, handleRenew s); (opUnpairSelf, handleUnpairSelf)] → kind s pat (identity s op g)
| KRead pat op g :
    g ∈ [handleListContainers s; handleInspectContainer s; handleListImages s; handleInspectImage s;
         handleListNetworks s; handleInspectNetwork s; handleListVolumes s; handleInspectVolume s;
         handleContainerLogs keys s; handleEvents s] →
    kind s pat (requireDevice (withDeviceLimit s (requireOp s op g)))
| KStream : kind s "GET /v1/containers/{id}/logs/stream" (logs s (handleStreamContainerLogs s stream))
| KMutate lop : kind s (lifecycle_route lop) (mutate s (policy_op lop) (lifecycle_handler s lop)).

Ltac at_index lem i := apply lem; apply (list_elem_of_lookup_2 _ i); reflexivity.

Lemma table_kinds s : Forall (λ ph, kind s ph.1 ph.2) (table s).
Proof.
  unfold route_table, read, logs.
  repeat apply Forall_cons_2; cbn [fst snd]; [..|apply Forall_nil_2].
  - exact (KStatus s).
  - exact (KPair s).
  - at_index KIdentity 0%nat.
  - at_index KIdentity 1%nat.
  - at_index KRead 0%nat.
  - at_index KRead 1%nat.
  - at_index KRead 2%nat.
  - at_index KRead 3%nat.
  - at_index KRead 4%nat.
  - at_index KRead 5%nat.
  - at_index KRead 6%nat.
  - at_index KRead 7%nat.
  - at_index KRead 8%nat.
  - exact (KStream s).
  - at_index KRead 9%nat.
  - exact (KMutate s LStart).
  - exact (KMutate s LRestart).
  - exact (KMutate s LStop).
  - exact (KMutate s LKill).
  - exact (KMutate s LRemove).
Qed.

Lemma matched_kind s r pat h vals : matched (table s) r = Some (pat, h, vals) → kind s pat h.
Proof.
  intros Hm. destruct (matched_route _ _ _ _ _ Hm) as [Hin _].
  exact (proj1 (Forall_forall _ _) (table_kinds s) _ Hin).
Qed.
End Serve.
