(* ===== verification/Requests.v ===== *)
(** * Requests: the footprint of each kind of route, and runs of the middleware

    The lemmas Answers.v composes: what the routes of the table, with the two
    streams of Sse.v plugged in, may change; what the guards and the audit
    middleware do with a request, branch by branch. *)
From Stdlib Require Import QArith Qround.
From S2P Require Import Prelude GoTime LogFraming Policy Refs RateLimit Streams EventHub Engine.
From S2P Require Import Dto DockerClient Store GoStrings Config Certs HttpCore HttpHandlers.
From S2P Require Import Sse Routes Effects.
Open Scope Z_scope.

Section Requests.
Context `{EngineApi, TokenBucket, Crypto}.
Notation St := (St (H := _) (H0 := _)).
Notation world := (world (H := _) (H0 := _)).
Notation Handler := (Handler (H := _) (H0 := _)).
Context (hash : string → string) (Version : string).
Context (keys : gmap string lineState → list string).
Context (lsc : log_schedule) (esc : event_schedule).

(** The agent's routes, with the two streams under their schedules. *)
Definition agent_table (s : Server) : mux (H := _) (H0 := _) :=
  route_table hash Version keys (logStream keys lsc) (handleEventStream esc) s.
Definition agent_serve (s : Server) (r : Request) (fs : list (option error)) (w : world) : response * world :=
  serve hash Version keys (logStream keys lsc) (handleEventStream esc) s r fs w.
Definition agent_kind (s : Server) : string → Handler → Prop :=
  kind hash Version keys (logStream keys lsc) (handleEventStream esc) s.

(** *** Footprints by kind *)

Section Footprint.
Context (Rs : db → db → Prop) (Rd : docker → docker → Prop).
Context (Rb : Budget.streamBudget → Budget.streamBudget → Prop).
Context `{!PreOrder Rs, !PreOrder Rd, !PreOrder Rb}.
Hypothesis reads_steps : ∀ A (m : Comp docker A), only_reads m → ∀ w, Rd w (m w).2.

Lemma reader_moves s g :
  g ∈ [handleListContainers s; handleInspectContainer s; handleListImages s; handleInspectImage s;
       handleListNetworks s; handleInspectNetwork s; handleListVolumes s; handleInspectVolume s;
       handleContainerLogs keys s; handleEventStream esc s] → hmoves Rs Rd Rb g.
Proof.
  assert (Hread : ∀ A name (m : Client → Comp docker A) p, (∀ c, only_reads (m c)) →
    moves Rs Rd Rb (handleRead s name m p)).
  { intros A name m p Hm. by apply handleRead_moves; try apply _. }
  rewrite !elem_of_cons. intros Hg. decompose [or] Hg; subst; clear Hg;
    try (intros r x; apply Hread; intros c; auto with reads).
  - by apply handleContainerLogs_moves; try apply _.
  - by apply handleEventStream_moves; try apply _.
  - match goal with Hn : _ ∈ [] |- _ => by apply not_elem_of_nil in Hn end.
Qed.
(** The kinds of routes, each from what its handler calls. *)
Section Kinds.
Hypothesis touch_steps : ∀ id now, steps Rs (TouchDevice id now).

Lemma guard_moves s g : hmoves Rs Rd Rb g → hmoves Rs Rd Rb (requireDevice (withDeviceLimit s g)).
Proof. intros Hg. apply requireDevice_moves; [apply _..|done|]. apply withDeviceLimit_moves; [apply _..|done]. Qed.

Lemma status_moves s : hmoves Rs Rd Rb
  (withGlobalUnauthLimit s (withIPLimit statusTier (statusLimit s) (handleStatus Version s))).
Proof.
  apply withGlobalUnauthLimit_moves, withIPLimit_moves; try apply _; [by apply elem_of_cons; left|].
  intros r c. unfold handleStatus. moves_tac.
Qed.

Lemma read_moves s op g :
  g ∈ [handleListContainers s; handleInspectContainer s; handleListImages s; handleInspectImage s;
       handleListNetworks s; handleInspectNetwork s; handleListVolumes s; handleInspectVolume s;
       handleContainerLogs keys s; handleEventStream esc s] →
  hmoves Rs Rd Rb (requireDevice (withDeviceLimit s (requireOp s op g))).
Proof. intros Hg. apply guard_moves, requireOp_moves; try apply _. by eapply reader_moves; try apply _. Qed.

Lemma stream_moves s :
  (∀ b id, Rb b (Budget.acquire b id).2) → (∀ b id, Rb b (Budget.release_body b id)) →
  hmoves Rs Rd Rb (logs s (handleStreamContainerLogs s (logStream keys lsc))).
Proof.
  intros Ha Hr. apply guard_moves, requireOp_moves; try apply _.
  apply handleStreamContainerLogs_moves; try apply _; try done.
  intros c d ref opts. by apply logStream_moves; try apply _.
Qed.

Hypothesis append_steps : ∀ e now, steps Rs (AppendAudit e now).

Lemma pair_moves s : (∀ c r code csr, moves Rs Rd Rb (pairDevice hash c r code csr)) → hmoves Rs Rd Rb
  (withGlobalUnauthLimit s (withIPLimit pairTier (pairLimit s) (withPairAudit (handlePair hash s)))).
Proof.
  intros Hp. apply withGlobalUnauthLimit_moves, withIPLimit_moves; try apply _; [by apply elem_of_cons; right; apply elem_of_cons; left|].
  apply audited_moves; try apply _; [done|]. apply handlePair_moves; try apply _. exact Hp.
Qed.

Lemma identity_moves s op g :
  (∀ id sn nb na now, steps Rs (RecordDeviceCert id sn nb na now)) →
  (∀ id sn now, steps Rs (SupersedePriorCerts id sn now)) → (∀ id now, steps Rs (RevokeDevice id now)) →
  (op, g) ∈ [(opRenew, handleRenew s); (opUnpairSelf, handleUnpairSelf)] → hmoves Rs Rd Rb (identity s op g).
Proof.
  intros Hrec Hsup Hrev Hin. apply guard_moves, audited_moves; try apply _; [done|].
  rewrite !elem_of_cons in Hin. destruct Hin as [[= -> ->]|[[= -> ->]|Hnil]].
  - by apply handleRenew_moves; try apply _.
  - by apply handleUnpairSelf_moves; try apply _.
  - by apply not_elem_of_nil in Hnil.
Qed.

Lemma mutate_moves s lop : (∀ op c ref w, Rd w (lifecycle_method op c ref w).2) →
  hmoves Rs Rd Rb (mutate s (policy_op lop) (lifecycle_handler s lop)).
Proof.
  intros Hl. apply guard_moves, withAudit_moves; try apply _; [done|]. apply requireOp_moves; try apply _.
  by apply handleLifecycle_moves; try apply _.
Qed.
End Kinds.
End Footprint.

(** *** What no request can undo

    [I] is an invariant of the database that survives every statement a request
    executes, and, if it is about a device, implies that the device exists; a
    request deletes no device but one it has just created. *)
Definition request_op (own : option string) (o : store_op) : Prop :=
  match o with
  | OpMint _ _ _ _ | OpPruneCodes _ | OpPruneAudit _ _ _ => False
  | OpDelete id => own ≠ Some id
  | _ => True
  end.

Section Keeps.
Context (I : db → Prop) (own : option string).
Hypothesis I_ops : ∀ o, request_op own o → kept_by hash I o.
Hypothesis I_own : ∀ id d, own = Some id → I d → is_Some (devices d !! id).
Notation Rs := (λ d d', I d → I d').
Notation always := (λ _ _, True).

#[local] Instance always_preorder A : PreOrder (λ _ _ : A, True).
Proof. by split. Qed.

Lemma steps_of_op {A} (m : Comp store A) o :
  request_op own o → run_op hash o = ignore m → steps Rs m.
Proof.
  intros Ho Hm s. pose proof (I_ops o Ho s) as Hk. unfold kept_by in Hk. rewrite Hm in Hk.
  unfold ignore, try, mbind, comp_bind in Hk. by destruct (m s).
Qed.

Ltac by_op o := apply (steps_of_op _ o); [done|reflexivity].

Lemma call_keeps {A} (m : Comp store A) o :
  request_op own o → run_op hash o = ignore m → moves Rs always always (callS m).
Proof. intros Ho Hm. apply moves_callS; [apply _..|]. by apply (steps_of_op m o). Qed.

Lemma orphaned_keeps {A B} id ctx (x : result A) (k : A → Comp St (result B)) :
  own ≠ Some id → (∀ a, moves Rs always always (k a)) → moves Rs always always (orphaned id ctx x k).
Proof.
  intros Hid Hk. unfold orphaned, deleteOrphanedDevice. destruct x; [apply Hk|].
  moves_tac. by apply (call_keeps _ (OpDelete id)).
Qed.

Lemma pairCreated_keeps c r code csr id : own ≠ Some id → moves Rs always always (pairCreated hash c r code csr id).
Proof.
  intros Hid. unfold pairCreated.
  apply moves_bind; [apply _..|by apply (call_keeps _ (OpRedeem code id (rq_now r)))|intros res].
  apply orphaned_keeps; [done|intros name].
  apply moves_bind; [apply _..|by apply (call_keeps _ (OpRename id name))|intros res'].
  apply orphaned_keeps; [done|intros _]. apply orphaned_keeps; [done|intros [[pem sn] na]].
  apply moves_bind; [apply _..|by apply (call_keeps _ (OpRecord id sn (rq_now r) na (rq_now r)))|intros res''].
  apply orphaned_keeps; [done|intros _]. moves_tac.
Qed.

(** [CreateDevice] gives back the device it inserted; on a taken ID it fails. *)
Lemma CreateDevice_run id name now s :
  (∃ e fs, CreateDevice id name now s = (Err e, MkStore (sdb s) fs)) ∨
  (∃ s', CreateDevice id name now s = (Ok (MkDevice id name now None None), s') ∧ devices (sdb s) !! id = None).
Proof.
  unfold CreateDevice, wrapping, mbind, comp_bind.
  match goal with |- context [sql ?f s] => destruct (sql_run f s) as [(e & fs & ->)|(fs & ->)] end; [eauto|].
  destruct (devices (sdb s) !! id); cbn; eauto.
Qed.

Lemma pairDevice_keeps c r code csr : moves Rs always always (pairDevice hash c r code csr).
Proof.
  intros s. unfold pairDevice, mbind, comp_bind.
  pose proof (call_keeps (CreateDevice (rq_uuid r) pendingDeviceName (rq_now r))
    (OpCreate (rq_uuid r) pendingDeviceName (rq_now r)) Logic.I eq_refl s) as Hc. unfold callS in *.
  destruct (CreateDevice_run (rq_uuid r) pendingDeviceName (rq_now r) (w_store (wld s))) as
    [(e & fs & Hr)|(s' & Hr & Hn)]; rewrite Hr in *; [exact Hc|]. cbn [dev_ID].
  destruct (decide (own = Some (rq_uuid r))) as [Ho|Ho].
  - split; [|done]. intros HI. destruct (I_own _ _ Ho HI) as [row Hrow]. congruence.
  - etrans; [exact Hc|by apply pairCreated_keeps].
Qed.

Lemma kind_keeps s pat h : agent_kind s pat h → hmoves Rs always always h.
Proof.
  assert (Htouch : ∀ id now, steps (λ d d', I d → I d') (TouchDevice id now))
    by (intros; by apply (steps_of_op _ (OpTouch id now))).
  assert (Happ : ∀ e now, steps (λ d d', I d → I d') (AppendAudit e now))
    by (intros; by apply (steps_of_op _ (OpAppend e now))).
  destruct 1.
  - apply status_moves; apply _.
  - apply pair_moves; try apply _; [done|]. apply pairDevice_keeps.
  - apply identity_moves; try apply _; try done.
    + intros d serial nbf naf now. by apply (steps_of_op _ (OpRecord d serial nbf naf now)).
    + intros d serial now. by apply (steps_of_op _ (OpSupersede d serial now)).
    + intros id now. by apply (steps_of_op _ (OpRevoke id now)).
  - by eapply read_moves; try apply _.
  - by eapply stream_moves; try apply _.
  - by eapply mutate_moves; try apply _.
Qed.

Lemma serve_keeps s r fs w : I (sdb (w_store w)) → I (sdb (w_store (agent_serve s r fs w).2)).
Proof.
  apply (serve_moves hash Version keys (logStream keys lsc) (handleEventStream esc) Rs always always).
  apply Forall_forall. intros ph Hin. apply (kind_keeps s ph.1).
  exact (proj1 (Forall_forall _ _) (table_kinds _ _ _ _ _ s) _ Hin).
Qed.
End Keeps.
End Requests.

(** ** Runs of the middleware *)

(** What a refusal may change: the log, and which statements are yet to fail. *)
Definition quiet `{EngineApi, TokenBucket} (w w' : world) : Prop :=
  ∃ fs l, w' = set_log (set_store w (MkStore (sdb (w_store w)) fs)) l.

(** A JSON answer, headers included. *)
Definition json_rw (code : Z) (p : payload) (w : response) : response :=
  (rw_Write p (rw_WriteHeader code (rw_set "X-Content-Type-Options" "nosniff"
     (rw_set "Cache-Control" "no-store" (rw_set "Content-Type" "application/json" w))))).2.

Section Runs.
Context `{EngineApi, TokenBucket, Crypto}.
Notation St := (St (H := _) (H0 := _)).
Notation world := (world (H := _) (H0 := _)).
Notation Handler := (Handler (H := _) (H0 := _)).

Lemma quiet_log (w : world) l : quiet w (set_log w l).
Proof. exists (faults (w_store w)), l. by destruct w as [[? ?]]. Qed.
#[export] Instance quiet_preorder : PreOrder (quiet (H := _) (H0 := _)).
Proof.
  split; [intros w; exists (faults (w_store w)), (w_log w); by destruct w as [[? ?]]|].
  intros a b c (fs & l & ->) (fs' & l' & ->). exists fs', l'. by destruct a.
Qed.

Lemma code_of_json code p w : rs_status w = None → code_of (json_rw code p w) = code.
Proof.
  destruct w as [pend st bd und flt]. cbn. intros ->. unfold json_rw, rw_Write, conn. cbn.
  by destruct flt as [|[e|] ?].
Qed.

Lemma writeJSON_run code p (st : St) :
  ∃ l, writeJSON code p st =
    (Ok tt, MkSt (set_log (wld st) (w_log (wld st) ++ l)) (json_rw code p (rw st)) (entry st)).
Proof.
  destruct st as [w [pend status bd und flt] en]. unfold json_rw.
  unfold writeJSON, with_rw, modify, callW, mbind, comp_bind. cbn [wld rw entry].
  destruct (rw_Write p _) as [[[]|e] w']; [exists []; rewrite app_nil_r; by destruct w|by eexists].
Qed.
Lemma writeError_run code msg (st : St) :
  ∃ l, writeError code msg st =
    (Ok tt, MkSt (set_log (wld st) (w_log (wld st) ++ l)) (json_rw code (PError msg) (rw st)) (entry st)).
Proof. apply writeJSON_run. Qed.

(** The device a request speaks for, if any: the one its first client
    certificate resolves to, unless revoked. *)
Definition caller (r : Request) (w : world) : option Device :=
  match rq_tls r with
  | Some (sn :: _) =>
      match (DeviceByCertSerial (Text16 sn) (w_store w)).1 with
      | Ok d => if IsRevoked d then None else Some d
      | Err _ => None
      end
  | _ => None
  end.

(** A statement that only reads. *)
Lemma query_quiet {A} (m : Comp store A) s : steps eq m → ∃ fs, m s = ((m s).1, MkStore (sdb s) fs).
Proof. intros Hm. specialize (Hm s). exists (faults (m s).2). rewrite Hm. by destruct (m s) as [? [? ?]]. Qed.

Lemma DeviceByCertSerial_query serial : steps eq (DeviceByCertSerial serial).
Proof. unfold DeviceByCertSerial. apply steps_no_rows, steps_query. apply _. Qed.

Lemma requireDevice_refused (h : Handler) r c (st : St) : caller r (wld st) = None →
  ∃ w1, quiet (wld st) w1 ∧
    requireDevice h r c st = (Ok tt, MkSt w1 (json_rw StatusUnauthorized (PError msgClientCertRequired) (rw st)) (entry st)).
Proof.
  assert (Hrefuse : ∀ st', quiet (wld st) (wld st') → rw st' = rw st → entry st' = entry st → ∃ w1, quiet (wld st) w1 ∧
    writeError StatusUnauthorized msgClientCertRequired st' =
      (Ok tt, MkSt w1 (json_rw StatusUnauthorized (PError msgClientCertRequired) (rw st)) (entry st))).
  { intros st' Hq <- <-. destruct (writeError_run StatusUnauthorized msgClientCertRequired st') as [l ->].
    eexists. split; [|reflexivity]. etrans; [exact Hq|apply quiet_log]. }
  unfold caller, requireDevice. destruct (rq_tls r) as [[|sn l]|]; [intros _; by apply Hrefuse| |intros _; by apply Hrefuse].
  destruct (query_quiet _ (w_store (wld st)) (DeviceByCertSerial_query (Text16 sn))) as [fs Hs].
  unfold mbind, comp_bind, callS. rewrite Hs. cbn [fst].
  assert (Hq : ∀ l, quiet (wld st) (set_log (set_store (wld st) (MkStore (sdb (w_store (wld st))) fs)) l))
    by (intros l'; by exists fs, l').
  destruct ((DeviceByCertSerial _ _).1) as [d|e].
  - destruct (IsRevoked d); [|done]. intros _. exact (Hrefuse (MkSt _ _ _) (Hq _) eq_refl eq_refl).
  - intros _. destruct (errors_is e _); exact (Hrefuse (MkSt _ _ _) (Hq _) eq_refl eq_refl).
Qed.

(** A touch changes the time the device was last seen, and nothing else. *)
Definition touched (id : string) (d d' : db) : Prop :=
  ∃ f, d' = set_devices d (alter f id (devices d)) ∧
    ∀ x, dr_name (f x) = dr_name x ∧ dr_paired_at (f x) = dr_paired_at x ∧ dr_revoked_at (f x) = dr_revoked_at x.

Lemma TouchDevice_run id now s :
  sdb (TouchDevice id now s).2 = sdb s ∨ touched id (sdb s) (sdb (TouchDevice id now s).2).
Proof.
  unfold TouchDevice, wrapping.
  match goal with |- context [exec ?f s] => destruct (exec_run f s) as [(e & fs & ->)|(fs & ->)] end; [by left|].
  right. eexists. split; [reflexivity|]. intros x. cbn. by case_match.
Qed.

(** What has happened before the handler of an authenticated request runs. *)
Record admitted (dev : Device) (w w1 : world) : Prop := {
  adm_db : sdb (w_store w1) = sdb (w_store w) ∨ touched (dev_ID dev) (sdb (w_store w)) (sdb (w_store w1));
  adm_faults : faults (w_store w) = [] → faults (w_store w1) = [];
  adm_docker : w_docker w1 = w_docker w;
  adm_streams : streams w1 = streams w;
  adm_limits : deviceLimits w1 = deviceLimits w }.

Lemma callS_faults {A} (f : db → result A * db) s : faults s = [] → faults (sql f s).2 = [].
Proof. intros Hf. by rewrite (sql_ok f s Hf). Qed.

Lemma requireDevice_admits (h : Handler) r c (st : St) dev : caller r (wld st) = Some dev →
  ∃ w1, admitted dev (wld st) w1 ∧
    requireDevice h r c st = h r (MkCtx (Some dev) (ctx_route c) (ctx_vals c)) (MkSt w1 (rw st) (entry st)).
Proof.
  unfold caller, requireDevice. destruct (rq_tls r) as [[|sn l]|]; [done| |done].
  unfold mbind, comp_bind, callS.
  assert (Hf0 : faults (w_store (wld st)) = [] → faults (DeviceByCertSerial (Text16 sn) (w_store (wld st))).2 = []).
  { intros Hf. unfold DeviceByCertSerial, no_rows, query. rewrite (sql_ok _ _ Hf). by repeat case_match. }
  pose proof (DeviceByCertSerial_query (Text16 sn) (w_store (wld st))) as Hq.
  destruct (DeviceByCertSerial _ _) as [[d|e] s1]; cbn [fst snd] in *; [|done].
  destruct (IsRevoked d); [done|]. intros [= ->]. cbn [w_store set_store wld].
  pose proof (TouchDevice_run (dev_ID dev) (rq_now r) s1) as Ht. rewrite <- Hq in Ht.
  assert (Hf1 : faults s1 = [] → faults (TouchDevice (dev_ID dev) (rq_now r) s1).2 = []).
  { intros Hf. unfold TouchDevice, wrapping, exec. rewrite (sql_ok _ _ Hf). by repeat case_match. }
  destruct (TouchDevice _ _ s1) as [[u|e] s2]; cbn [fst snd] in *; eexists; (split; [|reflexivity]);
    split; cbn; try done; auto.
Qed.

(** The per-device limiter's answer. *)
Definition device_allowed (r : Request) (dev : Device) (w : world) : bool :=
  (Allow (deviceLimits w) (dev_ID dev) (rq_now r)).1.1.

Definition throttled_rw (limit : Q) (w : response) : response :=
  json_rw StatusTooManyRequests (PError msgRateLimited)
    (rw_set headerRetryAfter (pretty (Z.max 1 (Qceiling (/ limit)))) w).

Lemma tooManyRequests_run limit (st : St) :
  ∃ l, tooManyRequests limit st = (Ok tt, MkSt (set_log (wld st) l) (throttled_rw limit (rw st)) (entry st)).
Proof.
  unfold tooManyRequests, throttled_rw.
  replace (Z.max 1 (Qceiling (/ limit))) with (if Qceiling (/ limit) <? 1 then 1 else Qceiling (/ limit))
    by (destruct (Z.ltb_spec (Qceiling (/ limit)) 1); lia).
  generalize (if Qceiling (/ limit) <? 1 then 1 else Qceiling (/ limit)). intros n.
  unfold mbind, comp_bind, with_rw, modify.
  match goal with |- context [writeError ?a ?b ?x] => destruct (writeError_run a b x) as [l Hl] end.
  eexists. exact Hl.
Qed.

Lemma withDeviceLimit_run s (h : Handler) r c (st : St) dev : ctx_device c = Some dev →
  ∃ reg, reg = (Allow (deviceLimits (wld st)) (dev_ID dev) (rq_now r)).2 ∧
  if device_allowed r dev (wld st)
  then withDeviceLimit s h r c st = h r c (MkSt (set_deviceLimits (wld st) reg) (rw st) (entry st))
  else ∃ l, withDeviceLimit s h r c st =
    (Ok tt, MkSt (set_log (set_deviceLimits (wld st) reg) l) (throttled_rw (deviceLimit s) (rw st)) (entry st)).
Proof.
  intros Hd. unfold withDeviceLimit, DeviceFrom, device_allowed. rewrite Hd.
  unfold mbind, comp_bind, takeKey. destruct (Allow _ _ _) as [[a k] reg]. exists reg. split; [done|].
  destruct a; cbn [negb fst]; [done|]. unfold logAt, with_world, modify.
  match goal with |- context [tooManyRequests ?a ?x] => destruct (tooManyRequests_run a x) as [l Hl] end.
  exists l. rewrite Hl. reflexivity.
Qed.

(** Both guards at once. *)
Lemma guarded_run s (h : Handler) r c (st : St) dev : caller r (wld st) = Some dev →
  ∃ w1, admitted dev (wld st) w1 ∧
  let reg := (Allow (deviceLimits (wld st)) (dev_ID dev) (rq_now r)).2 in
  if device_allowed r dev (wld st)
  then requireDevice (withDeviceLimit s h) r c st =
         h r (MkCtx (Some dev) (ctx_route c) (ctx_vals c)) (MkSt (set_deviceLimits w1 reg) (rw st) (entry st))
  else ∃ l, requireDevice (withDeviceLimit s h) r c st =
         (Ok tt, MkSt (set_log (set_deviceLimits w1 reg) l) (throttled_rw (deviceLimit s) (rw st)) (entry st)).
Proof.
  intros Hc. destruct (requireDevice_admits (withDeviceLimit s h) r c st dev Hc) as (w1 & Ha & Hr).
  exists w1. split; [done|]. rewrite Hr.
  destruct (withDeviceLimit_run s h r (MkCtx (Some dev) (ctx_route c) (ctx_vals c)) (MkSt w1 (rw st) (entry st)) dev eq_refl)
    as (reg & Hreg & Hd).
  unfold device_allowed in *. cbn [wld] in *. rewrite (adm_limits _ _ _ Ha) in *. subst reg.
  destruct (Allow _ _ _).1.1; exact Hd.
Qed.
(** *** The audit trail *)

(** The row [recordAudit] writes. *)
Definition audit_row_of (r : Request) (c : Ctx) (e : auditEntry) (d : db) : audit_row :=
  MkAuditRow (audit_seq d + 1) (Unix (rq_now r))
    (Some (match ctx_device c with Some dev => dev_ID dev | None => ent_deviceID e end))
    (operation e) (Some (target e)) (outcome e) (Some (detail e)).
Definition with_row (row : audit_row) (d : db) : db :=
  MkDb (devices d) (device_certs d) (pairing_codes d) (audit d ++ [row]) (audit_seq d + 1).

(** The complaint in the log of a row that could not be written. *)
Definition unrecorded : level * string := (LevelError, "append audit entry").
Definition headline (l : log_line) : level * string := (ll_level l, ll_msg l).
Record recorded (r : Request) (c : Ctx) (e : auditEntry) (w w' : world) : Prop := {
  rec_docker : w_docker w' = w_docker w;
  rec_streams : streams w' = streams w;
  rec_db : sdb (w_store w') = with_row (audit_row_of r c e (sdb (w_store w))) (sdb (w_store w)) ∨
           sdb (w_store w') = sdb (w_store w) ∧ faults (w_store w) ≠ [] ∧ unrecorded ∈ map headline (w_log w');
  rec_log : ∃ l, w_log w' = w_log w ++ l }.

Lemma recordAudit_run r c e (st : St) :
  ∃ w', recordAudit r c e st = (Ok tt, MkSt w' (rw st) (entry st)) ∧ recorded r c e (wld st) w'.
Proof.
  unfold recordAudit, mbind, comp_bind, callS, AppendAudit, wrapping.
  match goal with |- context [exec ?f ?s] => destruct (exec_run f s) as [(x & fs & Hx)|(fs & Hx)] end.
  - assert (faults (w_store (wld st)) ≠ []) as Hf.
    { intros Hf. unfold exec in Hx. rewrite (sql_ok _ _ Hf) in Hx. by repeat case_match. }
    rewrite Hx. eexists. split; [reflexivity|]. split; [done|done|right|by eexists]. split; [done|]. split; [done|].
    cbn. rewrite map_app. apply elem_of_app. right. apply list_elem_of_here.
  - rewrite Hx. eexists. split; [reflexivity|]. split; [done|done|by left|]. exists []. by rewrite app_nil_r.
Qed.

Lemma audited_run e0 (h : Handler) r c (st st1 : St) :
  h r c (MkSt (wld st) (rw st) (Some e0)) = (Ok tt, st1) →
  ∃ w', audited e0 h r c st = (Ok tt, MkSt w' (rw st1) (entry st1)) ∧
        recorded r c (default e0 (entry st1)) (wld st1) w'.
Proof.
  intros Hh. unfold audited, mbind, comp_bind, modify. rewrite Hh. apply recordAudit_run.
Qed.

(** *** Handlers *)

Lemma handleUnpairSelf_run r c (st : St) dev : ctx_device c = Some dev → rs_status (rw st) = None →
  ∃ st1, handleUnpairSelf r c st = (Ok tt, st1) ∧
    (code_of (rw st1) = StatusInternalServerError ∨
     code_of (rw st1) = StatusNoContent ∧
     RevokeDevice (dev_ID dev) (rq_now r) (w_store (wld st)) = (Ok tt, w_store (wld st1))).
Proof.
  intros Hd Hs. unfold handleUnpairSelf, DeviceFrom. rewrite Hd. unfold mbind, comp_bind, callS.
  destruct (RevokeDevice _ _ _) as [[[]|e] s1].
  - eexists. split; [reflexivity|]. right. split; [|done]. unfold code_of, rw_WriteHeader. cbn. by rewrite Hs.
  - cbn. match goal with |- context [writeError ?a ?b ?x] => destruct (writeError_run a b x) as [l Hl] end.
    rewrite Hl. eexists. split; [reflexivity|]. left. by apply code_of_json.
Qed.
(** *** What an audited lifecycle request answers and records *)

(** The status codes of the lifecycle routes, each with the outcome its audit
    row carries. *)
Definition outcome_codes : list (Z * string) :=
  [ (StatusNoContent, OutcomeSuccess); (StatusForbidden, OutcomeDeniedPolicy);
    (StatusForbidden, OutcomeDeniedSelf); (StatusForbidden, OutcomeDeniedProtected);
    (StatusBadRequest, OutcomeInvalid); (StatusNotFound, OutcomeNotFound);
    (StatusServiceUnavailable, OutcomeUnavailable); (StatusConflict, OutcomeConflict);
    (StatusBadGateway, OutcomeEngineError) ].

(** Without a Docker client the policy is still applied, and past it the
    handler answers for the client without touching the entry in flight. *)
Definition undocked_codes : list (Z * string) :=
  [ (StatusForbidden, OutcomeDeniedPolicy); (StatusBadGateway, OutcomeSuccess) ].

(** A handler that has answered, the entry in flight saying how. *)
Record answered (tbl : list (Z * string)) (e : auditEntry) (st : St) (x : result unit * St) : Prop := {
  an_ok : x.1 = Ok tt;
  an_store : w_store (wld x.2) = w_store (wld st);
  an_entry : ∃ e', entry x.2 = Some e' ∧ operation e' = operation e ∧ target e' = target e ∧
    ent_deviceID e' = ent_deviceID e ∧ (code_of (rw x.2), outcome e') ∈ tbl }.

Lemma refusal_answered tbl e (st : St) o d code msg :
  entry st = Some e → rs_status (rw st) = None → (code, o) ∈ tbl →
  answered tbl e st ((setAuditOutcome o d ≫= λ _, writeError code msg) st).
Proof.
  intros He Hs Hin. unfold mbind, comp_bind, setAuditOutcome, modify. rewrite He.
  match goal with |- context [writeError ?a ?b ?x] => destruct (writeError_run a b x) as [l Hl] end. rewrite Hl.
  split; [done|done|]. eexists. split; [reflexivity|]. cbn [rw snd operation target outcome ent_deviceID].
  rewrite code_of_json by done. done.
Qed.

Lemma nocontent_answered e (st : St) :
  entry st = Some e → rs_status (rw st) = None → outcome e = OutcomeSuccess →
  answered outcome_codes e st (with_rw (rw_WriteHeader StatusNoContent) st).
Proof.
  intros He Hs Ho. split; [done|done|]. exists e. cbn. repeat (split; [done|]). rewrite Ho.
  unfold code_of, rw_WriteHeader. rewrite Hs. cbn. by left.
Qed.

Ltac in_table := apply (bool_decide_unpack _); vm_compute; exact Logic.I.

Lemma writeDockerError_answered op err e (st : St) :
  entry st = Some e → rs_status (rw st) = None → outcome e = OutcomeSuccess →
  answered outcome_codes e st (writeDockerError op err st).
Proof.
  intros He Hs Ho. unfold writeDockerError.
  do 2 (destruct (errors_is err _); [apply refusal_answered; [done|done|in_table]|]).
  destruct (errors_is err ErrNotModified); [by apply nocontent_answered|].
  do 4 (destruct (errors_is err _); [apply refusal_answered; [done|done|in_table]|]).
  unfold mbind, comp_bind, setAuditOutcome, modify, logAt, with_world, modify. rewrite He.
  match goal with |- context [writeError ?a ?b ?x] => destruct (writeError_run a b x) as [l Hl] end. rewrite Hl.
  split; [done|done|]. eexists. split; [reflexivity|]. cbn [rw snd operation target outcome ent_deviceID].
  rewrite code_of_json by done. repeat (split; [done|]). in_table.
Qed.

Lemma lifecycle_answered s k lop r c e (st : St) :
  dc s = Some k → entry st = Some e → rs_status (rw st) = None → outcome e = OutcomeSuccess →
  answered outcome_codes e st (lifecycle_handler s lop r c st).
Proof.
  intros Hk He Hs Ho. unfold lifecycle_handler, handleLifecycle, requireDocker. rewrite Hk.
  unfold mbind at 1, comp_bind at 1, callD. destruct (lifecycle_method lop k _ _) as [[u|err] d'].
  - set (st1 := MkSt _ _ _). change (answered outcome_codes e st ((setAuditOutcome OutcomeSuccess "" ≫= λ _, with_rw (rw_WriteHeader StatusNoContent)) st1)).
    unfold mbind, comp_bind, setAuditOutcome, modify. subst st1. cbn [entry wld rw]. rewrite He.
    split; [done|done|]. eexists. split; [reflexivity|]. cbn. repeat (split; [done|]).
    unfold code_of, rw_WriteHeader. rewrite Hs. cbn. by left.
  - destruct (writeDockerError_answered (op_name lop) err e (MkSt (set_docker (wld st) d') (rw st) (entry st)) He Hs Ho)
      as [H1' H2' H3']. by split.
Qed.

Lemma undocked_answered s lop r c e (st : St) :
  dc s = None → entry st = Some e → rs_status (rw st) = None → outcome e = OutcomeSuccess →
  answered undocked_codes e st (lifecycle_handler s lop r c st) ∧
  w_docker (wld (lifecycle_handler s lop r c st).2) = w_docker (wld st) ∧
  code_of (rw (lifecycle_handler s lop r c st).2) = StatusBadGateway.
Proof.
  intros Hk He Hs Ho. unfold lifecycle_handler, handleLifecycle, requireDocker. rewrite Hk.
  unfold mbind, comp_bind, logAt, with_world, modify. cbn [wld rw entry].
  match goal with |- context [writeError ?a ?b ?x] => destruct (writeError_run a b x) as [l Hl] end. rewrite Hl.
  cbn [rw snd wld entry w_docker set_log]. rewrite code_of_json by done. split; [|done].
  split; [done|done|]. exists e. cbn [rw snd entry]. rewrite code_of_json by done. repeat (split; [done|]).
  rewrite Ho. in_table.
Qed.

Lemma policy_answered s op (h : Handler) r c e (st : St) tbl :
  Allows (PolicyMode (cfg s)) op = false → entry st = Some e → rs_status (rw st) = None →
  (StatusForbidden, OutcomeDeniedPolicy) ∈ tbl →
  answered tbl e st (requireOp s op h r c st) ∧ w_docker (wld (requireOp s op h r c st).2) = w_docker (wld st) ∧
  code_of (rw (requireOp s op h r c st).2) = StatusForbidden ∧
  ∃ e', entry (requireOp s op h r c st).2 = Some e' ∧ outcome e' = OutcomeDeniedPolicy.
Proof.
  intros Hp He Hs Hin. unfold requireOp. rewrite Hp. cbn [negb].
  unfold mbind, comp_bind, setAuditOutcome, logAt, with_world, modify. cbn [wld rw entry]. rewrite He.
  match goal with |- context [writeError ?a ?b ?x] => destruct (writeError_run a b x) as [l Hl] end. rewrite Hl.
  cbn [rw snd wld entry w_docker set_log]. rewrite code_of_json by done.
  split; [split; [done|done|]|by eauto]. eexists. split; [reflexivity|]. cbn [rw snd operation target outcome ent_deviceID].
  rewrite code_of_json by done. by repeat (split; [done|]).
Qed.
(** *** Pairing *)

(** The store's methods on a store that does not fail. *)
Lemma Create_run id name now d : CreateDevice id name now (MkStore d []) =
  match devices d !! id with
  | Some _ => (Err (wrap ("create device " +:+ id) errUnique), MkStore d [])
  | None => (Ok (MkDevice id name now None None),
             MkStore (set_devices d (<[id := MkDeviceRow name (Unix now) None None]> (devices d))) [])
  end.
Proof. unfold CreateDevice, wrapping, sql, mbind, comp_bind. cbn. by destruct (devices d !! id). Qed.

Lemma Redeem_run hash code id now d : RedeemPairingCode hash code id now (MkStore d []) =
  match pairing_codes d !! hash code with
  | Some row =>
      if bool_decide (co_used_at row = None) && (Unix now <? co_expires_at row)
      then (Ok (co_device_name row),
            MkStore (set_codes d (<[hash code := MkCodeRow (co_device_name row) (co_created_at row) (co_expires_at row)
                                     (Some (Unix now)) (Some id)]> (pairing_codes d))) [])
      else (Err (Sentinel ErrPairingCodeInvalid), MkStore d [])
  | None => (Err (Sentinel ErrPairingCodeInvalid), MkStore d [])
  end.
Proof.
  unfold RedeemPairingCode, no_rows, sql. cbn. destruct (pairing_codes d !! hash code); [|done]. by destruct (_ && _).
Qed.

Lemma Rename_run id name d row : devices d !! id = Some row → RenameDevice id name (MkStore d []) =
  (Ok tt, MkStore (set_devices d (<[id := MkDeviceRow name (dr_paired_at row) (dr_last_seen_at row)
                                         (dr_revoked_at row)]> (devices d))) []).
Proof. intros Hr. unfold RenameDevice, wrapping, exec, sql, mbind, comp_bind. cbn. by rewrite Hr. Qed.

Lemma Delete_run id d : DeleteDevice id (MkStore d []) =
  (Ok tt, MkStore (set_certs (set_devices d (delete id (devices d)))
                     (filter (λ sc, cr_device_id sc.2 ≠ id) (device_certs d))) []).
Proof. done. Qed.

Lemma Record_run id sn nb na now d row : devices d !! id = Some row → RecordDeviceCert id sn nb na now (MkStore d []) =
  match device_certs d !! sn with
  | Some _ => (Err (wrap ("record certificate " +:+ sn +:+ " for device " +:+ id) errUnique), MkStore d [])
  | None => (Ok tt, MkStore (set_certs d (<[sn := MkCertRow id (Unix nb) (Unix na) (Unix now) None]> (device_certs d))) [])
  end.
Proof. intros Hr. unfold RecordDeviceCert, wrapping, sql. cbn. destruct (device_certs d !! sn); [done|]. by rewrite Hr. Qed.

(** How pairing may leave the database [d]: a new device, active, under the
    name the code was minted for, with its certificate, the code spent on it; or
    the devices and certificates as they were. *)
Record paired (hash : string → string) (r : Request) (code : string) (c : CA) (csr : string)
    (p : pairResponse) (d d' : db) : Prop := {
  pd_id : pr_DeviceID p = rq_uuid r;
  pd_fresh : devices d !! rq_uuid r = None;
  pd_code : ∃ row, pairing_codes d !! hash code = Some row ∧ co_used_at row = None ∧ Unix (rq_now r) < co_expires_at row ∧
    pairing_codes d' = <[hash code := MkCodeRow (co_device_name row) (co_created_at row) (co_expires_at row)
                           (Some (Unix (rq_now r))) (Some (rq_uuid r))]> (pairing_codes d) ∧
    devices d' = <[rq_uuid r := MkDeviceRow (co_device_name row) (Unix (rq_now r)) None None]> (devices d);
  pd_cert : ∃ na sn, IssueDeviceCert c csr (rq_uuid r) (rq_now r) (rq_rand r) = Ok (pr_CertificatePEM p, sn, na) ∧
    device_certs d !! sn = None ∧
    device_certs d' = <[sn := MkCertRow (rq_uuid r) (Unix (rq_now r)) (Unix na) (Unix (rq_now r)) None]> (device_certs d) }.

Definition rolled_back (d d' : db) : Prop := devices d' = devices d ∧ (referential d → device_certs d' = device_certs d).

(** A statement that fails leaves the database alone; one that does not acts as
    on a store that never fails. *)
Definition single {A} (m : Comp store A) : Prop := ∀ s,
  (∃ e fs, m s = (Err e, MkStore (sdb s) fs) ∧ faults s ≠ []) ∨
  (∃ fs, m s = ((m (MkStore (sdb s) [])).1, MkStore (sdb (m (MkStore (sdb s) [])).2) fs) ∧ (faults s = [] → fs = [])).

Lemma single_sql {A} (f : db → result A * db) : single (sql f).
Proof.
  intros s. unfold sql. cbn. destruct (faults s) as [|[e|] fs]; [right|left; by eauto|right];
    destruct (f (sdb s)); by eexists.
Qed.
Lemma single_wrapping {A} ctx (m : Comp store A) : single m → single (wrapping ctx m).
Proof.
  intros Hm s. unfold wrapping. destruct (Hm s) as [(e & fs & -> & ?)|(fs & -> & ?)]; [left; by eauto|right].
  exists fs. split; [|done]. by destruct (m (MkStore (sdb s) [])) as [[?|?] [? ?]].
Qed.
Lemma single_no_rows {A} e ctx (m : Comp store A) : single m → single (no_rows e ctx m).
Proof.
  intros Hm s. unfold no_rows. destruct (Hm s) as [(e' & fs & -> & ?)|(fs & -> & ?)]; [left; by eauto|right].
  exists fs. split; [|done]. by destruct (m (MkStore (sdb s) [])) as [[?|?] [? ?]].
Qed.
Lemma single_then {A B} (m : Comp store A) (f : A → result B) :
  single m → single (m ≫= λ a s, (f a, s)).
Proof.
  intros Hm s. unfold mbind, comp_bind. destruct (Hm s) as [(e' & fs & -> & ?)|(fs & -> & ?)]; [left; by eauto|right].
  exists fs. split; [|done]. by destruct (m (MkStore (sdb s) [])) as [[?|?] [? ?]].
Qed.

Lemma single_create id name now : single (CreateDevice id name now).
Proof. exact (single_then _ (λ _, Ok _) (single_wrapping _ _ (single_sql _))). Qed.
Lemma single_redeem hash code id now : single (RedeemPairingCode hash code id now).
Proof. apply single_no_rows, single_sql. Qed.
Lemma single_exec {A} (f : db → A * db) : single (exec f).
Proof. apply single_sql. Qed.
Lemma single_rename id name : single (RenameDevice id name).
Proof.
  unfold RenameDevice. intros s. unfold mbind, comp_bind.
  match goal with |- context [wrapping ?c (exec ?f) s] =>
    pose proof (single_wrapping c _ (single_exec f) s) as Hm; revert Hm; generalize (wrapping c (exec f)) end.
  intros m [(e' & fs & -> & ?)|(fs & -> & ?)]; [left; by eauto|right].
  exists fs. split; [|done]. destruct (m (MkStore (sdb s) [])) as [[n|?] [? ?]]; [|done]. cbn [fst snd]. by destruct (n =? 0).
Qed.
Lemma single_record id sn nb na now : single (RecordDeviceCert id sn nb na now).
Proof. apply single_wrapping, single_sql. Qed.
Lemma single_delete id : single (DeleteDevice id).
Proof. apply single_wrapping, single_sql. Qed.

(** What [deleteOrphanedDevice] leaves of the device [id]: nothing, or, if its
    own statement fails, everything, which the log then says. *)
Definition orphan_kept : level * string := (LevelError, "delete orphaned device after failed pairing").
Definition orphan_gone (id : string) (d d' : db) : Prop :=
  devices d' = delete id (devices d) ∧ device_certs d' = filter (λ sc, cr_device_id sc.2 ≠ id) (device_certs d).

Lemma orphaned_err {A B} id ctx e (k : A → Comp St (result B)) (w : world) s rw0 en :
  ∃ w', orphaned id ctx (Err e) k (MkSt (set_store w s) rw0 en) = (Ok (Err (wrap ctx e)), MkSt w' rw0 en) ∧
    audit (sdb (w_store w')) = audit (sdb s) ∧ (faults s = [] → faults (w_store w') = []) ∧
    (orphan_gone id (sdb s) (sdb (w_store w')) ∨
     sdb (w_store w') = sdb s ∧ faults s ≠ [] ∧ orphan_kept ∈ map headline (w_log w')).
Proof.
  unfold orphaned, deleteOrphanedDevice, mbind, comp_bind, callS. cbn [wld w_store set_store rw entry].
  destruct (single_delete id s) as [(e' & fs & -> & Hf)|(fs & -> & Hf)].
  - eexists. split; [reflexivity|]. split; [done|]. split; [done|]. right. split; [done|]. split; [done|].
    cbn. rewrite map_app. apply elem_of_app. right. apply list_elem_of_here.
  - rewrite Delete_run. eexists. split; [reflexivity|]. split; [done|]. split; [exact Hf|]. left. by split.
Qed.

Lemma callS_run {A B} (m : Comp store A) (k : result A → Comp St B) (w : world) s rw0 en :
  (callS m ≫= k) (MkSt (set_store w s) rw0 en) =
  k (m s).1 (MkSt (set_store w (m s).2) rw0 en).
Proof. unfold mbind, comp_bind, callS. cbn. by destruct (m s). Qed.

(** The code is live and a certificate can be issued, under a fresh serial. *)
Definition issuable (hash : string → string) (r : Request) (code : string) (c : CA) (csr : string) (d : db) : Prop :=
  (∃ row, pairing_codes d !! hash code = Some row ∧ co_used_at row = None ∧ Unix (rq_now r) < co_expires_at row) ∧
  (∃ pem sn na, IssueDeviceCert c csr (rq_uuid r) (rq_now r) (rq_rand r) = Ok (pem, sn, na) ∧ device_certs d !! sn = None).

(** What a pairing that fails leaves: the devices and certificates as they were,
    or, if the clean-up's own statement has failed, the new device's row, which
    owns no certificate. *)
Definition left_behind (r : Request) (d d' : db) : Prop :=
  devices d !! rq_uuid r = None ∧ device_certs d' = device_certs d ∧
  ∃ name, devices d' = <[rq_uuid r := MkDeviceRow name (Unix (rq_now r)) None None]> (devices d).

(** How the second half of pairing may end, the device's row created. *)
Definition created_end (hash : string → string) (c : CA) (r : Request) (code csr : string) (row0 : device_row)
    (s : store) (res : result pairResponse) (w' : world) : Prop :=
  let id := rq_uuid r in
  let d := sdb s in
  let d' := sdb (w_store w') in
  audit d' = audit d ∧ (faults s = [] → faults (w_store w') = []) ∧
  match res with
  | Ok p =>
      pr_DeviceID p = id ∧
      (∃ row, pairing_codes d !! hash code = Some row ∧ co_used_at row = None ∧ Unix (rq_now r) < co_expires_at row ∧
        pairing_codes d' = <[hash code := MkCodeRow (co_device_name row) (co_created_at row) (co_expires_at row)
                               (Some (Unix (rq_now r))) (Some id)]> (pairing_codes d) ∧
        devices d' = <[id := MkDeviceRow (co_device_name row) (dr_paired_at row0) (dr_last_seen_at row0)
                               (dr_revoked_at row0)]> (devices d)) ∧
      (∃ na sn, IssueDeviceCert c csr id (rq_now r) (rq_rand r) = Ok (pr_CertificatePEM p, sn, na) ∧
        device_certs d !! sn = None ∧
        device_certs d' = <[sn := MkCertRow id (Unix (rq_now r)) (Unix na) (Unix (rq_now r)) None]> (device_certs d))
  | Err e =>
      (orphan_gone id d d' ∨
       faults s ≠ [] ∧ orphan_kept ∈ map headline (w_log w') ∧ device_certs d' = device_certs d ∧
       ∃ name, devices d' = <[id := MkDeviceRow name (dr_paired_at row0) (dr_last_seen_at row0)
                                      (dr_revoked_at row0)]> (devices d)) ∧
      (¬ issuable hash r code c csr d ∨ faults s ≠ [])
  end.

(** One of its steps has failed, in a store that differs from the first one in
    the pairing codes and the device's name at most. *)
Lemma orphaned_end {A} hash c r code csr row0 ctx e (k : A → Comp St (result pairResponse)) (w : world) s s1 rw0 en :
  audit (sdb s1) = audit (sdb s) → device_certs (sdb s1) = device_certs (sdb s) →
  (∃ name, devices (sdb s1) = <[rq_uuid r := MkDeviceRow name (dr_paired_at row0) (dr_last_seen_at row0)
                                               (dr_revoked_at row0)]> (devices (sdb s))) →
  (faults s = [] → faults s1 = []) → ¬ issuable hash r code c csr (sdb s) ∨ faults s ≠ [] →
  ∃ res w', orphaned (rq_uuid r) ctx (Err e) k (MkSt (set_store w s1) rw0 en) = (Ok res, MkSt w' rw0 en) ∧
    created_end hash c r code csr row0 s res w'.
Proof.
  intros Ha Hc [name Hd] Hf Hni. destruct (orphaned_err (rq_uuid r) ctx e k w s1 rw0 en) as (w' & -> & Ha' & Hf' & Hend).
  do 2 eexists. split; [reflexivity|]. split; [congruence|]. split; [auto|]. split; [|exact Hni].
  destruct Hend as [[Hd' Hc']|(Hs & Hne & Hlog)].
  - left. split; [|by rewrite Hc', Hc]. rewrite Hd', Hd. by rewrite delete_insert_eq.
  - right. split; [tauto|]. split; [done|]. rewrite Hs. split; [done|]. by exists name.
Qed.

Lemma pairCreated_run hash c r code csr (w : world) s rw0 en row0 :
  devices (sdb s) !! rq_uuid r = Some row0 →
  ∃ res w', pairCreated hash c r code csr (rq_uuid r) (MkSt (set_store w s) rw0 en) = (Ok res, MkSt w' rw0 en) ∧
    created_end hash c r code csr row0 s res w'.
Proof.
  set (id := rq_uuid r). intros Hid.
  assert (Hrow0 : ∃ name, devices (sdb s) = <[id := MkDeviceRow name (dr_paired_at row0) (dr_last_seen_at row0)
                                               (dr_revoked_at row0)]> (devices (sdb s))).
  { exists (dr_name row0). symmetry. apply insert_id. by destruct row0. }
  unfold pairCreated. rewrite callS_run.
  destruct (single_redeem hash code id (rq_now r) s) as [(e & fs & -> & Hf)|(fs & -> & Hf)]; cbn [fst snd].
  { apply orphaned_end; [done..|by intros|by right]. }
  rewrite Redeem_run. destruct (pairing_codes (sdb s) !! hash code) as [row|] eqn:Hcode; cbn [fst snd sdb].
  2: { apply orphaned_end; try done. left. intros [(row & Hr & _) _]. congruence. }
  destruct (bool_decide _ && _) eqn:Hlive; cbn [fst snd sdb].
  2: { apply orphaned_end; try done. left. intros [(row' & Hr & Hu & He) _]. assert (row' = row) as -> by congruence.
       rewrite bool_decide_eq_true_2 in Hlive by done. apply Z.ltb_lt in He. by rewrite He in Hlive. }
  unfold orphaned at 1. rewrite callS_run. set (d1 := set_codes (sdb s) _).
  destruct (single_rename id (co_device_name row) (MkStore d1 fs)) as [(e & fs1 & -> & Hf1)|(fs1 & -> & Hf1)]; cbn [fst snd].
  { apply orphaned_end; [done..|by intros; destruct Hf1; apply Hf|right; intros Hn; by apply Hf1, Hf]. }
  cbn [sdb faults] in *. rewrite (Rename_run _ _ d1 row0 Hid). cbn [fst snd sdb]. unfold orphaned at 1. set (d2 := set_devices d1 _).
  assert (Hd2 : ∃ name, devices d2 = <[id := MkDeviceRow name (dr_paired_at row0) (dr_last_seen_at row0)
                                               (dr_revoked_at row0)]> (devices (sdb s))) by by eexists.
  destruct (IssueDeviceCert _ _ _ _ _) as [[[pem sn] na]|e] eqn:Hissue.
  2: { apply orphaned_end; [done..|auto|]. left. intros [_ (? & ? & ? & Hi & _)]. unfold id in Hissue. congruence. }
  unfold orphaned at 1. rewrite callS_run.
  destruct (single_record id sn (rq_now r) na (rq_now r) (MkStore d2 fs1)) as [(e & fs2 & -> & Hf2)|(fs2 & -> & Hf2)]; cbn [fst snd].
  { apply orphaned_end; [done..|intros; by destruct Hf2; cbn; auto|]. right. intros Hn. apply Hf2. cbn. auto. }
  cbn [sdb faults] in *.
  rewrite (Record_run id sn _ na _ d2 (MkDeviceRow (co_device_name row) (dr_paired_at row0) (dr_last_seen_at row0)
    (dr_revoked_at row0))) by (cbn; apply lookup_insert_eq).
  change (device_certs d2) with (device_certs (sdb s)).
  destruct (device_certs (sdb s) !! sn) eqn:Hsn; cbn [fst snd sdb].
  { apply orphaned_end; [done..|cbn; auto|]. left. intros [_ (? & ? & ? & Hi & Hfree)]. unfold id in Hissue. congruence. }
  unfold orphaned. do 2 eexists. split; [reflexivity|]. split; [done|]. split; [cbn; auto|]. to_prop.
  split; [done|]. split; [by exists row|]. exists na, sn. cbn. by repeat split.
Qed.

Lemma pairDevice_run hash c r code csr (st : St) :
  let s := w_store (wld st) in
  ∃ res w', pairDevice hash c r code csr st = (Ok res, MkSt w' (rw st) (entry st)) ∧
    let d' := sdb (w_store w') in
    audit d' = audit (sdb s) ∧ (faults s = [] → faults (w_store w') = []) ∧
    match res with
    | Ok p => paired hash r code c csr p (sdb s) d'
    | Err e => (rolled_back (sdb s) d' ∨
                faults s ≠ [] ∧ orphan_kept ∈ map headline (w_log w') ∧ left_behind r (sdb s) d') ∧
        (devices (sdb s) !! rq_uuid r = None → ¬ issuable hash r code c csr (sdb s) ∨ faults s ≠ [])
    end.
Proof.
  destruct st as [w rw0 en]. cbn [wld rw entry]. set (s := w_store w). set (d := sdb s).
  replace w with (set_store w s) by by destruct w. unfold pairDevice. rewrite callS_run.
  destruct (single_create (rq_uuid r) pendingDeviceName (rq_now r) s) as [(e & fs & -> & Hf)|(fs & -> & Hf)]; cbn [fst snd].
  { do 2 eexists. split; [reflexivity|]. split; [done|]. split; [done|]. split; [by left|by right]. }
  rewrite Create_run. fold d. destruct (devices d !! rq_uuid r) eqn:Hid; cbn [fst snd sdb].
  { do 2 eexists. split; [reflexivity|]. split; [done|]. split; [done|]. split; [by left|]. intros Hn. congruence. }
  set (d1 := set_devices d _).
  destruct (pairCreated_run hash c r code csr w (MkStore d1 fs) rw0 en (MkDeviceRow pendingDeviceName (Unix (rq_now r)) None None))
    as (res & w' & Hrun & Hau & Hfl & Hres); [apply lookup_insert_eq|].
  exists res, w'. cbn [dev_ID]. split; [exact Hrun|]. split; [exact Hau|]. cbn [faults sdb] in *. split; [auto|].
  assert (Hne : fs ≠ [] → faults s ≠ []) by auto. destruct res as [p|e].
  - destruct Hres as (Hp & (row & Hr & Hu & He & Hc & Hd) & Hcert). split; [done|done| |exact Hcert].
    exists row. repeat (split; [done|]). rewrite Hd. cbn. by rewrite insert_insert_eq.
  - destruct Hres as [Hend Hni]. split; [|intros _; destruct Hni; [by left|right; auto]].
    destruct Hend as [[Hd Hc]|(Hn & Hlog & Hc & name & Hd)].
    + left. split; [rewrite Hd; cbn; by apply delete_insert_id|].
      intros Href. rewrite Hc. cbn. apply map_filter_id. intros sn x Hx. cbn. intros Heq.
      destruct (Href _ _ Hx) as [y Hy]. congruence.
    + right. split; [auto|]. split; [done|]. split; [done|]. split; [done|]. exists name. rewrite Hd. cbn. by rewrite insert_insert_eq.
Qed.
(** The two unauthenticated limits change nothing but their own buckets. *)
Record limits_only (w w1 : world) : Prop := {
  lo_store : w_store w1 = w_store w; lo_docker : w_docker w1 = w_docker w; lo_streams : streams w1 = streams w }.

Lemma tooManyRequests_limits limit (st : St) w0 :
  limits_only w0 (wld st) →
  ∃ w1, limits_only w0 w1 ∧ tooManyRequests limit st = (Ok tt, MkSt w1 (throttled_rw limit (rw st)) (entry st)).
Proof.
  intros [? ? ?]. destruct (tooManyRequests_run limit st) as [l ->]. eexists. split; [|reflexivity]. by split.
Qed.

Lemma withGlobalUnauthLimit_run s (h : Handler) r c (st : St) :
  ∃ w1, limits_only (wld st) w1 ∧
    (withGlobalUnauthLimit s h r c st = h r c (MkSt w1 (rw st) (entry st)) ∨
     ∃ q, withGlobalUnauthLimit s h r c st = (Ok tt, MkSt w1 (throttled_rw q (rw st)) (entry st))).
Proof.
  unfold withGlobalUnauthLimit, mbind, comp_bind, takeGlobal. destruct (AllowN _ _ _) as [[] l]; cbn [negb].
  - eexists. split; [|left; reflexivity]. by split.
  - unfold logAt, with_world, modify.
    match goal with |- context [tooManyRequests ?q ?x] =>
      destruct (tooManyRequests_limits q x (wld st)) as (w1 & Hw & Hr); [by split|] end.
    exists w1. split; [done|]. right. eexists. exact Hr.
Qed.

Lemma withIPLimit_run t q0 (h : Handler) r c (st : St) : t ∈ [statusTier; pairTier] →
  ∃ w1, limits_only (wld st) w1 ∧
    (withIPLimit t q0 h r c st = h r c (MkSt w1 (rw st) (entry st)) ∨
     ∃ q, withIPLimit t q0 h r c st = (Ok tt, MkSt w1 (throttled_rw q (rw st)) (entry st))).
Proof.
  intros Ht.
  assert (Hset : ∀ w reg, limits_only w (tier_set t w reg)).
  { intros w reg. rewrite !elem_of_cons in Ht. destruct Ht as [->|[->|Hn]]; [by split..|by apply not_elem_of_nil in Hn]. }
  assert (∃ (b : bool) w1, limits_only (wld st) w1 ∧ withIPLimit t q0 h r c st =
    (if negb b then (logAt LevelWarn "rate limit exceeded" [("tier", tier_name t)] ≫= λ _, tooManyRequests q0) else h r c)
      (MkSt w1 (rw st) (entry st))) as (b & w1 & Hw & ->).
  { unfold withIPLimit. unfold mbind at 1, comp_bind at 1, takeKey. destruct (Allow _ _ _) as [[allowed keyed] reg].
    destruct keyed; cbn [negb].
    - exists allowed. eexists. split; [apply (Hset _ reg)|reflexivity].
    - unfold mbind at 1, comp_bind at 1, takeGlobal. cbn [wld rw entry]. destruct (AllowN _ _ _) as [b l].
      exists b. eexists. split; [|reflexivity]. destruct (Hset (wld st) reg). by split. }
  destruct b; cbn [negb]; [by exists w1; split; [|left]|].
  unfold mbind, comp_bind, logAt, with_world, modify. cbv beta iota.
  match goal with |- context [tooManyRequests ?q ?x] =>
    destruct (tooManyRequests_limits q x (wld st)) as (w2 & Hw2 & Hr2); [by destruct Hw|] end.
  exists w2. split; [done|]. right. eexists. exact Hr2.
Qed.

Lemma IssueDeviceCert_serial c csr id now serial pem sn na :
  IssueDeviceCert c csr id now serial = Ok (pem, sn, na) → ∃ n, serial = Ok n ∧ sn = Text16 n.
Proof.
  unfold IssueDeviceCert. intros Hi. break_in Hi. by eexists.
Qed.

(** A request that can be paired: the agent has a CA, the body decodes, the CSR
    is one, the id is new, and what it asks for can be issued. *)
Definition pairable (hash : string → string) (s : Server) (r : Request) (d : db) : Prop :=
  ∃ c f csr, ca s = Some c ∧ rq_body r maxPairBodyBytes = Decoded f ∧ decodeCSRPEM (f "csr_pem") = Some csr ∧
    devices d !! rq_uuid r = None ∧ issuable hash r (f "pairing_code") c csr d.

(** How pairing may end without a device: as [deleteOrphanedDevice] leaves it,
    or with the row that could not be deleted; and why. *)
Record not_paired (hash : string → string) (s : Server) (r : Request) (fl : list (option error)) (log : list log_line) (d d' : db) : Prop := {
  np_end : rolled_back d d' ∨ fl ≠ [] ∧ orphan_kept ∈ map headline log ∧ left_behind r d d';
  np_why : ¬ pairable hash s r d ∨ fl ≠ [] }.

Lemma not_paired_log hash s r fl log more d d' :
  not_paired hash s r fl log d d' → not_paired hash s r fl (log ++ more) d d'.
Proof.
  intros [Hend Hwhy]. split; [|done]. destruct Hend as [?|(? & Hlog & ?)]; [by left|right].
  split; [done|]. split; [|done]. rewrite map_app. apply elem_of_app. by left.
Qed.

Definition pair_refusals : list Z :=
  [StatusInternalServerError; StatusRequestEntityTooLarge; StatusBadRequest; StatusUnauthorized].

(** The handler answers a refusal, by the lemma [Herr] on refusals. *)
Ltac refuse_pair Herr := match goal with |- context [writeError ?a ?b ?y] =>
  destruct (Herr a b y) as (? & -> & ? & ? & ?); [in_table|done..|eexists; split; [reflexivity|by eauto 10]] end.

(** How the pairing handler answers: 201 exactly when it has paired. *)
Lemma handlePair_run hash s r x (st : St) e0 :
  rs_status (rw st) = None → entry st = Some e0 →
  let d := sdb (w_store (wld st)) in
  let fl := faults (w_store (wld st)) in
  ∃ st1, handlePair hash s r x st = (Ok tt, st1) ∧
    let d' := sdb (w_store (wld st1)) in
    audit d' = audit d ∧ (fl = [] → faults (w_store (wld st1)) = []) ∧
    ((∃ c f csr p, ca s = Some c ∧ rq_body r maxPairBodyBytes = Decoded f ∧ decodeCSRPEM (f "csr_pem") = Some csr ∧
        rw st1 = json_rw StatusCreated (PPair p) (rw st) ∧
        entry st1 = Some (MkAuditInFlight (operation e0) (target e0) (outcome e0) (detail e0) (rq_uuid r)) ∧
        paired hash r (f "pairing_code") c csr p d d') ∨
     (code_of (rw st1) ∈ pair_refusals ∧ not_paired hash s r fl (w_log (wld st1)) d d')).
Proof.
  intros Hs He d fl.
  assert (Hsame : rolled_back d d) by by split.
  assert (Hno : (∀ c f csr, ca s = Some c → rq_body r maxPairBodyBytes = Decoded f →
    decodeCSRPEM (f "csr_pem") = Some csr → False) → ∀ log, not_paired hash s r fl log d d).
  { intros Hno log. split; [by left|left]. intros (c' & f' & csr' & E1 & E2 & E3 & _). by eapply Hno. }
  assert (Herr : ∀ code msg (st2 : St), code ∈ pair_refusals → rs_status (rw st2) = None →
    audit (sdb (w_store (wld st2))) = audit d → (fl = [] → faults (w_store (wld st2)) = []) →
    not_paired hash s r fl (w_log (wld st2)) d (sdb (w_store (wld st2))) →
    ∃ st1, writeError code msg st2 = (Ok tt, st1) ∧ audit (sdb (w_store (wld st1))) = audit d ∧
      (fl = [] → faults (w_store (wld st1)) = []) ∧
      code_of (rw st1) ∈ pair_refusals ∧ not_paired hash s r fl (w_log (wld st1)) d (sdb (w_store (wld st1)))).
  { intros code msg st2 Hc Hn Ha Hf Hnp. destruct (writeError_run code msg st2) as [l ->].
    eexists. split; [reflexivity|]. cbn [rw wld w_store set_log]. rewrite code_of_json by done. repeat (split; [done|]).
    by apply not_paired_log. }
  unfold handlePair, requireCA. destruct (ca s) as [c|] eqn:Hca.
  2: { unfold mbind, comp_bind, logAt, with_world, setAuditOutcome, modify. cbv beta iota.
       assert (∀ log, not_paired hash s r fl log d d) by (apply Hno; congruence). refuse_pair Herr. }
  unfold decodePairRequest, decodeRequest, mbind, comp_bind. destruct (rq_body r maxPairBodyBytes) as [| |f] eqn:Hbody.
  1,2: assert (∀ log, not_paired hash s r fl log d d) by (apply Hno; congruence); refuse_pair Herr.
  unfold mret, comp_ret. cbv beta iota. destruct (decodeCSRPEM (f "csr_pem")) as [csr|] eqn:Hcsr.
  2: { unfold setAuditOutcome, modify. cbv beta iota.
       assert (∀ log, not_paired hash s r fl log d d) by (apply Hno; congruence). refuse_pair Herr. }
  destruct (pairDevice_run hash c r (f "pairing_code") csr st) as (res & w' & -> & Hau & Hfl & Hres). fold d fl in Hau, Hfl, Hres.
  destruct res as [p|e].
  - unfold setAuditDeviceID, modify. cbn [entry wld rw]. cbv beta iota. rewrite He.
    match goal with |- context [writeJSON ?a ?b ?y] => destruct (writeJSON_run a b y) as [l ->] end.
    eexists. split; [reflexivity|]. split; [exact Hau|]. split; [exact Hfl|]. left.
    exists c, f, csr, p. repeat (split; [done|]).
    split; [|exact Hres]. cbn [entry]. by rewrite (pd_id _ _ _ _ _ _ _ _ Hres).
  - destruct Hres as [Hend Hni].
    assert (Hnp : not_paired hash s r fl (w_log w') d (sdb (w_store w'))).
    { split; [done|]. destruct (decide (fl = [])) as [Hz|]; [left|by right].
      intros (c' & f' & csr' & E1 & E2 & E3 & Hfree & Hi). destruct (Hni Hfree) as [Hni'|]; [|done].
      apply Hni'. congruence. }
    destruct (errors_is e _); unfold logAt, with_world, setAuditOutcome, modify; cbv beta iota;
      apply (not_paired_log _ _ _ _ _ [LogLine_ LevelError "pair device" []]) in Hnp as Hnp'; refuse_pair Herr.
Qed.
End Runs.
