(* ===== verification/Answers.v ===== *)
(** * Answers: theorems on whole requests

    The composition of the middleware (HttpCore.v), the handlers
    (HttpHandlers.v), the streams (Sse.v) and the mux (Routes.v) with the store,
    the Docker client and the rate limiters: what one request to the agent can
    and cannot do, whatever it contains and whatever fails on the way. *)
From Stdlib Require Import QArith Qround.
From S2P Require Import Prelude GoTime LogFraming Policy Refs RateLimit Streams EventHub Engine.
From S2P Require Import Dto DockerClient Store GoStrings Config Certs HttpCore HttpHandlers.
From S2P Require Import Sse Routes Effects Requests.
Open Scope Z_scope.

(** A served request, with everything it meets: how the coming operations on
    its connection fare, and the schedule of its stream, should it open one. *)
Record arrival : Type := MkArrival {
  ar_request : Request; ar_conn : list (option error); ar_lsc : log_schedule; ar_esc : event_schedule }.

Definition publicRoutes : list string := ["GET /v1/status"; "POST /v1/pair"].

Section Properties.
Context `{EngineApi, TokenBucket, Crypto}.
Context (hash : string → string) (Version : string).
Context (keys : gmap string lineState → list string).
Notation world := (world (H := _) (H0 := _)).
Notation Handler := (Handler (H := _) (H0 := _)).

Definition table (s : Server) (a : arrival) : mux (H := _) (H0 := _) :=
  agent_table hash Version keys (ar_lsc a) (ar_esc a) s.
Definition answer (s : Server) (a : arrival) (w : world) : response * world :=
  agent_serve hash Version keys (ar_lsc a) (ar_esc a) s (ar_request a) (ar_conn a) w.
Definition answers (s : Server) (l : list arrival) (w : world) : world :=
  foldl (λ w a, (answer s a w).2) w l.

(** The entry of the table the request is for, with its path values. *)
Definition at_route (s : Server) (a : arrival) (pat : string) (vals : list (string * string)) : Prop :=
  ∃ h, matched (table s a) (ar_request a) = Some (pat, h, vals).

Lemma table_guarded s a : Forall (λ ph, ph.1 ∈ publicRoutes ∨ ∃ g, ph.2 = requireDevice (withDeviceLimit s g)) (table s a).
Proof.
  unfold table, agent_table, route_table. repeat apply Forall_cons_2; [..|apply Forall_nil_2]; cbn [fst snd];
    first [ by left; apply (list_elem_of_lookup_2 _ 0) | by left; apply (list_elem_of_lookup_2 _ 1)
          | right; eexists; reflexivity ].
Qed.

Lemma guarded_route s a pat vals : at_route s a pat vals → pat ∉ publicRoutes →
  ∃ g, matched (table s a) (ar_request a) = Some (pat, requireDevice (withDeviceLimit s g), vals).
Proof.
  intros [h Hm] Hp. destruct (matched_route _ _ _ _ _ Hm) as [Hin _].
  destruct (proj1 (Forall_forall _ _) (table_guarded s a) _ Hin) as [?|[g Hg]]; [done|].
  exists g. by rewrite <- Hg.
Qed.

(** The patterns of the table are distinct, so an entry is found by its pattern. *)
Definition find_pat (m : mux (H := _) (H0 := _)) (pat : string) : option Handler :=
  snd <$> List.find (λ ph, bool_decide (ph.1 = pat)) m.

Lemma find_pat_in (m : mux (H := _) (H0 := _)) pat h : NoDup (map fst m) → (pat, h) ∈ m → find_pat m pat = Some h.
Proof.
  unfold find_pat. induction m as [|[p g] m IH]; cbn; [by intros _ ?%not_elem_of_nil|].
  intros [Hn Hnd]%NoDup_cons [[= <- <-]|Hin]%elem_of_cons; [by rewrite bool_decide_eq_true_2|].
  rewrite bool_decide_eq_false_2; [by apply IH|]. intros ->. apply Hn. apply list_elem_of_In, in_map_iff.
  exists (pat, h). split; [done|]. by apply list_elem_of_In.
Qed.

Lemma table_patterns s a : NoDup (map fst (table s a)).
Proof. apply (bool_decide_unpack _). vm_compute. exact Logic.I. Qed.

Lemma at_route_entry s a pat vals h : at_route s a pat vals → find_pat (table s a) pat = Some h →
  matched (table s a) (ar_request a) = Some (pat, h, vals).
Proof.
  intros [h' Hm] Hf. destruct (matched_route _ _ _ _ _ Hm) as [Hin _].
  rewrite (find_pat_in _ _ _ (table_patterns s a) Hin) in Hf. by injection Hf as ->.
Qed.

(** An admitted caller of a guarded route. *)
Lemma admitted_answer s a pat vals g (w : world) dev :
  at_route s a pat vals → find_pat (table s a) pat = Some (requireDevice (withDeviceLimit s g)) →
  caller (ar_request a) w = Some dev →
  ∃ w1, admitted dev w w1 ∧
  let reg := (Allow (deviceLimits w) (dev_ID dev) (rq_now (ar_request a))).2 in
  if device_allowed (ar_request a) dev w
  then answer s a w = finish (ar_request a) pat
         (g (ar_request a) (MkCtx (Some dev) (Some pat) vals)
            (MkSt (set_deviceLimits w1 reg) (new_response (ar_conn a)) None))
  else (answer s a w).1 = throttled_rw (deviceLimit s) (new_response (ar_conn a)) ∧
       ∃ l, (answer s a w).2 = set_log (set_deviceLimits w1 reg) l.
Proof.
  intros Hr Hf Hc. pose proof (at_route_entry _ _ _ _ _ Hr Hf) as Hm.
  unfold answer, agent_serve. rewrite (serve_matched _ _ _ _ _ _ _ _ _ _ _ _ Hm).
  destruct (guarded_run s g (ar_request a) (MkCtx None (Some pat) vals) (start (ar_conn a) w) dev Hc)
    as (w1 & Ha & Hg). exists w1. split; [done|]. cbn [wld start] in Hg.
  destruct (device_allowed _ _ _); [by rewrite Hg|]. destruct Hg as [l ->]. split; [done|by eexists].
Qed.

Lemma throttled_code limit fs : code_of (throttled_rw limit (new_response fs)) = StatusTooManyRequests.
Proof. by apply code_of_json. Qed.

(** A refused caller of a guarded route, in full. *)
Lemma refused_answer s a pat vals (w : world) : at_route s a pat vals → pat ∉ publicRoutes →
  caller (ar_request a) w = None →
  (answer s a w).1 = json_rw StatusUnauthorized (PError msgClientCertRequired) (new_response (ar_conn a)) ∧
  quiet w (answer s a w).2.
Proof.
  intros Hr Hp Hc. destruct (guarded_route _ _ _ _ Hr Hp) as [g Hm].
  unfold answer, agent_serve. rewrite (serve_matched _ _ _ _ _ _ _ _ _ _ _ _ Hm).
  destruct (requireDevice_refused (withDeviceLimit s g) (ar_request a) (MkCtx None (Some pat) vals)
    (start (ar_conn a) w) Hc) as (w1 & Hq & ->). cbn [finish fst snd rw wld]. split; [done|].
  etrans; [exact Hq|apply quiet_log].
Qed.

(** C11 Every route but the status and pairing ones is closed to whoever is not
    an active device: without a client certificate, with one nobody was issued,
    with one of a revoked device, or when the lookup fails, the answer is one
    and the same 401, and nothing is touched: not the database, not the Engine,
    not a rate limiter, not a stream slot. *)
Theorem unauthenticated_refused (s : Server) (a : arrival) (pat : string) (vals : list (string * string))
    (w : world) (Hroute : at_route s a pat vals) (Hguarded : pat ∉ publicRoutes)
    (Hnobody : caller (ar_request a) w = None) :
  (answer s a w).1 = json_rw StatusUnauthorized (PError msgClientCertRequired) (new_response (ar_conn a)) ∧
  code_of (answer s a w).1 = StatusUnauthorized ∧
  quiet w (answer s a w).2.
Proof.
  destruct (refused_answer s a pat vals w Hroute Hguarded Hnobody) as [Hw Hq].
  split; [done|]. split; [|done]. rewrite Hw. by apply code_of_json.
Qed.

(** *** What no request undoes *)

Lemma answers_keep (I : db → Prop) own s l (w : world) :
  (∀ o, request_op own o → kept_by hash I o) → (∀ id d, own = Some id → I d → is_Some (devices d !! id)) →
  I (sdb (w_store w)) → I (sdb (w_store (answers s l w))).
Proof.
  intros Hop Hown. unfold answers. revert w. induction l as [|a l IH]; intros w HI; [done|]. cbn [foldl].
  apply IH. unfold answer. by eapply (serve_keeps hash Version keys (ar_lsc a) (ar_esc a) I own).
Qed.

Lemma answers_revoked s l (w : world) id t :
  revoked_at id t (sdb (w_store w)) → revoked_at id t (sdb (w_store (answers s l w))).
Proof.
  apply (answers_keep (revoked_at id t) (Some id)).
  - intros o Ho. apply keeps_revoked. destruct o; cbn in *; congruence.
  - intros i d [= ->] (r & Hr & _). eauto.
Qed.
Lemma answers_cert_owned s l (w : world) serial id :
  cert_owned serial id (sdb (w_store w)) → cert_owned serial id (sdb (w_store (answers s l w))).
Proof.
  apply (answers_keep (cert_owned serial id) (Some id)).
  - intros o Ho. apply keeps_cert_owned. destruct o; cbn in *; congruence.
  - intros i d [= ->] (c & r & _ & _ & Hr). eauto.
Qed.

(** C14 No request takes anything back. Whatever requests arrive, in any number,
    and whatever fails while they are served: a device that is revoked stays
    revoked, at the same time; a certificate keeps resolving to its device; a
    pairing code that is spent stays spent; and the audit trail only grows. *)
Theorem requests_undo_nothing (s : Server) (l : list arrival) (w : world) :
  let d := sdb (w_store w) in
  let d' := sdb (w_store (answers s l w)) in
  (∀ id t, revoked_at id t d → revoked_at id t d') ∧
  (∀ serial id, cert_owned serial id d → cert_owned serial id d') ∧
  (∀ h, code_spent h d → code_spent h d') ∧
  audit d `prefix_of` audit d'.
Proof.
  cbv zeta. split; [intros; by apply answers_revoked|]. split; [intros; by apply answers_cert_owned|]. split.
  - intros h. apply (answers_keep (code_spent h) None); [|done].
    intros o Ho. apply keeps_spent. destruct o; cbn in *; tauto.
  - apply (answers_keep (λ d, audit (sdb (w_store w)) `prefix_of` audit d) None); [|done|done].
    intros o Ho. open_op o; cbn in *; try done; intros Hp. by apply prefix_app_r.
Qed.

(** C3 Unpairing takes effect with the next request. Once a device's request to
    unpair itself has been answered 204, no request with that certificate is
    let through any guarded route again, whatever is served in between. *)
Theorem unpaired_device_locked_out (s : Server) (a b : arrival) (vals vals' : list (string * string))
    (pat : string) (l : list arrival) (w : world)
    (Hroute : at_route s a "DELETE /v1/device/self" vals)
    (Hgone : code_of (answer s a w).1 = StatusNoContent)
    (Hsame : rq_tls (ar_request b) = rq_tls (ar_request a))
    (Hroute' : at_route s b pat vals') (Hguarded : pat ∉ publicRoutes) :
  code_of (answer s b (answers s l (answer s a w).2)).1 = StatusUnauthorized.
Proof.
  destruct (caller (ar_request a) w) as [dev|] eqn:Hc.
  2: { destruct (refused_answer s a _ _ w Hroute ltac:(set_solver) Hc) as [Hw _].
       rewrite Hw, code_of_json in Hgone by done. discriminate. }
  destruct (admitted_answer s a _ _ _ w dev Hroute eq_refl Hc) as (w1 & Ha & Hans).
  cbv zeta in Hans. destruct (device_allowed _ _ _); [|destruct Hans as [Hw _]; rewrite Hw, throttled_code in Hgone; discriminate].
  set (c := MkCtx (Some dev) (Some "DELETE /v1/device/self") vals) in Hans.
  set (st0 := MkSt _ _ None) in Hans.
  destruct (handleUnpairSelf_run (ar_request a) c (MkSt (wld st0) (rw st0) (Some (MkAuditInFlight opUnpairSelf "" OutcomeSuccess "" "")))
    dev eq_refl eq_refl) as (st1 & Hh & Hcode).
  destruct (audited_run _ _ _ _ st0 _ Hh) as (w2 & Hau & Hrec). unfold withIdentityAudit in Hans. rewrite Hau in Hans.
  rewrite Hans in Hgone. cbn [finish fst rw] in Hgone.
  destruct Hcode as [Hcode|[_ Hrev]]; [rewrite Hcode in Hgone; discriminate|].
  destruct (Revoke_Ok _ _ _ _ Hrev) as (t & Ht & _).
  assert (revoked_at (dev_ID dev) t (sdb (w_store (answer s a w).2))) as Hrevoked.
  { rewrite Hans. cbn [finish snd wld set_log w_store]. destruct (rec_db _ _ _ _ _ Hrec) as [-> | [-> _]]; exact Ht. }
  unfold caller in Hc. destruct (rq_tls (ar_request a)) as [[|sn sns]|] eqn:Htls; [done| |done].
  destruct (DeviceByCertSerial _ _) as [[d|e] s'] eqn:Hd; cbn [fst] in Hc; [|done].
  destruct (IsRevoked d); [done|]. injection Hc as ->.
  destruct (by_serial_Ok _ _ _ _ Hd) as (row & Hown & _).
  apply (answers_cert_owned s (a :: l)) in Hown. apply (answers_revoked s l) in Hrevoked.
  change (answers s (a :: l) w) with (answers s l (answer s a w).2) in Hown.
  set (w' := answers s l _) in *.
  assert (caller (ar_request b) w' = None) as Hnone.
  { unfold caller. rewrite Hsame. destruct (DeviceByCertSerial _ (w_store w')) as [[d|e] s2] eqn:Hd2; [|done].
    cbn [fst]. destruct (by_serial_Ok _ _ _ _ Hd2) as (row2 & (c2 & r2 & Hc2 & Hid2 & _) & _).
    destruct Hown as (c3 & r3 & Hc3 & Hid3 & _).
    rewrite (by_serial_revoked _ _ _ _ _ _ Hd2 Hrevoked); [done|congruence]. }
  destruct (refused_answer s b _ _ w' Hroute' Hguarded Hnone) as [-> _]. by apply code_of_json.
Qed.
(** *** Who may change a container *)

Definition path_id (vals : list (string * string)) : string := PathValue (MkCtx None None vals) "id".

Lemma lifecycle_entry s a lop :
  find_pat (table s a) (lifecycle_route lop) = Some (mutate s (policy_op lop) (lifecycle_handler s lop)).
Proof. by destruct lop. Qed.

#[local] Instance always_preorder' A : PreOrder (λ _ _ : A, True).
Proof. by split. Qed.
Notation always := (λ _ _, True).

Lemma kind_reads s a pat h : agent_kind hash Version keys (ar_lsc a) (ar_esc a) s pat h →
  (∃ lop, pat = lifecycle_route lop ∧ h = mutate s (policy_op lop) (lifecycle_handler s lop)) ∨ hmoves always same_changes always h.
Proof.
  assert (Hst : ∀ A (m : Comp store A), steps always m) by by intros.
  assert (Hc : ∀ {A} (m : Comp store A), moves always same_changes always (callS m))
    by (intros; apply moves_callS; [apply _..|done]).
  destruct 1; [right..|left; by eexists].
  - eapply status_moves; apply _.
  - eapply pair_moves; try apply _; [done|]. intros c r code csr. unfold pairDevice, pairCreated, orphaned, deleteOrphanedDevice.
    repeat first [apply Hc | moves_step].
  - by eapply identity_moves; try apply _.
  - eapply read_moves; try apply _; [|done..]. intros A m Hm w. apply Hm.
  - eapply stream_moves; try apply _; [|done..]. intros A m Hm w. apply Hm.
Qed.

Lemma matched_none_quiet s a (w : world) : matched (table s a) (ar_request a) = None → quiet w (answer s a w).2.
Proof.
  intros Hm. destruct (serve_unmatched hash Version keys (logStream keys (ar_lsc a)) (handleEventStream (ar_esc a))
    s (ar_request a) (ar_conn a) w Hm) as [[l Hl] _].
  unfold answer, agent_serve. rewrite Hl. apply quiet_log.
Qed.

Lemma quiet_docker (w w' : world) : quiet w w' → w_docker w' = w_docker w.
Proof. by intros (fs & l & ->). Qed.

(** What the lifecycle handler does to the Engine, once it runs. *)
Lemma lifecycle_handler_changes s lop r c (st : St (H := _) (H0 := _)) :
  let w' := wld (lifecycle_handler s lop r c st).2 in
  same_changes (w_docker (wld st)) (w_docker w') ∨
  ∃ k d w1, dc s = Some k ∧ InspectContainer k (PathValue c "id") (w_docker (wld st)) = (Ok d, w1) ∧
    refusal k d = None ∧ self_unknown k = false ∧
    changes (w_docker w') = changes (w_docker (wld st)) ++ [op_call lop (cd_ID d)].
Proof.
  assert (Heq : ∀ (m : Comp (St (H := _) (H0 := _)) unit) st', moves always eq always m →
    w_docker (wld (m st').2) = w_docker (wld st')) by (intros m st' Hm; by destruct (Hm st') as (_ & -> & _)).
  unfold lifecycle_handler, handleLifecycle, requireDocker. cbv zeta.
  destruct (dc s) as [k|]; [|left; unfold same_changes, changes; rewrite Heq; [done|moves_tac]].
  match goal with |- context [wld (?m st).2] =>
    assert (w_docker (wld (m st).2) = (lifecycle_method lop k (PathValue c "id") (w_docker (wld st))).2) as Hfin end.
  { unfold mbind at 1, comp_bind at 1, callD. destruct (lifecycle_method lop k _ _) as [res d'].
    rewrite Heq; [done|]. destruct res; [moves_tac|apply writeDockerError_moves; apply _]. }
  rewrite !Hfin. pose proof (lifecycle_changes lop k (PathValue c "id") (w_docker (wld st))) as Hl.
  destruct (lifecycle_method lop k _ _) as [res d'].
  destruct Hl as [[Hs _]|(d & w1 & Hi & Hr & Hu & Hch)]; [by left|right]. by exists k, d, w1.
Qed.

Lemma finish_docker r pat x : w_docker (finish (H := _) (H0 := _) r pat x).2 = w_docker (wld x.2).
Proof. by destruct (finish_moves always eq always r pat (wld x.2) x (reflexivity _)) as (_ & <- & _). Qed.

Lemma audited_docker e (h : Handler) r c (st : St (H := _) (H0 := _)) :
  w_docker (wld (audited e h r c st).2) = w_docker (wld (h r c (MkSt (wld st) (rw st) (Some e))).2).
Proof.
  unfold audited, mbind, comp_bind, modify, gets. destruct (h r c _) as [[[]|x] st1]; [|done].
  assert (moves always eq always (recordAudit r c (default e (entry st1)))) as Hm
    by (by apply recordAudit_moves; try apply _).
  by destruct (Hm st1) as (_ & <- & _).
Qed.

(** C4 Nothing changes a container but an authenticated, permitted request.
    Whatever a request is and whatever fails, it makes no changing call to the
    Engine, or exactly one: then it is a lifecycle route's, its caller is an
    active device within its rate, the host's policy tier allows the operation,
    and the container is the one the reference was just resolved to, which is
    neither the agent's own nor on the operator's list. *)
Theorem engine_changed_only_with_leave (s : Server) (a : arrival) (w : world) :
  let w' := (answer s a w).2 in
  changes (w_docker w') = changes (w_docker w) ∨
  ∃ lop dev k vals d w1,
    at_route s a (lifecycle_route lop) vals ∧
    caller (ar_request a) w = Some dev ∧ device_allowed (ar_request a) dev w = true ∧
    Allows (PolicyMode (cfg s)) (policy_op lop) = true ∧
    dc s = Some k ∧ InspectContainer k (path_id vals) (w_docker w) = (Ok d, w1) ∧
    (SelfKnown k = true → cd_ID d ≠ SelfID k) ∧ matches (protected k) (cd_ID d) [cd_Name d] = false ∧
    (IsContainerized k = true → SelfKnown k = true) ∧
    changes (w_docker w') = changes (w_docker w) ++ [op_call lop (cd_ID d)].
Proof.
  cbv zeta. destruct (matched (table s a) (ar_request a)) as [[[pat h] vals]|] eqn:Hm.
  2: { left. unfold changes. by rewrite (quiet_docker _ _ (matched_none_quiet s a w Hm)). }
  pose proof (matched_kind _ _ _ _ _ _ _ _ _ _ Hm) as Hk.
  destruct (kind_reads s a pat h Hk) as [(lop & -> & ->)|Hmv].
  2: { left. unfold answer, agent_serve. rewrite (serve_matched _ _ _ _ _ _ _ _ _ _ _ _ Hm).
       destruct (finish_moves always same_changes always (ar_request a) pat w _
         (Hmv (ar_request a) (MkCtx None (Some pat) vals) (start (ar_conn a) w))) as (_ & Hc & _). exact Hc. }
  assert (Hr : at_route s a (lifecycle_route lop) vals) by by eexists.
  assert (Hp : lifecycle_route lop ∉ publicRoutes) by (destruct lop; apply (bool_decide_unpack _); vm_compute; exact Logic.I).
  destruct (caller (ar_request a) w) as [dev|] eqn:Hc.
  2: { left. destruct (refused_answer s a _ _ w Hr Hp Hc) as [_ Hq]. unfold changes. by rewrite (quiet_docker _ _ Hq). }
  destruct (admitted_answer s a _ _ _ w dev Hr (lifecycle_entry s a lop) Hc) as (w1 & Ha & Hans). cbv zeta in Hans.
  destruct (device_allowed _ _ _) eqn:Hallow.
  2: { left. destruct Hans as [_ [l ->]]. unfold changes. cbn [w_docker set_log set_deviceLimits]. by rewrite (adm_docker _ _ _ Ha). }
  unfold withAudit in Hans. set (c := MkCtx (Some dev) _ _) in Hans. set (st0 := MkSt _ _ None) in Hans.
  assert (Hw0 : w_docker (wld st0) = w_docker w) by exact (adm_docker _ _ _ Ha).
  rewrite Hans, finish_docker, audited_docker. unfold requireOp.
  match goal with |- context [MkSt _ _ (Some ?e)] => set (st1 := MkSt _ _ (Some e)) end.
  destruct (Allows (PolicyMode (cfg s)) (policy_op lop)) eqn:Hpol; cbn [negb].
  2: { left. unfold changes.
       match goal with |- context [wld (?m st1).2] => assert (moves always eq always m) as Hmv by moves_tac end.
       destruct (Hmv st1) as (_ & <- & _). change (wld st1) with (wld st0). by rewrite Hw0. }
  pose proof (lifecycle_handler_changes s lop (ar_request a) c st1) as Hl. cbv zeta in Hl.
  change (wld st1) with (wld st0) in Hl. rewrite Hw0 in Hl.
  destruct Hl as [Hl|(k & d & w2 & Hdc & Hi & Href & Hu & Hch)]; [left; exact Hl|right].
  exists lop, dev, k, vals, d, w2. unfold refusal in Href. unfold SelfKnown, SelfID, IsContainerized, self_unknown in *.
  repeat (split; [done|]). split; [|split; [|split]].
  - intros Hk0 Heq. rewrite Hk0, bool_decide_eq_true_2 in Href; done.
  - destruct (_ && negb _); [done|]. by destruct (matches _ _ _).
  - intros Hcon. rewrite Hcon in Hu. cbn in Hu. by rewrite Hu.
  - exact Hch.
Qed.
(** *** What is recorded *)

(** The audit row a lifecycle request is to leave. *)
Definition row_for (r : Request) (dev : Device) (lop : lifecycle_op) (id : string) (row : audit_row) : Prop :=
  ar_device_id row = Some (dev_ID dev) ∧ ar_operation row = policy_op lop ∧ ar_target row = Some id ∧
  ar_occurred_at row = Unix (rq_now r).

Lemma finish_ok r pat (st : St (H := _) (H0 := _)) x : x = (Ok tt, st) →
  (finish r pat x).1 = rw st ∧ ∃ l, (finish r pat x).2 = set_log (wld st) (w_log (wld st) ++ l).
Proof. intros ->. split; [done|by eexists]. Qed.

(** The row [row] is the trail's one new row; or its statement has failed, which
    the log then says. *)
Definition trail (row : audit_row) (w w' : world) : Prop :=
  audit (sdb (w_store w')) = audit (sdb (w_store w)) ++ [row] ∨
  audit (sdb (w_store w')) = audit (sdb (w_store w)) ∧ faults (w_store w) ≠ [] ∧ unrecorded ∈ map headline (w_log w').

Lemma outcome_success code o : (code, o) ∈ outcome_codes → o = OutcomeSuccess ↔ code = StatusNoContent.
Proof.
  unfold outcome_codes. rewrite !elem_of_cons. intros Hin.
  repeat destruct Hin as [[= -> ->]|Hin]; try done. by apply not_elem_of_nil in Hin.
Qed.

Lemma answered_row s a lop vals (w w1 : world) dev reg g tbl :
  let c := MkCtx (Some dev) (Some (lifecycle_route lop)) vals in
  let st0 := MkSt (set_deviceLimits w1 reg) (new_response (ar_conn a)) None in
  let e0 := MkAuditInFlight (policy_op lop) (path_id vals) OutcomeSuccess "" "" in
  let st1 := MkSt (wld st0) (rw st0) (Some e0) in
  (faults (w_store w) = [] → faults (w_store w1) = []) → audit (sdb (w_store w1)) = audit (sdb (w_store w)) →
  answered tbl e0 st1 (g (ar_request a) c st1) →
  answer s a w = finish (ar_request a) (lifecycle_route lop) (audited e0 g (ar_request a) c st0) →
  ∃ row, trail row w (answer s a w).2 ∧
    row_for (ar_request a) dev lop (path_id vals) row ∧
    (code_of (answer s a w).1, ar_outcome row) ∈ tbl ∧
    code_of (answer s a w).1 = code_of (rw (g (ar_request a) c st1).2) ∧
    w_docker (answer s a w).2 = w_docker (wld (g (ar_request a) c st1).2) ∧
    entry (g (ar_request a) c st1).2 = Some (MkAuditInFlight (policy_op lop) (path_id vals) (ar_outcome row)
                                              (default "" (ar_detail row)) "").
Proof.
  intros c st0 e0 st1 Hf Hau [Hok Hst (e' & He & Hop & Ht & Hdev & Hin)] Hans.
  assert (Hdk : w_docker (answer s a w).2 = w_docker (wld (g (ar_request a) c st1).2))
    by (by rewrite Hans, finish_docker, audited_docker).
  destruct (g (ar_request a) c st1) as [res st2] eqn:Hg. cbn [fst snd] in *. subst res.
  destruct (audited_run e0 g (ar_request a) c st0 st2 Hg) as (w3 & Hrun & Hrec).
  destruct (finish_ok (ar_request a) (lifecycle_route lop) _ _ Hrun) as [Hrw [l Hwl]]. rewrite <- Hans in Hrw, Hwl.
  rewrite Hrw. cbn [rw]. rewrite He in Hrec. cbn [default] in Hrec.
  exists (audit_row_of (ar_request a) c e' (sdb (w_store (wld st2)))). split; [|split; [|split; [exact Hin|split; [done|split; [done|]]]]].
  - unfold trail. rewrite Hwl. cbn [w_store set_log wld w_log]. rewrite <- Hau.
    assert (Hst' : w_store (wld st2) = w_store w1) by exact Hst.
    destruct (rec_db _ _ _ _ _ Hrec) as [-> | (-> & Hne & Hlog)]; rewrite Hst'; [left; reflexivity|right].
    split; [done|]. split; [rewrite Hst' in Hne; tauto|]. rewrite map_app. apply elem_of_app. by left.
  - subst c e0. repeat split; cbn in *; congruence.
  - rewrite He. cbn. destruct e'; cbn in *; by simplify_eq.
Qed.

(** C1 A lifecycle request of a device leaves one audit row, and the row tells
    what the device was told. Whatever fails while it is served, an admitted
    request hands the trail exactly one row, which names the device, the
    operation, the reference as given and the time; if the statement that writes
    it fails the trail is as it was, and the log says so, since the answer does
    not. When the host's policy forbids the operation the answer is 403, the row
    says so and the Engine has not been asked anything. Otherwise its outcome is
    the one that belongs to the status code of the answer, so that it says
    success exactly when the answer was 204; except that an agent without a
    Docker client, which the daemon never builds, answers 502 and records a
    success. Over the device's rate the answer is 429, the Engine is not asked
    anything and no row is written, so that a flood of refused requests cannot
    fill the trail. *)
Theorem mutation_audited (s : Server) (a : arrival) (lop : lifecycle_op) (vals : list (string * string))
    (w : world) (dev : Device)
    (Hroute : at_route s a (lifecycle_route lop) vals) (Hcaller : caller (ar_request a) w = Some dev) :
  let '(resp, w') := answer s a w in
  if device_allowed (ar_request a) dev w then
    ∃ row, trail row w w' ∧ row_for (ar_request a) dev lop (path_id vals) row ∧
      if Allows (PolicyMode (cfg s)) (policy_op lop) then
        match dc s with
        | Some _ => (code_of resp, ar_outcome row) ∈ outcome_codes ∧
                    (ar_outcome row = OutcomeSuccess ↔ code_of resp = StatusNoContent)
        | None => code_of resp = StatusBadGateway ∧ ar_outcome row = OutcomeSuccess ∧ w_docker w' = w_docker w
        end
      else code_of resp = StatusForbidden ∧ ar_outcome row = OutcomeDeniedPolicy ∧ w_docker w' = w_docker w
  else code_of resp = StatusTooManyRequests ∧ w_docker w' = w_docker w ∧
       audit (sdb (w_store w')) = audit (sdb (w_store w)).
Proof.
  destruct (admitted_answer s a _ _ _ w dev Hroute (lifecycle_entry s a lop) Hcaller) as (w1 & Ha & Hans).
  cbv zeta in Hans. set (reg := (Allow (deviceLimits w) _ _).2) in Hans.
  assert (Hau : audit (sdb (w_store w1)) = audit (sdb (w_store w))).
  { destruct (adm_db _ _ _ Ha) as [->|(f & -> & _)]; done. }
  destruct (device_allowed _ _ _) eqn:Hallow.
  2: { destruct Hans as [Hrw [l Hw]]. destruct (answer s a w) as [resp w']. cbn [fst snd] in *. subst.
       split; [apply throttled_code|]. split; [exact (adm_docker _ _ _ Ha)|exact Hau]. }
  set (c := MkCtx (Some dev) (Some (lifecycle_route lop)) vals) in *.
  set (e0 := MkAuditInFlight (policy_op lop) (path_id vals) OutcomeSuccess "" "").
  set (st1 := MkSt (set_deviceLimits w1 reg) (new_response (ar_conn a)) (Some e0)).
  set (g := requireOp s (policy_op lop) (lifecycle_handler s lop)).
  assert (Hans' : answer s a w = finish (ar_request a) (lifecycle_route lop)
    (audited e0 g (ar_request a) c (MkSt (set_deviceLimits w1 reg) (new_response (ar_conn a)) None))) by exact Hans.
  assert (Hrow := λ tbl Hanswered, answered_row s a lop vals w w1 dev reg g tbl (adm_faults _ _ _ Ha) Hau Hanswered Hans').
  cbv zeta in Hrow. change (MkSt (wld _) _ (Some _)) with st1 in Hrow. fold c e0 in Hrow.
  destruct (Allows (PolicyMode (cfg s)) (policy_op lop)) eqn:Hpol.
  - assert (Hg : g (ar_request a) c st1 = lifecycle_handler s lop (ar_request a) c st1)
      by (unfold g, requireOp; by rewrite Hpol).
    rewrite Hg in Hrow. destruct (dc s) as [k|] eqn:Hdc.
    + destruct (Hrow outcome_codes) as (row & Ht & Hr & Hin & _); [by eapply lifecycle_answered|].
      destruct (answer s a w) as [resp w']. exists row. repeat (split; [done|]). by apply outcome_success.
    + destruct (undocked_answered s lop (ar_request a) c e0 st1 Hdc eq_refl eq_refl eq_refl) as (Hanswered & Hd & Hcode).
      destruct (Hrow _ Hanswered) as (row & Ht & Hr & Hin & Hc & Hdk & _). rewrite Hcode in Hc. rewrite Hd in Hdk.
      destruct (answer s a w) as [resp w']. cbn [fst snd] in *. exists row. repeat (split; [done|]).
      rewrite Hc in Hin. split; [|by rewrite Hdk; exact (adm_docker _ _ _ Ha)].
      unfold undocked_codes in Hin. rewrite !elem_of_cons in Hin. by destruct Hin as [[=]|[[= <-]|Hnil%not_elem_of_nil]].
  - destruct (policy_answered s (policy_op lop) (lifecycle_handler s lop) (ar_request a) c e0 st1 outcome_codes Hpol
      eq_refl eq_refl ltac:(apply (bool_decide_unpack _); vm_compute; exact Logic.I)) as (Hanswered & Hd & Hcode & e' & He' & Ho'). fold g in Hanswered, Hd, Hcode, He'.
    destruct (Hrow _ Hanswered) as (row & Ht & Hr & _ & Hc & Hdk & He). rewrite Hcode in Hc. rewrite Hd in Hdk.
    rewrite He' in He. injection He as ->.
    destruct (answer s a w) as [resp w']. exists row. repeat (split; [done|]).
    cbn [snd] in Hdk. by rewrite Hdk; exact (adm_docker _ _ _ Ha).
Qed.
(** *** Pairing *)

(** A request on the pairing route: throttled, or the handler runs and its audit
    row is handed to the store. *)
Definition row_appended (fl : list (option error)) (row : audit_row) (d d' : db) : Prop :=
  d' = with_row row d ∨ d' = d ∧ fl ≠ [].

Lemma pair_answer s a vals (w : world) :
  at_route s a "POST /v1/pair" vals →
  let r := ar_request a in
  let d := sdb (w_store w) in
  let fl := faults (w_store w) in
  let d' := sdb (w_store (answer s a w).2) in
  (code_of (answer s a w).1 = StatusTooManyRequests ∧ d' = d) ∨
  ∃ d1 row, row_appended fl row d1 d' ∧ audit d1 = audit d ∧
    ((∃ c f csr p, ca s = Some c ∧ rq_body r maxPairBodyBytes = Decoded f ∧ decodeCSRPEM (f "csr_pem") = Some csr ∧
        (answer s a w).1 = json_rw StatusCreated (PPair p) (new_response (ar_conn a)) ∧
        row = MkAuditRow (audit_seq d1 + 1) (Unix (rq_now r)) (Some (rq_uuid r)) opPair (Some "")
                OutcomeSuccess (Some "") ∧
        paired hash r (f "pairing_code") c csr p d d1) ∨
     (code_of (answer s a w).1 ∈ pair_refusals ∧ not_paired hash s r fl (w_log (answer s a w).2) d d1)).
Proof.
  intros Hr r d fl d'. pose proof (at_route_entry _ _ _ _ _ Hr eq_refl) as Hm.
  assert (Hans : answer s a w = finish r "POST /v1/pair" (withGlobalUnauthLimit s (withIPLimit pairTier (pairLimit s)
    (withPairAudit (handlePair hash s))) r (MkCtx None (Some "POST /v1/pair") vals) (start (ar_conn a) w))).
  { unfold answer, agent_serve. by rewrite (serve_matched _ _ _ _ _ _ _ _ _ _ _ _ Hm). }
  subst d'. rewrite Hans. clear Hans. set (c0 := MkCtx None _ vals).
  destruct (withGlobalUnauthLimit_run s (withIPLimit pairTier (pairLimit s) (withPairAudit (handlePair hash s))) r c0
    (start (ar_conn a) w)) as (w1 & Hw1 & [-> | [q ->]]).
  2: { left. cbn [finish fst snd rw wld w_store set_log start]. rewrite throttled_code, (lo_store _ _ Hw1). done. }
  destruct (withIPLimit_run pairTier (pairLimit s) (withPairAudit (handlePair hash s)) r c0
    (MkSt w1 (rw (start (ar_conn a) w)) (entry (start (ar_conn a) w)))) as (w2 & Hw2 & [-> | [q ->]]).
  { by apply elem_of_cons; right; apply elem_of_cons; left. }
  2: { left. cbn [finish fst snd rw wld w_store set_log start]. rewrite (lo_store _ _ Hw2). cbn [wld start rw].
       rewrite throttled_code, (lo_store _ _ Hw1). done. }
  right. cbn [rw entry start] in *.
  assert (Hstore : w_store w2 = w_store w) by (rewrite (lo_store _ _ Hw2); exact (lo_store _ _ Hw1)).
  set (e0 := MkAuditInFlight opPair "" OutcomeSuccess "" "").
  destruct (handlePair_run hash s r c0 (MkSt w2 (new_response (ar_conn a)) (Some e0)) e0 eq_refl eq_refl)
    as (st1 & Hh & Hau & Hfl & Hcase). cbn [wld rw] in *. rewrite Hstore in *.
  destruct (audited_run e0 (handlePair hash s) r c0 (MkSt w2 (new_response (ar_conn a)) None) st1 Hh) as (w3 & Hrun & Hrec).
  unfold withPairAudit. fold e0. rewrite Hrun. cbn [finish fst snd rw wld w_store set_log].
  exists (sdb (w_store (wld st1))), (audit_row_of r c0 (default e0 (entry st1)) (sdb (w_store (wld st1)))).
  split; [destruct (rec_db _ _ _ _ _ Hrec) as [?|(? & Hne & _)]; [by left|right; split; [done|tauto]]|].
  destruct (rec_log _ _ _ _ _ Hrec) as [l Hlog].
  split; [exact Hau|].
  destruct Hcase as [(c & f & csr & p & H1' & H2' & H3' & H4' & H5' & H6')|[Hcode Hno]]; [left|right; split; [done|]; cbn [w_log]; rewrite Hlog; by repeat apply not_paired_log].
  exists c, f, csr, p. repeat (split; [done|]). split; [|exact H6']. by rewrite H5'.
Qed.

Lemma refusals_not_created code : code ∈ pair_refusals → code ≠ StatusCreated.
Proof. intros Hin ->. revert Hin. apply (bool_decide_unpack _). vm_compute. exact Logic.I. Qed.

Lemma row_appended_audit fl row d d' : row_appended fl row d d' →
  audit d' = audit d ++ [row] ∨ audit d' = audit d ∧ fl ≠ [].
Proof. intros [->|[-> Hf]]; [by left|by right]. Qed.

Lemma paired_with_row r code c csr p fl d d1 d' row : row_appended fl row d1 d' →
  paired hash r code c csr p d d1 → paired hash r code c csr p d d'.
Proof. intros [->|[-> _]] [? ? ? ?]; by split. Qed.

Lemma not_paired_with_row s r fl log d d1 d' row : row_appended fl row d1 d' →
  not_paired hash s r fl log d d1 → not_paired hash s r fl log d d'.
Proof. intros [->|[-> _]] [? ?]; by split. Qed.

(** C5 Pairing gives a device with a certificate, or none that can ever be used.
    Whatever fails while it is served: when the answer is 201, the caller's code
    was unspent and unexpired, it is now spent on the new device, the device
    exists, active, under the name the operator minted the code for (never one
    of the caller's choosing), and the certificate sent is recorded as that
    device's; its audit row carries the new device's ID (and is there unless its
    own statement failed). On any other answer, an aborted request's among them,
    no certificate has been recorded, and the devices are what they were, except
    when the statement that is to delete the new device has failed itself, which
    the log then says: its row is left, but no certificate is its, so nobody can
    speak for it. And any other
    answer is for a throttled request, a failed statement, or one that cannot be
    paired: its body or CSR does not decode, its code is not live, or no
    certificate can be issued and recorded. (The database is one whose
    certificates belong to devices, which every statement keeps:
    [Store.store_referential].) *)
Theorem pairing_all_or_nothing (s : Server) (a : arrival) (vals : list (string * string)) (w : world)
    (Hroute : at_route s a "POST /v1/pair" vals) (Href : referential (sdb (w_store w))) :
  let r := ar_request a in
  let d := sdb (w_store w) in
  let fl := faults (w_store w) in
  let d' := sdb (w_store (answer s a w).2) in
  if decide (code_of (answer s a w).1 = StatusCreated) then
    ∃ c f csr p row, ca s = Some c ∧ rq_body r maxPairBodyBytes = Decoded f ∧ decodeCSRPEM (f "csr_pem") = Some csr ∧
      (answer s a w).1 = json_rw StatusCreated (PPair p) (new_response (ar_conn a)) ∧
      paired hash r (f "pairing_code") c csr p d d' ∧
      (audit d' = audit d ++ [row] ∨ audit d' = audit d ∧ fl ≠ []) ∧
      ar_device_id row = Some (rq_uuid r) ∧ ar_operation row = opPair ∧ ar_outcome row = OutcomeSuccess
  else
    device_certs d' = device_certs d ∧
    (devices d' = devices d ∨
     fl ≠ [] ∧ orphan_kept ∈ map headline (w_log (answer s a w).2) ∧ left_behind r d d' ∧ ∀ serial, ¬ cert_owned serial (rq_uuid r) d') ∧
    (code_of (answer s a w).1 = StatusTooManyRequests ∨ ¬ pairable hash s r d ∨ fl ≠ []).
Proof.
  cbv zeta. destruct (pair_answer s a vals w Hroute) as [[Hc Hd]|(d1 & row & Hd & Hau & Hcase)].
  { rewrite decide_False; [|rewrite Hc; discriminate]. rewrite Hd. split; [done|]. split; by left. }
  destruct Hcase as [(c & f & csr & p & H1' & H2' & H3' & H4' & H5' & H6')|[Hcode Hno]].
  - rewrite decide_True by (rewrite H4'; by apply code_of_json). exists c, f, csr, p, row.
    repeat (split; [done|]). split; [by eapply paired_with_row|].
    split; [rewrite <- Hau; by eapply row_appended_audit|]. by rewrite H5'.
  - rewrite decide_False by by apply refusals_not_created. apply (not_paired_with_row _ _ _ _ _ _ _ _ Hd) in Hno as [Hend Hwhy].
    destruct Hend as [[Hdev Hcert]|(Hne & Hlog & Hleft)]; [split; [by apply Hcert|]; split; [by left|by right]|].
    pose proof Hleft as (Hnew & Hcert & _). split; [done|]. split; [right|by right]. do 3 (split; [done|]).
    intros serial (cr & dr & Hcr & Hid & _). rewrite Hcert in Hcr. destruct (Href _ _ Hcr) as [x Hx]. congruence.
Qed.

(** What a guarded route answers a device: 429 over its rate, else what the
    route's handler answers, run with the device in its context, once the time
    it was last seen has been noted. *)
Definition served_as (dev : Device) (s : Server) (b : arrival) (pat : string) (vals : list (string * string)) (w : world) : Prop :=
  ∃ g, (pat, requireDevice (withDeviceLimit s g)) ∈ table s b ∧
  if device_allowed (ar_request b) dev w then
    ∃ w1, admitted dev w w1 ∧
      answer s b w = finish (ar_request b) pat (g (ar_request b) (MkCtx (Some dev) (Some pat) vals)
        (MkSt (set_deviceLimits w1 (Allow (deviceLimits w) (dev_ID dev) (rq_now (ar_request b))).2)
              (new_response (ar_conn b)) None))
  else code_of (answer s b w).1 = StatusTooManyRequests.

Lemma caller_served s b pat vals (w : world) dev : at_route s b pat vals → pat ∉ publicRoutes →
  caller (ar_request b) w = Some dev → served_as dev s b pat vals w.
Proof.
  intros Hr Hp Hc. destruct (guarded_route _ _ _ _ Hr Hp) as [g Hm]. exists g.
  destruct (matched_route _ _ _ _ _ Hm) as [Hin _]. split; [done|].
  destruct (admitted_answer s b pat vals g w dev Hr (find_pat_in _ _ _ (table_patterns s b) Hin) Hc) as (w1 & Ha & Hans).
  cbv zeta in Hans. destruct (device_allowed _ _ _); [by exists w1|]. destruct Hans as [-> _]. apply throttled_code.
Qed.

(** C12 A paired device is let in. Whatever failed while it paired and whatever
    requests are served after its 201, its row is still there; and when a
    request on a guarded route presents the certificate just issued, no
    statement failing while that request is served, the answer is decided by
    that row alone: 401 if the device has been revoked since, 429 if it is over
    its rate, and otherwise what the route's handler answers with this very
    device as the caller. *)
Theorem paired_device_admitted (s : Server) (a b : arrival) (vals vals' : list (string * string)) (pat : string)
    (l : list arrival) (w : world) (n : Z) (sns : list Z)
    (Hroute : at_route s a "POST /v1/pair" vals)
    (Hpaired : code_of (answer s a w).1 = StatusCreated)
    (Hserial : rq_rand (ar_request a) = Ok n) (Hcert : rq_tls (ar_request b) = Some (n :: sns))
    (Hroute' : at_route s b pat vals') (Hguarded : pat ∉ publicRoutes)
    (Hlookup : faults (w_store (answers s l (answer s a w).2)) = []) :
  let id := rq_uuid (ar_request a) in
  let w' := answers s l (answer s a w).2 in
  ∃ row, devices (sdb (w_store w')) !! id = Some row ∧
    match dr_revoked_at row with
    | Some _ => code_of (answer s b w').1 = StatusUnauthorized
    | None => served_as (scanDevice id row) s b pat vals' w'
    end.
Proof.
  cbv zeta. set (w' := answers s l _) in *.
  destruct (pair_answer s a vals w Hroute) as [[Hc _]|(d1 & arow & Hd & _ & Hcase)]; [rewrite Hpaired in Hc; discriminate|].
  destruct Hcase as [(c & f & csr & p & _ & _ & _ & _ & _ & Hp)|[Hcode _]]; [|by apply refusals_not_created in Hcode].
  apply (paired_with_row _ _ _ _ _ _ _ _ _ _ Hd) in Hp.
  destruct (pd_cert _ _ _ _ _ _ _ _ Hp) as (na & sn & Hissue & _ & Hcerts).
  destruct (IssueDeviceCert_serial _ _ _ _ _ _ _ _ Hissue) as (n' & Hn & ->). rewrite Hserial in Hn. injection Hn as <-.
  destruct (pd_code _ _ _ _ _ _ _ _ Hp) as (crow & _ & _ & _ & _ & Hdevs).
  assert (cert_owned (Text16 n) (rq_uuid (ar_request a)) (sdb (w_store (answer s a w).2))) as Hown.
  { eexists _, _. cbn. rewrite Hcerts, Hdevs, !lookup_insert_eq. done. }
  apply (answers_cert_owned s l) in Hown. fold w' in Hown. destruct Hown as (cr & dr & Hcr & Hid & Hdr).
  assert ((DeviceByCertSerial (Text16 n) (w_store w')).1 = Ok (scanDevice (rq_uuid (ar_request a)) dr)) as Hdev.
  { unfold DeviceByCertSerial, no_rows. rewrite query_ok by done. by rewrite Hcr, Hid, Hdr. }
  assert (Hcaller : caller (ar_request b) w' =
    if IsRevoked (scanDevice (rq_uuid (ar_request a)) dr) then None else Some (scanDevice (rq_uuid (ar_request a)) dr))
    by (unfold caller; by rewrite Hcert, Hdev).
  exists dr. split; [done|]. unfold IsRevoked, scanDevice in Hcaller. cbn [dev_RevokedAt] in Hcaller.
  destruct (dr_revoked_at dr) as [t|] eqn:Hrev; cbn [option_map] in Hcaller.
  - destruct (refused_answer s b _ _ w' Hroute' Hguarded Hcaller) as [-> _]. by apply code_of_json.
  - apply caller_served; [done..|]. rewrite Hcaller. unfold scanDevice. by rewrite Hrev.
Qed.
(** *** What a stranger learns, and what a throttled device is told *)

Lemma status_answer (s : Server) (a : arrival) (vals : list (string * string)) (w : world)
    (Hroute : at_route s a "GET /v1/status" vals) :
  ((answer s a w).1 =
     json_rw StatusOK (PStatus (MkStatusResponse APIVersion Version (Mode_String (PolicyMode (cfg s)))
       (format_rfc3339 (Unix (rq_now (ar_request a)))) (match ca s with Some c => Fingerprint c | None => "" end)))
       (new_response (ar_conn a)) ∨
   ∃ q, (answer s a w).1 = throttled_rw q (new_response (ar_conn a))) ∧
  limits_only w (answer s a w).2.
Proof.
  pose proof (at_route_entry _ _ _ _ _ Hroute eq_refl) as Hm.
  assert (Hans : answer s a w = finish (ar_request a) "GET /v1/status" (withGlobalUnauthLimit s (withIPLimit statusTier (statusLimit s)
    (handleStatus Version s)) (ar_request a) (MkCtx None (Some "GET /v1/status") vals) (start (ar_conn a) w))).
  { unfold answer, agent_serve. by rewrite (serve_matched _ _ _ _ _ _ _ _ _ _ _ _ Hm). }
  rewrite Hans. clear Hans Hm. set (c0 := MkCtx None _ vals).
  destruct (withGlobalUnauthLimit_run s (withIPLimit statusTier (statusLimit s) (handleStatus Version s)) (ar_request a) c0
    (start (ar_conn a) w)) as (w1 & [? ? ?] & [-> | [q ->]]).
  2: { split; [right; by exists q|by split]. }
  destruct (withIPLimit_run statusTier (statusLimit s) (handleStatus Version s) (ar_request a) c0
    (MkSt w1 (rw (start (ar_conn a) w)) (entry (start (ar_conn a) w)))) as (w2 & [? ? ?] & [-> | [q ->]]).
  { by apply elem_of_cons; left. }
  2: { split; [right; by exists q|]. cbn in *. split; cbn; congruence. }
  unfold handleStatus.
  match goal with |- context [writeJSON ?x ?y ?z] => destruct (writeJSON_run x y z) as [l ->] end.
  split; [by left|]. cbn in *. split; cbn; congruence.
Qed.

(** C16 The status route discloses five facts and nothing else. Whoever asks,
    and whatever the store and the Engine hold, the answer is the API and agent
    versions, the policy tier, the clock and the CA's fingerprint, or a 429; the
    database, the Engine and the stream slots are untouched. *)
Theorem status_discloses_only (s : Server) (a : arrival) (vals : list (string * string)) (w : world)
    (Hroute : at_route s a "GET /v1/status" vals) :
  ((answer s a w).1 =
     json_rw StatusOK (PStatus (MkStatusResponse APIVersion Version (Mode_String (PolicyMode (cfg s)))
       (format_rfc3339 (Unix (rq_now (ar_request a)))) (match ca s with Some c => Fingerprint c | None => "" end)))
       (new_response (ar_conn a)) ∨
   ∃ q, (answer s a w).1 = throttled_rw q (new_response (ar_conn a))) ∧
  limits_only w (answer s a w).2.
Proof. by eapply status_answer. Qed.

Lemma json_header k code p (w : response) :
  rs_status w = None → k ∉ ["Content-Type"; "Cache-Control"; "X-Content-Type-Options"] →
  ∃ h, rs_status (json_rw code p w) = Some (code, h) ∧ h !! k = rs_pending w !! k.
Proof.
  destruct w as [pend st bd und flt]. cbn. intros -> Hk. rewrite !not_elem_of_cons in Hk. destruct Hk as (? & ? & ? & _).
  unfold json_rw, rw_Write, conn. cbn.
  destruct flt as [|[e|] ?]; (eexists; split; [reflexivity|]); by rewrite !lookup_insert_ne by congruence.
Qed.

(** C15 A throttled device is told when to come back, and it is no lie: the
    answer is 429 with a Retry-After of a whole number of seconds, at least one,
    in which the limiter earns at least one request. The handler has not run:
    nothing but the time the device was last seen has changed, and no audit row
    is written. *)
Theorem throttled_device_told (s : Server) (a : arrival) (pat : string) (vals : list (string * string)) (w : world)
    (dev : Device) (Hroute : at_route s a pat vals) (Hguarded : pat ∉ publicRoutes)
    (Hcaller : caller (ar_request a) w = Some dev) (Hover : device_allowed (ar_request a) dev w = false)
    (Hlimit : (0 < deviceLimit s)%Q) :
  code_of (answer s a w).1 = StatusTooManyRequests ∧
  (∃ h n, rs_status (answer s a w).1 = Some (StatusTooManyRequests, h) ∧ h !! headerRetryAfter = Some (pretty n) ∧
     1 <= n ∧ (1 <= inject_Z n * deviceLimit s)%Q) ∧
  let d' := sdb (w_store (answer s a w).2) in
  (d' = sdb (w_store w) ∨ touched (dev_ID dev) (sdb (w_store w)) d') ∧
  w_docker (answer s a w).2 = w_docker w ∧ streams (answer s a w).2 = streams w.
Proof.
  destruct (guarded_route _ _ _ _ Hroute Hguarded) as [g Hm].
  assert (Hf : find_pat (table s a) pat = Some (requireDevice (withDeviceLimit s g))).
  { destruct (matched_route _ _ _ _ _ Hm) as [Hin _]. by apply find_pat_in; [apply table_patterns|]. }
  destruct (admitted_answer s a _ _ _ w dev Hroute Hf Hcaller) as (w1 & Ha & Hans). cbv zeta in Hans. rewrite Hover in Hans.
  destruct Hans as [-> [l ->]]. split; [apply throttled_code|]. split.
  2: { split; [exact (adm_db _ _ _ Ha)|]. split; [exact (adm_docker _ _ _ Ha)|exact (adm_streams _ _ _ Ha)]. }
  destruct (json_header headerRetryAfter StatusTooManyRequests (PError msgRateLimited)
    (rw_set headerRetryAfter (pretty (Z.max 1 (Qceiling (/ deviceLimit s)))) (new_response (ar_conn a)))) as (h & Hh & Hk);
    [done|apply (bool_decide_unpack _); vm_compute; exact Logic.I|].
  exists h, (Z.max 1 (Qceiling (/ deviceLimit s))). split; [exact Hh|].
  split; [rewrite Hk; cbn; apply lookup_insert_eq|]. split; [lia|].
  assert (/ deviceLimit s <= inject_Z (Z.max 1 (Qceiling (/ deviceLimit s))))%Q as Hc.
  { eapply Qle_trans; [apply Qle_ceiling|]. rewrite <- Zle_Qle. lia. }
  apply (Qle_trans _ (/ deviceLimit s * deviceLimit s)).
  - apply Qle_lteq. right. field. intros H0'. rewrite H0' in Hlimit. by apply Qlt_irrefl in Hlimit.
  - apply Qmult_le_compat_r; [exact Hc|by apply Qlt_le_weak].
Qed.

(** *** Stream slots *)

Definition sane (b : Budget.streamBudget) : Prop := ∀ d n, Budget.byDevice b !! d = Some n → 0 < n.

Lemma acquire_release b id : sane b →
  match Budget.acquire b id with
  | (Budget.streamGranted, b') => Budget.release_body b' id = b
  | (_, b') => b' = b
  end.
Proof.
  intros Hs. unfold Budget.acquire. destruct (_ <=? _); [done|]. destruct (_ <=? _); [done|].
  unfold Budget.release_body, Budget.count. cbn. rewrite lookup_insert_eq. cbn. destruct b as [m t mt mp]. cbn.
  replace (default 0 (m !! id) + 1 - 1) with (default 0 (m !! id)) by lia. replace (t + 1 - 1) with t by lia.
  rewrite insert_insert_eq. destruct (m !! id) as [n|] eqn:Hm; cbn.
  - specialize (Hs id n Hm). destruct (Z.leb_spec n 0); [lia|]. by rewrite insert_id.
  - by rewrite delete_insert_id.
Qed.

Definition slots_back (b b' : Budget.streamBudget) : Prop := sane b → b' = b.
#[local] Instance slots_back_preorder : PreOrder slots_back.
Proof. split; [by intros b|]. intros a b c Hab Hbc Ha. specialize (Hab Ha). subst b. by apply Hbc. Qed.

Lemma acquire_sane b id : sane b → sane (Budget.acquire b id).2.
Proof.
  intros Hs. unfold Budget.acquire. destruct (_ <=? _); [done|]. destruct (_ <=? _); [done|].
  intros d n. cbn. rewrite lookup_insert_Some. intros [[<- <-]|[_ Hn]]; [|by eapply Hs].
  unfold Budget.count. destruct (Budget.byDevice b !! id) as [m|] eqn:Hm; cbn; [|lia]. specialize (Hs _ _ Hm). lia.
Qed.

Lemma stream_handler_returns s (body : Client → Device → string → LogOptions → Comp (St (H := _) (H0 := _)) unit) :
  (∀ c d ref opts, moves always always slots_back (body c d ref opts)) →
  hmoves always always slots_back (handleStreamContainerLogs s body).
Proof.
  intros Hb r x. unfold handleStreamContainerLogs. apply requireDocker_moves; [apply _..|]. intros c.
  destruct (sinceParam r) as [since|]; [|moves_tac]. destruct (DeviceFrom x) as [d|]; [|moves_tac].
  intros st. unfold mbind at 1, comp_bind at 1, acquireStream.
  pose proof (acquire_release (streams (wld st)) (dev_ID d)) as Hs.
  pose proof (acquire_sane (streams (wld st)) (dev_ID d)) as Ha.
  destruct (Budget.acquire (streams (wld st)) (dev_ID d)) as [o b']. cbn [snd] in Ha.
  destruct o; [unfold defer_release, releaseStream, with_world, modify|..].
  - set (st1 := MkSt (set_streams (wld st) b') (rw st) (entry st)).
    pose proof (Hb c d (PathValue x "id") (MkLogOptions (tailParam r defaultStreamTail) since) st1) as (_ & _ & Hsl).
    destruct (body _ _ _ _ st1) as [res st2]. split; [done|]. split; [done|]. intros Hsane.
    cbn [wld snd streams set_streams] in *. rewrite (Hsl (Ha Hsane)). by apply Hs.
  - match goal with |- context [(?m ≫= ?k) ?st1] => assert (moves always always slots_back (m ≫= k)) as Hm by moves_tac;
      destruct (Hm st1) as (_ & _ & Hsl) end. split; [done|]. split; [done|]. intros Hsane.
    rewrite Hsl; cbn [streams set_streams wld]; [by apply Hs|by apply Ha].
  - match goal with |- context [(?m ≫= ?k) ?st1] => assert (moves always always slots_back (m ≫= k)) as Hm by moves_tac;
      destruct (Hm st1) as (_ & _ & Hsl) end. split; [done|]. split; [done|]. intros Hsane.
    rewrite Hsl; cbn [streams set_streams wld]; [by apply Hs|by apply Ha].
Qed.

(** C13 No stream slot leaks. Whatever a request is, however its stream goes and
    however it ends, once it has been served the budget is the one before it:
    the slot a log stream took is given back exactly once, and a request that
    was refused one takes none. *)
Theorem stream_slots_returned (s : Server) (a : arrival) (w : world) (Hsane : sane (streams w)) :
  streams (answer s a w).2 = streams w.
Proof.
  assert (Hst : ∀ A (m : Comp store A), steps always m) by by intros.
  assert (Hc : ∀ {A} (m : Comp store A), moves always always slots_back (callS m))
    by (intros; apply moves_callS; [apply _..|done]).
  assert (Hmv : Forall (λ ph, hmoves always always slots_back ph.2) (table s a)).
  { apply Forall_forall. intros ph Hin.
    destruct (proj1 (Forall_forall _ _) (table_kinds _ _ _ _ _ s) _ Hin).
    - eapply status_moves; apply _.
    - eapply pair_moves; try apply _; [done|]. intros c r code csr.
      unfold pairDevice, pairCreated, orphaned, deleteOrphanedDevice. repeat first [apply Hc | moves_step].
    - by eapply identity_moves; try apply _.
    - by eapply read_moves; try apply _.
    - apply guard_moves, requireOp_moves; try apply _; [done|]. apply stream_handler_returns.
      intros c d ref opts. by apply logStream_moves; try apply _.
    - by eapply mutate_moves; try apply _. }
  destruct (serve_moves hash Version keys (logStream keys (ar_lsc a)) (handleEventStream (ar_esc a))
    always always slots_back s (ar_request a) (ar_conn a) w Hmv) as (_ & _ & Hb). by apply Hb.
Qed.
End Properties.

(** ** The theorems on the small agent *)

Definition toy_arrival (r : Request) : arrival :=
  MkArrival r [] (MkLogSchedule [] [] [] [] []) (MkEventSchedule (Ok tt) [] []).
Definition toy_pair_request : Request :=
  MkRequest "POST" ["v1"; "pair"] (λ _, "") "192.0.2.1:4711" None
    (λ _, Decoded (λ k, if bool_decide (k = "csr_pem") then enc (pemTypeCertificateRequest, enc 6) else "CODE"))
    (10 * Second) "d2" (Ok 77).
(** The requests the examples send: with the certificate of "phone" (serial 255)
    or without one. *)
Definition from_phone (method : string) (path : list string) : arrival := toy_arrival (toy_request method path [255]).
Definition from_nobody (method : string) (path : list string) : arrival := toy_arrival (toy_request method path []).
Definition phone : Device := MkDevice "d1" "phone" 0 None None.
Definition toy_server (m : Mode) : Server (H1 := ToyCrypto) := (toy_agent m).1.
Definition toy_start (m : Mode) : world (H := ToyEngine) (H0 := Ticks) := (toy_agent m).2.
Notation toy_answer m a w :=
  (answer (H := ToyEngine) (H0 := Ticks) (H1 := ToyCrypto) toy_hash "1.0" keys_of (toy_server m) a w).
Notation toy_answers m l w :=
  (answers (H := ToyEngine) (H0 := Ticks) (H1 := ToyCrypto) toy_hash "1.0" keys_of (toy_server m) l w).
Notation toy_route m a pat vals :=
  (at_route (H := ToyEngine) (H0 := Ticks) (H1 := ToyCrypto) toy_hash "1.0" keys_of (toy_server m) a pat vals).

(** A route is found by evaluation, its handler left aside. *)
Lemma toy_matched m a pat vals :
  (λ '(p, _, v), (p, v)) <$>
    matched (table (H := ToyEngine) (H0 := Ticks) (H1 := ToyCrypto) toy_hash "1.0" keys_of (toy_server m) a) (ar_request a)
    = Some (pat, vals) → toy_route m a pat vals.
Proof. unfold at_route. destruct (matched _ _) as [[[p h] v]|]; cbn; [|discriminate]. intros [= -> ->]. by exists h. Qed.
Ltac routed := apply toy_matched; vm_compute; reflexivity.
Ltac unlisted := apply (bool_decide_unpack _); vm_compute; exact Logic.I.

Lemma unauthenticated_refused_witness :
  code_of (toy_answer 1 (from_nobody "POST" ["v1"; "containers"; "web"; "stop"]) (toy_start 1)).1 = StatusUnauthorized.
Proof.
  refine (proj1 (proj2 (unauthenticated_refused toy_hash "1.0" keys_of (toy_server 1)
    (from_nobody "POST" ["v1"; "containers"; "web"; "stop"]) "POST /v1/containers/{id}/stop" [("id", "web")]
    (toy_start 1) _ _ _))); [routed|unlisted|vm_compute; reflexivity].
Defined.

Lemma unpaired_device_locked_out_witness :
  code_of (toy_answer 1 (from_phone "GET" ["v1"; "images"])
    (toy_answers 1 [from_phone "GET" ["v1"; "containers"]]
      (toy_answer 1 (from_phone "DELETE" ["v1"; "device"; "self"]) (toy_start 1)).2)).1 = StatusUnauthorized.
Proof.
  apply (unpaired_device_locked_out toy_hash "1.0" keys_of (toy_server 1) (from_phone "DELETE" ["v1"; "device"; "self"])
    (from_phone "GET" ["v1"; "images"]) [] [] "GET /v1/images"); [routed|vm_compute; reflexivity|reflexivity|routed|unlisted].
Defined.

Lemma mutation_audited_witness :
  code_of (toy_answer 1 (from_phone "POST" ["v1"; "containers"; "web"; "kill"]) (toy_start 1)).1 = StatusForbidden.
Proof.
  pose proof (mutation_audited toy_hash "1.0" keys_of (toy_server 1) (from_phone "POST" ["v1"; "containers"; "web"; "kill"])
    LKill [("id", "web")] (toy_start 1) phone) as Hm.
  destruct (toy_answer 1 (from_phone "POST" ["v1"; "containers"; "web"; "kill"]) (toy_start 1)) as [resp w'] eqn:Ha.
  replace (device_allowed _ _ _) with true in Hm by (vm_compute; reflexivity).
  destruct Hm as (row & _ & _ & Hd); [routed|vm_compute; reflexivity|].
  replace (Allows _ _) with false in Hd by (vm_compute; reflexivity). apply Hd.
Defined.

Lemma toy_referential : referential (sdb (w_store (toy_start 1))).
Proof.
  apply map_Forall_to_list. vm_compute. repeat constructor. eexists. reflexivity.
Qed.

Lemma pairing_all_or_nothing_witness :
  code_of (toy_answer 1 (toy_arrival toy_pair_request) (toy_start 1)).1 = StatusCreated ∧
  ∃ row, audit (sdb (w_store (toy_answer 1 (toy_arrival toy_pair_request) (toy_start 1)).2)) =
           audit (sdb (w_store (toy_start 1))) ++ [row] ∧ ar_outcome row = OutcomeSuccess.
Proof.
  assert (code_of (toy_answer 1 (toy_arrival toy_pair_request) (toy_start 1)).1 = StatusCreated) as Hc by (vm_compute; reflexivity).
  pose proof (pairing_all_or_nothing toy_hash "1.0" keys_of (toy_server 1) (toy_arrival toy_pair_request) [] (toy_start 1)) as Hp.
  cbv zeta in Hp. rewrite decide_True in Hp by exact Hc. split; [exact Hc|].
  destruct Hp as (? & ? & ? & ? & row & _ & _ & _ & _ & _ & [Hr|[_ Hf]] & _ & _ & Ho); [routed|exact toy_referential| |by destruct Hf].
  exists row. split; [exact Hr|exact Ho].
Defined.

Lemma paired_device_admitted_witness :
  let b := toy_arrival (toy_request "GET" ["v1"; "containers"] [77]) in
  let w' := toy_answers 1 [from_phone "GET" ["v1"; "containers"]] (toy_answer 1 (toy_arrival toy_pair_request) (toy_start 1)).2 in
  ∃ row, devices (sdb (w_store w')) !! "d2" = Some row ∧
    match dr_revoked_at row with
    | Some _ => code_of (toy_answer 1 b w').1 = StatusUnauthorized
    | None => served_as (H := ToyEngine) (H0 := Ticks) (H1 := ToyCrypto) toy_hash "1.0" keys_of
                (scanDevice "d2" row) (toy_server 1) b "GET /v1/containers" [] w'
    end.
Proof.
  exact (paired_device_admitted toy_hash "1.0" keys_of (toy_server 1) (toy_arrival toy_pair_request)
    (toy_arrival (toy_request "GET" ["v1"; "containers"] [77])) [] [] "GET /v1/containers"
    [from_phone "GET" ["v1"; "containers"]] (toy_start 1) 77 []
    ltac:(routed) ltac:(vm_compute; reflexivity) eq_refl eq_refl ltac:(routed) ltac:(unlisted) ltac:(vm_compute; reflexivity)).
Defined.

Lemma status_discloses_only_witness :
  limits_only (toy_start 1) (toy_answer 1 (from_nobody "GET" ["v1"; "status"]) (toy_start 1)).2.
Proof.
  apply (status_discloses_only toy_hash "1.0" keys_of (toy_server 1) (from_nobody "GET" ["v1"; "status"]) []). routed.
Defined.

(** "phone" has used up its burst. *)
Definition drained (w : world (H := ToyEngine) (H0 := Ticks)) : world :=
  set_deviceLimits w (Nat.iter 40 (λ g, (Allow g "d1" (10 * Second)).2) (deviceLimits w)).

Lemma throttled_device_told_witness :
  code_of (toy_answer 1 (from_phone "GET" ["v1"; "images"]) (drained (toy_start 1))).1 = StatusTooManyRequests.
Proof.
  refine (proj1 (throttled_device_told toy_hash "1.0" keys_of (toy_server 1) (from_phone "GET" ["v1"; "images"])
    "GET /v1/images" [] (drained (toy_start 1)) phone _ _ _ _ _)); [routed|unlisted|vm_compute; reflexivity..].
Defined.

Lemma stream_slots_returned_witness :
  streams (toy_answer 1 (from_phone "GET" ["v1"; "containers"; "web"; "logs"; "stream"]) (toy_start 1)).2 =
  streams (toy_start 1).
Proof.
  apply (stream_slots_returned toy_hash "1.0" keys_of). intros d n.
  change ((∅ : gmap string Z) !! d = Some n → 0 < n). by rewrite lookup_empty.
Defined.

(** A pairing request whose body does not decode is answered 400 and audited
    as a success: [handlePair] returns without setting the outcome, which the
    middleware has preset, where [handleRenew] sets it. *)
Lemma pair_bad_body_says_success :
  let a := from_nobody "POST" ["v1"; "pair"] in
  code_of (toy_answer 1 a (toy_start 1)).1 = StatusBadRequest ∧
  map ar_outcome (audit (sdb (w_store (toy_answer 1 a (toy_start 1)).2))) = [OutcomeSuccess].
Proof. vm_compute. split; reflexivity. Qed.

(** Over its rate a device's mutating request leaves no row, as C1 says. *)
Lemma throttled_leaves_no_row :
  let a := from_phone "POST" ["v1"; "containers"; "web"; "stop"] in
  let w := drained (toy_start 1) in
  code_of (toy_answer 1 a w).1 = StatusTooManyRequests ∧
  audit (sdb (w_store (toy_answer 1 a w).2)) = audit (sdb (w_store w)).
Proof. vm_compute. split; reflexivity. Qed.

(** Without a Docker client a lifecycle request is answered 502 and audited as
    a success: [requireDocker] answers without setting the outcome, where
    [requireCA] sets it. *)
Definition undocked_server : Server (H1 := ToyCrypto) :=
  (NewServer (H := ToyEngine) (H0 := Ticks) (H1 := ToyCrypto) toy_limit (toy_config 1) (Some toy_ca) None toy_store toy_world).1.
Lemma undocked_says_success :
  let a := from_phone "POST" ["v1"; "containers"; "web"; "stop"] in
  let x := answer (H := ToyEngine) (H0 := Ticks) (H1 := ToyCrypto) toy_hash "1.0" keys_of undocked_server a (toy_start 1) in
  code_of x.1 = StatusBadGateway ∧
  map ar_outcome (audit (sdb (w_store x.2))) = [OutcomeSuccess].
Proof. vm_compute. split; reflexivity. Qed.

(** A pairing whose second statement fails is rolled back; when the statement
    that rolls it back fails too, the new device's row is left, revocable but
    without a certificate. *)
Definition failing (fs : list (option error)) : world (H := ToyEngine) (H0 := Ticks) :=
  set_store (toy_start 1) (MkStore (sdb (w_store (toy_start 1))) fs).
Lemma orphan_left :
  let ids fs := map fst (map_to_list (devices (sdb (w_store (toy_answer 1 (toy_arrival toy_pair_request) (failing fs)).2)))) in
  ids [None; Some (Leaf "context canceled")] = ["d1"] ∧
  ids [None; Some (Leaf "context canceled"); Some (Leaf "disk full")] = ["d1"; "d2"].
Proof. vm_compute. split; reflexivity. Qed.
