(* ===== verification/Wire.v ===== *)
(** * Wire: the bytes of the event streams, and a client that reads them
    (the frames of internal/httpapi/sse.go; internal/e2e/harness/stream.go)

    [sseWriter.event] formats a frame around the JSON of its payload; the
    end-to-end suite's [parseSSEBlock] and [readLoop] are the repository's own
    reader of that format. The theorems run the one against the other: what a
    client sees of a log stream, wherever the connection is cut. *)
From S2P Require Import Prelude GoTime LogFraming Policy Refs RateLimit Streams EventHub.
From S2P Require Import Engine Dto DockerClient Store GoStrings GoJson Config Logging Certs HttpCore.
From S2P Require Import HttpHandlers Sse.

(** ** Writing *)

Definition omitempty (key s : string) : list (string * json) :=
  if bool_decide (s = "") then [] else [(key, JString s)].

(** The field tags of [LogLine], [ContainerStateSummary], [ContainerEvent] and
    [errorBody]. *)
Definition LogLine_json (l : LogLine) : json :=
  JObject ([("ts", JString (ll_Timestamp l)); ("stream", JString (ll_Stream l)); ("line", JString (ll_Line l))] ++
           if ll_Truncated l then [("truncated", JBool true)] else []).
Definition ContainerStateSummary_json (c : ContainerStateSummary) : json :=
  JObject [("id", JString (css_ID c)); ("name", JString (css_Name c)); ("state", JString (css_State c));
           ("health", JString (css_Health c))].
Definition ContainerEvent_json (e : ContainerEvent) : json :=
  JObject ([("id", JString (ce_ID e)); ("name", JString (ce_Name e)); ("event", JString (ce_Event e))] ++
           omitempty "health" (ce_Health e) ++ [("time", JString (ce_Time e))]).
Definition errorBody_json (msg : string) : json := JObject [("error", JString msg)].

(** The payloads the two streams send. *)
Definition payload_json (p : payload) : option json :=
  match p with
  | PLine l => Some (LogLine_json l)
  | PSnapshot l => Some (JArray (map ContainerStateSummary_json l))
  | PHealth e => Some (ContainerEvent_json e)
  | PError msg => Some (errorBody_json msg)
  | _ => None
  end.

(** Lines, and the blank line that ends them. *)
Definition block (lines : list string) : string := foldr (λ l s, l +:+ String newline s) (String newline "") lines.

(** What [fmt.Fprintf] writes in [event] and in [comment]. *)
Definition frame_lines (p : payload) : option (list string) :=
  match p with
  | PEvent id name data => j ← payload_json data; Some ["id: " +:+ id; "event: " +:+ name; "data: " +:+ Marshal j]
  | PComment text => Some [": " +:+ text]
  | _ => None
  end.
(** The bytes of a stream's body. *)
Definition wire (body : list payload) : option string := ls ← mapM frame_lines body; Some (foldr (λ l s, block l +:+ s) "" ls).

(** ** Reading: internal/e2e/harness/stream.go *)

(** [type SSEFrame struct] *)
Record SSEFrame : Set := MkSSEFrame { fr_ID : string; fr_Event : string; fr_Data : string }.

(** [func (f SSEFrame) isKeepaliveOnly] *)
Definition isKeepaliveOnly (f : SSEFrame) : bool := bool_decide (fr_ID f = "") && bool_decide (fr_Event f = "").

(** [r.ReadString('\n')] on what is left of a body that ends with [e]. *)
Definition read_line (e : error) (rest : string) : string * option error * string :=
  match cut newline rest with
  | Some (l, rest) => (l +:+ String newline "", None, rest)
  | None => (rest, Some e, "")
  end.

(** The [switch] of [parseSSEBlock]. *)
Definition parse_field (trimmed : string) (frame : SSEFrame) (sawContent : bool) : SSEFrame * bool :=
  if has_prefix "id: " trimmed
  then (MkSSEFrame (trim_prefix "id: " trimmed) (fr_Event frame) (fr_Data frame), true)
  else if has_prefix "event: " trimmed
  then (MkSSEFrame (fr_ID frame) (trim_prefix "event: " trimmed) (fr_Data frame), true)
  else if has_prefix "data: " trimmed
  then (MkSSEFrame (fr_ID frame) (fr_Event frame) (trim_prefix "data: " trimmed), true)
  else if has_prefix ":" trimmed then (frame, true)
  else (frame, sawContent).

(** [func parseSSEBlock]: a frame and whether it is a keepalive, or the error;
    and what is left. Each turn consumes a line. *)
Fixpoint parse_loop (fuel : nat) (e : error) (rest : string) (frame : SSEFrame) (sawContent : bool)
    : option (result (SSEFrame * bool) * string) :=
  match fuel with
  | O => None
  | S fuel =>
      let '(line, readErr, rest) := read_line e rest in
      let trimmed := TrimRight_crlf line in
      if has_suffix (String newline "") line && bool_decide (trimmed = "") then
        if negb sawContent then
          match readErr with Some err => Some (Err err, rest) | None => parse_loop fuel e rest frame sawContent end
        else Some (Ok (frame, isKeepaliveOnly frame), rest)
      else
        let '(frame, sawContent) := parse_field trimmed frame sawContent in
        match readErr with Some err => Some (Err err, rest) | None => parse_loop fuel e rest frame sawContent end
  end.
Definition parseSSEBlock (e : error) (rest : string) : result (SSEFrame * bool) * string :=
  default (Err e, "") (parse_loop (S (String.length rest)) e rest (MkSSEFrame "" "" "") false).

(** [func (s *Stream) readLoop]: the frames delivered, the keepalives counted
    and the error it ended with. *)
Record Stream : Set := MkStream { st_Frames : list SSEFrame; st_keepalives : nat; st_readErr : error }.
Fixpoint read_loop (fuel : nat) (e : error) (rest : string) : option Stream :=
  match fuel with
  | O => None
  | S fuel =>
      match parseSSEBlock e rest with
      | (Err err, _) => Some (MkStream [] 0 err)
      | (Ok (frame, keepalive), rest) =>
          s ← read_loop fuel e rest;
          Some (if keepalive then MkStream (st_Frames s) (S (st_keepalives s)) (st_readErr s)
                else MkStream (frame :: st_Frames s) (st_keepalives s) (st_readErr s))
      end
  end.
Definition readLoop (e : error) (body : string) : Stream :=
  default (MkStream [] 0 e) (read_loop (S (String.length body)) e body).

(** ** Lemmas *)

Definition clean (s : string) : Prop := free_of newline s = true ∧ free_of "013" s = true.

Lemma TrimRight_line l : clean l → TrimRight_crlf (l +:+ String newline "") = l.
Proof.
  intros [Hn Hr]. induction l as [|c l IH]; [done|]. rewrite append_cons. cbn [TrimRight_crlf].
  apply free_of_cons in Hn as [Hcn Hn], Hr as [Hcr Hr]. rewrite IH by done.
  change Logging.newline with newline. by rewrite Hcn, Hcr, andb_false_r.
Qed.

Lemma read_line_whole e l rest : free_of newline l = true →
  read_line e (l +:+ String newline rest) = (l +:+ String newline "", None, rest).
Proof.
  intros Hl. unfold read_line. rewrite (cut_app newline) by done. cbn [cut]. rewrite Ascii.eqb_refl. cbn.
  by rewrite append_nil_r.
Qed.
Lemma read_line_part e s : free_of newline s = true → read_line e s = (s, Some e, "").
Proof. intros Hs. unfold read_line. by rewrite (cut_free newline). Qed.

Lemma suffix_line l : has_suffix (String newline "") (l +:+ String newline "") = true.
Proof.
  unfold has_suffix. rewrite length_append. cbn [String.length].
  replace (String.length l + 1 - 1)%nat with (String.length l) by lia. rewrite drop_bytes_app.
  apply andb_true_iff. split; [apply Nat.leb_le; lia|by apply bool_decide_eq_true].
Qed.
Lemma suffix_free s : free_of newline s = true → has_suffix (String newline "") s = false.
Proof.
  intros Hs. unfold has_suffix. apply andb_false_iff. right. apply bool_decide_eq_false. intros Hd.
  apply (free_of_drop newline (String.length s - 1)) in Hs. cbn [String.length] in Hd. rewrite Hd in Hs. done.
Qed.

(** A line a frame may have: not blank, with no line break in it. *)
Definition good_line (l : string) : Prop := clean l ∧ l ≠ "".
Definition fold_fields (lines : list string) (fs : SSEFrame * bool) : SSEFrame * bool :=
  foldl (λ '(f, s) l, parse_field l f s) fs lines.

(** The parser on a whole block, whatever follows it. *)
Lemma parse_loop_block lines e rest fuel f s : Forall good_line lines → (List.length lines < fuel)%nat →
  (fold_fields lines (f, s)).2 = true →
  parse_loop fuel e (block lines +:+ rest) f s =
    Some (Ok ((fold_fields lines (f, s)).1, isKeepaliveOnly (fold_fields lines (f, s)).1), rest).
Proof.
  intros Hl. revert f s fuel. induction Hl as [|l lines [Hc Hne] Hl IH]; intros f s [|fuel] Hf Hs; cbn in Hf; try lia.
  - cbn [parse_loop block foldr]. rewrite append_cons, append_nil.
    pose proof (read_line_whole e "" rest eq_refl) as Hr. rewrite !append_nil in Hr. rewrite Hr. cbn. cbn in Hs. by rewrite Hs.
  - cbn [block foldr]. fold (block lines). rewrite append_app, append_cons. cbn [parse_loop].
    rewrite read_line_whole by apply Hc. rewrite TrimRight_line by done.
    rewrite (bool_decide_eq_false_2 (l = "")) by done. rewrite andb_false_r.
    change (fold_fields (l :: lines) (f, s)) with (fold_fields lines (parse_field l f s)) in *.
    destruct (parse_field l f s) as [f' s']. apply IH; [lia|done].
Qed.

(** The parser on a block that is cut short. *)
Lemma parse_loop_cut lines e n fuel f s : Forall good_line lines → (n < fuel)%nat →
  (n < String.length (block lines))%nat →
  parse_loop fuel e (take_bytes n (block lines)) f s = Some (Err e, "").
Proof.
  assert (Hpart : ∀ fuel s f b, free_of newline s = true → parse_loop (S fuel) e s f b = Some (Err e, "")).
  { intros k t g b Ht. cbn [parse_loop]. rewrite read_line_part, suffix_free by done. cbn [andb].
    by destruct (parse_field _ g b). }
  intros Hl. revert n f s fuel. induction Hl as [|l lines [Hc Hne] Hl IH]; intros n f s [|fuel] Hf Hn; cbn in Hf; try lia.
  - cbn in Hn. replace n with 0%nat by lia. by apply Hpart.
  - cbn [block foldr] in *. fold (block lines) in *. rewrite length_append in Hn. cbn in Hn.
    destruct (decide (n ≤ String.length l)%nat).
    + rewrite take_app_le by done. apply Hpart. apply free_of_take. apply Hc.
    + rewrite take_app_ge by lia. destruct (n - String.length l)%nat as [|m] eqn:Hm; [lia|]. cbn [take_bytes parse_loop].
      rewrite read_line_whole by apply Hc. rewrite TrimRight_line by done.
      rewrite (bool_decide_eq_false_2 (l = "")) by done. rewrite andb_false_r.
      destruct (parse_field l f s) as [f' s']. apply IH; lia.
Qed.

(** *** Frames *)

(** What a reader makes of a payload sent as a frame. *)
Definition frame_of (p : payload) : option SSEFrame :=
  match p with PEvent id name data => j ← payload_json data; Some (MkSSEFrame id name (Marshal j)) | _ => None end.
Definition is_comment (p : payload) : bool := match p with PComment _ => true | _ => false end.

(** The frames the agent sends: an event has a name, and no line break. *)
Definition sendable (p : payload) : Prop :=
  match p with
  | PEvent id name data => clean id ∧ clean name ∧ name ≠ "" ∧ is_Some (payload_json data)
  | PComment text => clean text
  | _ => False
  end.

Lemma clean_app a b : clean a → clean b → clean (a +:+ b).
Proof. intros [H1 H2] [H3 H4]. split; rewrite free_of_app; [by rewrite H1, H3|by rewrite H2, H4]. Qed.
Lemma clean_Marshal j : clean (Marshal j).
Proof. split; apply (forallb_free visible), Marshal_visible; reflexivity. Qed.

Lemma parse_fields x f s :
  parse_field ("id: " +:+ x) f s = (MkSSEFrame x (fr_Event f) (fr_Data f), true) ∧
  parse_field ("event: " +:+ x) f s = (MkSSEFrame (fr_ID f) x (fr_Data f), true) ∧
  parse_field ("data: " +:+ x) f s = (MkSSEFrame (fr_ID f) (fr_Event f) x, true).
Proof.
  repeat split; unfold parse_field, trim_prefix.
  - by rewrite prefix_app, drop_bytes_app.
  - change (has_prefix "id: " ("event: " +:+ x)) with false. by rewrite prefix_app, drop_bytes_app.
  - change (has_prefix "id: " ("data: " +:+ x)) with false. change (has_prefix "event: " ("data: " +:+ x)) with false.
    by rewrite prefix_app, drop_bytes_app.
Qed.

Lemma sendable_lines p : sendable p → ∃ ls, frame_lines p = Some ls ∧ Forall good_line ls ∧ (List.length ls < String.length (block ls))%nat ∧
  fold_fields ls (MkSSEFrame "" "" "", false) = (default (MkSSEFrame "" "" "") (frame_of p), true) ∧
  isKeepaliveOnly (default (MkSSEFrame "" "" "") (frame_of p)) = is_comment p ∧ (is_comment p = false → is_Some (frame_of p)).
Proof.
  destruct p as [| | | | | | | | | | | | | | | |i name data|text|]; cbn [sendable]; try done.
  - intros (Hid & Hname & Hne & j & Hj). cbn [frame_lines frame_of]. rewrite Hj. cbn [mbind option_bind default from_option id].
    eexists. split; [reflexivity|].
    split; [repeat (constructor; [split; [apply clean_app; [by split|first [done|apply clean_Marshal]]|done]|]); constructor|].
    split; [cbn [block foldr]; rewrite !length_append; cbn; lia|].
    split; [|split; [unfold isKeepaliveOnly; cbn; by rewrite (bool_decide_eq_false_2 (name = "")), andb_false_r|by eexists]].
    unfold fold_fields. cbn [foldl]. rewrite (proj1 (parse_fields i _ _)). cbn beta iota.
    rewrite (proj1 (proj2 (parse_fields name _ _))). cbn beta iota. by rewrite (proj2 (proj2 (parse_fields (Marshal j) _ _))).
  - intros Ht. eexists. split; [reflexivity|]. split; [constructor; [split; [apply clean_app; [by split|exact Ht]|done]|constructor]|].
    split; [cbn [block foldr]; rewrite !length_append; cbn; lia|]. done.
Qed.

Lemma length_take_exact n s : (n ≤ String.length s)%nat → String.length (take_bytes n s) = n.
Proof. revert n. induction s as [|c s IH]; intros [|n] Hn; cbn in Hn; try (done || lia). cbn. by rewrite IH by lia. Qed.

(** A body, cut anywhere: the frames that arrived whole, then the error the
    connection ended with. *)
Lemma read_loop_cut body e : ∀ text n fuel, wire body = Some text → Forall sendable body →
  (String.length (take_bytes n text) < fuel)%nat →
  ∃ k, read_loop fuel e (take_bytes n text) =
         Some (MkStream (omap frame_of (take k body)) (List.length (List.filter is_comment (take k body))) e) ∧
       ((String.length text ≤ n)%nat → take k body = body).
Proof.
  induction body as [|p body IH]; intros text n fuel Hw Hs Hf.
  - unfold wire in Hw. cbn in Hw. injection Hw as <-. destruct fuel as [|fuel]; [lia|].
    assert (take_bytes n "" = "") as -> by by destruct n. exists 0%nat. split; [reflexivity|done].
  - apply Forall_cons in Hs as [Hp Hs]. destruct (sendable_lines p Hp) as (ls & Hls & Hgood & Hlen & Hfold & Hk & Hfr).
    unfold wire in Hw. cbn in Hw. rewrite Hls in Hw. cbn in Hw. destruct (mapM frame_lines body) as [lss|] eqn:Hm; [|done].
    cbn in Hw. injection Hw as <-. set (text := foldr (λ l s, block l +:+ s) "" lss) in *.
    assert (Hw : wire body = Some text) by (unfold wire; by rewrite Hm).
    destruct fuel as [|fuel]; [lia|]. destruct (decide (n < String.length (block ls))%nat) as [Hn|Hn].
    + exists 0%nat. rewrite take_app_le in * by lia. cbn [read_loop]. unfold parseSSEBlock. split; [|rewrite length_append; lia].
      by rewrite length_take_exact, parse_loop_cut by (done || lia).
    + rewrite take_app_ge in * by lia. rewrite length_append in Hf. cbn [read_loop]. unfold parseSSEBlock.
      rewrite parse_loop_block; [|done|rewrite length_append; lia|by rewrite Hfold].
      rewrite Hfold. cbn [default from_option fst Datatypes.id]. rewrite Hk.
      destruct (IH text (n - String.length (block ls))%nat fuel Hw Hs ltac:(lia)) as (k & Hread & Hend).
      exists (S k). rewrite Hread. cbn [mbind option_bind take omap list_omap List.filter st_Frames st_keepalives st_readErr].
      split; [|rewrite length_append; intros ?; rewrite Hend; [done|lia]].
      destruct (is_comment p) eqn:Hc; [by destruct p|]. destruct (Hfr eq_refl) as [fr ->]. done.
Qed.

(** Reading ends, and never for want of fuel. *)
Lemma parse_loop_total fuel e rest f s : (String.length rest < fuel)%nat →
  ∃ r rest', parse_loop fuel e rest f s = Some (r, rest') ∧ (is_ok r = true → (String.length rest' < String.length rest)%nat).
Proof.
  revert rest f s. induction fuel as [|fuel IH]; intros rest f s Hf; [lia|]. cbn [parse_loop]. unfold read_line.
  destruct (cut newline rest) as [[l rest']|] eqn:Hcut.
  - pose proof (cut_shorter _ _ _ _ Hcut). case_match; [destruct s; cbn [negb]; [eexists _, _; split; [reflexivity|intros _; lia]|]|destruct (parse_field _ f s) as [f' s']].
    + destruct (IH rest' f false ltac:(lia)) as (r & q & -> & Hr). exists r, q. split; [done|]. intros Hok. specialize (Hr Hok). lia.
    + destruct (IH rest' f' s' ltac:(lia)) as (r & q & -> & Hr). exists r, q. split; [done|]. intros Hok. specialize (Hr Hok). lia.
  - destruct (has_suffix _ rest) eqn:Hsuf; cbn [andb]; [|destruct (parse_field _ f s); eexists _, _; by split].
    rewrite suffix_free in Hsuf by (by apply cut_none_free). done.
Qed.

Lemma read_loop_total fuel e rest : (String.length rest < fuel)%nat → is_Some (read_loop fuel e rest).
Proof.
  revert rest. induction fuel as [|fuel IH]; intros rest Hf; [lia|]. cbn [read_loop]. unfold parseSSEBlock.
  destruct (parse_loop_total (S (String.length rest)) e rest (MkSSEFrame "" "" "") false ltac:(lia)) as (r & q & -> & Hr).
  cbn. destruct r as [[fr k]|]; [|by eexists]. specialize (Hr eq_refl).
  destruct (IH q ltac:(lia)) as [x ->]. by eexists.
Qed.

Lemma wire_total body : Forall sendable body → is_Some (wire body).
Proof.
  intros Hs. unfold wire. destruct (mapM_is_Some_2 frame_lines body) as [ls ->]; [|by eexists].
  eapply Forall_impl; [exact Hs|]. intros p Hp. destruct (sendable_lines p Hp) as (ls & Hls & _). exists ls. exact Hls.
Qed.

(** *** The frames of a log stream *)

Definition log_frame (l : LogLine) : SSEFrame := MkSSEFrame (ll_Timestamp l) sseEventLog (Marshal (LogLine_json l)).
Definition is_log (f : SSEFrame) : bool := bool_decide (fr_Event f = sseEventLog).

(** What a log stream may send: its lines under their timestamps, the terminal
    error, a keepalive. *)
Definition log_payload (p : payload) : Prop :=
  match p with
  | PEvent id name (PLine l) => id = ll_Timestamp l ∧ name = sseEventLog ∧ made l
  | PEvent id name (PError _) => id = "" ∧ name = sseEventError
  | PComment text => text = "keepalive"
  | _ => False
  end.

Lemma made_timestamp l : made l → clean (ll_Timestamp l).
Proof.
  intros (k & b & t & ->). unfold mkLine, extractTimestamp.
  destruct (cut " " _) as [[pre rest]|]; [|split; reflexivity].
  destruct (parse_rfc3339nano pre) as [ts|] eqn:Hp; [|split; reflexivity]. cbn.
  apply parse_stamp_chars in Hp. split; by apply (forallb_free stamp_char).
Qed.

Lemma log_payload_sendable p : log_payload p → sendable p.
Proof.
  destruct p as [| | | | | | | | | | | | | | | |id name data|text|]; cbn; try done.
  - destruct data; try done.
    + intros [-> ->]. repeat split; done.
    + intros (-> & -> & Hm). split; [by apply made_timestamp|]. repeat split; done.
  - intros ->. split; reflexivity.
Qed.

Lemma frames_lines b : Forall log_payload b → List.filter is_log (omap frame_of b) = map log_frame (omap line_of b).
Proof.
  induction 1 as [|p b Hp Hb IH]; [done|].
  destruct p as [| | | | | | | | | | | | | | | |id name data|text|]; try done.
  destruct data; try done; cbn in Hp.
  - destruct Hp as [-> ->]. exact IH.
  - destruct Hp as (-> & -> & _). exact (f_equal (cons (log_frame l)) IH).
Qed.
Lemma frames_errors b : Forall log_payload b →
  List.length (List.filter (λ f, negb (is_log f)) (omap frame_of b)) = error_frames b.
Proof.
  unfold error_frames. induction 1 as [|p b Hp Hb IH]; [done|].
  destruct p as [| | | | | | | | | | | | | | | |id name data|text|]; try done.
  destruct data; try done; cbn in Hp.
  - destruct Hp as [-> ->]. exact (f_equal S IH).
  - destruct Hp as (-> & -> & _). exact IH.
Qed.
Lemma error_frames_take k b : (error_frames (take k b) ≤ error_frames b)%nat.
Proof. rewrite <- (take_drop k b) at 2. unfold error_frames. rewrite List.filter_app, length_app. lia. Qed.

Section Client.
Context `{EngineApi, TokenBucket, Crypto}.

(** C39 What the client reads is what the container wrote. On a connection that
    does not fail at the agent's end, with no keepalive tick once the Engine's
    stream has ended, a log stream either is answered with an error status, or its bytes read back through the repository's own reader as
    the lines of the demultiplexer, in order and each under its own timestamp,
    plus at most one other frame, the terminal error. If the connection is cut
    after any number of bytes, the client has the whole frames that arrived, a
    prefix of those lines, no torn one, and knows the error it was cut with. *)
Theorem client_reads_log keys sc c device ref opts (st : HttpCore.St (H := _) (H0 := _)) (e : error) (n : nat)
    (Hst : untouched st) (Hconn : rs_faults (rw st) = []) (Htick : STick ∉ sc_respond sc ++ sc_end sc) :
  let w := rw (ss_st (log_stream_run keys sc c device ref opts st)) in
  let lines := (StreamContainerLogs keys ref opts collect [] (w_docker (wld st))).2.2 in
  error_response w ∨
  ∃ text, wire (rs_body w) = Some text ∧
    let client := readLoop e (take_bytes n text) in
    let got := List.filter is_log (st_Frames client) in
    got `prefix_of` map log_frame lines ∧ st_readErr client = e ∧
    (List.length (List.filter (λ f, negb (is_log f)) (st_Frames client)) ≤ 1)%nat ∧
    ((String.length text ≤ n)%nat → got = map log_frame lines).
Proof.
  intros w lines. destruct (log_stream_shape keys sc c device ref opts st Hst Hconn Htick) as [[Hone Hframes _]|He]; [right|by left].
  pose proof (log_stream_sent (λ out b, Forall (λ p, log_payload p ∨ ∃ msg, p = PError msg) b ∧ omap line_of b = out)
    keys sc c device ref opts st) as Hsent.
  destruct Hsent as [Hall Hlines]; [| |done|done|done|].
  { intros out b p Hq [Hb Ho]. split; [|by apply quiet_no_line]. apply Forall_app. split; [done|]. constructor; [|constructor].
    destruct p as [msg| | | | | | | | | | | | | | | |id name data|text|]; try done; [right; by eexists|left..]; [|done].
    by destruct data. }
  { intros out b l Hm [Hb Ho]. split; [|by rewrite omap_app, Ho]. apply Forall_app. split; [done|]. constructor; [by left|constructor]. }
  fold w lines in Hall, Hlines, Hone, Hframes.
  assert (Hb : Forall log_payload (rs_body w)).
  { rewrite Forall_forall in Hall, Hframes |- *. intros p Hp. destruct (Hall p Hp) as [?|[msg ->]]; [done|].
    by specialize (Hframes _ Hp). }
  assert (Hs : Forall sendable (rs_body w)) by (eapply Forall_impl; [exact Hb|apply log_payload_sendable]).
  destruct (wire_total (rs_body w) Hs) as [text Htext]. exists text. split; [done|]. cbv zeta.
  unfold readLoop. destruct (read_loop_cut (rs_body w) e text n _ Htext Hs (Nat.lt_succ_diag_r _)) as (k & -> & Hend).
  cbn [default from_option Datatypes.id st_Frames st_readErr]. rewrite frames_lines, frames_errors by by apply Forall_take.
  split; [|split; [done|split; [etrans; [apply error_frames_take|exact Hone]|]]].
  - rewrite <- Hlines. rewrite <- (take_drop k (rs_body w)) at 2. rewrite omap_app, map_app. by eexists.
  - intros Hn. by rewrite Hend, Hlines.
Qed.
End Client.

(** ** Examples *)

Definition toy_log_body : list payload :=
  rs_body (rw (ss_st (log_stream_run keys_of (MkLogSchedule [[STick; SCheck]] [] [] [] []) toy_client toy_device "web"
    (MkLogOptions 100 "") (toy_state 0)))).

Lemma client_reads_log_witness :
  ∃ text, wire toy_log_body = Some text ∧
    List.filter is_log (st_Frames (readLoop (Sentinel IoEOF) (take_bytes 76 text))) = [log_frame (MkLogLine "" "stdout" "up" false)].
Proof.
  destruct (client_reads_log keys_of (MkLogSchedule [[STick; SCheck]] [] [] [] []) toy_client toy_device "web"
    (MkLogOptions 100 "") (toy_state 0) (Sentinel IoEOF) 76) as [[(code & h & Hs & Hne) _]|(text & Hw & _ & _ & _ & Hgot)];
    [split; reflexivity|reflexivity|apply not_elem_of_nil| |].
  - exfalso. apply Hne. apply (f_equal (λ o, match o with Some (c, _) => Some c | None => None end)) in Hs.
    apply (inj Some). refine (eq_trans (eq_sym Hs) _). vm_compute. reflexivity.
  - exists text. split; [exact Hw|]. cbv zeta in Hgot. rewrite Hgot; [vm_compute; reflexivity|].
    change (wire toy_log_body = Some text) in Hw. vm_compute in Hw. injection Hw as <-. apply (bool_decide_unpack _). vm_compute. exact Logic.I.
Defined.

(** The keepalive is counted, and no frame; a byte short of the end, the frame
    has not arrived. *)
Example toy_stream_read :
  st_keepalives (readLoop (Sentinel IoEOF) (default "" (wire toy_log_body))) = 1%nat ∧
  readLoop (Sentinel IoEOF) (take_bytes 75 (default "" (wire toy_log_body))) = MkStream [] 1 (Sentinel IoEOF).
Proof. vm_compute. split; reflexivity. Qed.
