(* ===== verification/Listing.v ===== *)
(** * Listing: the operator's tables, read back (internal/e2e/harness/cli.go)

    The end-to-end suite runs [devmon-agent] as an operator does and parses what
    it prints: [MintPairingCode] the pairing code, [parseTable] the tables of
    [device list] and [audit list] that Cli.v prints through a tabwriter.
    [t.Fatalf] is [None]. [audit_table_read] and [device_table_read] say that what
    is printed is parsed back; Suite.v puts the process between the two. *)
From S2P Require Import Prelude GoTime GoStrings GoJson GoTabwriter Policy Store Config Cli.
Open Scope Z_scope.

Definition pairingCodePrefix : string := "Pairing code: ".

(** ** The regular expression [\s{2,}] *)

(** [\s]: tab, newline, form feed, carriage return, space. *)
Definition is_gap (c : ascii) : bool := existsb (Ascii.eqb c) ["009"; "010"; "012"; "013"; " "]%char.

(** [tableColumnSplit.Split(s, n)], for a positive [n]: at most [n] pieces, the
    last one unsplit. [field] is the piece so far, [run] the white space after
    it, of which two bytes or more are a match. *)
Fixpoint split_gaps (n : nat) (field run : string) (l : list ascii) : list string :=
  if (n <=? 1)%nat then [field +:+ run +:+ of_bytes l]
  else
    let matched := (2 <=? String.length run)%nat in
    match l with
    | [] => if matched then [field; ""] else [field +:+ run]
    | c :: l =>
        if is_gap c then split_gaps n field (run +:+ String c "") l
        else if matched then field :: split_gaps (n - 1) (String c "") "" l
        else split_gaps n (field +:+ run +:+ String c "") "" l
    end.
Definition tableColumnSplit (s : string) (n : nat) : list string := split_gaps n "" "" (bytes s).

(** ** The parsers *)

(** [strings.TrimRight(s, cutset)] *)
Fixpoint TrimRight (cutset : ascii → bool) (s : string) : string :=
  match s with
  | "" => ""
  | String c s =>
      let r := TrimRight cutset s in
      if bool_decide (r = "") && cutset c then "" else String c r
  end.

Record DeviceRow : Type := MkDeviceRow {
  drow_ID : string; drow_Name : string; drow_PairedAt : string; drow_LastSeenAt : string; drow_State : string }.
Record AuditRow : Type := MkAuditRow {
  arow_OccurredAt : string; arow_Device : string; arow_Operation : string; arow_Target : string;
  arow_Outcome : string; arow_Detail : string }.

(** [func parseTable], from the second line on. *)
Fixpoint parse_lines (wantColumns : nat) (lines : list string) : option (list (list string)) :=
  match lines with
  | [] => Some []
  | line :: lines =>
      if bool_decide (TrimSpace line = "") then parse_lines wantColumns lines
      else
        let fields := tableColumnSplit line wantColumns in
        if negb (List.length fields =? wantColumns)%nat then None
        else rows ← parse_lines wantColumns lines; Some (map TrimSpace fields :: rows)
  end.
(** [func parseTable]; [strings.Split] never returns an empty slice. *)
Definition parseTable (out : string) (wantColumns : nat) : option (list (list string)) :=
  parse_lines wantColumns (tail (split_on "010" (TrimRight (Ascii.eqb "010") out))).

(** [func parseDeviceRows]; an index out of range would panic. *)
Definition device_row (f : list string) : option DeviceRow :=
  match f with [id; name; paired; seen; state] => Some (MkDeviceRow id name paired seen state) | _ => None end.
Definition parseDeviceRows (out : string) : option (list DeviceRow) := parseTable out 5 ≫= mapM device_row.

(** [func undash] *)
Definition undash (s : string) : string := if bool_decide (s = auditEmptyColumn) then "" else s.

(** [func parseAuditRows] *)
Definition audit_row (f : list string) : option AuditRow :=
  match f with
  | [at_; device; op; target; outcome; detail] => Some (MkAuditRow at_ device op (undash target) outcome (undash detail))
  | _ => None
  end.
Definition parseAuditRows (out : string) : option (list AuditRow) := parseTable out 6 ≫= mapM audit_row.

(** [func MintPairingCode], from the command's output on. *)
Definition minted_code (out : string) : option string :=
  (λ line, TrimSpace (trim_prefix pairingCodePrefix line)) <$>
    List.find (has_prefix pairingCodePrefix) (split_on "010" out).

(** ** Cells that survive the table *)

(** White space only singly, between other bytes. *)
Fixpoint single_gaps (after_gap : bool) (s : string) : bool :=
  match s with
  | "" => negb after_gap
  | String c s => if is_gap c then negb after_gap && single_gaps true s else single_gaps false s
  end.
(** An ASCII byte that is not white space. *)
Definition firm (c : ascii) : bool := (nat_of_ascii c <? 128)%nat && negb (ascii_space c).
Definition firm_ends (s : string) : bool :=
  match bytes s with [] => false | c :: l => firm c && firm (List.last l c) end.
Definition tight (s : string) : Prop := plain_cell s ∧ single_gaps true s = true ∧ firm_ends s = true.
#[global] Instance tight_dec s : Decision (tight s).
Proof. unfold tight, plain_cell. apply _. Defined.

(** *** The split *)

Lemma split_gaps_text n field run s l after : (2 ≤ n)%nat → single_gaps after s = true →
  run = "" ∨ after = true ∧ String.length run = 1%nat →
  split_gaps n field run (bytes s ++ l) = split_gaps n (field +:+ run +:+ s) "" l.
Proof.
  intros Hn. revert field run after. induction s as [|c s IH]; intros field run after Hs Hrun.
  - cbn in Hs. destruct Hrun as [->|[-> _]]; [|done]. by rewrite !append_nil_r.
  - change (bytes (String c s) ++ l) with (c :: (bytes s ++ l)). cbn [split_gaps].
    rewrite (proj2 (Nat.leb_gt n 1)) by lia. cbn [single_gaps] in Hs. destruct (is_gap c).
    + apply andb_true_iff in Hs as [Ha Hs]. destruct Hrun as [->|[-> _]]; [|done].
      rewrite (IH field _ true Hs) by (by right). by rewrite append_nil, append_cons, append_nil.
    + assert ((2 <=? String.length run)%nat = false) as -> by (apply Nat.leb_gt; destruct Hrun as [->|[_ ->]]; cbn; lia).
      rewrite (IH _ _ false Hs) by (by left). rewrite append_nil, !append_app. by rewrite append_cons, append_nil.
Qed.

Lemma length_spaces k : String.length (spaces k) = k.
Proof. induction k as [|k IH]; [done|]. cbn. by rewrite IH. Qed.

Lemma spaces_snoc k s : spaces k +:+ String " " s = String " " (spaces k +:+ s).
Proof. induction k as [|k IH]; [done|]. cbn [spaces]. by rewrite !append_cons, IH. Qed.

Lemma split_gaps_spaces n field k l : (2 ≤ n)%nat → ∀ j,
  split_gaps n field (spaces j) (bytes (spaces k) ++ l) = split_gaps n field (spaces (j + k)) l.
Proof.
  intros Hn. induction k as [|k IH]; intros j; [by rewrite Nat.add_0_r|].
  change (bytes (spaces (S k)) ++ l) with (" "%char :: (bytes (spaces k) ++ l)). cbn [split_gaps].
  rewrite (proj2 (Nat.leb_gt n 1)) by lia. change (is_gap " ") with true. cbn iota.
  rewrite spaces_snoc, append_nil_r. change (String " " (spaces j)) with (spaces (S j)). rewrite IH. f_equal. f_equal. lia.
Qed.

(** A cell, the padding after it, and the cells that follow. *)
Lemma split_gaps_cell n s k c t : (2 ≤ n)%nat → (2 ≤ k)%nat → single_gaps true s = true → is_gap c = false →
  tableColumnSplit (s +:+ spaces k +:+ String c t) n = s :: tableColumnSplit (String c t) (n - 1).
Proof.
  intros Hn Hk Hs Hc. unfold tableColumnSplit. rewrite !bytes_app, (split_gaps_text n "" "" s _ true) by auto.
  rewrite !append_nil. rewrite (split_gaps_spaces n s k _ Hn 0). change (bytes (String c t)) with (c :: bytes t).
  cbn [Nat.add split_gaps]. rewrite (proj2 (Nat.leb_gt n 1)) by lia. rewrite Hc, length_spaces.
  rewrite (proj2 (Nat.leb_le 2 k)) by lia. f_equal. change (2 <=? String.length "")%nat with false. cbn iota.
  destruct (Nat.leb_spec (n - 1) 1); [|by rewrite !append_nil].
  assert (n - 1 = 1)%nat as -> by lia. by destruct (bytes t).
Qed.

(** *** Trimming *)

Definition high (sps : list (list ascii)) : bool :=
  forallb (λ sp, negb (bool_decide (sp = [])) && forallb (λ b, (128 <=? nat_of_ascii b)%nat) sp) sps.

Lemma high_firm sps sp c : high sps = true → sp ∈ sps → firm c = true → sp ≠ [] ∧ c ∉ sp.
Proof.
  intros Hh Hin Hc. unfold high in Hh. rewrite forallb_forall in Hh. specialize (Hh sp (proj1 (list_elem_of_In _ _) Hin)).
  apply andb_true_iff in Hh as [Hne Hh]. split; [intros ->; done|]. intros Hc2%list_elem_of_In.
  rewrite forallb_forall in Hh. specialize (Hh c Hc2). apply andb_true_iff in Hc as [Hc _].
  apply Nat.leb_le in Hh. apply Nat.ltb_lt in Hc. lia.
Qed.

Lemma strip_firm fuel sps c l : high sps = true → firm c = true → strip fuel sps (c :: l) = c :: l.
Proof.
  intros Hh Hc. destruct fuel as [|fuel]; [done|]. cbn [strip].
  pose proof Hc as [_ Hs]%andb_true_iff. apply negb_true_iff in Hs. rewrite Hs.
  destruct (List.find _ sps) as [sp|] eqn:Hf; [|done].
  apply List.find_some in Hf as [Hin Hsp]. to_prop.
  destruct (high_firm sps sp c Hh (proj2 (list_elem_of_In _ _) Hin) Hc) as [Hne Hnc].
  destruct sp as [|b sp]; [done|]. cbn in Hsp. exfalso. apply Hnc. injection Hsp as -> _. by apply list_elem_of_here.
Qed.

Lemma strip_keeps fuel sps c : ∀ l, high sps = true → firm c = true → c ∈ l → c ∈ strip fuel sps l.
Proof.
  induction fuel as [|fuel IH]; intros l Hh Hc Hin; [done|]. destruct l as [|d l]; [done|]. cbn [strip].
  destruct (ascii_space d) eqn:Hd.
  - apply IH; [done..|]. apply elem_of_cons in Hin as [->|Hin]; [|done].
    apply andb_true_iff in Hc as [_ Hc]. by rewrite Hd in Hc.
  - destruct (List.find _ sps) as [sp|] eqn:Hf; [|done]. apply IH; [done..|].
    apply List.find_some in Hf as [Hsp Heq]. to_prop.
    destruct (high_firm sps sp c Hh (proj2 (list_elem_of_In _ _) Hsp) Hc) as [_ Hnc].
    rewrite <- (List.firstn_skipn (List.length sp) (d :: l)) in Hin. apply elem_of_app in Hin as [Hin|Hin]; [|done].
    by rewrite Heq in Hin.
Qed.

Lemma high_spaces : high unicode_spaces = true ∧ high (map (@rev ascii) unicode_spaces) = true.
Proof. by vm_compute. Qed.

Lemma TrimSpace_firm s : firm_ends s = true → TrimSpace s = s.
Proof.
  unfold firm_ends, TrimSpace. destruct (bytes s) as [|c l] eqn:Hs; [done|]. intros [Hc Hl]%andb_true_iff.
  destruct high_spaces as [H1 H2]. rewrite (strip_firm _ _ c l H1 Hc).
  assert (∃ m, rev (c :: l) = List.last l c :: m) as (m & Hm).
  { exists (rev (removelast (c :: l))). rewrite (app_removelast_last (l := c :: l) c) at 1 by done.
    rewrite rev_app_distr. by destruct l. }
  rewrite Hm, (strip_firm _ _ _ m H2 Hl), <- Hm, rev_involutive, <- Hs. apply of_bytes_bytes.
Qed.

Lemma TrimSpace_keeps s c : firm c = true → c ∈ bytes s → TrimSpace s ≠ "".
Proof.
  intros Hc Hin Ht. unfold TrimSpace in Ht. destruct high_spaces as [H1 H2].
  assert (c ∈ bytes (of_bytes (rev (strip (List.length (strip (List.length (bytes s)) unicode_spaces (bytes s)))
    (map (@rev ascii) unicode_spaces) (rev (strip (List.length (bytes s)) unicode_spaces (bytes s))))))) as Hkept.
  { rewrite bytes_of_bytes. apply list_elem_of_In. rewrite <- in_rev. apply list_elem_of_In.
    apply strip_keeps; [done..|]. apply list_elem_of_In. rewrite <- in_rev. apply list_elem_of_In. by apply strip_keeps. }
  cbv zeta in Ht. rewrite Ht in Hkept. by apply not_elem_of_nil in Hkept.
Qed.

(** *** A line *)

Lemma tight_head s : tight s → ∃ c t, s = String c t ∧ is_gap c = false.
Proof. intros (_ & Hs & _). destruct s as [|c t]; [done|]. exists c, t. cbn [single_gaps] in Hs. split; [done|]. by destruct (is_gap c). Qed.

Lemma write_line_cell ws s cells : write_line ws (cell_of s :: cells) =
  s +:+ match ws with
        | w :: ws => spaces (Z.to_nat (w - Z.of_nat (RuneCount s))) +:+ write_line ws cells
        | [] => write_line [] cells
        end.
Proof. by destruct ws. Qed.

Lemma split_one s : tableColumnSplit s 1 = [s].
Proof.
  unfold tableColumnSplit. transitivity ["" +:+ "" +:+ of_bytes (bytes s)]; [by destruct (bytes s)|].
  by rewrite !append_nil, of_bytes_bytes.
Qed.

Lemma split_line bw cells : ∀ j, cells ≠ [] → Forall tight cells →
  (∀ i s, cells !! i = Some s → Z.of_nat (RuneCount s) + padding <= bw (j + i)%nat) →
  tableColumnSplit (write_line (map bw (List.seq j (List.length cells - 1))) (map cell_of cells)) (List.length cells) = cells.
Proof.
  induction cells as [|s cells IH]; intros j Hne Ht Hw; [done|]. inversion Ht as [|? ? Hs Ht']; subst.
  destruct cells as [|d cells]; [cbn [List.length Nat.sub List.seq map]; rewrite write_line_cell;
    cbn [write_line]; rewrite append_nil_r; apply split_one|].
  specialize (IH (S j) ltac:(done) Ht' ltac:(intros i x Hx; specialize (Hw (S i) x Hx); by rewrite Nat.add_succ_r in Hw)).
  specialize (Hw 0%nat s eq_refl). rewrite Nat.add_0_r in Hw.
  replace (List.length (s :: d :: cells) - 1)%nat with (S (List.length (d :: cells) - 1)) by (cbn; lia). cbn [List.seq map].
  rewrite write_line_cell.
  assert (∃ c t, write_line (map bw (List.seq (S j) (List.length (d :: cells) - 1))) (cell_of d :: map cell_of cells) = String c t
    ∧ is_gap c = false) as (c & t & Hline & Hc).
  { inversion Ht' as [|? ? Hd _]; subst. destruct (tight_head d Hd) as (c & t & -> & Hc). rewrite write_line_cell, append_cons. eauto. }
  rewrite Hline. cbn [map] in IH. rewrite Hline in IH.
  rewrite split_gaps_cell; [|cbn; lia|unfold padding in Hw; lia|by destruct Hs as (_ & ? & _)|done].
  replace (List.length (s :: d :: cells) - 1)%nat with (List.length (d :: cells)) by (cbn; lia). by rewrite IH.
Qed.

Lemma block_width_ge j line block : line ∈ block → cell_width j line + padding <= block_width j block.
Proof.
  induction block as [|l block IH]; [by intros ?%not_elem_of_nil|]. unfold block_width in *. cbn [foldr].
  intros [->|Hin]%elem_of_cons; [lia|]. specialize (IH Hin). lia.
Qed.

Lemma split_row m rows r : r ∈ rows → List.length r = m → r ≠ [] → Forall tight r →
  tableColumnSplit (write_line (table_columns m rows) (map cell_of r)) m = r.
Proof.
  intros Hin <- Hne Ht. unfold table_columns, columns. rewrite Nat.sub_0_r. apply split_line; [done..|].
  intros i s Hs. cbn [Nat.add]. etrans; [|apply block_width_ge, list_elem_of_fmap_2, Hin].
  unfold cell_width. rewrite list_lookup_fmap, Hs. cbn. lia.
Qed.

(** The bytes of the cells are bytes of the line. *)
Lemma write_line_has c ws r s : s ∈ r → c ∈ bytes s → c ∈ bytes (write_line ws (map cell_of r)).
Proof.
  intros Hin Hc. revert ws. induction r as [|d r IH]; intros ws; [by apply not_elem_of_nil in Hin|]. cbn [map].
  rewrite write_line_cell, bytes_app, elem_of_app. apply elem_of_cons in Hin as [<-|Hin]; [by left|right].
  destruct ws as [|w ws]; [by apply IH|]. rewrite bytes_app, elem_of_app. right. by apply IH.
Qed.

Lemma write_line_free ws r : Forall plain_cell r → free_of "010" (write_line ws (map cell_of r)) = true.
Proof.
  intros Hr. revert ws. induction Hr as [|s r Hs Hr IH]; intros ws; [by destruct ws|]. cbn [map].
  assert (free_of "010" s = true) as Hf.
  { unfold plain_cell, string_forallb in Hs. unfold free_of, string_forallb. rewrite forallb_forall in *. intros c Hc.
    specialize (Hs c Hc). unfold inert in Hs. rewrite negb_true_iff, !orb_false_iff in Hs. apply negb_true_iff. tauto. }
  assert (∀ k, free_of "010" (spaces k) = true) as Hk by (induction k; [done|by apply free_of_cons]).
  rewrite write_line_cell, free_of_app, Hf. destruct ws; [apply IH|]. by rewrite free_of_app, Hk, IH.
Qed.

(** *** A table *)

Lemma TrimRight_append p a b : TrimRight p b ≠ "" → TrimRight p (a +:+ b) = a +:+ TrimRight p b.
Proof.
  intros Hb. induction a as [|c a IH]; [by rewrite !append_nil|]. rewrite !append_cons. cbn [TrimRight]. rewrite IH.
  assert (a +:+ TrimRight p b ≠ "") as Hne by (destruct a; [by rewrite append_nil|by rewrite append_cons]).
  by rewrite bool_decide_eq_false_2.
Qed.

Lemma TrimRight_newline a : free_of "010" a = true → TrimRight (Ascii.eqb "010") (a +:+ nl) = a.
Proof.
  induction a as [|c a IH]; [done|]. intros [Hc Ha]%free_of_cons. rewrite append_cons. cbn [TrimRight].
  rewrite IH, (Ascii.eqb_sym "010"), Hc by done. by rewrite andb_false_r.
Qed.

Lemma TrimRight_lines lines : lines ≠ [] → Forall (λ l, l ≠ "" ∧ free_of "010" l = true) lines →
  TrimRight (Ascii.eqb "010") (join "" (map (λ l, l +:+ nl) lines)) = join nl lines ∧ join nl lines ≠ "".
Proof.
  intros Hne Hl. induction Hl as [|x lines [Hx Hf] Hl IH]; [done|]. destruct lines as [|y lines].
  - change (TrimRight (Ascii.eqb "010") (x +:+ nl) = x ∧ x ≠ ""). by rewrite TrimRight_newline.
  - destruct (IH ltac:(done)) as [IH1 IH2]. cbn [map] in *. rewrite !join_cons, append_nil.
    rewrite TrimRight_append; rewrite IH1; [|done]. split; [|by destruct x].
    rewrite append_app. by destruct x.
Qed.

(** The bytes of a timestamp, one of which is there whatever the time. *)
Lemma has_T sec : "T"%char ∈ bytes (format_rfc3339 sec).
Proof.
  unfold format_rfc3339. destruct (civil_from_days _) as [[y m] d]. rewrite !bytes_app, !elem_of_app.
  do 5 right. left. by apply list_elem_of_here.
Qed.

Lemma parse_lines_rows m rows table : (∀ r, r ∈ rows → List.length r = m ∧ r ≠ [] ∧ Forall tight r ∧ r ∈ table) →
  parse_lines m (map (λ r, write_line (table_columns m table) (map cell_of r)) rows) = Some rows.
Proof.
  induction rows as [|r rows IH]; intros Hr; [done|]. cbn [map parse_lines].
  destruct (Hr r ltac:(by apply list_elem_of_here)) as (Hm & Hne & Ht & Hin).
  rewrite bool_decide_eq_false_2, (split_row m table r) by
    (done || (destruct r as [|s r]; [done|]; inversion Ht as [|? ? (Hp & _ & He) _]; subst; unfold firm_ends in He;
      destruct (bytes s) as [|c l] eqn:Hs; [done|]; apply andb_true_iff in He as [Hc _];
      apply (TrimSpace_keeps _ c Hc), (write_line_has c _ _ s); [by apply list_elem_of_here|rewrite Hs; by apply list_elem_of_here])).
  rewrite (proj2 (Nat.eqb_eq _ _) Hm). cbn [negb].
  rewrite IH by (intros x Hx; apply Hr; by apply list_elem_of_further). cbn. do 2 f_equal.
  clear -Ht. induction Ht as [|s r (_ & _ & He) _ IH]; [done|]. cbn. by rewrite IH, TrimSpace_firm.
Qed.

(** What a tabwriter prints of a table is parsed back. *)
Lemma parseTable_table m header rows : (2 ≤ m)%nat → List.length header = m → Forall plain_cell header →
  (∀ s, head header = Some s → s ≠ "") → (∀ r, r ∈ rows → List.length r = m ∧ Forall tight r) →
  parseTable (tabulate (table_text (header :: rows))) m = Some rows.
Proof.
  intros Hm Hhm Hhp Hhead Hr. unfold parseTable, table_text.
  assert (Hall : Forall (λ r, List.length r = m ∧ Forall plain_cell r) (header :: rows)).
  { constructor; [done|]. apply Forall_forall. intros r Hin. destruct (Hr r Hin) as [Hl Ht]. split; [done|].
    eapply Forall_impl; [exact Ht|]. by intros s []. }
  unfold table_line. rewrite (tabulate_table (header :: rows) m) by done.
  set (line r := write_line (table_columns m (header :: rows)) (map cell_of r)).
  assert (Hlines : Forall (λ l, l ≠ "" ∧ free_of "010" l = true) (map line (header :: rows))).
  { apply Forall_map, Forall_forall. intros r Hin. destruct (proj1 (Forall_forall _ _) Hall r Hin) as [Hl Hp].
    split; [|by apply write_line_free]. unfold line. destruct r as [|s r]; [cbn in Hl; lia|]. cbn [map]. rewrite write_line_cell.
    assert (s ≠ "") as Hs; [|by destruct s].
    apply elem_of_cons in Hin as [<-|Hin]; [by apply Hhead|]. destruct (Hr _ Hin) as [_ Ht].
    inversion Ht as [|? ? Hs _]; subst. by destruct (tight_head s Hs) as (? & ? & -> & _). }
  destruct (TrimRight_lines (map line (header :: rows)) ltac:(done) Hlines) as [Htrim _].
  rewrite map_map in Htrim.
  transitivity (parse_lines m (tail (split_on "010" (join nl (map line (header :: rows)))))); [by rewrite <- Htrim|].
  unfold nl. rewrite split_join by (done || (eapply Forall_impl; [exact Hlines|]; by intros ? [])).
  cbn [map tail]. apply parse_lines_rows. intros r Hin. destruct (Hr r Hin) as [Hl Ht]. repeat split; [done| |done|by apply list_elem_of_further].
  destruct r; [cbn in Hl; lia|done].
Qed.

(** ** What the tables hold *)

(** Bytes that may stand anywhere in a cell: those of timestamps, identifiers, codes. *)
Definition solid (c : ascii) : bool := inert c && negb (is_gap c) && firm c.
Definition word (s : string) : Prop := s ≠ "" ∧ string_forallb solid s = true.

Lemma solid_bytes c : solid c = true → inert c = true ∧ is_gap c = false ∧ firm c = true.
Proof. unfold solid. rewrite !andb_true_iff, negb_true_iff. tauto. Qed.

Lemma solid_gaps s : string_forallb solid s = true → ∀ after, s ≠ "" ∨ after = false → single_gaps after s = true.
Proof.
  induction s as [|c s IH]; [by intros _ after [?| ->]|]. rewrite forallb_String. intros [Hc Hs]%andb_true_iff after _.
  destruct (solid_bytes c Hc) as (_ & Hg & _). cbn [single_gaps]. rewrite Hg. apply IH; [done|by right].
Qed.

Lemma firm_ends_app a b c d : firm c = true → firm d = true → firm_ends (String c a +:+ b +:+ String d "") = true.
Proof.
  intros Hc Hd. unfold firm_ends. rewrite append_cons. change (bytes (String c ?s)) with (c :: bytes s). cbn iota.
  rewrite !bytes_app, app_assoc. change (bytes (String d "")) with [d]. by rewrite last_last, Hc, Hd.
Qed.

Lemma word_tight s : word s → tight s.
Proof.
  intros [Hne Hs]. split; [|split].
  - apply (forallb_weaken solid); [|done]. intros c Hc. by destruct (solid_bytes c Hc).
  - apply solid_gaps; [done|by left].
  - assert (Hall : ∀ x, In x (bytes s) → firm x = true).
    { intros x Hx. unfold string_forallb in Hs. rewrite forallb_forall in Hs. by destruct (solid_bytes x (Hs x Hx)) as (_ & _ & ?). }
    unfold firm_ends. destruct s as [|c s]; [done|]. change (bytes (String c s)) with (c :: bytes s) in *. cbn iota.
    rewrite (Hall c) by (by left). apply Hall. destruct (bytes s) as [|d l] eqn:Hl; [by left|right].
    destruct (exists_last (l := d :: l) ltac:(done)) as (l' & x & ->). rewrite last_last. apply in_or_app. right. by left.
Qed.

Lemma stamp_solid c : stamp_char c = true → solid c = true.
Proof. destruct c as [[] [] [] [] [] [] [] []]; vm_compute; congruence. Qed.

Lemma single_gaps_app after s t : single_gaps after s = true → single_gaps after (s +:+ t) = single_gaps false t.
Proof.
  revert after. induction s as [|c s IH]; intros after; cbn [single_gaps]; [intros ->%negb_true_iff; by rewrite append_nil|].
  rewrite append_cons. cbn [single_gaps]. destruct (is_gap c); [intros [Ha Hs]%andb_true_iff; by rewrite Ha, IH|apply IH].
Qed.

(** A device name, as it stands between parentheses. *)
Definition spaced (s : string) : Prop := s = "" ∨ plain_cell s ∧ single_gaps true s = true.
#[global] Instance spaced_dec s : Decision (spaced s).
Proof. unfold spaced, plain_cell. apply _. Defined.
#[global] Instance word_dec s : Decision (word s).
Proof. unfold word. apply _. Defined.

Lemma spaced_name devices id : Forall (λ d, spaced (dev_Name d)) devices → spaced (deviceNameByID devices id).
Proof. induction 1 as [|d devices Hd _ IH]; [by left|]. cbn. by case_bool_decide. Qed.

Lemma device_cell_tight devices id : Forall (λ d, spaced (dev_Name d)) devices → word id → tight (auditDeviceColumn devices id).
Proof.
  intros Hd Hid. unfold auditDeviceColumn. case_bool_decide as Hn; [by apply word_tight|].
  destruct (spaced_name devices id Hd) as [?|[Hp Hg]]; [done|]. set (name := deviceNameByID devices id) in *.
  destruct (word_tight id Hid) as (Hpi & Hgi & Hei). split; [|split].
  - unfold plain_cell in *. by rewrite !forallb_append, Hpi, Hp.
  - rewrite (single_gaps_app _ _ _ Hgi). change (" (" +:+ name +:+ ")") with (String " " (String "(" (name +:+ ")"))).
    cbn [single_gaps]. change (is_gap " ") with true. change (is_gap "(") with false. cbn iota. cbn [negb andb].
    assert (single_gaps false name = true) as Hgf by (destruct name; [done|cbn [single_gaps] in *; by destruct (is_gap _)]).
    by rewrite (single_gaps_app _ _ _ Hgf).
  - destruct id as [|c id]; [by destruct Hid|]. destruct Hid as [_ Hs]. rewrite forallb_String in Hs.
    apply andb_true_iff in Hs as [Hc _]. destruct (solid_bytes c Hc) as (_ & _ & Hf).
    rewrite <- (append_app " (" name ")"). by apply firm_ends_app.
Qed.

Lemma pretty_N_chars (x : N) : string_forallb stamp_char (pretty x) = true.
Proof.
  unfold pretty, pretty_N. case_decide as Hz; [done|clear Hz].
  assert (∀ s, string_forallb stamp_char s = true → string_forallb stamp_char (pretty_N_go x s) = true) as Hgo; [|by apply Hgo].
  induction (N.lt_wf_0 x) as [x _ IH]. intros s Hs. destruct (decide (x = 0%N)) as [->|Hx]; [by rewrite pretty_N_go_0|].
  rewrite pretty_N_go_step by lia. apply IH; [apply N.div_lt; lia|]. rewrite forallb_String, Hs, andb_true_r.
  destruct (x mod 10)%N as [|p]; [done|]. by repeat (destruct p as [p|p|]; try done).
Qed.

Lemma pretty_chars (z : Z) : string_forallb stamp_char (pretty z) = true.
Proof.
  destruct z as [|p|p]; [done|apply pretty_N_chars|]. change (pretty (Z.neg p)) with ("-" +:+ pretty (N.pos p)).
  by rewrite forallb_append, pretty_N_chars.
Qed.

Lemma stamp_word t : word (format_rfc3339 t).
Proof.
  split; [by apply plain_time|]. apply (forallb_weaken stamp_char); [apply stamp_solid|].
  unfold format_rfc3339. destruct (civil_from_days (t / 86400)) as [[y m] d].
  assert (∀ n, string_forallb stamp_char (pad2 n) = true) as H2.
  { intros n. unfold pad2. rewrite forallb_append, pretty_chars. by destruct (n <? 10). }
  assert (string_forallb stamp_char (pad4 y) = true) as H4.
  { unfold pad4. cbv zeta. rewrite !forallb_append, pretty_chars. repeat case_match; done. }
  by rewrite !forallb_append, !H2, H4.
Qed.

Lemma dash_tight s : s = "" ∨ tight s ∧ s ≠ auditEmptyColumn → tight (orDash s) ∧ undash (orDash s) = s.
Proof.
  unfold orDash, undash. intros [->|[Hs Hd]]; [by split; [apply (bool_decide_unpack _); vm_compute|]|].
  rewrite bool_decide_eq_false_2 by (intros ->; by destruct (tight_head "" Hs) as (? & ? & ? & _)).
  by rewrite bool_decide_eq_false_2.
Qed.

(** The texts of an audit row the table keeps: it names a device, by a word, and
    its texts survive as cells. *)
Definition listable (e : AuditEntry) : Prop :=
  word (ae_DeviceID e) ∧ tight (ae_Operation e) ∧ tight (ae_Outcome e) ∧
  (ae_Target e = "" ∨ tight (ae_Target e) ∧ ae_Target e ≠ auditEmptyColumn) ∧
  (ae_Detail e = "" ∨ tight (ae_Detail e) ∧ ae_Detail e ≠ auditEmptyColumn).
#[global] Instance listable_dec e : Decision (listable e).
Proof. unfold listable. apply _. Defined.

(** What a reader should see of a row: the device by its id and, if it is still
    listed under a name, that name. *)
Definition device_seen (devices : list Device) (id : string) : string :=
  match List.find (λ d, bool_decide (dev_ID d = id)) devices with
  | Some d => if bool_decide (dev_Name d = "") then id else id +:+ " (" +:+ dev_Name d +:+ ")"
  | None => id
  end.
Lemma device_column_seen devices id : auditDeviceColumn devices id = device_seen devices id.
Proof.
  unfold auditDeviceColumn, device_seen. induction devices as [|d devices IH]; [done|]. cbn [deviceNameByID List.find].
  by destruct (bool_decide (dev_ID d = id)).
Qed.

Definition listed (devices : list Device) (e : AuditEntry) : AuditRow :=
  MkAuditRow (format_rfc3339 (Unix (default 0 (ae_OccurredAt e)))) (device_seen devices (ae_DeviceID e))
    (ae_Operation e) (ae_Target e) (ae_Outcome e) (ae_Detail e).

Lemma audit_cells_tight devices e : Forall (λ d, spaced (dev_Name d)) devices → listable e →
  Forall tight (audit_cells devices e) ∧ audit_row (audit_cells devices e) = Some (listed devices e).
Proof.
  intros Hd (Hid & Hop & Hout & [Htt Htu]%dash_tight & [Hdt Hdu]%dash_tight). unfold audit_cells, audit_row, listed.
  split; [|by rewrite Htu, Hdu, device_column_seen].
  repeat (apply Forall_cons_2; [try assumption; auto using word_tight, device_cell_tight, stamp_word|]). apply Forall_nil_2.
Qed.

Lemma audit_table_read devices entries : Forall (λ d, spaced (dev_Name d)) devices → Forall listable entries →
  parseAuditRows (tabulate (table_text (audit_header :: map (audit_cells devices) entries))) = Some (map (listed devices) entries).
Proof.
  intros Hd He. unfold parseAuditRows. rewrite parseTable_table.
  - cbn [mbind option_bind]. induction He as [|e entries Hl He IH]; [done|]. cbn [map mapM].
    destruct (audit_cells_tight devices e Hd Hl) as [_ ->]. cbn. by rewrite IH.
  - lia.
  - done.
  - by apply (bool_decide_unpack _); vm_compute.
  - by intros s [= <-].
  - intros r (e & -> & Hin)%list_elem_of_fmap. split; [done|]. apply audit_cells_tight; [done|].
    by eapply (proj1 (Forall_forall _ _)).
Qed.

(** [device list], read back. *)
Definition device_listed (d : Device) : DeviceRow :=
  MkDeviceRow (dev_ID d) (dev_Name d) (format_rfc3339 (Unix (dev_PairedAt d))) (formatLastSeen (dev_LastSeenAt d)) (deviceStateOf d).

Lemma device_table_read devices : Forall (λ d, word (dev_ID d) ∧ tight (dev_Name d)) devices →
  parseDeviceRows (tabulate (table_text (device_header :: map device_cells devices))) = Some (map device_listed devices).
Proof.
  intros Hd. unfold parseDeviceRows. rewrite parseTable_table.
  - cbn [mbind option_bind]. induction Hd as [|d devices Hl Hd IH]; [done|]. cbn [map mapM]. by rewrite IH.
  - lia.
  - done.
  - by apply (bool_decide_unpack _); vm_compute.
  - by intros s [= <-].
  - intros r (d & -> & Hin)%list_elem_of_fmap. split; [done|].
    destruct (proj1 (Forall_forall _ _) Hd d Hin) as [Hid Hn]. unfold device_cells.
    repeat (apply Forall_cons_2; [try assumption; auto using word_tight, stamp_word|]); [| |apply Forall_nil_2].
    + destruct (dev_LastSeenAt d); [apply word_tight, stamp_word|by apply (bool_decide_unpack _); vm_compute].
    + unfold deviceStateOf. destruct (IsRevoked d); by apply (bool_decide_unpack _); vm_compute.
Qed.

(** A pairing attempt that failed names no device: its DEVICE cell is blank, the
    dash keeps only TARGET and DETAIL, and the suite's parser counts five columns. *)
Lemma failed_pair_unreadable :
  let entries := [MkAuditEntry 1 (Some 0) "" "pair" "" OutcomeInvalid "malformed csr"] in
  tabulate (table_text (audit_header :: map (audit_cells []) entries)) =
"WHEN                  DEVICE  OPERATION  TARGET  OUTCOME  DETAIL
1970-01-01T00:00:00Z          pair       -       invalid  malformed csr
" ∧ parseAuditRows (tabulate (table_text (audit_header :: map (audit_cells []) entries))) = None.
Proof. by vm_compute. Qed.
