(* ===== verification/Serve.v ===== *)
(** * Serve: the daemon (cmd/devmon-agent/main.go, internal/tlsconf/tlsconf.go)

    [serve] builds the agent from the other parts in dependency order: the
    database, the identity check, the CA, the server certificate, the Engine's
    client, the HTTP server and the pruner. [runAll] runs the three long-lived
    components until one of them returns. The theorems are about what a start
    makes of the directory an earlier one left, and how the process ends. *)
From Stdlib Require Import QArith.
From S2P Require Import Schema.
From S2P Require Import Prelude GoTime LogFraming Policy Refs SelfId RateLimit Streams EventHub Engine.
From S2P Require Import Dto DockerClient Store GoStrings GoFlag Config Certs HttpCore HttpHandlers.
From S2P Require Import Sse Routes Effects Requests Answers Logging Cli.
Open Scope Z_scope.

(** [func prepareStateDir]; [mkdirErr] is what [os.MkdirAll] says of a path. *)
Fixpoint prepare (mkdirErr : string → option error) (dirs : list string) : result unit :=
  match dirs with
  | [] => Ok tt
  | dir :: dirs =>
      match mkdirErr dir with
      | Some e => Err (wrap ("create state dir " +:+ dir) e)
      | None => prepare mkdirErr dirs
      end
  end.
Definition prepareStateDir (mkdirErr : string → option error) (cfg : Config) : result unit :=
  prepare mkdirErr [StateDir cfg; CertsDir cfg; LogsDir cfg].

(** ** runAll *)

(** [func runAll], once its components have returned: the errors in the order
    they were sent. *)
Fixpoint first_failure (errs : list (option error)) : option error :=
  match errs with
  | [] => None
  | Some e :: errs => if errors_is e ContextCanceled then first_failure errs else Some e
  | None :: errs => first_failure errs
  end.

(** The components still running, those whose result is sent and whose deferred
    [cancel] and [wg.Done] are yet to run, whether the shared context is
    cancelled, and [errs]. *)
Record group : Type := MkGroup {
  g_running : list nat; g_ending : list nat; g_cancelled : bool; g_errs : list (option error) }.
Inductive group_step (g : group) : group → Prop :=
| g_signal : group_step g (MkGroup (g_running g) (g_ending g) true (g_errs g))
| g_send l1 i l2 err : g_running g = l1 ++ i :: l2 →
    group_step g (MkGroup (l1 ++ l2) (i :: g_ending g) (g_cancelled g) (g_errs g ++ [err]))
| g_return l1 i l2 : g_ending g = l1 ++ i :: l2 →
    group_step g (MkGroup (g_running g) (l1 ++ l2) true (g_errs g)).
Definition start_group (n : nat) : group := MkGroup (seq 0 n) [] false [].
(** What [runAll] returns: nothing before [wg.Wait()] does. *)
Definition runAll (g : group) : option (option error) :=
  match g_running g, g_ending g with [], [] => Some (first_failure (g_errs g)) | _, _ => None end.

(** ** tlsconf.go *)

Inductive ClientAuthType : Set := NoClientCert | VerifyClientCertIfGiven.
Definition VersionTLS13 : Z := 772.   (* 0x0304 *)

Section Serve.
Context `{EngineApi, TokenBucket, Crypto}.

(** The fields of tls.Config that [Build] sets. *)
Record TLSConfig : Type := MkTLSConfig {
  Certificates : list Certificate; MinVersion : Z; NextProtos : list string;
  ClientCAs : option (list Certificate); ClientAuth : ClientAuthType }.

(** [func Build] *)
Definition Build (cert : Certificate) (clientCAs : option (list Certificate)) : TLSConfig :=
  match clientCAs with
  | Some pool => MkTLSConfig [cert] VersionTLS13 ["h2"; "http/1.1"] (Some pool) VerifyClientCertIfGiven
  | None => MkTLSConfig [cert] VersionTLS13 ["h2"; "http/1.1"] None NoClientCert
  end.

(** [func (c *CA) Pool] *)
Definition Pool (c : CA) : list Certificate := [ca_cert c].

(** ** serve *)

(** What the process finds and leaves: its streams and the database (Cli.v),
    the certificate directory, the Engine. *)
Record machine : Type := MkMachine { m_host : host; m_certs : certdir; m_docker : docker }.
Definition m_schema (w : machine) : Schema.sstore := h_schema (m_host w).
Definition m_store (w : machine) : store := h_store (m_host w).
Definition with_host {A} (m : Comp host A) : Comp machine A := λ w,
  let '(r, s) := m (m_host w) in (r, MkMachine s (m_certs w) (m_docker w)).
Definition with_schema {A} (m : Comp Schema.sstore A) : Comp machine A := with_host (on_schema m).
Definition with_certs {A} (m : Comp certdir A) : Comp machine A := λ w,
  let '(r, s) := m (m_certs w) in (r, MkMachine (m_host w) s (m_docker w)).
Definition with_docker {A} (m : Comp docker A) : Comp machine A := λ w,
  let '(r, s) := m (m_docker w) in (r, MkMachine (m_host w) (m_certs w) s).

(** What a start meets besides: the file system around the database, the
    randomness of the CA and of the two server certificates it may issue, the
    clock, the SDK's [client.New] and [Ping], and the container's own traces. *)
Record start_env : Type := MkStartEnv {
  se_open : open_env; se_ca_key : result PrivateKey; se_ca_serial : result Z;
  se_rand1 : result PrivateKey * result Z; se_rand2 : result PrivateKey * result Z; se_now : Z;
  se_client : option error; se_ping : option error; se_detected : Result }.

(** [func New] of dockerx, its two calls of the SDK included. *)
Definition dockerx_New (e : start_env) (cfg : Config) : Comp docker Client :=
  match se_client e with
  | Some err => throw (wrap ("create docker client for " +:+ DockerHost cfg) err)
  | None =>
      match se_ping e with
      | Some err => throw (wrap ("ping docker engine at " +:+ DockerHost cfg) err)
      | None => New (se_detected e) (ProtectedContainers cfg)
      end
  end.

(** Everything [serve] builds: the server, with the state its requests will
    share, the TLS configuration of its listener, the pruner's bounds. *)
Record agent : Type := MkAgent {
  a_server : HttpCore.Server; a_world : HttpCore.world; a_tls : TLSConfig; a_pruner : Z * Z }.

(** [Build], [NewServer] and [NewPruner] in [serve]. *)
Definition new_agent (as_limit : Q → Limit) (cfg : Config) (ca : CA) (cert : Certificate) (dc : Client) : Comp machine agent := λ w,
  let '(srv, world) := NewServer as_limit cfg (Some ca) (Some dc) (m_store w) (m_docker w) in
  (Ok (MkAgent srv world (Build cert (Some (Pool ca))) (AuditMaxAge cfg, AuditMaxRows cfg)), w).

(** [func serve], up to [runAll]. *)
Definition serve_setup (as_limit : Q → Limit) (cfg : Config) (e : start_env) : Comp machine agent :=
  firstRun ← with_schema (Schema.Open (oe_stat (se_open e)) (oe_probe (se_open e)) (oe_chmod (se_open e)) (DBPath cfg));
  schemaVersion ← with_schema Schema.SchemaVersion;
  with_certs (CheckIdentityConsistency (CertsDir cfg) (negb firstRun)) ≫= λ _,
  '(ca, caCreated) ← with_certs (LoadOrCreateCA (CertsDir cfg) (se_ca_key e) (se_ca_serial e) (se_now e));
  cert ← with_certs (LoadOrCreateServerCert (CertsDir cfg) (PublicAddrs cfg) ca (se_rand1 e) (se_rand2 e) (se_now e));
  dc ← with_docker (dockerx_New e cfg);
  new_agent as_limit cfg ca cert dc.

(** The daemon as [run] starts it. [mkdirErr] is what [os.MkdirAll] says of a
    path; [components] is the run of the three components, from their start to
    the return of the last: what each of them does is in the files that model
    it, and here only what they leave and, in the order sent, return. *)
Definition daemon (as_limit : Q → Limit) (mkdirErr : string → option error) (e : start_env)
    (components : agent → Rotator → Comp machine (list (option error))) (cfg : Config) : Comp machine unit :=
  match prepareStateDir mkdirErr cfg, NewSink cfg (mkdirErr (LogsDir cfg)) with
  | Err err, _ | Ok _, Err err => throw err
  | Ok _, Ok sink =>
      a ← serve_setup as_limit cfg e;
      errs ← components a sink;
      match first_failure errs with Some err => throw err | None => mret tt end
  end.

(** The database file was there before this start. *)
Definition db_existed (e : start_env) : bool :=
  match oe_stat (se_open e) with Some err => negb (errors_is err FsErrNotExist) | None => true end.

(** ** Lemmas *)

Ltac machine_simpl := cbn [m_host m_certs m_docker m_schema m_store h_schema h_store stdout stderr] in *.

Lemma Open_first statErr p chmod path s first s' :
  Schema.Open statErr p chmod path s = (Ok first, s') →
  first = match statErr with Some e => errors_is e FsErrNotExist | None => false end.
Proof.
  unfold Schema.Open, mbind, comp_bind. destruct (Schema.verifyAndMigrate p s) as [[u|e] s1]; [|done].
  destruct (Schema.tightenPermissions chmod path); [done|]. by intros [= <- <-].
Qed.

Lemma same_CheckIdentity dir b : touches eq (CheckIdentityConsistency dir b).
Proof. unfold CheckIdentityConsistency. cbv zeta. touches_tac. apply same_keypairExists. Qed.

(** A start that succeeds, step by step. *)
Lemma serve_setup_ok as_limit cfg e w a w' : serve_setup as_limit cfg e w = (Ok a, w') →
  ∃ s1 s2 v c1 ca created c2 cert c3 d4 dc,
    Schema.Open (oe_stat (se_open e)) (oe_probe (se_open e)) (oe_chmod (se_open e)) (DBPath cfg) (m_schema w) = (Ok (negb (db_existed e)), s1) ∧
    Schema.SchemaVersion s1 = (Ok v, s2) ∧
    CheckIdentityConsistency (CertsDir cfg) (db_existed e) (m_certs w) = (Ok tt, c1) ∧
    LoadOrCreateCA (CertsDir cfg) (se_ca_key e) (se_ca_serial e) (se_now e) c1 = (Ok (ca, created), c2) ∧
    LoadOrCreateServerCert (CertsDir cfg) (PublicAddrs cfg) ca (se_rand1 e) (se_rand2 e) (se_now e) c2 = (Ok cert, c3) ∧
    dockerx_New e cfg (m_docker w) = (Ok dc, d4) ∧
    w' = MkMachine (MkHost (stdout (m_host w)) (stderr (m_host w)) s2 (m_store w)) c3 d4 ∧
    a = MkAgent (NewServer as_limit cfg (Some ca) (Some dc) (m_store w) d4).1
          (NewServer as_limit cfg (Some ca) (Some dc) (m_store w) d4).2
          (Build cert (Some (Pool ca))) (AuditMaxAge cfg, AuditMaxRows cfg).
Proof.
  unfold serve_setup, with_schema, with_host, on_schema, with_certs, with_docker, mbind, comp_bind. fold (m_schema w). cbn beta.
  destruct (Schema.Open _ _ _ _ (m_schema w)) as [[first|?] s1] eqn:Ho; [|done]. pose proof (Open_first _ _ _ _ _ _ _ Ho) as Hf.
  assert (first = negb (db_existed e)) as -> by (rewrite Hf; unfold db_existed; destruct (oe_stat _); [by rewrite negb_involutive|done]).
  machine_simpl. destruct (Schema.SchemaVersion s1) as [[v|?] s2] eqn:Hv; [|done].
  machine_simpl. rewrite negb_involutive.
  destruct (CheckIdentityConsistency _ _ _) as [[[]|?] c1] eqn:Hc; [|done]. machine_simpl.
  destruct (LoadOrCreateCA _ _ _ _ _) as [[[ca created]|?] c2] eqn:Hca; [|done]. machine_simpl.
  destruct (LoadOrCreateServerCert _ _ _ _ _ _ _) as [[cert|?] c3] eqn:Hsc; [|done]. machine_simpl.
  destruct (dockerx_New e cfg (m_docker w)) as [[dc|?] d4] eqn:Hd; [|done]. machine_simpl.
  unfold new_agent. machine_simpl. destruct (NewServer _ _ _ _ _ _) as [srv world] eqn:Hs. intros [= <- <-].
  exists s1, s2, v, c1, ca, created, c2, cert, c3, d4, dc. change (h_store (m_host w)) with (m_store w) in Hs. rewrite Hs. by repeat (split; [done|]).
Qed.

(** ** Properties *)


(** C9 The pairing anchor survives restarts and upgrades: two starts that both
    succeed, the second on the certificate directory the first left (its log
    aside), serve the same CA certificate to their devices, whatever keys,
    serials and clocks they drew. *)
Theorem restart_keeps_anchor (as_limit : Q → Limit) (cfg cfg' : Config) (e e' : start_env) (w w1 w2 w3 : machine)
    (a a' : agent) (Hfirst : serve_setup as_limit cfg e w = (Ok a, w1))
    (Hdir : files (m_certs w2) = files (m_certs w1)) (Hsecond : serve_setup as_limit cfg' e' w2 = (Ok a', w3)) :
  Fingerprint <$> ca (a_server a') = Fingerprint <$> ca (a_server a) ∧ is_Some (ca (a_server a)).
Proof.
  destruct (serve_setup_ok _ _ _ _ _ _ Hfirst) as (s1 & s2 & v & c1 & ca1 & cr & c2 & cert & c3 & d4 & dc & _ & _ & _ & Hca & Hsc & _ & -> & ->).
  destruct (serve_setup_ok _ _ _ _ _ _ Hsecond) as (s1' & s2' & v' & c1' & ca1' & cr' & c2' & cert' & c3' & d4' & dc' & _ & _ & Hid' & Hca' & _ & _ & -> & ->).
  unfold NewServer. cbn [a_server fst ca]. assert (ca1' = ca1) as ->; [|split; [done|by eexists]].
  apply (reads_ca_unique _ _ (files c2) (files c2')); [by eapply LoadOrCreateCA_reads|by eapply LoadOrCreateCA_reads|].
  intros n Hn [x Hx]. rewrite Hx. cbn [m_certs] in Hdir.
  pose proof (LoadOrCreateServerCert_only (CertsDir cfg) (PublicAddrs cfg) ca1 (se_rand1 e) (se_rand2 e) (se_now e) c2 n) as Honly.
  rewrite Hsc in Honly. cbn [snd] in Honly.
  pose proof (same_CheckIdentity (CertsDir cfg') (db_existed e') (m_certs w2)) as Hsame. rewrite Hid' in Hsame. cbn [snd] in Hsame.
  pose proof (LoadOrCreateCA_keeps (CertsDir cfg') (se_ca_key e') (se_ca_serial e') (se_now e') c1') as Hkeep.
  rewrite Hca' in Hkeep. cbn [snd] in Hkeep.
  eapply lookup_weaken; [|exact Hkeep]. rewrite <- Hsame, Hdir, Honly; [exact Hx|].
  revert Hn. rewrite !elem_of_cons, elem_of_nil. intros [-> | [-> |[]]]; apply (bool_decide_unpack _); vm_compute; exact Logic.I.
Qed.
End Serve.

(** ** How the process ends *)

Definition clean (err : option error) : Prop :=
  match err with Some e => errors_is e ContextCanceled = true | None => True end.

Lemma first_failure_cases errs :
  match first_failure errs with
  | Some e => errors_is e ContextCanceled = false ∧ ∃ l1 l2, errs = l1 ++ Some e :: l2 ∧ Forall clean l1
  | None => Forall clean errs
  end.
Proof.
  induction errs as [|[e|] errs IH]; cbn; [done| |].
  - destruct (errors_is e ContextCanceled) eqn:He; [|split; [done|]; by exists [], errs].
    destruct (first_failure errs); [|by constructor].
    destruct IH as (Hn & l1 & l2 & -> & Hc). split; [done|]. exists (Some e :: l1), l2. split; [done|]. by constructor.
  - destruct (first_failure errs); [|by constructor].
    destruct IH as (Hn & l1 & l2 & -> & Hc). split; [done|]. exists (None :: l1), l2. split; [done|]. by constructor.
Qed.

Definition group_reachable (n : nat) (g : group) : Prop := rtc group_step (start_group n) g.

Definition group_inv (n : nat) (g : group) : Prop :=
  (List.length (g_running g) + List.length (g_errs g) = n)%nat ∧
  (List.length (g_ending g) <= List.length (g_errs g))%nat ∧
  ((List.length (g_ending g) < List.length (g_errs g))%nat → g_cancelled g = true).

Lemma group_counts n g : group_reachable n g → group_inv n g.
Proof.
  intros Hr. assert (∀ a b, rtc group_step a b → group_inv n a → group_inv n b) as H.
  { induction 1 as [|a b c Hab _ IH]; [done|]. intros (Hl & He & Hc). apply IH. unfold group_inv.
    destruct Hab as [|l1 i l2 err Hrun|l1 i l2 Hend]; cbn; [by repeat split| |].
    - rewrite Hrun in Hl. rewrite !length_app in *. cbn in Hl |- *. split; [lia|]. split; [lia|].
      intros Hlt. apply Hc. lia.
    - rewrite Hend in He. rewrite !length_app in *. cbn in He. split; [done|]. split; [lia|done]. }
  apply (H _ _ Hr). unfold group_inv. cbn. rewrite length_seq. split; [lia|]. split; lia.
Qed.

(** C33 One component's failure ends the agent, and is what it reports: as soon
    as any goroutine has returned (more results are sent than there are
    goroutines still to run their deferred calls) the others' context is
    cancelled; [runAll] returns only once all have; and then its result is the
    first error sent that is no cancellation, or nil when every component ended
    cleanly. *)
Theorem runAll_reports (n : nat) (g : group) (Hr : group_reachable n g) :
  ((List.length (g_ending g) < List.length (g_errs g))%nat → g_cancelled g = true) ∧
  match runAll g with
  | None => (List.length (g_errs g) < n + List.length (g_ending g))%nat
  | Some r => List.length (g_errs g) = n ∧
      match r with
      | Some e => errors_is e ContextCanceled = false ∧ ∃ l1 l2, g_errs g = l1 ++ Some e :: l2 ∧ Forall clean l1
      | None => Forall clean (g_errs g)
      end
  end.
Proof.
  destruct (group_counts n g Hr) as (Hl & He & Hc). split; [done|]. unfold runAll.
  destruct (g_running g) as [|i l], (g_ending g) as [|j m]; cbn in *; try lia. split; [lia|]. apply first_failure_cases.
Qed.

(** ** Examples *)

(** A crypto that writes certificates in clear: a certificate is its serial and
    its key. *)
Definition PlainCrypto : Crypto := {|
  PrivateKey := Z; PublicKey := Z; public := id;
  is_ecdsa := λ _, true; on_P256 := λ _, true;
  Certificate := string; Raw := id; tbs := λ _, ca_template 0 0;
  VerifyHostname := λ _ _, true;
  CreateCertificate := λ t _ pub _, Ok (pretty (SerialNumber t) +:+ "/" +:+ pretty pub);
  ParseCertificate := Ok;
  CertificateRequest := string; ParseCertificateRequest := Ok; CheckSignature := λ _, None; csr_PublicKey := λ _, 6;
  MarshalPKCS8PrivateKey := λ k, Ok (pretty k);
  ParsePKCS8PrivateKey := λ s, Ok (Atoi s);
  X509KeyPair := λ c _, match cut ":" c with Some (_, der) => Ok der | None => Err (Leaf "no PEM block") end;
  pem_EncodeToMemory := λ t der, t +:+ ":" +:+ der;
  pem_Decode := cut ":";
  sha256_hex := λ s, s |}.

Definition toy_open (existed : bool) : open_env :=
  MkOpenEnv (if existed then None else Some (Sentinel FsErrNotExist)) (Schema.MkProbe (Ok tt) (Ok "ok")) (λ _, None).
Definition toy_start_env (existed : bool) (key serial : Z) : start_env (H1 := PlainCrypto) :=
  MkStartEnv (H1 := PlainCrypto) (toy_open existed) (Ok key) (Ok serial) (Ok 2, Ok 8) (Ok 3, Ok 9) 0 None None
    (MkResult true [id_me] "").
Definition toy_machine (flt : list (option error)) : machine (H := ToyEngine) :=
  MkMachine (H := ToyEngine) (toy_host (MkStore empty_db [])) (MkDir ∅ flt []) toy_world.
Definition toy_serve (e : start_env (H1 := PlainCrypto)) (w : machine (H := ToyEngine)) :=
  serve_setup (H := ToyEngine) (H0 := Ticks) (H1 := PlainCrypto) toy_limit (toy_config 1) e w.
(** The process dies, or is stopped; the next one finds what it left, and no fault. *)
Definition next_start (w : machine (H := ToyEngine)) : machine (H := ToyEngine) :=
  MkMachine (H := ToyEngine) (m_host w) (MkDir (files (m_certs w)) [] []) toy_world.


Definition toy_first := toy_serve (toy_start_env false 4 7) (toy_machine []).
Definition toy_second := toy_serve (toy_start_env true 5 99) (next_start toy_first.2).
Lemma toy_starts : is_ok toy_first.1 = true ∧ is_ok toy_second.1 = true.
Proof. vm_compute. split; reflexivity. Qed.

Lemma Ok_fst {A S} (x : result A * S) : is_ok x.1 = true → ∃ a, x = (Ok a, x.2).
Proof. destruct x as [[a|e] s]; [by exists a|done]. Qed.

Lemma restart_keeps_anchor_witness :
  ∃ a a', toy_first.1 = Ok a ∧ toy_second.1 = Ok a' ∧
    Fingerprint <$> ca (a_server a') = Fingerprint <$> ca (a_server a).
Proof.
  destruct (Ok_fst _ (proj1 toy_starts)) as [a Ha], (Ok_fst _ (proj2 toy_starts)) as [a' Ha'].
  exists a, a'. split; [by rewrite Ha|]. split; [by rewrite Ha'|].
  exact (proj1 (restart_keeps_anchor (H := ToyEngine) (H0 := Ticks) (H1 := PlainCrypto) toy_limit
    (toy_config 1) (toy_config 1) (toy_start_env false 4 7) (toy_start_env true 5 99) (toy_machine []) toy_first.2
    (next_start toy_first.2) toy_second.2 a a' Ha eq_refl Ha')).
Defined.

(** A first start that is cut short after the database was made and before the
    CA is written (a full disk, a kill) leaves the state of a half restore: no
    later start is let through, though no device was ever paired. *)
Lemma interrupted_first_start :
  let cut := toy_serve (toy_start_env false 4 7)
    (toy_machine [None; None; None; None; None; None; Some (Leaf "no space left on device")]) in
  is_ok cut.1 = false ∧ files (m_certs cut.2) = ∅ ∧
  match (toy_serve (toy_start_env true 4 7) (next_start cut.2)).1 with
  | Err e => errors_is e ErrIdentityIncomplete = true
  | Ok _ => False
  end.
Proof. vm_compute. repeat split. Qed.

Definition toy_group : group :=
  MkGroup [] [] true [Some (Leaf "bind: address already in use"); Some (Sentinel ContextCanceled)].
Lemma runAll_reports_witness : g_cancelled toy_group = true ∧ errors_is (Leaf "bind: address already in use") ContextCanceled = false.
Proof.
  assert (group_reachable 2 toy_group) as Hr.
  { eapply rtc_l; [exact (g_send (start_group 2) [] 0 [1%nat] (Some (Leaf "bind: address already in use")) eq_refl)|].
    eapply rtc_l; [exact (g_return (MkGroup [1%nat] [0%nat] false [_]) [] 0 [] eq_refl)|].
    eapply rtc_l; [exact (g_send (MkGroup [1%nat] [] true [_]) [] 1 [] (Some (Sentinel ContextCanceled)) eq_refl)|].
    apply rtc_once. exact (g_return (MkGroup [] [1%nat] true [_; _]) [] 1 [] eq_refl). }
  destruct (runAll_reports _ _ Hr) as [Hc [_ [He _]]]. split; [apply Hc; cbn; lia|exact He].
Defined.

