(* ===== verification/Teardown.v ===== *)
(** * Teardown: what the daemon opens and closes (cmd/devmon-agent/main.go)

    Serve.v leaves out the handles: the log file, the database handle, the
    Engine's connection, each opened by a constructor that closes it again when
    it fails half-way, and each closed by a deferred call of [run] or [serve].
    Here the daemon runs with a trace of both. The theorem says that this is the
    same daemon, and that whatever fails every handle is closed once, after all
    components have returned and in the reverse of the order of opening. *)
From Stdlib Require Import QArith.
From S2P Require Import Schema.
From S2P Require Import Prelude GoTime LogFraming Policy Refs SelfId RateLimit Streams EventHub Engine.
From S2P Require Import Dto DockerClient Store GoStrings GoFlag Config Certs HttpCore HttpHandlers.
From S2P Require Import Sse Routes Effects Requests Answers Logging Cli Serve.
Open Scope Z_scope.

Inductive handle : Set := HLog | HDatabase | HEngine.
#[export] Instance handle_eq_dec : EqDecision handle.
Proof. solve_decision. Defined.
(** [Ran]: every component has returned to [runAll]. *)
Inductive action : Set := Opened (h : handle) | Closed (h : handle) | Ran.

Section Teardown.
Context `{EngineApi, TokenBucket, Crypto}.
Implicit Types w : machine.

Definition traced (A : Type) : Type := Comp (machine * list action) A.
Definition untraced {A} (m : Comp machine A) : traced A := λ '(w, tr),
  let '(r, w) := m w in (r, (w, tr)).
Definition note (a : action) : traced unit := λ '(w, tr), (Ok tt, (w, tr ++ [a])).

(** [defer func() { _ = h.Close() }()], and what runs until the function
    returns; the error of [Close] is dropped. *)
Definition deferring {A} (h : handle) (m : traced A) : traced A := λ s,
  let '(r, s) := m s in let '(_, s) := note (Closed h) s in (r, s).

(** A constructor that closes the handle it has just opened when it fails:
    [state.Open], [dockerx.New]. *)
Definition opening {A} (h : handle) (m : Comp machine A) : traced A := λ s,
  let '(_, s) := note (Opened h) s in
  let '(r, s) := untraced m s in
  match r with
  | Ok a => (Ok a, s)
  | Err e => let '(_, s) := note (Closed h) s in (Err e, s)
  end.

(** [func New] of dockerx: no handle when the SDK makes no client. *)
Definition open_engine (e : start_env) (cfg : Config) : traced Client :=
  match se_client e with
  | Some _ => untraced (with_docker (dockerx_New e cfg))
  | None => opening HEngine (with_docker (dockerx_New e cfg))
  end.

(** [func serve], and [runAll] at its end. *)
Definition serve_traced (as_limit : Q → Limit) (e : start_env)
    (components : agent → Rotator → Comp machine (list (option error))) (cfg : Config) (sink : Rotator) : traced unit :=
  firstRun ← opening HDatabase (with_schema (Schema.Open (oe_stat (se_open e)) (oe_probe (se_open e)) (oe_chmod (se_open e)) (DBPath cfg)));
  deferring HDatabase (
    schemaVersion ← untraced (with_schema Schema.SchemaVersion);
    untraced (with_certs (CheckIdentityConsistency (CertsDir cfg) (negb firstRun))) ≫= λ _,
    '(ca, caCreated) ← untraced (with_certs (LoadOrCreateCA (CertsDir cfg) (se_ca_key e) (se_ca_serial e) (se_now e)));
    cert ← untraced (with_certs (LoadOrCreateServerCert (CertsDir cfg) (PublicAddrs cfg) ca (se_rand1 e) (se_rand2 e) (se_now e)));
    dc ← open_engine e cfg;
    deferring HEngine (
      a ← untraced (new_agent as_limit cfg ca cert dc);
      errs ← untraced (components a sink);
      note Ran ≫= λ _,
      match first_failure errs with Some err => throw err | None => mret tt end)).

(** [func run], from [prepareStateDir] on. *)
Definition daemon_traced (as_limit : Q → Limit) (mkdirErr : string → option error) (e : start_env)
    (components : agent → Rotator → Comp machine (list (option error))) (cfg : Config) : traced unit :=
  match prepareStateDir mkdirErr cfg, NewSink cfg (mkdirErr (LogsDir cfg)) with
  | Err err, _ | Ok _, Err err => throw err
  | Ok _, Ok sink => note (Opened HLog) ≫= λ _, deferring HLog (serve_traced as_limit e components cfg sink)
  end.

(** ** Lemmas *)

(** Open all of [hs], perhaps run the components, close all of [hs] backwards. *)
Definition run_trace (hs : list handle) (ran : bool) : list action :=
  map Opened hs ++ (if ran then [Ran] else []) ++ rev (map Closed hs).

Lemma run_trace_cons h hs ran : run_trace (h :: hs) ran = Opened h :: run_trace hs ran ++ [Closed h].
Proof. unfold run_trace. cbn. by rewrite <- !app_assoc. Qed.

(** [m] is [p] with such a trace over the first of the handles [hs], over all of
    them if the components run, and an error if they do not. *)
Definition refines {A} (hs : list handle) (m : traced A) (p : Comp machine A) : Prop := ∀ w tr,
  ∃ used ran, m (w, tr) = ((p w).1, ((p w).2, tr ++ run_trace used ran)) ∧ used `prefix_of` hs ∧
    if ran then used = hs else is_ok (p w).1 = false.

Lemma refines_ext {A} hs (m : traced A) (p q : Comp machine A) : (∀ w, p w = q w) → refines hs m p → refines hs m q.
Proof. intros Hpq Hm w tr. rewrite <- Hpq. apply Hm. Qed.

Lemma refines_bind {A B} hs (p : Comp machine A) (k : A → traced B) (q : A → Comp machine B) :
  (∀ a, refines hs (k a) (q a)) → refines hs (untraced p ≫= k) (p ≫= q).
Proof.
  intros Hk w tr. unfold untraced, mbind, comp_bind. destruct (p w) as [[a|e] w']; [apply Hk|].
  exists [], false. cbn. rewrite app_nil_r. split; [done|]. by split; [apply prefix_nil|].
Qed.

Lemma refines_throw {A} hs (e : error) : refines hs (throw e : traced A) (throw e).
Proof. intros w tr. exists [], false. cbn. rewrite app_nil_r. split; [done|]. by split; [apply prefix_nil|]. Qed.

Lemma refines_ran {A} (k : traced A) (q : Comp machine A) :
  (∀ w tr, k (w, tr) = ((q w).1, ((q w).2, tr))) → refines [] (note Ran ≫= λ _, k) q.
Proof. intros Hk w tr. exists [], true. unfold note, mbind, comp_bind. by rewrite Hk. Qed.

Lemma refines_opening {A B} h hs (p : Comp machine A) (k : A → traced B) (q : A → Comp machine B) :
  (∀ a, refines hs (k a) (q a)) → refines (h :: hs) (opening h p ≫= λ a, deferring h (k a)) (p ≫= q).
Proof.
  intros Hk w tr. unfold opening, deferring, untraced, note, mbind, comp_bind. destruct (p w) as [[a|e] w'].
  - destruct (Hk a w' (tr ++ [Opened h])) as (used & ran & -> & Hp & Hran). destruct (q a w') as [r w''].
    exists (h :: used), ran. rewrite run_trace_cons. cbn [fst snd] in *. split; [by rewrite <- !app_assoc|].
    split; [by apply prefix_cons|]. destruct ran; [by subst|done].
  - exists [h], false. rewrite run_trace_cons. cbn [fst snd]. split; [by rewrite <- !app_assoc|].
    by split; [apply prefix_cons, prefix_nil|].
Qed.

Lemma refines_deferring {A} h hs (m : traced A) (p : Comp machine A) :
  refines hs m p → refines (h :: hs) (note (Opened h) ≫= λ _, deferring h m) p.
Proof.
  intros Hm w tr. unfold deferring, note, mbind, comp_bind.
  destruct (Hm w (tr ++ [Opened h])) as (used & ran & -> & Hp & Hran). exists (h :: used), ran.
  rewrite run_trace_cons. split; [by rewrite <- !app_assoc|]. split; [by apply prefix_cons|]. destruct ran; [by subst|done].
Qed.

(** The same statements as in [daemon], associated to the right. *)
Definition serve_chain (as_limit : Q → Limit) (e : start_env)
    (components : agent → Rotator → Comp machine (list (option error))) (cfg : Config) (sink : Rotator) : Comp machine unit :=
  firstRun ← with_schema (Schema.Open (oe_stat (se_open e)) (oe_probe (se_open e)) (oe_chmod (se_open e)) (DBPath cfg));
  schemaVersion ← with_schema Schema.SchemaVersion;
  with_certs (CheckIdentityConsistency (CertsDir cfg) (negb firstRun)) ≫= λ _,
  '(ca, caCreated) ← with_certs (LoadOrCreateCA (CertsDir cfg) (se_ca_key e) (se_ca_serial e) (se_now e));
  cert ← with_certs (LoadOrCreateServerCert (CertsDir cfg) (PublicAddrs cfg) ca (se_rand1 e) (se_rand2 e) (se_now e));
  dc ← with_docker (dockerx_New e cfg);
  a ← new_agent as_limit cfg ca cert dc;
  errs ← components a sink;
  match first_failure errs with Some err => throw err | None => mret tt end.

Lemma serve_chain_setup as_limit e components cfg sink w :
  serve_chain as_limit e components cfg sink w =
  (a ← serve_setup as_limit cfg e;
   errs ← components a sink;
   match first_failure errs with Some err => throw err | None => mret tt end) w.
Proof.
  assert (Ha : ∀ A B D (x : Comp machine A) (f : A → Comp machine B) (g : B → Comp machine D) v,
    ((x ≫= f) ≫= g) v = (x ≫= λ a, f a ≫= g) v).
  { intros A B D x f g v. unfold mbind, comp_bind. by destruct (x v) as [[a|err] v']. }
  assert (Hc : ∀ A B (x : Comp machine A) (f g : A → Comp machine B) v, (∀ a u, f a u = g a u) → (x ≫= f) v = (x ≫= g) v).
  { intros A B x f g v Hfg. unfold mbind, comp_bind. destruct (x v) as [[a|err] v']; [apply Hfg|done]. }
  unfold serve_chain, serve_setup. symmetry.
  repeat first [reflexivity | rewrite Ha; apply Hc; intros ? ?; repeat match goal with x : _ * _ |- _ => destruct x end; cbn beta iota].
Qed.

Lemma refines_engine {B} e cfg (k : Client → traced B) (q : Client → Comp machine B) :
  (∀ dc, refines [] (k dc) (q dc)) →
  refines [HEngine] (open_engine e cfg ≫= λ dc, deferring HEngine (k dc)) (with_docker (dockerx_New e cfg) ≫= q).
Proof.
  intros Hk. unfold open_engine. destruct (se_client e) as [err|] eqn:Hc; [|by apply refines_opening].
  intros w tr. exists [], false. unfold untraced, with_docker, dockerx_New. rewrite Hc. cbn. rewrite app_nil_r.
  split; [done|]. by split; [apply prefix_nil|].
Qed.

Lemma serve_refines as_limit e components cfg sink :
  refines [HDatabase; HEngine] (serve_traced as_limit e components cfg sink) (serve_chain as_limit e components cfg sink).
Proof.
  apply refines_opening. intros firstRun. do 2 (apply refines_bind; intros ?). apply refines_bind. intros [ca created].
  apply refines_bind. intros cert. apply refines_engine. intros dc. do 2 (apply refines_bind; intros ?).
  apply refines_ran. intros w tr. by destruct (first_failure _).
Qed.

(** ** Property *)

(** C37 The daemon leaves nothing open, and closes nothing under its components.
    However a start ends (which part fails, what the components return), the
    run is the one of [daemon], and the handles it opened are closed once each,
    in the reverse of the order log file, database, Engine; when the components
    run, all three are open until the last of them has returned, and when they
    do not, the process reports an error. *)
Theorem daemon_closes (as_limit : Q → Limit) (mkdirErr : string → option error) (e : start_env)
    (components : agent → Rotator → Comp machine (list (option error))) (cfg : Config) (w : machine) :
  let '(r, (w', tr)) := daemon_traced as_limit mkdirErr e components cfg (w, []) in
  (r, w') = daemon as_limit mkdirErr e components cfg w ∧
  ∃ hs ran, tr = run_trace hs ran ∧ hs `prefix_of` [HLog; HDatabase; HEngine] ∧
    if ran : bool then hs = [HLog; HDatabase; HEngine] else is_ok r = false.
Proof.
  assert (refines [HLog; HDatabase; HEngine] (daemon_traced as_limit mkdirErr e components cfg)
    (daemon as_limit mkdirErr e components cfg)) as Hr.
  { unfold daemon_traced, daemon. destruct (prepareStateDir mkdirErr cfg) as [[]|err]; [|apply refines_throw].
    destruct (NewSink cfg _) as [sink|err]; [|apply refines_throw]. apply refines_deferring.
    eapply refines_ext; [|apply serve_refines]. intros v. apply serve_chain_setup. }
  destruct (Hr w []) as (hs & ran & -> & Hp & Hran). cbn [app]. split; [by destruct (daemon _ _ _ _ _ w)|]. by exists hs, ran.
Qed.
End Teardown.

(** ** Examples *)

Definition toy_traced (e : start_env (H1 := PlainCrypto)) : list action :=
  (daemon_traced (H := ToyEngine) (H0 := Ticks) (H1 := PlainCrypto) toy_limit (λ _, None) e (λ _ _, mret [None; None; None])
    (toy_config 1) (toy_machine [], [])).2.2.

(** A clean run; a directory that is half of a restore: the Engine is never dialled. *)
Example toy_teardown :
  toy_traced (toy_start_env false 4 7) =
    [Opened HLog; Opened HDatabase; Opened HEngine; Ran; Closed HEngine; Closed HDatabase; Closed HLog] ∧
  toy_traced (toy_start_env true 4 7) = [Opened HLog; Opened HDatabase; Closed HDatabase; Closed HLog].
Proof. vm_compute. split; reflexivity. Qed.
