(* ===== verification/Main.v ===== *)
(** * Main: the process (cmd/devmon-agent/main.go)

    [run] decides what the process is: a help screen, an operator's command
    (Cli.v), or the daemon (Serve.v); [main] turns the outcome into an exit
    code. The theorems compose the parts: what each command line may touch, and
    the commands with the HTTP API on one database. *)
From Stdlib Require Import QArith.
From S2P Require Import Schema.
From S2P Require Import Prelude GoTime LogFraming Policy Refs SelfId RateLimit Streams EventHub Engine.
From S2P Require Import Dto DockerClient Store GoStrings GoFlag Config Certs HttpCore HttpHandlers.
From S2P Require Import Sse Routes Effects Requests Answers Logging Cli Serve.
Open Scope Z_scope.

Definition exitOK : Z := 0.
Definition exitFailure : Z := 1.
Definition exitConfig : Z := 2.

Definition unknownCommandHint : string := "Run 'devmon help' for usage.".

Definition rootUsage : string := "DevMon agent — mTLS-authenticated Docker control agent.

Usage:
  devmon <command> [flags]   operator CLI (docker exec devmon-agent devmon ...)
  devmon-agent               run the agent daemon (container entrypoint)

Commands:
  device list                                     list paired devices
  device revoke <id>                              revoke a device's access
  device pair-code --name <name> [--ttl minutes]  mint a single-use pairing code
  audit list [--limit N]                          print recent audit entries (default 100)
  health                                           probe the running agent's listener
  help                                             show this help

Flags:
  --version   print version information and exit

Run 'devmon <command> --help' for details on a command.
".

(** The errors [main] tells apart: [*config.ValidationError], [*usageError]
    and the rest. *)
Inductive run_error : Type :=
| ValidationError (problems : list string)
| UsageError (msg : string)
| OtherError (e : error).

(** ** run *)

(** The commands [run] knows by name. *)
Definition commands : list string := ["device"; "audit"; "health"].

(** ** Command lines *)

(** The command lines that only ask something of the program itself. *)
Definition asks_help (argv : list string) : Prop :=
  match argv with
  | [] => False
  | [argv0] => isDevmonAlias argv0 = true
  | _ :: a :: rest =>
      a ∈ ["help"; "-h"; "-help"; "--help"] ∨ (a ∈ ["--version"; "-version"] ∧ rest = []) ∨
      (a ∈ commands ∧ helpRequested rest = true)
  end.

Lemma parse_help quote a rest : a ∈ ["-h"; "-help"; "--help"] →
  Parse quote (<["version" := FBool]> ∅) (a :: rest) = Err (Sentinel FlagErrHelp).
Proof.
  intros Ha. unfold Parse. cbn [List.length parse_loop].
  assert (parseOne quote (<["version" := FBool]> ∅) (MkFlagSet (a :: rest) ∅) = Failed (Sentinel FlagErrHelp)) as ->; [|done].
  rewrite !elem_of_cons, elem_of_nil in Ha. destruct Ha as [-> | [-> | [-> | []]]]; vm_compute; reflexivity.
Qed.

Lemma parse_version quote a : a ∈ ["--version"; "-version"] →
  Parse quote (<["version" := FBool]> ∅) [a] = Ok (MkFlagSet [] (<["version" := VBool true]> ∅)).
Proof. rewrite !elem_of_cons, elem_of_nil. intros [-> | [-> | []]]; vm_compute; reflexivity. Qed.

Lemma command_word a : a ∈ commands → has_prefix "-" a = false ∧ a ≠ "help" ∧ a ≠ "".
Proof. unfold commands. rewrite !elem_of_cons, elem_of_nil. by intros [-> | [-> | [-> | []]]]. Qed.

Lemma parse_command quote a rest : a ∈ commands → Parse quote (<["version" := FBool]> ∅) (a :: rest) = Ok (MkFlagSet (a :: rest) ∅).
Proof. intros Ha. apply parse_word. by apply command_word. Qed.

(** The command lines that need the configuration. *)
Definition needs_config (argv : list string) : Prop :=
  match argv with
  | [] => False
  | argv0 :: rest =>
      (rest = [] ∧ isDevmonAlias argv0 = false) ∨
      match rest with a :: rest => a ∈ commands ∧ helpRequested rest = false | [] => False end
  end.

(** internal/version/version.go: what the build may replace at link time. *)
Record BuildInfo : Set := MkBuildInfo { b_Version : string; b_Commit : string; b_BuildTime : string }.
Definition unstamped : BuildInfo := MkBuildInfo "dev" "none" "unknown".
(** What [--version] prints. *)
Definition version_line (b : BuildInfo) : string :=
  "devmon-agent " +:+ b_Version b +:+ " (commit " +:+ b_Commit b +:+ ", built " +:+ b_BuildTime b +:+ ")" +:+ nl.

Section Run.
Context `{EngineApi, TokenBucket, Crypto}.
Context (quote : string → string) (url_scheme : string → result string) (hash : string → string).
(** [err.Error()] of an error of the flag package. *)
Context (text : error → string).
(** What the build stamped. *)
Context (stamp : BuildInfo).
(** What the commands meet: standard output, the HTTP client. *)
Context (outErr : option error).
Context (newRequest : string → option error) (do : string → result Z).
(** What the daemon meets (Serve.v). *)
Context (as_limit : Q → Limit) (mkdirErr : string → option error) (e : start_env).
Context (components : agent → Rotator → Comp machine (list (option error))).

Definition lift (m : Comp machine unit) : machine → option run_error * machine := λ w,
  match m w with (Ok _, w) => (None, w) | (Err e, w) => (Some (OtherError e), w) end.

(** [func printCommandUsage] *)
Definition printCommandUsage (cmd : string) : Comp host unit :=
  print (if bool_decide (cmd = "device") then deviceUsage
         else if bool_decide (cmd = "audit") then auditUsage else healthUsage).

(** [func run], from [config.Load] on. *)
Definition run_loaded (getenv : string → string) (cmd : string) (rest : list string) (code : string) (now : Z)
    : machine → option run_error * machine := λ w,
  match Load quote url_scheme getenv with
  | inr problems => (Some (ValidationError problems), w)
  | inl cfg =>
      lift (if bool_decide (cmd = "device")
            then with_host (runDeviceCommand quote hash outErr (se_open e) cfg rest code now)
            else if bool_decide (cmd = "audit") then with_host (runAuditCommand quote outErr (se_open e) cfg rest)
            else if bool_decide (cmd = "health") then with_host (runHealthCommand quote newRequest do cfg rest)
            else daemon as_limit mkdirErr e components cfg) w
  end.

(** [func run] *)
Definition run (getenv : string → string) (argv : list string) (code : string) (now : Z)
    : machine → option run_error * machine :=
  match Parse quote (<["version" := FBool]> ∅) (tail argv) with
  | Err e =>
      if errors_is e FlagErrHelp then lift (with_host (eprint rootUsage ≫= λ _, print rootUsage))
      else λ w, (Some (UsageError (text e)), (with_host (eprint (text e +:+ nl) ≫= λ _, eprint rootUsage) w).2)
  | Ok f =>
      if bool_flag f "version" then lift (with_host (print (version_line stamp)))
      else
        let cmd := Arg0 f in
        let rest := tail (Args f) in
        if bool_decide (cmd = "help") then lift (with_host (print rootUsage))
        else if bool_decide (cmd = "") then
          if isDevmonAlias (default "" (head argv)) then lift (with_host (print rootUsage))
          else run_loaded getenv cmd rest code now
        else if bool_decide (cmd ∈ commands) then
          if helpRequested rest then lift (with_host (printCommandUsage cmd))
          else run_loaded getenv cmd rest code now
        else λ w, (Some (UsageError ("unknown command " +:+ quote cmd +:+ nl +:+ unknownCommandHint)), w)
  end.

(** [func main]: the exit code, and what it adds to stderr. *)
Definition main (getenv : string → string) (argv : list string) (code : string) (now : Z) (w : machine) : Z * machine :=
  let '(err, w) := run getenv argv code now w in
  let say (s : string) := (with_host (eprint (s +:+ nl)) w).2 in
  match err with
  | None => (exitOK, w)
  | Some (ValidationError ps) => (exitConfig, say ("invalid configuration:" +:+ nl +:+ "  " +:+ join (nl +:+ "  ") ps))
  | Some (UsageError msg) => (exitConfig, say msg)
  | Some (OtherError e) => (exitFailure, say ("devmon-agent: " +:+ text e))
  end.
Lemma run_needs_config getenv argv code now w : needs_config argv →
  run getenv argv code now w = run_loaded getenv (default "" (head (tail argv))) (tail (tail argv)) code now w.
Proof.
  intros Hn. unfold run. destruct argv as [|argv0 [|a rest]]; [done| |].
  - destruct Hn as [[_ Hn]|[]]. unfold Parse. cbn [tail List.length parse_loop parseOne Args].
    rewrite bool_flag_none. unfold Arg0. cbn [Args head default tail from_option id].
    rewrite bool_decide_eq_false_2 by done. rewrite bool_decide_eq_true_2 by done. by rewrite Hn.
  - destruct Hn as [[Hn _]|[Ha Hh]]; [done|]. cbn [tail head default from_option id].
    rewrite (parse_command quote a rest Ha), bool_flag_none. unfold Arg0. cbn [Args head default tail from_option id].
    pose proof (command_word a Ha) as (_ & Hne & He).
    rewrite !bool_decide_eq_false_2 by done. rewrite bool_decide_eq_true_2 by done. by rewrite Hh.
Qed.

Lemma lift_other m w err w' : lift m w = (Some err, w') → ∃ e, err = OtherError e.
Proof. unfold lift. destruct (m w) as [[?|e'] ?]; intros [=]; by exists e'. Qed.

Lemma lift_host m w : ∃ err h, lift (with_host m) w = (OtherError <$> err, MkMachine h (m_certs w) (m_docker w)).
Proof. unfold lift, with_host. destruct (m (m_host w)) as [[?|e'] h]; [by exists None, h|by exists (Some e'), h]. Qed.

(** Asking for help needs nothing: on every such command line the process
    prints one screen and exits 0, without looking at the environment, without
    opening the database or the certificate directory and without starting the
    daemon, whatever they hold. *)
Theorem help_needs_nothing (getenv : string → string) (argv : list string) (code : string) (now : Z) (w : machine)
    (Hhelp : asks_help argv) :
  ∃ screen usage, main getenv argv code now w =
    (exitOK, MkMachine (MkHost (stdout (m_host w) ++ [screen]) (stderr (m_host w) ++ usage) (m_schema w) (m_store w))
               (m_certs w) (m_docker w)).
Proof.
  destruct w as [[out errs sch st] certs d]. unfold main, run.
  cbn [m_host m_certs m_docker m_schema m_store h_schema h_store stdout stderr].
  destruct argv as [|argv0 [|a rest]]; [done| |].
  - cbn [asks_help] in Hhelp. unfold Parse. cbn [tail List.length parse_loop parseOne Args].
    rewrite bool_flag_none. unfold Arg0. cbn [Args head default tail from_option id].
    rewrite bool_decide_eq_false_2 by done. rewrite bool_decide_eq_true_2 by done. rewrite Hhelp.
    eexists _, []. by rewrite app_nil_r.
  - cbn [asks_help] in Hhelp. cbn [tail]. destruct Hhelp as [Ha|[[Ha ->]|[Ha Hrest]]].
    + apply elem_of_cons in Ha as [->|Ha].
      * rewrite parse_word, bool_flag_none by reflexivity. unfold Arg0. cbn [Args head default tail from_option id].
        rewrite bool_decide_eq_true_2 by done. eexists _, []. by rewrite app_nil_r.
      * rewrite parse_help by done. cbn [errors_is]. rewrite bool_decide_eq_true_2 by done. by eexists _, [_].
    + rewrite parse_version by done. unfold bool_flag. cbn [actual]. rewrite lookup_insert_eq.
      eexists _, []. by rewrite app_nil_r.
    + rewrite (parse_command quote a rest Ha), bool_flag_none. unfold Arg0. cbn [Args head default tail from_option id].
      pose proof (command_word a Ha) as (_ & Hh & He).
      rewrite !bool_decide_eq_false_2 by done. rewrite bool_decide_eq_true_2 by done.
      rewrite Hrest. eexists _, []. by rewrite app_nil_r.
Qed.

(** C32 A bad configuration stops everything, and is told apart: on a command
    line that needs the configuration (a command, or the daemon), one that does
    not load makes the process list every problem on stderr and exit 2 with
    nothing opened or written; one that loads never ends in exit code 2, and a
    command, whatever it does to the database, leaves the certificate directory
    and the Engine alone. *)
Theorem bad_configuration_stops (getenv : string → string) (argv : list string) (code : string) (now : Z) (w : machine)
    (Hneeds : needs_config argv) :
  match Load quote url_scheme getenv with
  | inr problems =>
      main getenv argv code now w =
      (exitConfig, (with_host (eprint ("invalid configuration:" +:+ nl +:+ "  " +:+ join (nl +:+ "  ") problems +:+ nl)) w).2)
  | inl _ =>
      (main getenv argv code now w).1 ≠ exitConfig ∧
      (List.length argv ≠ 1%nat →
       m_certs (main getenv argv code now w).2 = m_certs w ∧ m_docker (main getenv argv code now w).2 = m_docker w)
  end.
Proof.
  unfold main. rewrite (run_needs_config getenv argv code now w Hneeds). unfold run_loaded.
  destruct (Load quote url_scheme getenv) as [cfg|problems] eqn:Hload.
  - split.
    + destruct (lift _ w) as [[err|] w'] eqn:Hl; [|done]. by apply lift_other in Hl as [e' ->].
    + intros Hlen. destruct argv as [|argv0 [|a rest]]; [done|done|].
      destruct Hneeds as [[Hn _]|[Ha _]]; [done|]. cbn [tail head default from_option id].
      unfold commands in Ha. rewrite !elem_of_cons, elem_of_nil in Ha.
      assert (∃ m, ∀ w, run_loaded getenv a rest code now w = lift (with_host m) w) as [m Hm].
      { unfold run_loaded. rewrite Hload. destruct Ha as [-> | [-> | [-> |[]]]]; by eexists. }
      unfold run_loaded in Hm. rewrite Hload in Hm. rewrite Hm.
      destruct (lift_host m w) as ([err|] & h & ->); done.
  - unfold lift. by rewrite !append_app.
Qed.
End Run.

(** ** The commands and the API, on one database *)

Section Together.
Context `{EngineApi, TokenBucket, Crypto}.
Context (quote : string → string) (hash : string → string) (Version : string).
Context (keys : gmap string lineState → list string).
Notation world := (HttpCore.world (H := _) (H0 := _)).
Notation answer := (answer hash Version keys).
Notation answers := (answers hash Version keys).
Notation at_route := (at_route hash Version keys).

Lemma runDeviceRevoke_run id now h h' : has_prefix "-" id = false →
  runDeviceRevoke quote [id] now h = (Ok tt, h') → 
  ∃ s1 s2, ListDevices (h_store h) = (Ok s1, s2) ∧ (RevokeDevice id now s2).1 = Ok tt ∧ h_store h' = (RevokeDevice id now s2).2.
Proof.
  intros Hid. unfold runDeviceRevoke, parse_or_help.
  rewrite (parse_word quote ∅ id [] Hid).
  cbn [Args]. unfold mbind, comp_bind, wrapping, on_store.
  destruct (ListDevices (h_store h)) as [[ds|?] s2]; [|done]. cbn [h_store].
  destruct (RevokeDevice id now s2) as [[[]|?] s3] eqn:Hr; [|done]. intros [= <-]. exists ds, s2. by rewrite Hr.
Qed.

(** C6 What the operator revokes is revoked for the running agent: once [device
    revoke id] has exited cleanly, no certificate of that device is let through
    any guarded route, whatever requests are served in between and whatever
    fails; the agent need not be restarted, it shares the database. *)
Theorem operator_revocation (env : open_env) (cfg : Config) (id : string)
    (outErr : option error) (code : string) (now : Z) (h h' : host) (s : HttpCore.Server) (l : list arrival)
    (w : world) (b : arrival) (pat : string) (vals : list (string * string)) (n : Z) (sns : list Z)
    (Hid : has_prefix "-" id = false)
    (Hcmd : runDeviceCommand quote hash outErr env cfg ["revoke"; id] code now h = (Ok tt, h'))
    (Hshared : w_store w = h_store h')
    (Hroute : at_route s b pat vals) (Hguarded : pat ∉ publicRoutes)
    (Htls : rq_tls (ar_request b) = Some (n :: sns)) (Howned : cert_owned (Text16 n) id (sdb (w_store w))) :
  code_of (answer s b (answers s l w)).1 = StatusUnauthorized.
Proof.
  assert (∃ h0, runDeviceRevoke quote [id] now h0 = (Ok tt, h')) as [h0 Hrun].
  { unfold runDeviceCommand in Hcmd. change (isHelpSubcommand "revoke") with false in Hcmd. cbn iota in Hcmd.
    rewrite bool_decide_eq_true_2 in Hcmd by (apply (bool_decide_unpack _); vm_compute; exact Logic.I). cbn [negb] in Hcmd.
    unfold mbind at 1, comp_bind in Hcmd. destruct (openDeviceStore env cfg h) as [[?|?] h0]; [|done]. by exists h0. }
  destruct (runDeviceRevoke_run _ _ _ _ Hid Hrun) as (ds & s2 & _ & Hrev & Hst).
  destruct (RevokeDevice id now s2) as [r s3] eqn:Hr. cbn [fst snd] in *. subst r.
  destruct (Revoke_Ok _ _ _ _ Hr) as (t & Ht & _). rewrite <- Hst, <- Hshared in Ht.
  apply (answers_revoked hash Version keys s l) in Ht. apply (answers_cert_owned hash Version keys s l) in Howned.
  set (w' := answers s l w) in *.
  assert (caller (ar_request b) w' = None) as Hnone.
  { unfold caller. rewrite Htls. destruct (DeviceByCertSerial _ (w_store w')) as [[d|e] s4] eqn:Hd2; [|done].
    cbn [fst]. destruct (by_serial_Ok _ _ _ _ Hd2) as (row2 & (c2 & r2 & Hc2 & Hid2 & _) & _).
    destruct Howned as (c3 & r3 & Hc3 & Hid3 & _).
    rewrite (by_serial_revoked _ _ _ _ _ _ Hd2 Ht); [done|congruence]. }
  destruct (refused_answer hash Version keys s b _ _ w' Hroute Hguarded Hnone) as [-> _]. by apply code_of_json.
Qed.

(** C7 A printed code works. Once [device pair-code] has printed a code for a
    name, the database may go through any operations that do not spend the code
    (redeem it, or prune it after its expiry), with any of their statements
    failing; then the first pairing request that carries it, before it expires
    and with a CSR the CA can issue for, is answered 201, unless it is throttled,
    and the device it creates has that name. What is asked besides: the code the
    command draws is not one already in the database, no SQL statement fails
    while the command runs or while that request is served, and the identifier
    and the serial the request draws are new. *)
Theorem minted_code_pairs (ttlMax : Z) (args : list string) (code : string) (now : Z) (f : FlagSet) (h h' : host)
    (ops : list store_op) (fs : list (option error))
    (s : HttpCore.Server) (a : arrival) (vals : list (string * string)) (w : world) (c : CA) (body : string → string)
    (csr pem sn : string) (na ttl : Z)
    (Hargs : Parse quote pair_code_flags args = Ok f)
    (Hcli : faults (h_store h) = [] ∧ pairing_codes (sdb (h_store h)) !! hash code = None)
    (Hmint : runDevicePairCode quote hash ttlMax args code now h = (Ok tt, h'))
    (Httl : resolvePairCodeTTL (int_flag f pairCodeTTLFlag 0) (bool_decide (is_Some (actual f !! pairCodeTTLFlag))) ttlMax = Ok ttl)
    (Hunspent : Forall (λ o, ¬ spends hash (hash code) (Unix (now + ttl)) o) ops)
    (Hshared : sdb (w_store w) = sdb (run_ops hash ops (MkStore (sdb (h_store h')) fs)))
    (Hnofault : faults (w_store w) = [])
    (Hroute : at_route s a "POST /v1/pair" vals) (Hca : ca s = Some c)
    (Hbody : rq_body (ar_request a) maxPairBodyBytes = Decoded body ∧ body "pairing_code" = code ∧
             decodeCSRPEM (body "csr_pem") = Some csr)
    (Hissue : IssueDeviceCert c csr (rq_uuid (ar_request a)) (rq_now (ar_request a)) (rq_rand (ar_request a)) = Ok (pem, sn, na))
    (Hnew : devices (sdb (w_store w)) !! rq_uuid (ar_request a) = None ∧ device_certs (sdb (w_store w)) !! sn = None)
    (Htime : Unix (rq_now (ar_request a)) < Unix (now + ttl)) :
  code_of (answer s a w).1 = StatusTooManyRequests ∨
  (code_of (answer s a w).1 = StatusCreated ∧
   ∃ row, devices (sdb (w_store (answer s a w).2)) !! rq_uuid (ar_request a) = Some row ∧
     dr_name row = string_flag f pairCodeNameFlag "" ∧ dr_revoked_at row = None).
Proof.
  destruct Hcli as [Hf Hfresh], Hbody as (Hbody & Hcode & Hcsr), Hnew as [Hnew Hsn].
  pose proof (runDevicePairCode_run quote hash ttlMax args code now f h Hargs Hf Hfresh) as Hr. cbv zeta in Hr. rewrite Hmint in Hr.
  destruct Hr as (ttl' & Httl' & _ & _ & _ & Hdb & _). assert (ttl' = ttl) as -> by congruence.
  assert (code_live (hash code) (string_flag f pairCodeNameFlag "") (Unix (now + ttl)) (sdb (w_store w))) as (crow & Hrow & Hused & Hexp & Hname).
  { rewrite Hshared. apply run_ops_keeps; [eapply Forall_impl; [exact Hunspent|]; intros o; apply keeps_live|].
    cbn [sdb]. rewrite Hdb. eexists. cbn. rewrite lookup_insert_eq. by repeat split. }
  destruct (pair_answer hash Version keys s a vals w Hroute) as [[Hc _]|(d1 & row & Hd' & _ & Hcase)]; [by left|right].
  destruct Hcase as [(c1 & f1 & csr1 & p & E1 & E2 & E3 & Hans & _ & Hpaired)|[_ Hno]].
  - rewrite Hans. split; [by apply code_of_json|].
    apply (paired_with_row hash _ _ _ _ _ _ _ _ _ _ Hd') in Hpaired.
    destruct (pd_code _ _ _ _ _ _ _ _ Hpaired) as (crow' & Hcrow & _ & _ & _ & Hdev).
    eexists. split; [rewrite Hdev; apply lookup_insert_eq|]. split; [|done]. cbn.
    assert (f1 = body) as -> by congruence. rewrite Hcode in Hcrow. congruence.
  - exfalso. destruct (np_why _ _ _ _ _ _ _ Hno) as [Hnp|Hne]; [|done].
    apply Hnp. exists c, body, csr. repeat (split; [done|]). split.
    + rewrite Hcode. exists crow. rewrite Hexp. by repeat split.
    + by exists pem, sn, na.
Qed.

(** The image's health check measures what it says: whatever state its rate
    limits are in, an agent that answers the status route is reported healthy,
    by the exit code the image reads. *)
Theorem health_agrees (cfg : Config) (newRequest : string → option error) (do : string → result Z) (addr : string)
    (s : HttpCore.Server) (a : arrival) (vals : list (string * string)) (w : world) (h : host)
    (Haddr : healthTargetAddr quote (ListenAddr cfg) = Ok addr) (Hurl : newRequest ("https://" +:+ addr +:+ healthStatusPath) = None)
    (Hroute : at_route s a "GET /v1/status" vals)
    (Hserved : do ("https://" +:+ addr +:+ healthStatusPath) = Ok (code_of (answer s a w).1)) :
  (runHealthCommand quote newRequest do cfg [] h).1 = Ok tt ∧ h_store (runHealthCommand quote newRequest do cfg [] h).2 = h_store h.
Proof.
  unfold runHealthCommand, probeStatus. cbn [helpRequested existsb]. rewrite Haddr, Hurl, Hserved.
  destruct (status_answer hash Version keys s a vals w Hroute) as [[-> | [q ->]] _].
  - rewrite code_of_json by done. done.
  - rewrite throttled_code. done.
Qed.
End Together.

(** ** Examples *)

(** ** A revoked device, an operator's code, a probe *)

(** Another process on the database of the running agent. *)
Definition beside (w : HttpCore.world (H := ToyEngine) (H0 := Ticks)) : host :=
  MkHost [] [] (Schema.MkSStore Schema.fresh_db []) (w_store w).
Definition toy_revoked : result unit * host :=
  runDeviceCommand toy_quote toy_hash None (toy_open true) (toy_config 1) ["revoke"; "d1"] "" (20 * Second)
    (beside (toy_start 1)).

Lemma operator_revocation_witness :
  code_of (toy_answer 1 (from_phone "GET" ["v1"; "images"])
    (set_store (toy_start 1) (h_store toy_revoked.2))).1 = StatusUnauthorized.
Proof.
  eapply (operator_revocation toy_quote toy_hash "1.0" keys_of (toy_open true) (toy_config 1) "d1" None ""
    (20 * Second) (beside (toy_start 1)) toy_revoked.2 (toy_server 1) [] (set_store (toy_start 1) (h_store toy_revoked.2))
    (from_phone "GET" ["v1"; "images"]) "GET /v1/images" [] 255 []).
  - reflexivity.
  - vm_compute. reflexivity.
  - reflexivity.
  - routed.
  - unlisted.
  - reflexivity.
  - eexists _, _. split; [vm_compute; reflexivity|]. split; [reflexivity|]. vm_compute. reflexivity.
Defined.

Lemma health_agrees_witness :
  (runHealthCommand toy_quote (λ _, None)
    (λ _, Ok (code_of (toy_answer 1 (from_nobody "GET" ["v1"; "status"]) (toy_start 1)).1)) (toy_config 1) []
    (beside (toy_start 1))).1 = Ok tt.
Proof.
  refine (proj1 (health_agrees toy_quote toy_hash "1.0" keys_of (toy_config 1) (λ _, None) _ "127.0.0.1:8443" (toy_server 1)
    (from_nobody "GET" ["v1"; "status"]) [] (toy_start 1) (beside (toy_start 1)) _ _ _ _)); [reflexivity|reflexivity|routed|reflexivity].
Defined.

Definition host_env : string → string := toy_env [(envPublicAddr, "192.0.2.7")].
Definition toy_main (getenv : string → string) (existed : bool) (argv : list string) (w : machine (H := ToyEngine)) :=
  main (H := ToyEngine) (H0 := Ticks) (H1 := PlainCrypto) toy_quote toy_scheme toy_hash (λ _, "") unstamped None
    (λ _, None) (λ _, Ok 200) toy_limit (λ _, None) (toy_start_env existed 4 7) (λ _ _, mret [None; None; None])
    getenv argv "CODE" 0 w.

Lemma help_needs_nothing_witness :
  (toy_main (λ _, "") true ["devmon"; "device"; "revoke"; "--help"] (toy_machine [])).1 = exitOK.
Proof.
  destruct (help_needs_nothing (H := ToyEngine) (H0 := Ticks) (H1 := PlainCrypto) toy_quote toy_scheme toy_hash (λ _, "") unstamped
    None (λ _, None) (λ _, Ok 200) toy_limit (λ _, None) (toy_start_env true 4 7) (λ _ _, mret [None; None; None])
    (λ _, "") ["devmon"; "device"; "revoke"; "--help"] "CODE" 0 (toy_machine [])) as (screen & usage & Hm).
  - right. right. split; [apply (bool_decide_unpack _); vm_compute; exact Logic.I|reflexivity].
  - unfold toy_main. by rewrite Hm.
Defined.

Lemma bad_configuration_stops_witness :
  (toy_main host_env false ["devmon"; "device"; "list"] (toy_machine [])).1 ≠ exitConfig ∧
  (toy_main (λ _, "") false ["devmon"; "device"; "list"] (toy_machine [])).1 = exitConfig.
Proof.
  assert (needs_config ["devmon"; "device"; "list"]) as Hn
    by (right; split; [apply (bool_decide_unpack _); vm_compute; exact Logic.I|reflexivity]).
  pose proof (λ getenv, bad_configuration_stops (H := ToyEngine) (H0 := Ticks) (H1 := PlainCrypto) toy_quote toy_scheme toy_hash (λ _, "") unstamped
    None (λ _, None) (λ _, Ok 200) toy_limit (λ _, None) (toy_start_env false 4 7) (λ _ _, mret [None; None; None])
    getenv ["devmon"; "device"; "list"] "CODE" 0 (toy_machine []) Hn) as Hb.
  split.
  - specialize (Hb host_env). destruct (Load toy_quote toy_scheme host_env) as [cfg|ps] eqn:Hl; [exact (proj1 Hb)|].
    vm_compute in Hl. discriminate Hl.
  - specialize (Hb (λ _, "")). destruct (Load toy_quote toy_scheme (λ _, "")) as [cfg|ps] eqn:Hl.
    + vm_compute in Hl. discriminate Hl.
    + unfold toy_main. rewrite Hb. reflexivity.
Defined.

Example version_printed :
  stdout (m_host (toy_main (λ _, "") true ["devmon-agent"; "--version"] (toy_machine [])).2) =
  ["devmon-agent dev (commit none, built unknown)" +:+ nl].
Proof. vm_compute. reflexivity. Qed.

(** A mistake in what follows a command's name is the caller's too, and exits 1. *)
Lemma usage_mistakes_exit_1 :
  (toy_main host_env true ["devmon"; "device"; "remove"] (toy_machine [])).1 = exitFailure ∧
  (toy_main host_env true ["devmon"; "device"; "pair-code"; "--nam"; "x"] (toy_machine [])).1 = exitFailure ∧
  (toy_main host_env true ["devmon"; "devices"] (toy_machine [])).1 = exitConfig.
Proof. vm_compute. repeat split. Qed.

(** A command run on a state directory no agent was ever started on makes the
    database; the first start after it takes the directory for half a restore. *)
Lemma command_before_first_start :
  let listed := toy_main host_env false ["devmon"; "device"; "list"] (toy_machine []) in
  listed.1 = exitOK ∧ (toy_main host_env false ["devmon-agent"] (toy_machine [])).1 = exitOK ∧
  (toy_main host_env true ["devmon-agent"] listed.2).1 = exitFailure ∧
  match (toy_serve (toy_start_env true 4 7) listed.2).1 with
  | Err e => errors_is e ErrIdentityIncomplete = true
  | Ok _ => False
  end.
Proof. vm_compute. repeat split. Qed.

Definition toy_minted : result unit * host :=
  runDevicePairCode toy_quote toy_hash (10 * Minute) ["--name"; "tablet"] "CODE" (3 * Second) (toy_host (MkStore empty_db [])).
(** What the store goes through between the command and the request. *)
Definition toy_between : list store_op :=
  [OpPruneCodes (4 * Second); OpCreate "d1" "phone" (5 * Second); OpTouch "d1" (6 * Second)].
Definition toy_minted_world : HttpCore.world (H := ToyEngine) (H0 := Ticks) :=
  set_store (toy_start 1) (run_ops toy_hash toy_between (MkStore (sdb (h_store toy_minted.2)) [])).
Definition toy_name_flags : FlagSet := MkFlagSet [] (<[pairCodeNameFlag := VString "tablet"]> ∅).

Lemma minted_code_pairs_witness :
  let w' := toy_answer 1 (toy_arrival toy_pair_request) toy_minted_world in
  code_of w'.1 = StatusTooManyRequests ∨
  (code_of w'.1 = StatusCreated ∧
   ∃ row, devices (sdb (w_store w'.2)) !! "d2" = Some row ∧ dr_name row = "tablet" ∧ dr_revoked_at row = None).
Proof.
  cbv zeta.
  assert (Parse toy_quote pair_code_flags ["--name"; "tablet"] = Ok toy_name_flags) as Hargs by (vm_compute; reflexivity).
  apply (minted_code_pairs toy_quote toy_hash "1.0" keys_of (10 * Minute) ["--name"; "tablet"] "CODE" (3 * Second) toy_name_flags
    (toy_host (MkStore empty_db [])) toy_minted.2 toy_between [] (toy_server 1) (toy_arrival toy_pair_request) [] toy_minted_world toy_ca
    (λ k, if bool_decide (k = "csr_pem") then enc (pemTypeCertificateRequest, enc 6) else "CODE") (enc 6)
    (toy_pem "d2" 77 (10 * Second)) (Text16 77) (10 * Second + deviceCertValidity) (10 * Minute) Hargs).
  - split; reflexivity.
  - vm_compute. reflexivity.
  - vm_compute. reflexivity.
  - repeat constructor; cbn; [vm_compute; discriminate|tauto|tauto].
  - reflexivity.
  - vm_compute. reflexivity.
  - routed.
  - reflexivity.
  - split; [reflexivity|]. split; [reflexivity|]. unfold decodeCSRPEM.
    rewrite bool_decide_eq_true_2 by done. cbn [pem_Decode ToyCrypto]. by rewrite dec_enc, bool_decide_eq_true_2.
  - apply toy_issue.
  - split; reflexivity.
  - vm_compute. reflexivity.
Defined.

(** A device may write what it likes into the TARGET cell: a reference with a
    newline and tabs, refused as invalid but audited, adds to the operator's
    listing a row of its own making. *)
Definition forged_id : string := "x" +:+ nl +:+ join tab ["1970-01-01T00:00:09Z"; "tablet (d9)"; "kill"; "db"; "success"; "-"].
Lemma audit_row_forged :
  let w := (toy_answer 1 (from_phone "POST" ["v1"; "containers"; forged_id; "stop"]) (toy_start 1)).2 in
  stdout (runAuditListCommand toy_quote None [] (beside w)).2 =
  ["WHEN                  DEVICE       OPERATION  TARGET  OUTCOME  DETAIL
1970-01-01T00:00:10Z  d1 (phone)   stop       x
1970-01-01T00:00:09Z  tablet (d9)  kill       db  success  -  invalid  -
"].
Proof. vm_compute. reflexivity. Qed.
