(* ===== verification/Suite.v ===== *)
(** * Suite: the operator's half of the end-to-end suite (internal/e2e/harness)

    The suite starts [devmon-agent] as a child process with an environment it
    builds itself (agent.go) and runs the [device] and [audit] commands next to
    it (cli.go). Here its calls are calls of [Main.main]; what they print is read
    by the parsers of Listing.v. [t.Fatalf] is [None]. *)
From Stdlib Require Import QArith.
From S2P Require Import Schema.
From S2P Require Import Prelude GoTime LogFraming Policy Refs SelfId RateLimit Streams EventHub Engine.
From S2P Require Import Dto DockerClient Store GoStrings GoTabwriter GoFlag Config Certs HttpCore HttpHandlers.
From S2P Require Import Sse Routes Effects Requests Answers Logging Cli Listing Serve Main.
Open Scope Z_scope.

(** ** agent.go: the environment of a child *)

Record AgentOptions : Type := MkAgentOptions {
  ao_PolicyMode : string; ao_DockerHost : string; ao_PublicAddr : string; ao_Env : gmap string string }.

(** [func agentEnvVars]; [engineHost] is the suite's own Engine endpoint, [None]
    when there is none. A later value replaces an earlier one. *)
Definition agentEnvVars (engineHost : option string) (opts : AgentOptions) (stateDir : string) (port : Z)
    : option (gmap string string) :=
  let publicAddr := if bool_decide (ao_PublicAddr opts = "") then "127.0.0.1" else ao_PublicAddr opts in
  dockerHost ← (if bool_decide (ao_DockerHost opts = "") then engineHost else Some (ao_DockerHost opts));
  let env := <["DEVMON_STATE_DIR" := stateDir]> (<["DEVMON_LISTEN_ADDR" := "127.0.0.1:" +:+ pretty port]>
    (<["DEVMON_PUBLIC_ADDR" := publicAddr]> (<["DEVMON_DOCKER_HOST" := dockerHost]> ∅))) in
  let env := if bool_decide (ao_PolicyMode opts = "") then env else <["DEVMON_POLICY_MODE" := ao_PolicyMode opts]> env in
  Some (ao_Env opts ∪ env).

(** [func buildAgentEnv], as the child's [os.Getenv] sees it; [os] is the
    suite's own environment. *)
Definition buildAgentEnv (os : string → string) (vars : gmap string string) : string → string := λ k,
  match vars !! k with
  | Some v => v
  | None => if bool_decide (k = "PATH" ∨ k = "HOME") then os k else ""
  end.

(** The developer's own environment never reaches the agent's configuration. *)
Lemma buildAgentEnv_isolated quote url_scheme os os' vars :
  Load quote url_scheme (buildAgentEnv os vars) = Load quote url_scheme (buildAgentEnv os' vars).
Proof.
  assert (∀ os, Load quote url_scheme (buildAgentEnv os vars) = Load quote url_scheme (λ k, default "" (vars !! k))) as Hl.
  { intros o. set (blank g k := if bool_decide (k = "PATH" ∨ k = "HOME") then "" else g k : string).
    transitivity (Load quote url_scheme (blank (buildAgentEnv o vars))); [reflexivity|].
    transitivity (Load quote url_scheme (blank (λ k, default "" (vars !! k)))); [|reflexivity].
    reflexivity. }
  by rewrite !Hl.
Qed.

(** ** cli.go: the commands *)

Section Suite.
Context `{EngineApi, TokenBucket, Crypto}.
(** The program under test (Main.v). *)
Context (quote : string → string) (url_scheme : string → result string) (hash : string → string) (text : error → string).
Context (stamp : BuildInfo) (outErr : option error).
Context (newRequest : string → option error) (do : string → result Z).
Context (as_limit : Q → Limit) (mkdirErr : string → option error) (e : start_env).
Context (components : agent → Rotator → Comp machine (list (option error))).
(** The suite's environment, the built binary, the agent's state directory. *)
Context (os : string → string) (bin stateDir : string).

Definition cli_env : string → string :=
  buildAgentEnv os (<["DEVMON_STATE_DIR" := stateDir]> (<["DEVMON_PUBLIC_ADDR" := "127.0.0.1"]> ∅)).

(** A process that has printed nothing. *)
Definition fresh (w : machine) : machine :=
  MkMachine (MkHost [] [] (m_schema w) (m_store w)) (m_certs w) (m_docker w).

(** [func runCLI]; [code] and [now] are what the process will draw and read. *)
Definition runCLI (args : list string) (code : string) (now : Z) (w : machine) : option string * machine :=
  let '(status, w) := main quote url_scheme hash text stamp outErr newRequest do as_limit mkdirErr e components
    cli_env (bin :: args) code now (fresh w) in
  (if status =? 0 then Some (join "" (stdout (m_host w))) else None, w).

(** [func MintPairingCode], [ListDevices], [RevokeDevice], [ListAudit] *)
Definition suite_MintPairingCode (name code : string) (now : Z) (w : machine) : option string * machine :=
  let '(out, w) := runCLI ["device"; "pair-code"; "--name"; name] code now w in (out ≫= minted_code, w).
Definition suite_ListDevices (now : Z) (w : machine) : option (list DeviceRow) * machine :=
  let '(out, w) := runCLI ["device"; "list"] "" now w in (out ≫= parseDeviceRows, w).
Definition suite_RevokeDevice (id : string) (now : Z) (w : machine) : option unit * machine :=
  let '(out, w) := runCLI ["device"; "revoke"; id] "" now w in ((λ _, tt) <$> out, w).
Definition suite_ListAudit (limit : Z) (now : Z) (w : machine) : option (list AuditRow) * machine :=
  let '(out, w) := runCLI ["audit"; "list"; "--limit"; pretty limit] "" now w in (out ≫= parseAuditRows, w).
End Suite.

(** ** A limit as it is printed is the limit that is parsed *)

Lemma digit_char (d : N) : (d < 10)%N → Ascii.eqb (pretty_N_char d) "_" = false ∧ digit_of (pretty_N_char d) = Z.of_N d.
Proof.
  intros Hd. destruct d as [|p]; [done|]. destruct p as [[[[]|[]|]|[[]|[]|]|]|[[[]|[]|]|[[]|[]|]|]|]; first [done|lia].
Qed.

Lemma uint_digits_pretty (x : N) s : Z.of_N x <= maxUint64 →
  uint_digits 10 0 (pretty_N_go x s) = uint_digits 10 (Z.of_N x) s.
Proof.
  revert s. induction (N.lt_wf_0 x) as [x _ IH]. intros s Hx. destruct (decide (x = 0%N)) as [->|Hz]; [by rewrite pretty_N_go_0|].
  pose proof (N.mod_lt x 10 ltac:(done)) as Hm. pose proof (N.div_mod x 10 ltac:(done)) as Hdm.
  rewrite pretty_N_go_step by lia. assert (x / 10 < x)%N as Hlt by (apply N.div_lt; lia).
  rewrite IH; [|done|clear -Hlt Hx; lia]. cbn [uint_digits].
  destruct (digit_char _ Hm) as [-> ->]. rewrite (proj2 (Z.leb_gt 10 _)) by lia.
  replace (Z.of_N (x / 10) * 10 + Z.of_N (x mod 10)) with (Z.of_N x) by lia. by rewrite (proj2 (Z.ltb_ge _ _)).
Qed.

Lemma pretty_head (x : N) s : x ≠ 0%N → ∃ d s', pretty_N_go x s = String (pretty_N_char d) s' ∧ (0 < d < 10)%N.
Proof.
  revert s. induction (N.lt_wf_0 x) as [x _ IH]. intros s Hx. pose proof (N.mod_lt x 10 ltac:(done)) as Hm.
  pose proof (N.div_mod x 10 ltac:(done)) as Hdm. rewrite pretty_N_go_step by lia.
  destruct (decide (x / 10 = 0)%N) as [Hz|Hz]; [|apply IH; [apply N.div_lt; lia|done]].
  rewrite Hz, pretty_N_go_0. exists (x mod 10)%N, s. split; [done|]. lia.
Qed.

Lemma has_byte_none p s c : string_forallb p s = true → p c = false → has_byte s c = false.
Proof.
  unfold has_byte. intros Hs Hc. induction s as [|d s IH]; [done|]. rewrite forallb_String in Hs.
  apply andb_true_iff in Hs as [Hd Hs]. cbn. destruct (Ascii.eqb d c) eqn:E; [apply Ascii.eqb_eq in E as ->; congruence|].
  specialize (IH Hs). by destruct (IndexByte s c).
Qed.

Lemma ParseInt_pretty n : 0 <= n < 2 ^ 63 → ParseInt (pretty n) = Ok n.
Proof.
  intros Hn. destruct n as [|p|p]; [done| |lia]. set (x := N.pos p).
  assert (Hp : pretty (Z.pos p) = pretty_N_go x "") by done.
  assert (Hu : uint_digits 10 0 (pretty_N_go x "") = Ok (Z.pos p)).
  { rewrite uint_digits_pretty; [done|]. unfold maxUint64. lia. }
  pose proof (has_byte_none stamp_char (pretty (Z.pos p)) "_" (pretty_chars _) eq_refl) as Hb.
  rewrite Hp in *. destruct (pretty_head x "" ltac:(done)) as (d & s' & Hs & Hd). rewrite Hs in *.
  assert (2 ^ 63 <=? Z.pos p = false) as Hlt by (apply Z.leb_gt; lia).
  unfold ParseInt, ParseUint.
  destruct d as [|q]; [lia|]. destruct q as [[[[]|[]|]|[[]|[]|]|]|[[[]|[]|]|[[]|[]|]|]|]; try lia;
    (cbn [split_base pretty_N_char] in *; rewrite bool_decide_eq_false_2 by done; rewrite Hu; cbn [mbind result_bind]; rewrite Hb;
     cbn [andb]; change ((if 2 ^ 63 <=? Z.pos p then Err errRange else Ok (Z.pos p)) = Ok (Z.pos p)); by rewrite Hlt).
Qed.

Lemma parse_limit quote n : 0 <= n < 2 ^ 63 →
  Parse quote (<[auditLimitFlag := FInt]> ∅) ["--limit"; pretty n] = Ok (MkFlagSet [] (<[auditLimitFlag := VInt n]> ∅)).
Proof.
  intros Hn. unfold Parse. cbn [List.length parse_loop parseOne Args actual].
  assert (parse_named quote (<[auditLimitFlag := FInt]> ∅) "--limit" "limit" (MkFlagSet [pretty n] ∅) =
    match Set_ FInt (pretty n) with
    | Err e => Failed (Wrapf ("invalid value " +:+ quote (pretty n) +:+ " for flag -" +:+ "limit" +:+ ": ") e "")
    | Ok x => Seen (MkFlagSet [] (<["limit" := x]> ∅))
    end) as -> by reflexivity.
  unfold Set_. rewrite ParseInt_pretty by done. reflexivity.
Qed.

Lemma openDeviceStore_run env cfg h b :
  (Schema.Open (oe_stat env) (oe_probe env) (oe_chmod env) (DBPath cfg) (h_schema h)).1 = Ok b →
  ∃ sch, openDeviceStore env cfg h = (Ok tt, MkHost (stdout h) (stderr h) sch (h_store h)).
Proof.
  intros Ho. unfold openDeviceStore, wrapping, on_schema, mbind, comp_bind.
  destruct (Schema.Open _ _ _ _ (h_schema h)) as [r sch]. cbn in Ho. subst r. by exists sch.
Qed.

(** ** Properties *)

Section Properties.
Context `{EngineApi, TokenBucket, Crypto}.
Context (quote : string → string) (url_scheme : string → result string) (hash : string → string) (text : error → string).
Context (stamp : BuildInfo).
Context (newRequest : string → option error) (do : string → result Z).
Context (as_limit : Q → Limit) (mkdirErr : string → option error) (e : start_env).
Context (components : agent → Rotator → Comp machine (list (option error))).
Context (os : string → string) (bin stateDir : string).

Notation run_cli := (runCLI quote url_scheme hash text stamp None newRequest do as_limit mkdirErr e components os bin stateDir).

(** A command that succeeds: what the suite gets is what the command prints. *)
Lemma runCLI_command cmd rest code now w cfg (h : host) :
  cmd ∈ commands → cmd = "device" ∨ cmd = "audit" → helpRequested rest = false →
  Load quote url_scheme (cli_env os stateDir) = inl cfg →
  (if bool_decide (cmd = "device") then runDeviceCommand quote hash None (se_open e) cfg rest code now
   else runAuditCommand quote None (se_open e) cfg rest) (m_host (fresh w)) = (Ok tt, h) →
  run_cli (cmd :: rest) code now w = (Some (join "" (stdout h)), MkMachine h (m_certs w) (m_docker w)).
Proof.
  intros Hcmd Hwhich Hhelp Hload Hrun. unfold runCLI, main. rewrite run_needs_config by (by right).
  cbn [tail head default from_option id]. unfold run_loaded. rewrite Hload. unfold lift, with_host.
  destruct Hwhich as [-> | ->].
  - rewrite bool_decide_eq_true_2 in * by done. by rewrite Hrun.
  - rewrite (bool_decide_eq_false_2 ("audit" = "device")) in * by done. rewrite bool_decide_eq_true_2 by done. by rewrite Hrun.
Qed.

Lemma runAuditList_run limit h entries devices : faults (h_store h) = [] →
  (ListAudit limit (h_store h)).1 = Ok entries → (ListDevices (h_store h)).1 = Ok devices →
  ∃ h', runAuditList None limit h = (Ok tt, h') ∧ h_store h' = h_store h ∧
    stdout h' = stdout h ++ [tabulate (table_text (audit_header :: map (audit_cells devices) entries))].
Proof.
  intros Hf He Hd. unfold runAuditList, print_table.
  assert (∀ A (f : db → result A), (query f (h_store h)).2 = h_store h) as Hq.
  { intros A f. rewrite query_ok by done. cbn. destruct (h_store h). cbn in *. by subst. }
  unfold wrapping, on_store, mbind, comp_bind.
  assert (Hl : ListAudit limit (h_store h) = (Ok entries, h_store h)).
  { rewrite <- He. unfold ListAudit, wrapping in *. pose proof (Hq _ (λ d, Ok (map scanAuditEntry
      (if limit <? 0 then merge_sort newer_id (audit d) else List.firstn (Z.to_nat limit) (merge_sort newer_id (audit d)))))) as Hs.
    destruct (query _ _) as [[?|?] ?]; cbn in *; by subst. }
  assert (Hdl : ListDevices (h_store h) = (Ok devices, h_store h)).
  { rewrite <- Hd. unfold ListDevices, wrapping in *. pose proof (Hq _ (λ d,
      Ok (merge_sort paired_later (map (λ '(id, r), scanDevice id r) (map_to_list (Store.devices d)))))) as Hs.
    destruct (query _ _) as [[?|?] ?]; cbn in *; by subst. }
  rewrite Hl. cbn [h_store]. rewrite Hdl. eexists. split; [reflexivity|]. by split.
Qed.

Lemma runDevicePairCode_default ceiling name code now (h : host) ttl : TrimSpace name ≠ "" →
  ttl = (if ceiling <? DefaultPairingCodeTTL then ceiling else DefaultPairingCodeTTL) → 0 < ttl →
  faults (h_store h) = [] → pairing_codes (sdb (h_store h)) !! hash code = None →
  ∃ h', runDevicePairCode quote hash ceiling ["--name"; name] code now h = (Ok tt, h') ∧
    stdout h' = stdout h ++ ["Pairing code: " +:+ code +:+ nl; "Expires:      " +:+ format_rfc3339 (Unix (now + ttl)) +:+ nl] ∧
    sdb (h_store h') = set_codes (sdb (h_store h))
      (<[hash code := MkCodeRow name (Unix now) (Unix (now + ttl)) None None]> (pairing_codes (sdb (h_store h)))).
Proof.
  intros Hname -> Httl Hf Hfresh.
  assert (Parse quote pair_code_flags ["--name"; name] = Ok (MkFlagSet [] (<[pairCodeNameFlag := VString name]> ∅))) as Hargs by reflexivity.
  unfold runDevicePairCode, parse_or_help. rewrite Hargs.
  change (string_flag _ pairCodeNameFlag "") with name. rewrite bool_decide_eq_false_2 by done.
  change (bool_decide (is_Some (actual _ !! pairCodeTTLFlag))) with false. unfold resolvePairCodeTTL. cbn [negb].
  set (ttl := if ceiling <? _ then _ else _) in *.
  unfold wrapping, on_store, mbind, comp_bind, MintPairingCode. rewrite (proj2 (Z.leb_gt ttl 0)) by done.
  unfold wrapping, mbind, comp_bind. rewrite sql_ok, Hfresh by done. eexists. split; [reflexivity|]. cbn.
  by rewrite <- app_assoc.
Qed.

Lemma minted_code_printed code expires : word code → free_of "010" expires = true →
  minted_code (join "" ["Pairing code: " +:+ code +:+ nl; "Expires:      " +:+ expires +:+ nl]) = Some code.
Proof.
  intros Hc He. destruct (word_tight code Hc) as (Hp & _ & Hf).
  assert (free_of "010" ("Pairing code: " +:+ code) = true) as Hfree.
  { rewrite free_of_app. apply (forallb_weaken inert); [|exact Hp]. intros c. unfold inert.
    rewrite !negb_true_iff, !orb_false_iff. tauto. }
  unfold minted_code. rewrite join_cons. change (join "" [?x]) with x. rewrite append_nil, <- !append_app.
  rewrite !append_app, <- (append_app "Pairing code: ").
  change (nl +:+ ?x) with (String "010" x). rewrite split_on_app by done. cbn [List.find].
  unfold pairingCodePrefix. rewrite prefix_app. cbn [fmap option_fmap option_map]. f_equal.
  unfold trim_prefix. rewrite prefix_app, drop_bytes_app. by apply TrimSpace_firm.
Qed.

(** What the suite mints can be redeemed: the code it parses from the output of
    [device pair-code] is the one whose hash the database now holds, for the name
    given, until the lifetime the configuration allows. *)
Theorem suite_mints (name code : string) (now : Z) (cfg : Config) (w : machine) (b : bool)
    (Hload : Load quote url_scheme (cli_env os stateDir) = inl cfg)
    (Hopen : (Schema.Open (oe_stat (se_open e)) (oe_probe (se_open e)) (oe_chmod (se_open e)) (DBPath cfg) (m_schema w)).1 = Ok b)
    (Hfaults : faults (m_store w) = []) (Hfresh : pairing_codes (sdb (m_store w)) !! hash code = None)
    (Hname : TrimSpace name ≠ "") (Hhelp : helpRequested [name] = false) (Hcode : word code) :
  ∃ w' ttl, suite_MintPairingCode quote url_scheme hash text stamp None newRequest do as_limit mkdirErr e components os bin
      stateDir name code now w = (Some code, w') ∧ 0 < ttl <= PairTTLMax cfg ∧
    sdb (m_store w') = set_codes (sdb (m_store w))
      (<[hash code := MkCodeRow name (Unix now) (Unix (now + ttl)) None None]> (pairing_codes (sdb (m_store w)))).
Proof.
  destruct (openDeviceStore_run (se_open e) cfg (m_host (fresh w)) b Hopen) as (sch & Ho).
  set (ttl := if PairTTLMax cfg <? DefaultPairingCodeTTL then PairTTLMax cfg else DefaultPairingCodeTTL).
  assert (Httl : 0 < ttl <= PairTTLMax cfg).
  { apply Load_ok in Hload. unfold ttl, DefaultPairingCodeTTL. destruct (vc_ttl _ _ Hload) as (m & Hm & ->).
    assert (Minute = 60000000000) as -> by reflexivity. destruct (Z.ltb_spec (m * 60000000000) (10 * 60000000000)); lia. }
  destruct (runDevicePairCode_default (PairTTLMax cfg) name code now (MkHost [] [] sch (m_store w)) ttl Hname eq_refl
    (proj1 Httl) Hfaults Hfresh) as (h' & Hrun & Hout & Hdb).
  exists (MkMachine h' (m_certs w) (m_docker w)), ttl. split; [|by split].
  unfold suite_MintPairingCode. rewrite (runCLI_command "device" _ code now w cfg h').
  - rewrite Hout. cbn [app stdout mbind option_bind]. by rewrite minted_code_printed by (done || apply plain_time).
  - by apply (bool_decide_unpack _).
  - by left.
  - unfold helpRequested in *. cbn [existsb] in *. exact Hhelp.
  - done.
  - rewrite bool_decide_eq_true_2 by done. unfold runDeviceCommand. change (isHelpSubcommand "pair-code") with false. cbn iota.
    rewrite bool_decide_eq_true_2 by (by apply (bool_decide_unpack _); vm_compute). cbn [negb].
    unfold mbind at 1, comp_bind. rewrite Ho. exact Hrun.
Qed.

(** C38 The operator's audit listing loses nothing of the rows that name a
    device. Run as a process next to the agent, no SQL statement failing,
    [audit list --limit n] prints a table from which the suite's own parser gets
    back exactly the last [n] audit rows of the database, in order, each with its
    time, device and name, operation, target, outcome and detail. It takes that
    every one of these rows names a device, by a non-empty ASCII word: the row of
    a failed pairing names none, and with one among them the parser may give
    nothing back ([Listing.failed_pair_unreadable]). And it takes that the texts
    survive a table: white space only singly and inside them, no byte the table
    writer acts on (tab, newline, vertical tab, form feed, 0xff), an ASCII byte
    at either end of an operation, outcome, target or detail, and no target or
    detail that is itself the dash that stands for nothing. *)
Theorem suite_reads_audit (limit now : Z) (cfg : Config) (w : machine) (b : bool) (entries : list AuditEntry) (devices : list Device)
    (Hload : Load quote url_scheme (cli_env os stateDir) = inl cfg)
    (Hopen : (Schema.Open (oe_stat (se_open e)) (oe_probe (se_open e)) (oe_chmod (se_open e)) (DBPath cfg) (m_schema w)).1 = Ok b)
    (Hlimit : 0 <= limit < 2 ^ 63) (Hfaults : faults (m_store w) = [])
    (Hentries : (ListAudit limit (m_store w)).1 = Ok entries) (Hdevices : (ListDevices (m_store w)).1 = Ok devices)
    (Hnames : Forall (λ d, spaced (dev_Name d)) devices) (Hlist : Forall listable entries) :
  ∃ w', suite_ListAudit quote url_scheme hash text stamp None newRequest do as_limit mkdirErr e components os bin stateDir
      limit now w = (Some (map (listed devices) entries), w') ∧ m_store w' = m_store w.
Proof.
  destruct (openDeviceStore_run (se_open e) cfg (m_host (fresh w)) b Hopen) as (sch & Ho).
  destruct (runAuditList_run limit (MkHost [] [] sch (m_store w)) entries devices Hfaults Hentries Hdevices) as (h' & Hrun & Hst & Hout).
  unfold suite_ListAudit. rewrite (runCLI_command "audit" _ "" now w cfg h').
  - exists (MkMachine h' (m_certs w) (m_docker w)). split; [|exact Hst]. rewrite Hout. cbn [app stdout].
    change (join "" [?x]) with x. cbn [mbind option_bind]. f_equal. by apply audit_table_read.
  - by apply (bool_decide_unpack _).
  - by right.
  - unfold helpRequested. cbn [existsb]. rewrite (bool_decide_eq_false_2 (pretty limit ∈ _)); [done|].
    pose proof (pretty_chars limit) as Hp. intros Hin. repeat (apply elem_of_cons in Hin as [Hin|Hin]; [by rewrite Hin in Hp|]).
    by apply not_elem_of_nil in Hin.
  - done.
  - cbn [bool_decide]. unfold runAuditCommand. change (isHelpSubcommand "list") with false. cbn iota.
    rewrite bool_decide_eq_false_2 by done. rewrite bool_decide_eq_true_2 by done. cbn [negb].
    unfold mbind, comp_bind. rewrite Ho. unfold runAuditListCommand, parse_or_help. rewrite parse_limit by done. exact Hrun.
Qed.
End Properties.

(** ** Examples *)

(** The suite, beside an agent that has served one request. *)
Definition toy_beside : machine (H := ToyEngine) :=
  MkMachine (H := ToyEngine)
    (beside (toy_answer 1 (from_phone "POST" ["v1"; "containers"; "web"; "stop"]) (toy_start 1)).2) (MkDir ∅ [] []) toy_world.
Definition toy_ListAudit (limit : Z) (w : machine (H := ToyEngine)) :=
  suite_ListAudit (H := ToyEngine) (H0 := Ticks) (H1 := PlainCrypto) toy_quote toy_scheme toy_hash (λ _, "") unstamped None
    (λ _, None) (λ _, Ok 200) toy_limit (λ _, None) (toy_start_env true 4 7) (λ _ _, mret [None; None; None])
    (λ _, "") "/tmp/devmon-agent-e2e-1" "/state" limit 0 w.

Lemma suite_reads_audit_witness : ∃ r, (toy_ListAudit 10 toy_beside).1 = Some [r] ∧ arow_Device r = "d1 (phone)".
Proof.
  destruct (Load toy_quote toy_scheme (cli_env (λ _, "") "/state")) as [cfg|] eqn:Hload; [|vm_compute in Hload; discriminate Hload].
  destruct ((ListAudit 10 (m_store toy_beside)).1) as [entries|] eqn:He; [|vm_compute in He; discriminate He].
  destruct ((ListDevices (m_store toy_beside)).1) as [devs|] eqn:Hd; [|vm_compute in Hd; discriminate Hd].
  destruct ((Schema.Open (oe_stat (toy_open true)) (oe_probe (toy_open true)) (oe_chmod (toy_open true)) (DBPath cfg)
    (m_schema toy_beside)).1) as [b|] eqn:Ho; [|vm_compute in Hload; injection Hload as <-; vm_compute in Ho; discriminate Ho].
  destruct (suite_reads_audit (H := ToyEngine) (H0 := Ticks) (H1 := PlainCrypto) toy_quote toy_scheme toy_hash (λ _, "") unstamped
    (λ _, None) (λ _, Ok 200) toy_limit (λ _, None) (toy_start_env true 4 7) (λ _ _, mret [None; None; None])
    (λ _, "") "/tmp/devmon-agent-e2e-1" "/state" 10 0 cfg toy_beside b entries devs Hload Ho) as (w' & Hl & _).
  - split; [discriminate|reflexivity].
  - vm_compute. reflexivity.
  - exact He.
  - exact Hd.
  - vm_compute in Hd. injection Hd as <-. apply (bool_decide_unpack _). vm_compute. exact Logic.I.
  - vm_compute in He. injection He as <-. apply (bool_decide_unpack _). vm_compute. exact Logic.I.
  - unfold toy_ListAudit. rewrite Hl. vm_compute in He. injection He as <-. vm_compute in Hd. injection Hd as <-.
    eexists. split; [reflexivity|]. vm_compute. reflexivity.
Defined.
